(* ===== verification/_CoqProject ===== *)
-Q . S2P
Prelude.v
Js.v
Errors.v
Config.v
WorkerQueue.v
Common.v
LazyCache.v
Publish.v
Scheduling.v
DistributedLock.v
Stats.v
ProcessorContext.v
Telemetry.v
Database.v
Processor.v
Selection.v
Exceeded.v
KeepAlive.v
ProcessEventQueue.v
Lifecycle.v
RunLoop.v
Handlers.v
Instances.v
Periodic.v
Settings.v
OpenEvents.v
RunnerStart.v
RunnerRedis.v
Runner.v
Pipeline.v
EndToEnd.v
RedisSub.v
MessagePath.v
PublishPath.v
Housekeeping.v
AdminService.v
Initialize.v
Startup.v
Outbox.v
OutboxHandler.v
OutboxFlow.v
OutboxCluster.v
