(* ===== verification/Prelude.v ===== *)
(** * Verification of the event-queue

    [event-queue] (package [@cap-js-community/event-queue]) processes events of
    [@sap/cds] applications asynchronously.  Publishers insert rows into the table
    [sap.eventqueue.Event] within their own transaction; processors select due rows,
    set them to in progress, hand them to the application's handler and write the
    status it reports.  Several instances of an application share the table; a lock
    per tenant, namespace, type and sub type keeps them from processing the same
    events, and a keep-alive shows that a long run is still alive.

    ** The parts and where they are modelled

    File and function names are those under [src/].

    - [Prelude]: results of code that may throw ([result], with its notation),
      executions of step functions, tactics, the hint database [evq] and generic
      lemmas on lists.
    - [Js]: the fragment of JavaScript the sources use: values ([jsval]), objects as
      ordered association lists ([oget], [oset], [odel], [oassign]), truthiness, [??],
      [join] and [split] with the round trip of composite keys, numeric conversions.
    - [Errors]: [constants.js] and [EventQueueError.js].
    - [Config]: [config.js], the registry of events.  [setFileContent] and
      [mixFileContentWithEnv] reduce the configured events and those of CAP services
      to the event map ([cfg_eventMap]); [getEventConfig], [normalizeSubType] and
      [shouldBeProcessedInThisApplication] read it.
    - [WorkerQueue]: [shared/WorkerQueue.js]; the state [wq] has the waiting tasks by
      priority and the running ones, the end of a task is the step [finish].
    - [Common]: [shared/common.js]: flat maps, the limiter as a step function (start,
      settle), [promiseAllDone], chunking.
    - [Publish]: [publishEvent.js], the insert handler of [dbHandler.js] and the
      broadcast of [redis/redisPub.js]; the state [txState] has what the code keeps on
      the transaction object.
    - [Scheduling]: [shared/SetIntervalDriftSafe.js] (Module [Drift]) and
      [shared/eventScheduler.js].
    - [DistributedLock]: [shared/distributedLock.js].  The Redis client and the lock
      table are the classes [RedisClient] and [LockTable] with laws; what a lock
      promises to its users is the class [LockService]; the module instantiates it on
      either store.
    - [Database]: the rows of the event table, its statements as the class [EventTable]
      with the laws of the database, an in-memory table that satisfies them, and
      [executeInNewTransaction] of [shared/cdsHelper.js].
    - [Processor], [Selection], [Exceeded], [KeepAlive], [Periodic]: the class of
      [EventQueueProcessorBase.js].  The record [pstate] has the fields of an instance;
      [Processor] has the status maps and [persistEventStatus], [Selection]
      [getQueueEntriesAndSetToInProgress], [Exceeded] the events past their attempts,
      [KeepAlive] the locks and the keep-alive, [Periodic] the ticks of periodic
      events, together with [processPeriodicEvent] and [periodicEvents.js].
    - [ProcessEventQueue]: [processEventQueue.js], which composes the processor's
      operations to iterations and runs.  [ProcessorContext] has the accessors [tx] and
      [context] of an instance and how the run sets them.
    - [Lifecycle]: the abstract machine of an event's life (taken, then statuses written),
      the iterations of [ProcessEventQueue] as refinements of it and histories of them.
      [Handlers]: which events an iteration gives to the application, and the methods of
      the base class.
    - [RunLoop]: the loop of a run over its chunks, for an event that is due when the run
      starts.
    - [Settings]: what a processor reads of the registered options of its event; it
      connects [Config] with [Processor].
    - [Instances]: the processors of several instances on one table, as a transition
      system whose steps are the operations of [Selection], [KeepAlive] and [Processor].
    - [LazyCache]: [shared/lazyCache.js] and the cache of authentication contexts; the
      promise of a miss settles in a step of its own.
    - [Stats]: [shared/eventQueueStats.js] and the update handler of [dbHandler.js]; the
      hashes of Redis are the class [RedisHash] with laws.
    - [Telemetry]: [shared/openTelemetry.js], [shared/PerformanceTracer.js],
      [shared/env.js]; the spans of the OpenTelemetry API are the class [SpanApi] with laws.
    - [OpenEvents], [RunnerStart], [RunnerRedis], [Runner]: [runner/]: the query of a
      run, the first run and its interval, the runs that broadcast over Redis, and those
      that use the queue of the instance together with the update of periodic events.
    - [RedisSub]: [redis/redisSub.js], [runner/runnerHelper.js] and the channels of
      [shared/redis/]: from the broadcast of a combination to its task.  [MessagePath]: the
      instances that receive a message as a transition system (the handler of an instance,
      the lock of its task, its run), whose steps are interleaved in any order.
    - [Housekeeping], [AdminService], [Initialize]: [housekeeping/], [srv/service/],
      [initialize.js] with the settings of [config.js].  [Startup]: the parts of
      [initialize] between its awaits and the listeners of the framework, as the steps of
      an instance that starts.
    - [Pipeline]: the composition of the run over the tenants, its query, the tasks it
      queues, the lock and the processing.  [EndToEnd]: the row an entry becomes
      ([db/Event.cds]), and the way from a publication to the end of its events over the
      runs; [PublishPath]: the same over the broadcast after the commit ([dbHandler.js]).
    - [Outbox]: [outbox/eventQueueAsOutbox.js], the side that stores requests.
      [OutboxHandler] and [OutboxCluster]: [outbox/EventQueueGenericOutboxHandler.js], the
      processor of the stored requests (dispatch, results, successors; clustering).
      [OutboxFlow] composes both sides: the handler's proofs use what a service promises
      that queues its requests ([OutboxHandler.queued_service]), the outboxed services of
      [Outbox] keep the promise.

    Events flow [Outbox], [Publish], [RedisSub] or [Runner], [WorkerQueue],
    [ProcessEventQueue], [OutboxHandler]; the other files are used along this way.

    ** How the code is represented

    A function of the source is a definition of the same name.  Stateful code takes
    and returns the state it changes; what it throws is a value ([result] or an
    [option] of the thrown value), and the state at the throw is part of the result.
    Asynchronous code is run to its next observable step: where the order of steps is
    not fixed by the code (clusters of a chunk, keep-alive ticks, settling promises,
    clients of a lock, timers) the theorems quantify over all sequences of steps.
    Times are milliseconds in [Z] and inputs of the operations, one for every reading
    of the clock that matters.  Transactions work on a copy of the state that is kept
    or dropped when they end; commits may fail ([tx_end]).  Timer delays outside of the
    range of [setTimeout] become one millisecond ([Scheduling.timeout_delay]); other
    numbers of the sources stay far below the bounds of doubles.

    Code that is not part of the repository is a parameter: the application's
    handlers, [JSON.stringify], [Date.parse], [toISOString], the cron parser, regular
    expressions, Redis and the database.  What the proofs need of it is a hypothesis
    or a class of laws (Redis's [SET NX], the table's [SELECT], [UPDATE], [INSERT],
    [DELETE]); the in-memory instances show that the laws can hold, and the witnesses
    run the definitions on them.

    ** What is shown

    - Processing ([ProcessEventQueue]): an iteration leaves no selected event in
      progress, whatever handlers and commits do; in isolated mode business data and
      status commit together; the loop ends; a run holds the lock of its event.
    - Life of an event ([Lifecycle], [Handlers]): every iteration refines the abstract
      machine; an event is delivered at most as often as it has attempts; a finished event
      stays so; the application's handlers get the delivered events and no others.
    - Status ([Processor], [Selection], [Exceeded]): the selection returns due rows
      within their attempts and marks them; the statuses written are the reported
      ones, also after grouping; hooks of exceeded events are atomic and given up.
    - Locks and keep-alive ([DistributedLock], [KeepAlive]): mutual exclusion over all
      interleavings, takeover is detected, shutdown frees the tracked locks.
    - Several instances ([Instances]): an event has one owner; of two instances that work
      on the same event at least one is stopped by its next keep-alive.
    - Periodic events ([Periodic]): a tick adds exactly one next tick and keeps up with
      the clock; every configured event is planned after the check.
    - Registry and publishing ([Config], [Settings], [Publish]): an accepted configuration
      is registered completely, every registered event is valid, and its processors work
      with the configured options; the events a transaction publishes in one way are
      inserted exactly once and their combinations broadcast exactly once.
    - Load and timers ([WorkerQueue], [Common], [Scheduling]): the load stays within
      the limit, no fitting task waits and every accepted task is executed; timers do not drift.
    - Runs ([OpenEvents], [RunnerStart], [RunnerRedis], [Runner]): every due event is in
      the result of the query, every open combination becomes a task or a message, the
      periodic events of all tenants are planned, one instance distributes a run, the
      first runs of the instances are aligned.
    - From the publication to the end ([RunLoop], [Pipeline], [EndToEnd]): a published event
      is a row of the table; a due row gets a task, and the run of the task gives the event
      its turn, however many events come before it: it is taken and a status is written.
    - Start ([Startup]): nothing runs before the initialisation has finished; afterwards
      runs what the settings ask for, and each channel is subscribed once.
    - Messages ([RedisSub], [MessagePath]): a combination reaches exactly the instances
      that process its namespace and is processed by exactly one of them, which gives a due
      event its turn, in every interleaving of the instances; so does what a transaction
      publishes, right after its commit ([PublishPath]).
    - Outbox ([OutboxFlow], [OutboxHandler], [OutboxCluster]): a stored request is
      dispatched as it was sent; what a service reports on its events, in each documented
      form, are the statuses of the call; exactly the successors asked for are published;
      clusters partition the events of a chunk.
    - Caches, counters, telemetry ([LazyCache], [Stats], [Telemetry]): the cache refines a
      memo table; the counters are those of the table, but for the events inserted without
      a broadcast; the gauges show them; tracing is transparent.
    - Housekeeping, administration, settings: what is deleted, which handlers change
      what, and which source of a setting wins.
    - Behaviour that differs from what the code intends is stated as theorems too, for
      example [violation_loses_events], [renewal_misses_acquired_lock],
      [commit_failure_fails_done_events], [stale_entry_processed_again],
      [mixed_publication_inserts_twice], [shared_nextData_lost],
      [parallel_successors_lost], [first_update_not_retried], [zero_days_deleted],
      [common_key_loses_events], [fromSend_flag_dropped], [stuck_event_counted_twice], [sequential_handler_gets_chunk_tx].

    ** Fuel and bounds

    [WorkerQueue.checkForNext] recurses on fuel, one more than the number of waiting
    tasks, which every started task reduces; [work_conserving] shows that it is enough:
    when the function returns, no waiting task fits.  [adjust_loop] visits at most as
    many indices as the list it shortens has; [adjust_loop_refines_scan] gives its
    result as a structural scan.  The attempts of a broadcast are the ten of the
    source.  The steps of a fleet ([MessagePath]) are bounded by three per instance.  Loops that depend on the
    outside (iterations of a run, rounds of a periodic event) run over a list of
    inputs and report whether they ended within it; [loop_terminates] gives the bound.  The
    runs of [Pipeline] and [MessagePath] have inputs until they end: an iteration that is
    over after the time of the run is enough ([RunLoop.loop_ends]).

    ** What is not modelled

    Logging, loading the class of an event from a file, the CDS models, the connection
    handling of the Redis client, and plain accessors of the configuration.  What is left of
    the files are imports, exports and documentation comments.  [MessagePath] takes a run as
    one step, since the other instances of the message only touch its lock meanwhile; the
    processors of one event at several instances are interleaved in [Instances].  Tracing and
    performance traces are left out of the other files, since [trace_transparent] shows
    that they do not change what is traced.

    The composed iteration ([ProcessEventQueue.process_iteration]) is that of a processor
    that does not set [nextSagaEvents]: of the repository only the generic outbox handler
    does.  What it collects there is
    [OutboxHandler.publishFollowupEvents], what the persisting of a status does with it
    [Processor.insert_saga], and what goes wrong when clusters run in parallel
    [OutboxFlow.parallel_successors_lost].  The call of the handler for a cluster and the
    persisting of its status are one step of the iteration; the clusters of a chunk are
    taken in every order, keep-alive ticks come between them, and each may fail to
    commit. *)

From stdpp Require Export base gmap strings list sorting numbers option relations.
From Stdlib Require Export ZArith Lia.

(** ** Automation *)

Create HintDb evq discriminated.

(** Split conjunctions and existentials of the context. *)
Ltac deex :=
  repeat match goal with
  | H : exists x, _ |- _ => let y := fresh x in destruct H as [y H]
  | H : _ /\ _ |- _ => destruct H
  end.

(** Case split on the scrutinee of a [match] or [if] of the goal or of a
    hypothesis, and discharge the contradictory branches. *)
Ltac case_goal :=
  match goal with
  | |- context [match ?x with _ => _ end] => destruct x eqn:?
  end.
Ltac case_hyp H :=
  match type of H with
  | context [match ?x with _ => _ end] => destruct x eqn:?
  end.

(** Turn boolean comparisons on [Z] of the context into propositions. *)
Ltac zbool :=
  repeat match goal with
  | H : (_ <=? _)%Z = true |- _ => apply Z.leb_le in H
  | H : (_ <=? _)%Z = false |- _ => apply Z.leb_gt in H
  | H : (_ <? _)%Z = true |- _ => apply Z.ltb_lt in H
  | H : (_ <? _)%Z = false |- _ => apply Z.ltb_ge in H
  | H : (_ =? _)%Z = true |- _ => apply Z.eqb_eq in H
  | H : (_ =? _)%Z = false |- _ => apply Z.eqb_neq in H
  | H : (_ && _)%bool = true |- _ => apply andb_true_iff in H; destruct H
  | H : (_ || _)%bool = false |- _ => apply orb_false_iff in H; destruct H
  end.

(** ** Results: a value or a thrown error *)

Inductive result (E A : Type) : Type :=
| Ok (a : A)
| Err (e : E).
Arguments Ok {E A} a.
Arguments Err {E A} e.

Declare Scope evq_scope.
Delimit Scope evq_scope with evq.

Definition rbind {E A B} (c : result E A) (k : A -> result E B) : result E B :=
  match c with Ok a => k a | Err e => Err e end.

Notation "'let*' x := c 'in' k" := (rbind c (fun x => k))
  (at level 10, x name, c at level 100, k at level 200) : evq_scope.
Notation "'do*' c 'in' k" := (rbind c (fun _ => k))
  (at level 10, c at level 100, k at level 200) : evq_scope.

Definition is_ok {E A} (r : result E A) : bool :=
  match r with Ok _ => true | Err _ => false end.

Lemma rbind_ok {E A B} (c : result E A) (k : A -> result E B) b :
  rbind c k = Ok b -> exists a, c = Ok a /\ k a = Ok b.
Proof. destruct c; simpl; [eauto | discriminate]. Qed.

Lemma rbind_err {E A B} (c : result E A) (k : A -> result E B) e :
  rbind c k = Err e -> c = Err e \/ exists a, c = Ok a /\ k a = Err e.
Proof. destruct c; simpl; [eauto | intros [= ->]; auto]. Qed.

(** ** Executions of a step function over a list of inputs *)

Section traces.
Context {S I : Type} (step : I -> S -> S).

Definition run (es : list I) (s : S) : S := fold_left (fun s i => step i s) es s.

Lemma run_app es1 es2 s : run (es1 ++ es2) s = run es2 (run es1 s).
Proof. apply fold_left_app. Qed.

Lemma run_invariant (Inv : S -> Prop) (Good : I -> Prop) :
  (forall i s, Good i -> Inv s -> Inv (step i s)) ->
  forall es s, Forall Good es -> Inv s -> Inv (run es s).
Proof.
  intros Hstep es. induction es as [|i es IH]; intros s Hg Hs; [exact Hs|].
  inversion Hg; subst. apply IH; auto.
Qed.
End traces.

(** ** Generic facts on lists *)

Definition sumZ {A} (f : A -> Z) (l : list A) : Z := foldr (fun a s => (f a + s)%Z) 0%Z l.

Section lists.
Context {A : Type}.
Implicit Types l : list A.

Lemma sumZ_app (f : A -> Z) l1 l2 : sumZ f (l1 ++ l2) = (sumZ f l1 + sumZ f l2)%Z.
Proof. induction l1; simpl; unfold sumZ in *; simpl; lia. Qed.

Lemma sumZ_nonneg (f : A -> Z) l : Forall (fun a => (0 <= f a)%Z) l -> (0 <= sumZ f l)%Z.
Proof. induction 1; unfold sumZ in *; simpl; lia. Qed.

Lemma sumZ_perm (f : A -> Z) l1 l2 : l1 ≡ₚ l2 -> sumZ f l1 = sumZ f l2.
Proof. induction 1; unfold sumZ in *; simpl in *; lia. Qed.

Lemma lookup_delete_perm l i x : l !! i = Some x -> l ≡ₚ x :: delete i l.
Proof.
  intros H. rewrite delete_take_drop. rewrite <- (take_drop_middle l i x H) at 1.
  symmetry. apply Permutation_middle.
Qed.

Lemma length_delete_lt l i x : l !! i = Some x -> (length (delete i l) < length l)%nat.
Proof.
  intros H. pose proof (Permutation_length (lookup_delete_perm l i x H)) as E.
  simpl in E. lia.
Qed.

Lemma filter_all (P : A -> Prop) `{!forall x, Decision (P x)} l :
  Forall P l -> filter P l = l.
Proof.
  induction 1 as [|x l Hx Hl IH]; [done|]. by rewrite filter_cons, decide_True, IH.
Qed.

(** The first index whose element passes the test, as a [for] loop with [break]. *)
Fixpoint find_index (p : A -> bool) l : option nat :=
  match l with
  | [] => None
  | x :: r => if p x then Some O else S <$> find_index p r
  end.

Lemma find_index_Some p l i :
  find_index p l = Some i ->
  exists x, l !! i = Some x /\ p x = true /\
    forall j y, (j < i)%nat -> l !! j = Some y -> p y = false.
Proof.
  revert i. induction l as [|a l IH]; simpl; intros i H; [discriminate|].
  destruct (p a) eqn:E.
  - injection H as <-. exists a. split_and!; auto. intros; lia.
  - destruct (find_index p l) as [k|] eqn:F; simpl in H; [|discriminate].
    injection H as <-. destruct (IH k eq_refl) as (x & Hx & Hp & Hj).
    exists x. split_and!; auto. intros [|j] y Hlt Hy; simpl in Hy.
    + by injection Hy as ->.
    + apply (Hj j); auto; lia.
Qed.

Lemma find_index_None p l :
  find_index p l = None <-> Forall (fun x => p x = false) l.
Proof.
  induction l as [|a l IH]; simpl; [split; auto|].
  rewrite Forall_cons. destruct (p a) eqn:E.
  - split; [discriminate|]. intros [? _]; congruence.
  - rewrite <- IH. destruct (find_index p l); simpl; split; intros; try tauto; try discriminate.
    destruct H; discriminate.
Qed.
End lists.
