(* ===== verification/Js.v ===== *)
(** * The fragment of JavaScript the sources use

    Dynamic values, objects used as maps, [Array.join] and [String.split],
    truthiness and the numeric coercions of comparisons.  Objects keep their
    keys in insertion order; the keys of the modelled code (UUIDs, names joined
    with "##") are never integer-like, so insertion order is the order of
    [Object.entries]. *)

From S2P Require Import Prelude.
From Stdlib Require Import Ascii.
From stdpp Require Import pretty.

(** ** Objects as ordered association lists *)

Abbreviation obj V := (list (string * V)).

Section objects.
Context {V : Type}.
Implicit Types o : obj V.

(** [o[k]] *)
Fixpoint oget (k : string) o : option V :=
  match o with
  | [] => None
  | (k', v) :: r => if decide (k = k') then Some v else oget k r
  end.

(** [k in o] *)
Definition ohas (k : string) o : bool :=
  match oget k o with Some _ => true | None => false end.

(** [o[k] = v] *)
Fixpoint oset (k : string) (v : V) o : obj V :=
  match o with
  | [] => [(k, v)]
  | (k', v') :: r => if decide (k = k') then (k, v) :: r else (k', v') :: oset k v r
  end.

(** [delete o[k]] *)
Fixpoint odel (k : string) o : obj V :=
  match o with
  | [] => []
  | (k', v') :: r => if decide (k = k') then odel k r else (k', v') :: odel k r
  end.

(** [Object.keys o] and [Object.values o] *)
Definition okeys o : list string := o.*1.
Definition ovalues o : list V := o.*2.

(** [Object.fromEntries(l)] *)
Definition fromEntries (l : list (string * V)) : obj V := fold_left (fun o kv => oset kv.1 kv.2 o) l [].

(** [Object.assign(o1, o2)] and [{...o1, ...o2}] *)
Definition oassign o1 o2 : obj V := fold_left (fun acc kv => oset kv.1 kv.2 acc) o2 o1.

Lemma oget_oset_eq k v o : oget k (oset k v o) = Some v.
Proof.
  induction o as [|[k' v'] o IH]; simpl; [by rewrite decide_True|].
  destruct (decide (k = k')); simpl; [by rewrite decide_True | by rewrite decide_False].
Qed.

Lemma oget_oset_ne k k' v o : k <> k' -> oget k' (oset k v o) = oget k' o.
Proof.
  intros Hne. induction o as [|[k0 v0] o IH]; simpl; [by rewrite decide_False|].
  destruct (decide (k = k0)); simpl; subst.
  - rewrite !decide_False by congruence. done.
  - destruct (decide (k' = k0)); auto.
Qed.

Lemma oget_oset k k' v o :
  oget k' (oset k v o) = if decide (k = k') then Some v else oget k' o.
Proof. destruct (decide (k = k')) as [->|]; [apply oget_oset_eq | by apply oget_oset_ne]. Qed.

Lemma oget_odel k k' o : oget k' (odel k o) = if decide (k = k') then None else oget k' o.
Proof.
  induction o as [|[k0 v0] o IH]; simpl; [by destruct (decide (k = k'))|].
  destruct (decide (k = k0)); simpl; subst.
  - rewrite IH. repeat case_decide; simplify_eq; done.
  - rewrite IH. repeat case_decide; simplify_eq; done.
Qed.

Lemma ohas_true k o : ohas k o = true <-> is_Some (oget k o).
Proof. unfold ohas, is_Some. destruct (oget k o); naive_solver. Qed.

Lemma ohas_false k o : ohas k o = false <-> oget k o = None.
Proof. unfold ohas. destruct (oget k o); split; intros; congruence. Qed.

Lemma oget_okeys k o : is_Some (oget k o) <-> k ∈ okeys o.
Proof.
  unfold okeys. induction o as [|[k0 v0] o IH]; simpl.
  - rewrite elem_of_nil. split; [intros [? ?]; congruence | tauto].
  - rewrite elem_of_cons. destruct (decide (k = k0)); subst; [split; eauto|].
    rewrite IH. naive_solver.
Qed.

Lemma oget_None_okeys k o : oget k o = None <-> k ∉ okeys o.
Proof.
  rewrite <- oget_okeys. destruct (oget k o); split; intros H.
  - congruence.
  - exfalso. eauto.
  - intros [? ?]; congruence.
  - done.
Qed.

Lemma oget_all_None o : (forall k, oget k o = None) -> o = [].
Proof.
  destruct o as [|[k v] o]; [done|]. intros H. specialize (H k). simpl in H.
  by rewrite decide_True in H.
Qed.

Lemma oget_elem_of k v o : oget k o = Some v -> (k, v) ∈ o.
Proof.
  induction o as [|[k0 v0] o IH]; simpl; [discriminate|].
  destruct (decide (k = k0)); [intros [= ->]; subst; left | right; auto].
Qed.

Lemma elem_of_oget k v o : NoDup (okeys o) -> (k, v) ∈ o -> oget k o = Some v.
Proof.
  unfold okeys. induction o as [|[k0 v0] o IH]; simpl; [by intros _ ?%elem_of_nil|].
  intros [Hn Hd]%NoDup_cons [[= -> ->]|Hin]%elem_of_cons; [by rewrite decide_True|].
  rewrite decide_False; [auto|]. intros ->. apply Hn.
  apply list_elem_of_fmap. by exists (k0, v).
Qed.

Lemma okeys_oset_elem k k' v o : k' ∈ okeys (oset k v o) <-> k' = k \/ k' ∈ okeys o.
Proof.
  rewrite <- !oget_okeys, oget_oset. destruct (decide (k = k')); subst; [naive_solver eauto|].
  naive_solver.
Qed.

Lemma okeys_oset k v o :
  okeys (oset k v o) = if decide (k ∈ okeys o) then okeys o else okeys o ++ [k].
Proof.
  unfold okeys. induction o as [|[k0 v0] o IH]; csimpl; [done|].
  destruct (decide (k = k0)); csimpl; subst.
  - rewrite decide_True; [done | left].
  - rewrite IH. destruct (decide (k ∈ o.*1)).
    + rewrite decide_True; [done | by right].
    + rewrite decide_False; [done | rewrite elem_of_cons; tauto].
Qed.

Lemma NoDup_okeys_oset k v o : NoDup (okeys o) -> NoDup (okeys (oset k v o)).
Proof.
  intros H. rewrite okeys_oset. destruct (decide (k ∈ okeys o)); [done|].
  apply NoDup_app. split_and!; [done | set_solver | apply NoDup_singleton].
Qed.

Lemma okeys_odel k o : okeys (odel k o) = filter (fun k' => k' <> k) (okeys o).
Proof.
  unfold okeys. induction o as [|[k0 v0] o IH]; csimpl; [done|].
  rewrite filter_cons. destruct (decide (k = k0)); csimpl.
  - subst. rewrite decide_False by (intros H; by apply H). done.
  - rewrite decide_True by congruence. by rewrite IH.
Qed.

Lemma NoDup_okeys_odel k o : NoDup (okeys o) -> NoDup (okeys (odel k o)).
Proof. intros H. rewrite okeys_odel. by apply NoDup_filter. Qed.

(** Setting a property changes the collected parts of the values by those of the value. *)
Lemma concat_oset {A} (f : V -> list A) k w o l :
  f w ≡ₚ l ++ from_option f [] (oget k o) ->
  concat (f <$> ovalues (oset k w o)) ≡ₚ l ++ concat (f <$> ovalues o).
Proof.
  unfold ovalues. induction o as [|[k0 v0] o IH]; csimpl; [by rewrite !app_nil_r|].
  destruct (decide (k = k0)); csimpl; intros H; [by rewrite H, app_assoc|].
  rewrite IH by done. rewrite !app_assoc. by apply Permutation_app_tail, Permutation_app_comm.
Qed.

Lemma oset_fresh k v o : oget k o = None -> oset k v o = o ++ [(k, v)].
Proof.
  induction o as [|[k0 v0] o IH]; csimpl; [done|].
  destruct (decide (k = k0)); [discriminate|]. intros H. by rewrite IH.
Qed.

Lemma oset_oset k v w o : oset k v (oset k w o) = oset k v o.
Proof.
  induction o as [|[k0 v0] o IH]; csimpl; [by rewrite decide_True|].
  destruct (decide (k = k0)); csimpl; [by rewrite decide_True | by rewrite decide_False, IH].
Qed.

Lemma odel_oset k v o : odel k (oset k v o) = odel k o.
Proof.
  induction o as [|[k0 v0] o IH]; csimpl; [by rewrite decide_True|].
  destruct (decide (k = k0)); csimpl; [by rewrite decide_True | by rewrite decide_False, IH].
Qed.

Lemma odel_odel k o : odel k (odel k o) = odel k o.
Proof.
  induction o as [|[k0 v0] o IH]; csimpl; [done|].
  destruct (decide (k = k0)); csimpl; [done | by rewrite decide_False, IH].
Qed.

(** [Object.assign] of objects without a common key. *)
Lemma oassign_disjoint o1 o2 :
  NoDup (okeys o2) -> (forall k, k ∈ okeys o2 -> oget k o1 = None) -> oassign o1 o2 = o1 ++ o2.
Proof.
  unfold oassign, okeys. revert o1. induction o2 as [|[k v] o2 IH]; intros o1; csimpl; [by rewrite app_nil_r|].
  intros [Hn Hd]%NoDup_cons Hk. rewrite oset_fresh by (apply Hk; left).
  rewrite IH, <- app_assoc; [done | done |]. intros k' Hk'. rewrite <- (oset_fresh k v) by (apply Hk; left).
  rewrite oget_oset_ne; [apply Hk; by right | congruence].
Qed.

(** After [Object.assign] the entries of the second object are found first. *)
Lemma oget_oassign k o1 o2 :
  NoDup (okeys o2) -> oget k (oassign o1 o2) = match oget k o2 with Some v => Some v | None => oget k o1 end.
Proof.
  unfold oassign, okeys. revert o1. induction o2 as [|[k0 v0] o2 IH]; intros o1; csimpl; [done|].
  intros [Hn Hd]%NoDup_cons. rewrite IH, oget_oset by done. destruct (decide (k0 = k)) as [->|Hne].
  - rewrite (decide_True (P := k = k)) by done. by rewrite (proj2 (oget_None_okeys k o2) Hn).
  - by rewrite decide_False by congruence.
Qed.

(** Loops that delete the keys of the elements that fail a test. *)
Lemma oget_fold_odel {A} (p : A -> bool) (key : A -> string) l o id :
  oget id (fold_left (fun o x => if p x then o else odel (key x) o) l o) =
    if existsb (fun x => negb (p x) && bool_decide (key x = id)) l then None else oget id o.
Proof.
  revert o. induction l as [|x l IH]; intros o; simpl; [done|]. rewrite IH.
  destruct (p x); simpl; [done|]. rewrite oget_odel.
  destruct (existsb _ l); [by destruct (bool_decide _)|].
  case_bool_decide; [by rewrite decide_True | by rewrite decide_False].
Qed.

Lemma NoDup_fold_odel {A} (p : A -> bool) (key : A -> string) l o :
  NoDup (okeys o) -> NoDup (okeys (fold_left (fun o x => if p x then o else odel (key x) o) l o)).
Proof.
  revert o. induction l as [|x l IH]; intros o Hn; simpl; [done|]. apply IH.
  destruct (p x); [done | by apply NoDup_okeys_odel].
Qed.

(** Loops that delete a list of keys, and loops that set a list of keys. *)
Lemma oget_fold_del ids o id :
  oget id (fold_left (fun o k => odel k o) ids o) = if decide (id ∈ ids) then None else oget id o.
Proof.
  revert o. induction ids as [|k ids IH]; intros o; simpl; [done|].
  rewrite IH, oget_odel. repeat case_decide; set_solver.
Qed.

Lemma oget_fold_set ids v o id :
  oget id (fold_left (fun o k => oset k v o) ids o) = if decide (id ∈ ids) then Some v else oget id o.
Proof.
  revert o. induction ids as [|k ids IH]; intros o; simpl; [done|].
  rewrite IH, oget_oset. repeat case_decide; set_solver.
Qed.
End objects.

#[export] Hint Resolve NoDup_okeys_oset NoDup_okeys_odel NoDup_fold_odel : evq.

(** ** Values *)

(** [JFrac n d] is a number that is not an integer, [JDate None] an invalid
    date, [JErr] an [Error] instance with its name and message. *)
Inductive jsval : Type :=
| JUndef
| JNull
| JBool (b : bool)
| JNum (z : Z)
| JFrac (n : Z) (d : positive)
| JNaN
| JStr (s : string)
| JDate (t : option Z)
| JErr (name message : string)
| JArr (l : list jsval)
| JObj (o : list (string * jsval)).

Definition is_undefined (v : jsval) : bool := match v with JUndef => true | _ => false end.

Definition is_null (v : jsval) : bool := match v with JNull => true | _ => false end.

(** [v == null], the test of [??] and [?.] *)
Definition nullish (v : jsval) : bool := match v with JUndef | JNull => true | _ => false end.

(** [v ?? w] *)
Definition coalesce (v w : jsval) : jsval := if nullish v then w else v.

Definition truthy (v : jsval) : bool :=
  match v with
  | JUndef | JNull | JNaN => false
  | JBool b => b
  | JNum z => negb (z =? 0)%Z
  | JFrac n _ => negb (n =? 0)%Z
  | JStr s => negb (bool_decide (s = EmptyString))
  | JDate _ | JErr _ _ | JArr _ | JObj _ => true
  end.

(** [typeof v === "number"], [typeof v === "object"], [typeof v === "string"],
    [Array.isArray(v)] *)
Definition is_number (v : jsval) : bool :=
  match v with JNum _ | JFrac _ _ | JNaN => true | _ => false end.
Definition is_object (v : jsval) : bool :=
  match v with JNull | JDate _ | JErr _ _ | JArr _ | JObj _ => true | _ => false end.
Definition is_string (v : jsval) : bool := match v with JStr _ => true | _ => false end.
Definition is_array (v : jsval) : bool := match v with JArr _ => true | _ => false end.

(** Reading a property: a missing one is [undefined]. *)
Definition prop (o : obj jsval) (k : string) : jsval :=
  match oget k o with Some v => v | None => JUndef end.

Lemma prop_oset k v (o : obj jsval) k' : prop (oset k v o) k' = if decide (k = k') then v else prop o k'.
Proof. unfold prop. rewrite oget_oset. by case_decide. Qed.

Lemma prop_odel k (o : obj jsval) k' : prop (odel k o) k' = if decide (k = k') then JUndef else prop o k'.
Proof. unfold prop. rewrite oget_odel. by case_decide. Qed.

(** ** [Array.prototype.join] and [String.prototype.split] *)

Fixpoint join (sep : string) (l : list string) : string :=
  match l with
  | [] => EmptyString
  | [x] => x
  | x :: r => x +:+ sep +:+ join sep r
  end.

(** The elements [undefined] and [null] are joined as the empty string. *)
Definition opt_str (o : option string) : string := default EmptyString o.

(** The separator that every composite key of the sources uses. *)
Definition hash2 : string := "##".

Fixpoint split_go (sep : string) (skip : nat) (acc s : string) : list string :=
  match s with
  | EmptyString => [acc]
  | String c s' =>
    match skip with
    | S n => split_go sep n acc s'
    | O =>
      if String.prefix sep s then acc :: split_go sep (String.length sep - 1) EmptyString s'
      else split_go sep O (acc +:+ String c EmptyString) s'
    end
  end.

Definition split (sep s : string) : list string := split_go sep O EmptyString s.

Fixpoint hash_free (s : string) : bool :=
  match s with
  | EmptyString => true
  | String c r => negb (Ascii.eqb c "#"%char) && hash_free r
  end.

Lemma append_cons_str c (a b : string) : String c a +:+ b = String c (a +:+ b).
Proof. reflexivity. Qed.

Lemma append_empty_str (a : string) : EmptyString +:+ a = a.
Proof. reflexivity. Qed.

Lemma append_assoc_str (a b c : string) : (a +:+ b) +:+ c = a +:+ (b +:+ c).
Proof. induction a as [|x a IH]; [done | by rewrite !append_cons_str, IH]. Qed.

Lemma append_nil_str (a : string) : a +:+ EmptyString = a.
Proof. induction a as [|x a IH]; [done | by rewrite append_cons_str, IH]. Qed.

Lemma append_inj_str (a b c : string) : a +:+ b = a +:+ c -> b = c.
Proof. induction a as [|x a IH]; [done|]. rewrite !append_cons_str. intros [= E]. auto. Qed.

Lemma length_append_str (a b : string) : String.length (a +:+ b) = (String.length a + String.length b)%nat.
Proof. induction a as [|c a IH]; [done|]. rewrite append_cons_str. simpl. by rewrite IH. Qed.

Lemma append_inj_r_str (a b c : string) : a +:+ c = b +:+ c -> a = b.
Proof.
  intros E. pose proof (f_equal String.length E) as L. rewrite !length_append_str in L.
  revert b E L. induction a as [|x a IH]; intros [|y b] E L; simpl in L; try lia; [done|].
  rewrite !append_cons_str in E. injection E as -> E. f_equal. apply IH; [done | lia].
Qed.

Lemma split_go_char acc c s :
  c <> "#"%char ->
  split_go hash2 O acc (String c s) = split_go hash2 O (acc +:+ String c EmptyString) s.
Proof.
  intros Hne. assert (P : String.prefix hash2 (String c s) = false).
  { unfold hash2. cbn [String.prefix]. destruct (Ascii.ascii_dec _ _); congruence. }
  cbn [split_go]. by rewrite P.
Qed.

Lemma hash_free_cons c s : hash_free (String c s) = true -> c <> "#"%char /\ hash_free s = true.
Proof.
  simpl. intros [Hc Hs]%andb_true_iff. split; [|done]. intros ->. discriminate.
Qed.

Lemma split_go_last acc p : hash_free p = true -> split_go hash2 O acc p = [acc +:+ p].
Proof.
  revert acc. induction p as [|c p IH]; intros acc H; [simpl; by rewrite append_nil_str|].
  apply hash_free_cons in H as [Hc Hp].
  rewrite split_go_char, IH by done. by rewrite append_assoc_str.
Qed.

Lemma split_go_part acc p rest :
  hash_free p = true ->
  split_go hash2 O acc (p +:+ hash2 +:+ rest) = (acc +:+ p) :: split_go hash2 O EmptyString rest.
Proof.
  revert acc. induction p as [|c p IH]; intros acc H.
  - rewrite append_empty_str, append_nil_str. by destruct rest.
  - apply hash_free_cons in H as [Hc Hp].
    rewrite append_cons_str, split_go_char, IH by done. by rewrite append_assoc_str.
Qed.

(** Keys built with [join "##"] are read back by [split "##"]. *)
Lemma split_join parts :
  parts <> [] -> Forall (fun p => hash_free p = true) parts ->
  split hash2 (join hash2 parts) = parts.
Proof.
  unfold split. induction parts as [|p parts IH]; [done|]. intros _ Hf.
  apply Forall_cons in Hf as [Hp Hf]. destruct parts as [|q parts].
  - simpl. by rewrite split_go_last.
  - change (join hash2 (p :: q :: parts)) with (p +:+ hash2 +:+ join hash2 (q :: parts)).
    rewrite split_go_part by done. rewrite IH; done.
Qed.

(** The same for a separator of one character. *)
Fixpoint char_free (c : ascii) (s : string) : bool :=
  match s with
  | EmptyString => true
  | String d r => negb (Ascii.eqb d c) && char_free c r
  end.

Lemma split_go_other c acc d s :
  d <> c ->
  split_go (String c EmptyString) O acc (String d s) =
    split_go (String c EmptyString) O (acc +:+ String d EmptyString) s.
Proof.
  intros Hne. cbn [split_go String.prefix]. destruct (Ascii.ascii_dec c d); [congruence | done].
Qed.

Lemma split_go_sep c acc s :
  split_go (String c EmptyString) O acc (String c s) = acc :: split_go (String c EmptyString) O EmptyString s.
Proof.
  cbn [split_go String.prefix]. destruct (Ascii.ascii_dec c c); [|congruence]. by destruct s.
Qed.

Lemma split_go_free c acc p rest :
  char_free c p = true ->
  split_go (String c EmptyString) O acc (p +:+ rest) = split_go (String c EmptyString) O (acc +:+ p) rest.
Proof.
  revert acc. induction p as [|d p IH]; intros acc H; [by rewrite append_empty_str, append_nil_str|].
  simpl in H. apply andb_true_iff in H as [Hd Hp]. apply negb_true_iff, Ascii.eqb_neq in Hd.
  rewrite append_cons_str, split_go_other, IH by done. by rewrite append_assoc_str.
Qed.

Lemma split_join_char c parts :
  parts <> [] -> Forall (fun p => char_free c p = true) parts ->
  split (String c EmptyString) (join (String c EmptyString) parts) = parts.
Proof.
  unfold split. induction parts as [|p parts IH]; [done|]. intros _ [Hp Hf]%Forall_cons.
  destruct parts as [|q parts].
  - simpl. rewrite <- (append_nil_str p) at 1. by rewrite split_go_free.
  - change (join (String c EmptyString) (p :: q :: parts))
      with (p +:+ String c (join (String c EmptyString) (q :: parts))).
    rewrite split_go_free, append_empty_str, split_go_sep, IH by done. done.
Qed.

(** Joining a joined tail is joining the whole. *)
Lemma join_app sep ps qs :
  qs <> [] -> join sep (ps ++ [join sep qs]) = join sep (ps ++ qs).
Proof.
  intros Hq. induction ps as [|p ps IH]; [done|]. rewrite <- !app_comm_cons.
  destruct (ps ++ [join sep qs]) as [|a l] eqn:E1; [by destruct ps|].
  destruct (ps ++ qs) as [|b m] eqn:E2; [by destruct ps; simpl in *; subst|].
  change (p +:+ sep +:+ join sep (a :: l) = p +:+ sep +:+ join sep (b :: m)). by rewrite IH.
Qed.

Lemma join_inj ps qs :
  ps <> [] -> qs <> [] ->
  Forall (fun p => hash_free p = true) ps -> Forall (fun p => hash_free p = true) qs ->
  join hash2 ps = join hash2 qs -> ps = qs.
Proof.
  intros Hp Hq Fp Fq E. rewrite <- (split_join ps), <- (split_join qs) by done. by rewrite E.
Qed.

(** ** Numbers *)

(** The number a string of decimal digits denotes ([Number s]); the empty string is
    0.  The other numeric literals (fractions, exponents, signs, hexadecimal) are
    left out and count as [NaN]. *)
Fixpoint digits_go (acc : Z) (s : string) : option Z :=
  match s with
  | EmptyString => Some acc
  | String c r =>
    let n := Z.of_nat (Ascii.nat_of_ascii c) in
    if ((48 <=? n) && (n <=? 57))%Z then digits_go (10 * acc + (n - 48))%Z r else None
  end.

Definition digits (s : string) : option Z := digits_go 0 s.

(** The number a value is compared and computed as, as a fraction; [None] is [NaN]. *)
Definition js_number (v : jsval) : option (Z * Z) :=
  match v with
  | JNum z => Some (z, 1)
  | JFrac n d => Some (n, Z.pos d)
  | JBool b => Some (if b then 1 else 0, 1)
  | JNull => Some (0, 1)
  | JDate (Some t) => Some (t, 1)
  | JStr s => z ← digits s; Some (z, 1)
  | _ => None
  end%Z.

(** [v >= w], [v > w] and [v <= w] where one side is a number *)
Definition js_ge (v w : jsval) : bool :=
  match js_number v, js_number w with
  | Some (n1, d1), Some (n2, d2) => (n2 * d1 <=? n1 * d2)%Z
  | _, _ => false
  end.

Definition js_gt (v w : jsval) : bool :=
  match js_number v, js_number w with
  | Some (n1, d1), Some (n2, d2) => (n2 * d1 <? n1 * d2)%Z
  | _, _ => false
  end.

Definition js_le (v w : jsval) : bool := js_ge w v.

(** [v * (n / d)] *)
Definition js_mul (v : jsval) (n : Z) (d : positive) : jsval :=
  match js_number v with
  | Some (n1, d1) =>
    let num := (n1 * n)%Z in let den := (d1 * Z.pos d)%Z in
    if (num mod den =? 0)%Z then JNum (num / den) else JFrac num (Z.to_pos den)
  | None => JNaN
  end.

(** [Math.round (n / d)] for a positive integer [d]: ties go up. *)
Definition math_round_div (n d : Z) : Z := ((2 * n + d) / (2 * d))%Z.

(** A [Date] truncates a fractional number of milliseconds towards zero. *)
Definition date_trunc (n d : Z) : Z := Z.quot n d.

(** ** Errors the language throws, and conversions *)

Definition TypeError (msg : string) : jsval := JErr "TypeError" msg.
Definition RangeError (msg : string) : jsval := JErr "RangeError" msg.

Section conversions.
(** [String(v)] for fractions, dates, errors, arrays and objects. *)
Context (toString : jsval -> string).

Definition js_string (v : jsval) : string :=
  match v with
  | JUndef => "undefined"
  | JNull => "null"
  | JBool b => if b then "true" else "false"
  | JNum z => pretty z
  | JStr s => s
  | _ => toString v
  end.

(** An element of [Array.prototype.join]. *)
Definition join_string (v : jsval) : string := if nullish v then EmptyString else js_string v.
End conversions.

(** Reading a property of a value that is neither [undefined] nor [null]; only the
    own properties of objects are looked up. *)
Definition field (v : jsval) (k : string) : jsval := match v with JObj o => prop o k | _ => JUndef end.

(** [v.k], which throws on [undefined] and [null] *)
Definition read_field (v : jsval) (k : string) : result jsval jsval :=
  if nullish v then Err (TypeError "Cannot read properties of undefined") else Ok (field v k).

(** The elements of an array; the entries an object literal gets from [...v]. *)
Definition items (v : jsval) : list jsval := match v with JArr l => l | _ => [] end.

Definition spread (v : jsval) : obj jsval :=
  match v with
  | JObj o => o
  | JArr l => imap (fun i x => (pretty (Z.of_nat i), x)) l
  | JStr s => imap (fun i c => (pretty (Z.of_nat i), JStr (String c EmptyString))) (String.list_ascii_of_string s)
  | _ => []
  end.
