(* ===== verification/Errors.v ===== *)
(** * Constants and errors

    [constants.js]: the processing statuses, transaction modes, priorities and
    tenant check types.  [EventQueueError.js]: the error codes, their messages and
    the factory of each error. *)

From S2P Require Import Prelude Js.

(** ** constants.js *)

Inductive EventProcessingStatus : Type :=
| Open | InProgress | Done | Error | Exceeded | Suspended.

#[export] Instance EventProcessingStatus_eq_dec : EqDecision EventProcessingStatus.
Proof. solve_decision. Defined.

(** The number each status has in the database. *)
Definition status_code (s : EventProcessingStatus) : Z :=
  match s with
  | Open => 0 | InProgress => 1 | Done => 2 | Error => 3 | Exceeded => 4 | Suspended => 5
  end%Z.

Definition all_statuses : list EventProcessingStatus :=
  [Open; InProgress; Done; Error; Exceeded; Suspended].

Definition status_of_code (z : Z) : option EventProcessingStatus :=
  List.find (fun s => (status_code s =? z)%Z) all_statuses.

Lemma status_of_code_code s : status_of_code (status_code s) = Some s.
Proof. by destruct s. Qed.

Lemma status_code_inj s1 s2 : status_code s1 = status_code s2 -> s1 = s2.
Proof. destruct s1, s2; (reflexivity || discriminate). Qed.

Inductive TransactionMode : Type := isolated | alwaysCommit | alwaysRollback.

#[export] Instance TransactionMode_eq_dec : EqDecision TransactionMode.
Proof. solve_decision. Defined.

Definition transaction_mode_name (m : TransactionMode) : string :=
  match m with
  | isolated => "isolated" | alwaysCommit => "alwaysCommit" | alwaysRollback => "alwaysRollback"
  end.

Inductive Priorities : Type := Low | Medium | High | VeryHigh.

#[export] Instance Priorities_eq_dec : EqDecision Priorities.
Proof. solve_decision. Defined.

Definition priority_name (p : Priorities) : string :=
  match p with Low => "low" | Medium => "medium" | High => "high" | VeryHigh => "veryHigh" end.

(** [Object.values(Priorities)] *)
Definition priority_values : list Priorities := [Low; Medium; High; VeryHigh].

Definition priority_of_name (s : string) : option Priorities :=
  List.find (fun p => bool_decide (priority_name p = s)) priority_values.

Lemma priority_of_name_name p : priority_of_name (priority_name p) = Some p.
Proof. by destruct p. Qed.

Lemma priority_of_name_Some s p : priority_of_name s = Some p -> priority_name p = s.
Proof.
  intros [_ H]%List.find_some. by apply bool_decide_eq_true in H.
Qed.

Inductive TenantIdCheckTypes : Type := eventProcessing | getAuthContextCheck.

(** ** EventQueueError.js *)

Inductive ERROR_CODES : Type :=
| WRONG_TX_USAGE
| UNKNOWN_EVENT_TYPE
| NOT_INITIALIZED
| REDIS_CREATE_CLIENT
| REDIS_LOCAL_NO_RECONNECT
| MISSING_TABLE_DEFINITION
| MISSING_ELEMENT_IN_TABLE
| TYPE_MISMATCH_TABLE
| NO_VALID_DATE
| INVALID_INTERVAL
| CANT_PARSE_CRON
| CRON_INTERVAL
| NO_INTERVAL_OR_CRON
| INTERVAL_AND_CRON
| MISSING_IMPL
| MISSING_TYPE
| MISSING_SUBTYPE
| DUPLICATE_EVENT_REGISTRATION
| NO_MANUEL_INSERT_OF_PERIODIC
| LOAD_HIGHER_THAN_LIMIT
| NOT_ALLOWED_PRIORITY
| APP_NAMES_FORMAT
| APP_INSTANCES_FORMAT
| MULTI_INSTANCE_PROCESSING_NOT_ALLOWED
| INVALID_CLUSTER_HANDLER_RESULT.

#[export] Instance ERROR_CODES_eq_dec : EqDecision ERROR_CODES.
Proof. solve_decision. Defined.

Definition ERROR_CODES_META (c : ERROR_CODES) : string :=
  match c with
  | WRONG_TX_USAGE =>
      "Usage of this.tx|this.context is not allowed if parallel event processing is enabled"
  | UNKNOWN_EVENT_TYPE =>
      "The event type and subType configuration is not configured! Maintain the combination in the config file."
  | NOT_INITIALIZED =>
      "The event-queue is not initialized yet. The initialization needs to be completed before the package is used."
  | REDIS_CREATE_CLIENT =>
      "error during create client with redis-cache service"
  | REDIS_LOCAL_NO_RECONNECT =>
      "disabled reconnect, because not running on cloud foundry"
  | MISSING_TABLE_DEFINITION =>
      "Could not find table in csn. Make sure the provided table name is correct and the table is known by CDS."
  | MISSING_ELEMENT_IN_TABLE =>
      "The provided table doesn't match the required structure. At least the following element is missing."
  | TYPE_MISMATCH_TABLE =>
      "At least one field in the provided table doesn't have the expected data type."
  | NO_VALID_DATE =>
      "One or more events contain a date in a malformed format."
  | INVALID_INTERVAL =>
      "Invalid interval, the value needs to greater than 10 seconds."
  | CANT_PARSE_CRON =>
      "The cron expression is syntactically not correct and can't be parsed!"
  | CRON_INTERVAL =>
      "The difference between two cron execution must be greater than 10 seconds."
  | NO_INTERVAL_OR_CRON =>
      "For periodic events either the cron or interval parameter must be defined!"
  | INTERVAL_AND_CRON =>
      "For periodic events only the cron or interval parameter can be defined!"
  | MISSING_IMPL =>
      "Missing path to event class implementation."
  | MISSING_TYPE =>
      "Missing type event implementation."
  | MISSING_SUBTYPE =>
      "Missing subtype event implementation."
  | DUPLICATE_EVENT_REGISTRATION =>
      "Duplicate event registration, check the uniqueness of type and subType."
  | NO_MANUEL_INSERT_OF_PERIODIC =>
      "Periodic events are managed by the framework and are not allowed to insert manually."
  | LOAD_HIGHER_THAN_LIMIT =>
      "The defined load of an event is higher than the maximum defined limit. Check your configuration!"
  | NOT_ALLOWED_PRIORITY =>
      "The supplied priority is not allowed. Only LOW, MEDIUM, HIGH is allowed!"
  | APP_NAMES_FORMAT =>
      "The app names property must be an array and only contain strings."
  | APP_INSTANCES_FORMAT =>
      "The app instances property must be an array and only contain numbers."
  | MULTI_INSTANCE_PROCESSING_NOT_ALLOWED =>
      "The config multiInstanceProcessing is currently only allowed for ad-hoc events and single-tenant-apps."
  | INVALID_CLUSTER_HANDLER_RESULT =>
      "A cluster handler returned an invalid result. Cluster handlers must return the clustered payload data."
  end.

(** An error: the code it is named with, its [info] object, its cause and its
    message. *)
Record EventQueueError : Type := mkError {
  err_name : ERROR_CODES;
  err_info : obj jsval;
  err_cause : jsval;
  err_message : string }.

(** [new EventQueueError({ name, info }, message)] *)
Definition vError (name : ERROR_CODES) (info : obj jsval) (message : string) : EventQueueError :=
  mkError name info JUndef message.

Definition wrongTxUsage (type_ subType : jsval) : EventQueueError :=
  vError WRONG_TX_USAGE [("type", type_); ("subType", subType)]
    (ERROR_CODES_META WRONG_TX_USAGE).

Definition unknownEventType (type_ subType : jsval) : EventQueueError :=
  vError UNKNOWN_EVENT_TYPE [("type", type_); ("subType", subType)]
    (ERROR_CODES_META UNKNOWN_EVENT_TYPE).

Definition notInitialized : EventQueueError :=
  vError NOT_INITIALIZED []
    (ERROR_CODES_META NOT_INITIALIZED).

Definition redisConnectionFailure (err : jsval) : EventQueueError :=
  mkError REDIS_CREATE_CLIENT [] (if truthy err then err else JUndef) (ERROR_CODES_META REDIS_CREATE_CLIENT).

Definition redisNoReconnect : EventQueueError :=
  vError REDIS_LOCAL_NO_RECONNECT []
    (ERROR_CODES_META REDIS_LOCAL_NO_RECONNECT).

Definition missingTableInCsn (tableName : jsval) : EventQueueError :=
  vError MISSING_TABLE_DEFINITION [("tableName", tableName)]
    (ERROR_CODES_META MISSING_TABLE_DEFINITION).

Definition missingElementInTable (tableName elementName : jsval) : EventQueueError :=
  vError MISSING_ELEMENT_IN_TABLE [("tableName", tableName); ("elementName", elementName)]
    (ERROR_CODES_META MISSING_ELEMENT_IN_TABLE).

Definition typeMismatchInTable (tableName elementName : jsval) : EventQueueError :=
  vError TYPE_MISMATCH_TABLE [("tableName", tableName); ("elementName", elementName)]
    (ERROR_CODES_META TYPE_MISMATCH_TABLE).

Definition malformedDate (date : jsval) : EventQueueError :=
  vError NO_VALID_DATE [("date", date)]
    (ERROR_CODES_META NO_VALID_DATE).

Definition invalidInterval (type_ subType interval : jsval) : EventQueueError :=
  vError INVALID_INTERVAL [("type", type_); ("subType", subType); ("interval", interval)]
    (ERROR_CODES_META INVALID_INTERVAL).

Definition cantParseCronExpression (type_ subType expression : jsval) : EventQueueError :=
  vError CANT_PARSE_CRON [("type", type_); ("subType", subType); ("expression", expression)]
    (ERROR_CODES_META CANT_PARSE_CRON).

Definition invalidIntervalBetweenCron (type_ subType interval : jsval) : EventQueueError :=
  vError CRON_INTERVAL [("type", type_); ("subType", subType); ("interval", interval)]
    (ERROR_CODES_META CRON_INTERVAL).

Definition noCronOrInterval (type_ subType : jsval) : EventQueueError :=
  vError CRON_INTERVAL [("type", type_); ("subType", subType)]
    (ERROR_CODES_META NO_INTERVAL_OR_CRON).

Definition cronAndInterval (type_ subType : jsval) : EventQueueError :=
  vError INTERVAL_AND_CRON [("type", type_); ("subType", subType)]
    (ERROR_CODES_META INTERVAL_AND_CRON).

Definition missingImpl (type_ subType : jsval) : EventQueueError :=
  vError MISSING_IMPL [("type", type_); ("subType", subType)]
    (ERROR_CODES_META MISSING_IMPL).

Definition missingType (config : jsval) : EventQueueError :=
  vError MISSING_TYPE [("config", config)]
    (ERROR_CODES_META MISSING_TYPE).

Definition missingSubType (config : jsval) : EventQueueError :=
  vError MISSING_SUBTYPE [("config", config)]
    (ERROR_CODES_META MISSING_SUBTYPE).

Definition duplicateEventRegistration (type_ subType : jsval) : EventQueueError :=
  vError DUPLICATE_EVENT_REGISTRATION [("type", type_); ("subType", subType)]
    (ERROR_CODES_META DUPLICATE_EVENT_REGISTRATION).

Definition manuelPeriodicEventInsert (type_ subType : jsval) : EventQueueError :=
  vError NO_MANUEL_INSERT_OF_PERIODIC [("type", type_); ("subType", subType)]
    (ERROR_CODES_META NO_MANUEL_INSERT_OF_PERIODIC).

Definition loadHigherThanLimit (load label : jsval) : EventQueueError :=
  vError LOAD_HIGHER_THAN_LIMIT [("load", load); ("label", label)]
    (ERROR_CODES_META LOAD_HIGHER_THAN_LIMIT).

Definition priorityNotAllowed (priority label : jsval) : EventQueueError :=
  vError NOT_ALLOWED_PRIORITY [("priority", priority); ("label", label)]
    (ERROR_CODES_META NOT_ALLOWED_PRIORITY).

Definition appNamesFormat (type_ subType appNames : jsval) : EventQueueError :=
  vError APP_NAMES_FORMAT [("type", type_); ("subType", subType); ("appNames", appNames)]
    (ERROR_CODES_META APP_NAMES_FORMAT).

Definition appInstancesFormat (type_ subType appInstances : jsval) : EventQueueError :=
  vError APP_INSTANCES_FORMAT [("type", type_); ("subType", subType); ("appInstances", appInstances)]
    (ERROR_CODES_META APP_INSTANCES_FORMAT).

Definition multiInstanceProcessingNotAllowed (type_ subType : jsval) : EventQueueError :=
  vError MULTI_INSTANCE_PROCESSING_NOT_ALLOWED [("type", type_); ("subType", subType)]
    (ERROR_CODES_META MULTI_INSTANCE_PROCESSING_NOT_ALLOWED).

Definition invalidClusterHandlerResult (clusterKey propertyName : jsval) : EventQueueError :=
  vError INVALID_CLUSTER_HANDLER_RESULT [("clusterKey", clusterKey); ("propertyName", propertyName)]
    (ERROR_CODES_META INVALID_CLUSTER_HANDLER_RESULT).

Definition isRedisConnectionFailure (e : EventQueueError) : bool :=
  bool_decide (err_name e = REDIS_CREATE_CLIENT).

(** ** The message of an error and its code *)

(** The errors whose factory pairs a code with the message of that code. *)
Definition consistent_error (e : EventQueueError) : Prop :=
  err_message e = ERROR_CODES_META (err_name e).

(** The factory for a missing cron and interval names its error with the code of
    the cron distance check, while its message is that of the missing setting. *)
Theorem noCronOrInterval_code type_ subType :
  err_name (noCronOrInterval type_ subType) = CRON_INTERVAL /\
  err_message (noCronOrInterval type_ subType) = ERROR_CODES_META NO_INTERVAL_OR_CRON /\
  ~ consistent_error (noCronOrInterval type_ subType).
Proof. split_and!; [done..|]. unfold consistent_error. simpl. discriminate. Qed.
