(* ===== verification/Config.v ===== *)
(** * The configuration: the registry of events

    [config.js]: the events of the configuration file and of the CAP environment are
    reduced to the allowed options, completed with defaults, validated and put into
    the event map under [namespace##type##subType].  The application filter and the
    name resolution of CAP services read that map.  The cron parser, the regular
    expressions and [String(v)] of composite values are parameters. *)

From Stdlib Require Import Ascii.
From stdpp Require Import pretty.
From S2P Require Import Prelude Js Errors.
#[local] Open Scope Z_scope.

(** ** Constants *)

Definition MIN_INTERVAL_SEC : Z := 10.
Definition DEFAULT_LOAD : jsval := JNum 1.
Definition DEFAULT_PRIORITY : jsval := JStr (priority_name Medium).
Definition DEFAULT_KEEP_ALIVE_INTERVAL : jsval := JNum 60.
Definition DEFAULT_RETRY_AFTER : jsval := JNum (5 * 60 * 1000).
Definition SUFFIX_PERIODIC : string := "_PERIODIC".
Definition CAP_EVENT_TYPE : string := "CAP_OUTBOX".
Definition CAP_PARALLEL_DEFAULT : jsval := JNum 5.
Definition CAP_MAX_ATTEMPTS_DEFAULT : jsval := JNum 5.
Definition SAGA_SUCCESS : string := "#succeeded".
Definition SAGA_FAILED : string := "#failed".
Definition SAGA_DONE : string := "#done".
Definition OUTBOX_IMPL : jsval := JStr "./outbox/EventQueueGenericOutboxHandler".

Definition ALLOWED_EVENT_OPTIONS_BASE : list string :=
  ["type"; "subType"; "load"; "impl"; "transactionMode"; "deleteFinishedEventsAfterDays";
   "useEventQueueUser"; "priority"; "keepAliveInterval"; "increasePriorityOverTime";
   "keepAliveMaxInProgressTime"; "appNames"; "appInstances"; "namespace"; "internalEvent"].

Definition ALLOWED_EVENT_OPTIONS_AD_HOC : list string :=
  ALLOWED_EVENT_OPTIONS_BASE ++
  ["inheritTraceContext"; "selectMaxChunkSize"; "parallelEventProcessing"; "retryAttempts";
   "processAfterCommit"; "checkForNextChunk"; "retryFailedAfter"; "propagateHeaders";
   "propagateContextProperties"; "retryOpenAfter"; "multiInstanceProcessing"; "kind"; "timeBucket"].

Definition ALLOWED_EVENT_OPTIONS_PERIODIC_EVENT : list string :=
  ALLOWED_EVENT_OPTIONS_BASE ++ ["interval"; "cron"; "utc"; "useCronTimezone"; "randomOffset"].

(** ** State *)

(** The environment: [cds.env.requires], [cds.requires] and the application of
    [shared/env.js]. *)
Record cdsEnv : Type := mkCdsEnv {
  env_requires : obj jsval;
  cds_requires : obj jsval;
  applicationName : jsval;
  applicationInstance : jsval }.

(** An app name: a name or a regular expression. *)
Inductive appName : Type :=
| AppRegex (source flags : string)
| AppString (value : string).

Definition is_regex (a : appName) : bool := match a with AppRegex _ _ => true | AppString _ => false end.

(** A registered event: its options, and the fields [_appNameMap],
    [_appNameContainsRegex] and [_appInstancesMap] ([None] is [null]). *)
Record regEvent : Type := mkReg {
  re_opts : obj jsval;
  re_appNameMap : option (obj appName);
  re_appNameContainsRegex : option bool;
  re_appInstancesMap : option (obj bool) }.

Definition opt (e : regEvent) (k : string) : jsval := prop (re_opts e) k.

Abbreviation eventMapT := (obj regEvent).

(** The private fields the operations below use. *)
Record Config : Type := mkCfg {
  cfg_namespace : jsval;
  cfg_instanceLoadLimit : jsval;
  cfg_cronTimezone : jsval;
  cfg_eventMap : eventMapT;
  cfg_configEvents : option (obj jsval);
  cfg_configPeriodicEvents : option (obj jsval);
  cfg_processingNamespaces : list string;
  cfg_unsubscribedTenants : gset string;
  cfg_runInterval : jsval }.

Definition set_eventMap (m : eventMapT) (c : Config) : Config :=
  mkCfg (cfg_namespace c) (cfg_instanceLoadLimit c) (cfg_cronTimezone c) m (cfg_configEvents c)
    (cfg_configPeriodicEvents c) (cfg_processingNamespaces c) (cfg_unsubscribedTenants c) (cfg_runInterval c).
Definition set_unsubscribedTenants (u : gset string) (c : Config) : Config :=
  mkCfg (cfg_namespace c) (cfg_instanceLoadLimit c) (cfg_cronTimezone c) (cfg_eventMap c) (cfg_configEvents c)
    (cfg_configPeriodicEvents c) (cfg_processingNamespaces c) u (cfg_runInterval c).
Definition set_runInterval (v : jsval) (c : Config) : Config :=
  mkCfg (cfg_namespace c) (cfg_instanceLoadLimit c) (cfg_cronTimezone c) (cfg_eventMap c) (cfg_configEvents c)
    (cfg_configPeriodicEvents c) (cfg_processingNamespaces c) (cfg_unsubscribedTenants c) v.

(** What the operations throw: an error of [EventQueueError.js] or one of the
    language and of the cron parser. *)
Inductive cfgError : Type :=
| QueueError (e : EventQueueError)
| JsError (v : jsval).

Abbreviation throws A := (result cfgError A).

Definition throwQ {A} (e : EventQueueError) : throws A := Err (QueueError e).

(** [v.k] inside the operations *)
Definition readp (v : jsval) (k : string) : throws jsval :=
  match read_field v k with Ok x => Ok x | Err e => Err (JsError e) end.

(** [v?.k] *)
Definition optp (v : jsval) (k : string) : jsval := if nullish v then JUndef else field v k.

(** [o.k ??= v] and [o.k = o.k ?? v] *)
Definition odefault (k : string) (v : jsval) (o : obj jsval) : obj jsval := oset k (coalesce (prop o k) v) o.

(** ** App names: plain names and regular expressions *)

(** The body of a regular expression literal up to the closing slash, and what
    follows it. *)
Fixpoint regex_body (s : string) : option (string * string) :=
  match s with
  | EmptyString => None
  | String c r =>
    if Ascii.eqb c "/"%char then Some (EmptyString, r)
    else if Ascii.eqb c "\"%char then
      match r with
      | String d r' =>
        if Ascii.eqb d "010"%char || Ascii.eqb d "013"%char then None
        else '(b, f) ← regex_body r'; Some (String c (String d b), f)
      | EmptyString => None
      end
    else '(b, f) ← regex_body r; Some (String c b, f)
  end.

Definition is_flag (c : Ascii.ascii) : bool :=
  existsb (Ascii.eqb c) ["g"; "i"; "m"; "s"; "u"; "y"]%char.

(** The match of the pattern for regular expression literals: a slash, a body whose
    slashes are escaped, a slash and flags. *)
Definition regex_literal (str : string) : option (string * string) :=
  match str with
  | String c r =>
    if Ascii.eqb c "/"%char then
      match regex_body r with
      | Some (b, f) => if forallb is_flag (String.list_ascii_of_string f) then Some (b, f) else None
      | None => None
      end
    else None
  | EmptyString => None
  end.

(** ** The transformation and validation of an event *)

Section config.
(** [String(v)] of composite values; whether the cron parser accepts an expression,
    and the times of its next two executions; whether [new RegExp] accepts a source
    and flags. *)
Context (toString : jsval -> string) (cronParses : jsval -> bool) (cronNext : jsval -> result jsval (Z * Z))
  (validRegex : string -> string -> bool).
Context (cds : cdsEnv).

(** [generateKey(namespace, type, subType)] *)
Definition generateKey (namespace type_ subType : jsval) : string :=
  join hash2 (map (join_string toString) [namespace; type_; subType]).

Definition event_key (e : obj jsval) : string :=
  generateKey (prop e "namespace") (prop e "type") (prop e "subType").

(** [#parseRegexOrString(str)] *)
Definition parseRegexOrString (str : string) : appName :=
  match regex_literal str with
  | Some (b, f) => if validRegex b f then AppRegex b f else AppString str
  | None => AppString str
  end.

Definition isMultiTenancy : bool := truthy (prop (cds_requires cds) "multitenancy").

(** [#basicEventTransformation(event)] *)
Definition basicEventTransformation (c : Config) (e : obj jsval) : obj jsval :=
  let e := odefault "load" DEFAULT_LOAD e in
  let e := odefault "priority" DEFAULT_PRIORITY e in
  let e := odefault "increasePriorityOverTime" (JBool true) e in
  let e := odefault "keepAliveInterval" DEFAULT_KEEP_ALIVE_INTERVAL e in
  let e := oset "keepAliveMaxInProgressTime" (js_mul (prop e "keepAliveInterval") 7 2) e in
  let e := odefault "checkForNextChunk" (JBool true) e in
  oset "namespace" (if is_undefined (prop e "namespace") then cfg_namespace c else prop e "namespace") e.

(** [#sanitizeParamsBase(config, allowList)] *)
Definition sanitizeParamsBase (config : obj jsval) (allowList : list string) : obj jsval :=
  fold_left (fun r kv => if bool_decide (kv.1 ∈ allowList) then oset kv.1 kv.2 r else r) config [].

Definition sanitizeParamsAdHocEvent (config : obj jsval) : obj jsval :=
  sanitizeParamsBase config ALLOWED_EVENT_OPTIONS_AD_HOC.
Definition sanitizeParamsPeriodicEventEvent (config : obj jsval) : obj jsval :=
  sanitizeParamsBase config ALLOWED_EVENT_OPTIONS_PERIODIC_EVENT.

Definition str_items (v : jsval) : list string := map (js_string toString) (items v).

(** [#basicEventTransformationAfterValidate(event)] *)
Definition basicEventTransformationAfterValidate (e : obj jsval) : regEvent :=
  let names := prop e "appNames" in
  let instances := prop e "appInstances" in
  let nameMap :=
    if truthy names then Some (fromEntries (map (fun a => (a, parseRegexOrString a)) (str_items names))) else None in
  let containsRegex :=
    if truthy names then Some (existsb (fun a => is_regex (parseRegexOrString a)) (str_items names)) else None in
  let instancesMap :=
    if truthy instances then Some (fromEntries (map (fun a => (a, true)) (str_items instances))) else None in
  let e := odefault "propagateHeaders" (JArr []) e in
  let e := odefault "propagateContextProperties" (JArr []) e in
  let e := odefault "retryFailedAfter" DEFAULT_RETRY_AFTER e in
  let e := odefault "retryOpenAfter" DEFAULT_RETRY_AFTER e in
  mkReg e nameMap containsRegex instancesMap.

(** [PRIORITIES.includes(v)] *)
Definition priority_allowed (v : jsval) : bool :=
  match v with JStr s => bool_decide (is_Some (priority_of_name s)) | _ => false end.

(** [#basicEventValidation(event)] *)
Definition basicEventValidation (c : Config) (e : obj jsval) : throws unit :=
  let p := prop e in
  if negb (truthy (p "impl")) then throwQ (missingImpl (p "type") (p "subType"))
  else if negb (truthy (p "type")) then throwQ (missingType (JObj e))
  else if negb (truthy (p "subType")) then throwQ (missingSubType (JObj e))
  else if truthy (p "appNames") &&
          (negb (is_array (p "appNames")) || existsb (fun a => negb (is_string a)) (items (p "appNames")))
  then throwQ (appNamesFormat (p "type") (p "subType") (p "appNames"))
  else if truthy (p "appInstances") &&
          (negb (is_array (p "appInstances")) || existsb (fun a => negb (is_number a)) (items (p "appInstances")))
  then throwQ (appInstancesFormat (p "type") (p "subType") (p "appInstances"))
  else if negb (priority_allowed (p "priority")) then throwQ (priorityNotAllowed (p "priority") (JStr "initEvent"))
  else if js_gt (p "load") (cfg_instanceLoadLimit c) then throwQ (loadHigherThanLimit (p "load") (JStr "initEvent"))
  else Ok tt.

(** [eventMap[key] && eventMap[key].isPeriodic] *)
Definition periodic_at (m : eventMapT) (key : string) : bool :=
  match oget key m with Some e => truthy (opt e "isPeriodic") | None => false end.
Definition adHoc_at (m : eventMapT) (key : string) : bool :=
  match oget key m with Some e => negb (truthy (opt e "isPeriodic")) | None => false end.

(** The time zone settings of a cron event. *)
Definition set_tz (c : Config) (e : obj jsval) : obj jsval :=
  let e := odefault "utc" (JBool false) e in
  let e := if negb (truthy (cfg_cronTimezone c)) then oset "useCronTimezone" (JBool false) e
           else odefault "useCronTimezone" (JBool true) e in
  oset "tz" (if truthy (prop e "utc") || negb (truthy (prop e "useCronTimezone")) then JStr "UTC"
             else cfg_cronTimezone c) e.

(** A number of milliseconds in seconds. *)
Definition secs (ms : Z) : jsval := js_mul (JNum ms) 1 1000.

(** [#validatePeriodicConfig(eventMap, event)] *)
Definition validatePeriodicConfig (c : Config) (m : eventMapT) (e : obj jsval) : throws (obj jsval) :=
  let p := prop e in
  if periodic_at m (event_key e) then throwQ (duplicateEventRegistration (p "type") (p "subType"))
  else if negb (truthy (p "cron")) && negb (truthy (p "interval")) then throwQ (noCronOrInterval (p "type") (p "subType"))
  else if truthy (p "cron") && truthy (p "interval") then throwQ (cronAndInterval (p "type") (p "subType"))
  else if truthy (p "cron") then
    let e := set_tz c e in
    if negb (cronParses (p "cron")) then throwQ (cantParseCronExpression (p "type") (p "subType") (p "cron"))
    else
      match cronNext (p "cron") with
      | Err err => Err (JsError err)
      | Ok (next, afterNext) =>
        if js_le (secs (afterNext - next)) (JNum MIN_INTERVAL_SEC)
        then throwQ (invalidIntervalBetweenCron (p "type") (p "subType") (secs (afterNext - next)))
        else match basicEventValidation c e with Ok _ => Ok e | Err err => Err err end
      end
  else if negb (truthy (p "interval")) || js_le (p "interval") (JNum MIN_INTERVAL_SEC)
  then throwQ (invalidInterval (p "type") (p "subType") (p "interval"))
  else match basicEventValidation c e with Ok _ => Ok e | Err err => Err err end.

(** [#validateAdHocEvents(eventMap, event, checkForDuplication)] *)
Definition validateAdHocEvents (c : Config) (m : eventMapT) (e : obj jsval) (checkForDuplication : bool)
    : throws (obj jsval) :=
  let p := prop e in
  if adHoc_at m (event_key e) && checkForDuplication then throwQ (duplicateEventRegistration (p "type") (p "subType"))
  else if isMultiTenancy && truthy (p "multiInstanceProcessing")
  then throwQ (multiInstanceProcessingNotAllowed (p "type") (p "subType"))
  else
    let e := odefault "inheritTraceContext" (JBool true) e in
    if truthy (p "timeBucket") && negb (cronParses (p "timeBucket"))
    then throwQ (cantParseCronExpression (p "type") (p "subType") (p "timeBucket"))
    else match basicEventValidation c e with Ok _ => Ok e | Err err => Err err end.

(** ** The event map of a configuration file *)

(** The reducers of [set fileContent]. *)
Definition registerAdHoc (c : Config) (m : eventMapT) (event : obj jsval) : throws eventMapT :=
  let e := basicEventTransformation c (sanitizeParamsAdHocEvent event) in
  match validateAdHocEvents c m e true with
  | Err err => Err err
  | Ok e =>
    let r := basicEventTransformationAfterValidate e in
    Ok (oset (event_key (re_opts r)) r m)
  end.

Definition periodicBase (event : obj jsval) : obj jsval :=
  let e := sanitizeParamsPeriodicEventEvent event in
  oset "isPeriodic" (JBool true) (oset "type" (JStr (js_string toString (prop e "type") +:+ SUFFIX_PERIODIC)) e).

Definition registerPeriodic (c : Config) (m : eventMapT) (event : obj jsval) : throws eventMapT :=
  let e := basicEventTransformation c (periodicBase event) in
  match validatePeriodicConfig c m e with
  | Err err => Err err
  | Ok e =>
    let r := basicEventTransformationAfterValidate e in
    Ok (oset (event_key (re_opts r)) r m)
  end.

(** [reduce] with a callback that may throw *)
Fixpoint reduceM {A B} (f : A -> B -> throws A) (l : list B) (a : A) : throws A :=
  match l with
  | [] => Ok a
  | x :: r => match f a x with Ok a' => reduceM f r a' | Err e => Err e end
  end.

(** [set fileContent(config)]: the event map is assigned after each of the two
    reductions. *)
Definition setFileContent (events periodicEvents : list (obj jsval)) (c : Config) : Config * option cfgError :=
  match reduceM (registerAdHoc c) events [] with
  | Err err => (c, Some err)
  | Ok m =>
    match reduceM (registerPeriodic c) periodicEvents m with
    | Err err => (set_eventMap m c, Some err)
    | Ok m' => (set_eventMap m' c, None)
    end
  end.

(** ** CAP services *)

(** [#cleanUndefined(input)] *)
Definition cleanUndefined (input : obj jsval) : obj jsval :=
  fold_left (fun acc kv => if is_undefined kv.2 then acc else oset kv.1 kv.2 acc) input [].

(** [#mixCAPPropertyNamesWithEventQueueNames(config)] *)
Definition mixCAPPropertyNamesWithEventQueueNames (config : obj jsval) : obj jsval :=
  let p := prop config in
  cleanUndefined (oassign
    [("selectMaxChunkSize", coalesce (p "selectMaxChunkSize") (p "chunkSize"));
     ("parallelEventProcessing",
       coalesce (p "parallelEventProcessing") (if truthy (p "parallel") then CAP_PARALLEL_DEFAULT else p "parallel"));
     ("retryAttempts", coalesce (p "retryAttempts") (p "maxAttempts"))]
    config).

(** [srv?.outbox ?? srv?.queued] *)
Definition queueOptionsOf (srv : jsval) : jsval := coalesce (optp srv "outbox") (optp srv "queued").

(** [getCdsOutboxEventSpecificConfig(serviceName, action)]; [None] is [null]. *)
Definition getCdsOutboxEventSpecificConfig (serviceName : string) (action : option string) : option (obj jsval) :=
  let config := queueOptionsOf (prop (env_requires cds) serviceName) in
  let specific name := optp (optp config "events") name in
  let mixed name := mixCAPPropertyNamesWithEventQueueNames (spread (specific name)) in
  let key := default "undefined" action in
  if truthy (specific key) then Some (mixed key)
  else
    match action with
    | None | Some EmptyString => None
    | Some a =>
      match split "/" a with
      | withoutSaga :: sagaSuffix :: _ =>
        if bool_decide (sagaSuffix ∈ [SAGA_FAILED; SAGA_SUCCESS; SAGA_DONE]) then
          if truthy (specific withoutSaga) then Some (mixed withoutSaga) else None
        else None
      | _ => None
      end
    end.

(** The steps both CAP registrations share: validation without the duplicate check. *)
Definition finishCAP (c : Config) (currentEvents : eventMapT) (e : obj jsval) : throws regEvent :=
  match validateAdHocEvents c currentEvents (basicEventTransformation c e) false with
  | Err err => Err err
  | Ok e => Ok (basicEventTransformationAfterValidate e)
  end.

(** The object literal of [addCAPOutboxEventBase]. *)
Definition cap_literal (c : Config) (serviceName : string) (config : obj jsval) : obj jsval :=
  oassign (oset "namespace" (coalesce (prop config "namespace") (cfg_namespace c))
    (oassign
      [("type", JStr CAP_EVENT_TYPE); ("subType", JStr serviceName); ("impl", OUTBOX_IMPL);
       ("kind", coalesce (prop config "kind") (JStr "persistent-queue"))]
      (mixCAPPropertyNamesWithEventQueueNames config)))
    config.

(** [addCAPOutboxEventBase(serviceName, config, currentEvents)] *)
Definition addCAPOutboxEventBase (c : Config) (serviceName : string) (config : obj jsval) (currentEvents : eventMapT)
    : throws (string * regEvent) :=
  let namespace := coalesce (prop config "namespace") (cfg_namespace c) in
  let e := sanitizeParamsAdHocEvent (cap_literal c serviceName config) in
  let e := oset "internalEvent" (JBool true) (odefault "retryAttempts" CAP_MAX_ATTEMPTS_DEFAULT e) in
  match finishCAP c currentEvents e with
  | Err err => Err err
  | Ok r => Ok (generateKey namespace (JStr CAP_EVENT_TYPE) (JStr serviceName), r)
  end.

(** [addCAPOutboxEventSpecificAction(baseServiceConfig, serviceName, actionName, currentEvents)] *)
Definition addCAPOutboxEventSpecificAction (c : Config) (base : regEvent) (serviceName actionName : string)
    (currentEvents : eventMapT) : throws (string * regEvent) :=
  let subType := join "." [serviceName; actionName] in
  let specific := default [] (getCdsOutboxEventSpecificConfig serviceName (Some actionName)) in
  let e := sanitizeParamsAdHocEvent (oset "subType" (JStr subType) (oassign (re_opts base) specific)) in
  match finishCAP c currentEvents (oset "internalEvent" (JBool true) e) with
  | Err err => Err err
  | Ok r => Ok (generateKey (opt r "namespace") (JStr CAP_EVENT_TYPE) (JStr subType), r)
  end.

(** [(typeof v === "object" && v) || {}] *)
Definition object_or_empty (v : jsval) : obj jsval := if is_object v then spread v else [].

(** [#getBasicCapOutboxEventConfig(serviceName)] *)
Definition getBasicCapOutboxEventConfig (serviceName : string) : obj jsval :=
  let srv := prop (env_requires cds) serviceName in
  fold_left oassign
    [object_or_empty (prop (cds_requires cds) "outbox"); object_or_empty (prop (cds_requires cds) "queue");
     object_or_empty (optp srv "outbox"); object_or_empty (optp srv "queued")] [].

Definition with_subType (subType : string) (r : regEvent) : regEvent :=
  mkReg (oset "subType" (JStr subType) (re_opts r)) (re_appNameMap r) (re_appNameContainsRegex r) (re_appInstancesMap r).

(** The three saga events of one action. *)
Definition addSagaEvent (c : Config) (config : jsval) (srvConfig specific : regEvent) (name fnName key : string)
    (adHoc : eventMapT) (sagaSuffix : string) : throws eventMapT :=
  if truthy (optp (field config "events") sagaSuffix) then
    match addCAPOutboxEventSpecificAction c srvConfig name fnName adHoc with
    | Ok (adHocKey, r) => Ok (oset adHocKey r adHoc)
    | Err err => Err err
    end
  else
    Ok (oset (join "/" [key; sagaSuffix])
          (with_subType (join "/" [js_string toString (opt specific "subType"); sagaSuffix]) specific) adHoc).

(** One function of the [events] of a service. *)
Definition addServiceEvent (c : Config) (name : string) (config : jsval) (srvConfig : regEvent)
    (st : eventMapT * obj (obj jsval)) (fn : string * jsval) : throws (eventMapT * obj (obj jsval)) :=
  let '(adHoc, periodic) := st in
  let '(fnName, fnConfig) := fn in
  if nullish fnConfig then Err (JsError (TypeError "Cannot read properties of undefined"))
  else if truthy (field fnConfig "interval") || truthy (field fnConfig "cron") then
    let base := odel "interval" (odel "cron" (spread config)) in
    let subType := name +:+ "." +:+ fnName in
    let e := oassign (oassign [("type", JStr CAP_EVENT_TYPE); ("subType", JStr subType); ("impl", OUTBOX_IMPL);
                               ("internalEvent", JBool true)] base) (spread fnConfig) in
    Ok (adHoc, oset subType e periodic)
  else
    match addCAPOutboxEventSpecificAction c srvConfig name fnName adHoc with
    | Err err => Err err
    | Ok (key, specific) =>
      match reduceM (addSagaEvent c config srvConfig specific name fnName key)
              [SAGA_SUCCESS; SAGA_DONE; SAGA_FAILED] (oset key specific adHoc) with
      | Ok adHoc' => Ok (adHoc', periodic)
      | Err err => Err err
      end
    end.

(** One service of [cds.env.requires]. *)
Definition addService (c : Config) (st : eventMapT * obj (obj jsval)) (service : string * jsval)
    : throws (eventMapT * obj (obj jsval)) :=
  let '(name, value) := service in
  if nullish value then Err (JsError (TypeError "Cannot read properties of undefined"))
  else
    let config := queueOptionsOf value in
    if negb (truthy config) then Ok st
    else
      match addCAPOutboxEventBase c name (getBasicCapOutboxEventConfig name) st.1 with
      | Err err => Err err
      | Ok (key, srvConfig) =>
        reduceM (addServiceEvent c name config srvConfig) (spread (field config "events"))
          (oset key srvConfig st.1, st.2)
      end.

(** [#cdsQueueEventsFromEnv()] *)
Definition cdsQueueEventsFromEnv (c : Config) : throws (eventMapT * obj (obj jsval)) :=
  reduceM (addService c) (env_requires cds) ([], []).

(** [#mapEnvEvents(events)] *)
Definition mapEnvEvent (kv : string * jsval) : throws (option (obj jsval)) :=
  let '(key, event) := kv in
  if negb (truthy event) then Ok None
  else if negb (is_object event) then Err (JsError (TypeError "Cannot create property"))
  else
    let parts := split "/" key in
    let str i := match parts !! i with Some s => JStr s | None => JUndef end in
    Ok (Some (odefault "subType" (str 1%nat) (odefault "type" (str 0%nat) (spread event)))).

Definition mapEnvEvents (events : obj jsval) : throws (list (obj jsval)) :=
  reduceM (fun acc kv =>
    match mapEnvEvent kv with
    | Ok (Some e) => Ok (acc ++ [e])
    | Ok None => Ok acc
    | Err err => Err err
    end) events [].

(** [mixFileContentWithEnv(fileContent)] *)
Definition mixFileContentWithEnv (events periodicEvents : list (obj jsval)) (c : Config) : Config * option cfgError :=
  match cdsQueueEventsFromEnv c with
  | Err err => (c, Some err)
  | Ok (adHocCAP, periodicEventsCAP) =>
    match mapEnvEvents (default [] (cfg_configEvents c)), mapEnvEvents (default [] (cfg_configPeriodicEvents c)) with
    | Ok evs, Ok pers =>
      setFileContent (events ++ evs ++ map re_opts (ovalues adHocCAP)) (periodicEvents ++ pers ++ ovalues periodicEventsCAP) c
    | Err err, _ => (c, Some err)
    | _, Err err => (c, Some err)
    end
  end.

(** [addCAPServiceWithoutEnvConfig(serviceName, srv, customOpts)]; [options] is
    [srv.options]. *)
Definition addCAPServiceWithoutEnvConfig (serviceName : string) (options : jsval) (customOpts : obj jsval) (c : Config)
    : Config * option cfgError :=
  let queueOptions := coalesce (field options "queued") (field options "outbox") in
  match addCAPOutboxEventBase c serviceName
          (oassign (oassign (getBasicCapOutboxEventConfig serviceName) (spread queueOptions)) customOpts)
          (cfg_eventMap c) with
  | Err err => (c, Some err)
  | Ok (key, srvConfig) => (set_eventMap (oset key srvConfig (cfg_eventMap c)) c, None)
  end.

(** ** Lookups *)

(** [getEventConfig(type, subType, namespace)]; the default of [namespace] is the
    configured one. *)
Definition ns_or_default (c : Config) (namespace : jsval) : jsval :=
  if is_undefined namespace then cfg_namespace c else namespace.

Definition getEventConfig (c : Config) (type_ subType namespace : jsval) : option regEvent :=
  oget (generateKey (ns_or_default c namespace) type_ subType) (cfg_eventMap c).

Definition isPeriodicEvent (c : Config) (type_ subType namespace : jsval) : jsval :=
  match getEventConfig c type_ subType namespace with Some e => opt e "isPeriodic" | None => JUndef end.

Definition hasEventAfterCommitFlag (c : Config) (type_ subType namespace : jsval) : jsval :=
  match getEventConfig c type_ subType namespace with
  | Some e => coalesce (opt e "processAfterCommit") (JBool true)
  | None => JBool true
  end.

Definition removeEvent (type_ subType namespace : jsval) (c : Config) : Config :=
  set_eventMap (odel (generateKey (ns_or_default c namespace) type_ subType) (cfg_eventMap c)) c.

Definition findBaseCAPServiceWithoutNamespace (c : Config) (serviceName : string) : option regEvent :=
  List.find (fun e => match opt e "type", opt e "subType" with
                      | JStr t, JStr s => bool_decide (t = CAP_EVENT_TYPE) && bool_decide (s = serviceName)
                      | _, _ => false end) (ovalues (cfg_eventMap c)).

Definition events (c : Config) : list regEvent :=
  List.filter (fun e => negb (truthy (opt e "isPeriodic"))) (ovalues (cfg_eventMap c)).
Definition periodicEvents (c : Config) : list regEvent :=
  List.filter (fun e => truthy (opt e "isPeriodic")) (ovalues (cfg_eventMap c)).

Definition isCapOutboxEvent (type_ : string) : bool :=
  bool_decide (type_ ∈ [CAP_EVENT_TYPE; CAP_EVENT_TYPE +:+ SUFFIX_PERIODIC]).

Definition shouldProcessNamespace (c : Config) (namespace : string) : bool :=
  bool_decide (namespace ∈ cfg_processingNamespaces c).

(** ** Names of CAP services *)

Record normalizedSubType : Type := mkNormalized {
  n_subType : string; n_actionName : option string; n_srvName : option string }.

(** The loop that joins parts until they name a configured service. *)
Fixpoint find_service (srvName : string) (parts : list string) : string * list string :=
  if truthy (prop (env_requires cds) srvName) then (srvName, parts)
  else match parts with
       | [] => (srvName, [])
       | p :: r => find_service (join "." [srvName; p]) r
       end.

(** [normalizeSubType(type, rawSubType)] *)
Definition normalizeSubType (type_ rawSubType : string) : normalizedSubType :=
  if negb (isCapOutboxEvent type_) then mkNormalized rawSubType None None
  else
    let parts := split "." rawSubType in
    let '(srvName, rest) := find_service (default EmptyString (head parts)) (tail parts) in
    let actionName := head rest in
    mkNormalized
      (match getCdsOutboxEventSpecificConfig srvName actionName with Some _ => rawSubType | None => srvName end)
      actionName (Some srvName).

(** ** The application filter *)

Section appFilter.
(** [RegExp.prototype.test]: the result and the new [lastIndex]. *)
Context (regexTest : string -> string -> Z -> string -> bool * Z).

(** The loop over the app names; the [lastIndex] of each regular expression is kept
    under its name. *)
Fixpoint app_loop (all : obj appName) (app : string) (names : obj appName) (result : bool) (last : obj Z)
    : bool * obj Z :=
  match names with
  | [] => (result, last)
  | (configKey, config) :: r =>
    let '(result, last) :=
      match config with
      | AppRegex source flags =>
        let '(ok, i) := regexTest source flags (default 0 (oget configKey last)) app in
        (ok, oset configKey i last)
      | AppString _ => (ohas app all, last)
      end in
    if result then (true, last) else app_loop all app r result last
  end.

(** The checks of [_appNameMap]: whether to go on, and the result so far. *)
Definition check_app_names (config : regEvent) (app : string) (last : obj Z) : bool * bool * obj Z :=
  match re_appNameMap config with
  | None => (true, true, last)
  | Some names =>
    if default false (re_appNameContainsRegex config) then
      let '(result, last) := app_loop names app names true last in (true, result, last)
    else (ohas app names, true, last)
  end.

(** [shouldBeProcessedInThisApplication(type, rawSubType, namespace)] *)
Definition shouldBeProcessedInThisApplication (c : Config) (type_ rawSubType : string) (namespace : jsval) (last : obj Z)
    : throws (bool * obj Z) :=
  let subType := n_subType (normalizeSubType type_ rawSubType) in
  match getEventConfig c (JStr type_) (JStr subType) namespace with
  | None => Err (JsError (TypeError "Cannot read properties of undefined (reading '_appNameMap')"))
  | Some config =>
    let '(go, result, last) := check_app_names config (js_string toString (applicationName cds)) last in
    if negb go then Ok (false, last)
    else
      match re_appInstancesMap config with
      | None => Ok (result, last)
      | Some instances => Ok (result && ohas (js_string toString (applicationInstance cds)) instances, last)
      end
  end.
End appFilter.
End config.

(** ** Further setters *)

(** [set runInterval(value)] *)
Definition setRunInterval (value : jsval) (c : Config) : throws Config :=
  match value with
  | JNum z => if z <=? 10 * 1000 then throwQ (invalidInterval JUndef JUndef JUndef) else Ok (set_runInterval value c)
  | _ => throwQ (invalidInterval JUndef JUndef JUndef)
  end.

(** [executeUnsubscribeHandlers(tenantId)]: the tenant is blocked, every handler is
    run and a failing one does not stop the others.  A handler maps the state it
    works on to the new state and what it throws. *)
Definition executeUnsubscribeHandlers {W} (handlers : list (string -> W -> W * option jsval)) (tenantId : string)
    (cw : Config * W) : Config * W :=
  (set_unsubscribedTenants ({[tenantId]} ∪ cfg_unsubscribedTenants cw.1) cw.1,
   fold_left (fun w h => (h tenantId w).1) handlers cw.2).

(** The timer that lifts the block. *)
Definition unblockTenant (tenantId : string) (c : Config) : Config :=
  set_unsubscribedTenants (cfg_unsubscribedTenants c ∖ {[tenantId]}) c.

Definition isTenantUnsubscribed (c : Config) (tenantId : string) : bool :=
  bool_decide (tenantId ∈ cfg_unsubscribedTenants c).

(** ** Facts on options *)

Lemma prop_odefault k v (o : obj jsval) k' :
  prop (odefault k v o) k' = if decide (k = k') then coalesce (prop o k) v else prop o k'.
Proof. unfold odefault. by rewrite prop_oset. Qed.

Lemma prop_odefault_ne k v (o : obj jsval) k' : k <> k' -> prop (odefault k v o) k' = prop o k'.
Proof. intros H. rewrite prop_odefault. by rewrite decide_False. Qed.

Lemma prop_odefault_eq k v (o : obj jsval) : prop (odefault k v o) k = coalesce (prop o k) v.
Proof. rewrite prop_odefault. by rewrite decide_True. Qed.

Lemma prop_oset_ne k v (o : obj jsval) k' : k <> k' -> prop (oset k v o) k' = prop o k'.
Proof. intros H. rewrite prop_oset. by rewrite decide_False. Qed.

Lemma prop_oset_eq k v (o : obj jsval) : prop (oset k v o) k = v.
Proof. rewrite prop_oset. by rewrite decide_True. Qed.

(** Read a property below a chain of writes to other keys, on the left of the goal. *)
Ltac skip_writes tac :=
  repeat (etrans; [first [apply prop_odefault_ne; solve [tac] | apply prop_oset_ne; solve [tac]] |]).

Lemma oget_sanitize config allow k :
  NoDup (okeys config) ->
  oget k (sanitizeParamsBase config allow) = if decide (k ∈ allow) then oget k config else None.
Proof.
  unfold sanitizeParamsBase. intros Hn.
  assert (G : forall l r : obj jsval, NoDup (okeys l) ->
    oget k (fold_left (fun r kv => if bool_decide (kv.1 ∈ allow) then oset kv.1 kv.2 r else r) l r) =
    if decide (k ∈ allow) then (match oget k l with Some v => Some v | None => oget k r end) else oget k r).
  { induction l as [|[k0 v0] l IH]; intros r Hl; simpl; [by destruct (decide _)|].
    unfold okeys in Hl. simpl in Hl. apply NoDup_cons in Hl as [H0 Hl]. rewrite IH by done.
    destruct (decide (k ∈ allow)); case_bool_decide; try rewrite oget_oset; repeat case_decide; simplify_eq; try done.
    assert (oget k0 l = None) as -> by (by apply oget_None_okeys). done. }
  rewrite G by done. case_decide; [|done]. by destruct (oget k config).
Qed.

Lemma sanitize_other config allow k : k ∉ allow -> prop (sanitizeParamsBase config allow) k = JUndef.
Proof.
  intros Hk. unfold sanitizeParamsBase.
  assert (G : forall l r : obj jsval, prop r k = JUndef ->
    prop (fold_left (fun r kv => if bool_decide (kv.1 ∈ allow) then oset kv.1 kv.2 r else r) l r) k = JUndef).
  { induction l as [|[k0 v0] l IH]; intros r Hr; simpl; [done|]. apply IH. case_bool_decide; [|done].
    rewrite prop_oset. case_decide; [congruence | done]. }
  by apply G.
Qed.

(** A literal is, or is not, an element of a literal list. *)
Ltac elem_lit := apply (bool_decide_unpack _); vm_compute; exact I.

(** ** The registry *)

Section registry.
Context (toString : jsval -> string) (cronParses : jsval -> bool) (cronNext : jsval -> result jsval (Z * Z))
  (validRegex : string -> string -> bool).
Context (cds : cdsEnv) (c : Config).

(** What an event of the configuration file is registered as. *)
Definition adHocEntry (event : obj jsval) : regEvent :=
  basicEventTransformationAfterValidate toString validRegex
    (odefault "inheritTraceContext" (JBool true) (basicEventTransformation c (sanitizeParamsAdHocEvent event))).

Definition periodicEntry (event : obj jsval) : regEvent :=
  let e := basicEventTransformation c (periodicBase toString event) in
  basicEventTransformationAfterValidate toString validRegex (if truthy (prop e "cron") then set_tz c e else e).

Definition key_of (r : regEvent) : string := event_key toString (re_opts r).

(** What holds of every registered event. *)
Record registered_ok (k : string) (r : regEvent) : Prop := {
  ro_key : k = key_of r;
  ro_impl : truthy (opt r "impl") = true;
  ro_type : truthy (opt r "type") = true;
  ro_subType : truthy (opt r "subType") = true;
  ro_priority : exists p, opt r "priority" = JStr (priority_name p);
  ro_load : js_gt (opt r "load") (cfg_instanceLoadLimit c) = false;
  ro_keepAlive : opt r "keepAliveMaxInProgressTime" = js_mul (opt r "keepAliveInterval") 7 2;
  ro_appNames : truthy (opt r "appNames") = true -> exists l, opt r "appNames" = JArr (map JStr l);
  ro_periodic : truthy (opt r "isPeriodic") = true ->
    (truthy (opt r "cron") = false /\ truthy (opt r "interval") = true /\
       js_le (opt r "interval") (JNum MIN_INTERVAL_SEC) = false) \/
    (truthy (opt r "interval") = false /\ truthy (opt r "cron") = true /\ cronParses (opt r "cron") = true /\
       exists t1 t2, cronNext (opt r "cron") = Ok (t1, t2) /\ js_le (secs (t2 - t1)) (JNum MIN_INTERVAL_SEC) = false);
  ro_adHoc : truthy (opt r "isPeriodic") = false ->
    (truthy (opt r "timeBucket") = true -> cronParses (opt r "timeBucket") = true) /\
    (isMultiTenancy cds = true -> truthy (opt r "multiInstanceProcessing") = false) }.

Lemma priority_allowed_name v : priority_allowed v = true -> exists p, v = JStr (priority_name p).
Proof.
  destruct v; simpl; try discriminate. intros [p Hp]%bool_decide_eq_true. exists p.
  by rewrite (priority_of_name_Some _ _ Hp).
Qed.

Lemma all_strings l : existsb (fun a => negb (is_string a)) l = false -> exists l', l = map JStr l'.
Proof.
  induction l as [|v l IH]; simpl; intros H; [by exists []|].
  apply orb_false_iff in H as [Hv Hl]. destruct (IH Hl) as [l' ->].
  destruct v; try discriminate Hv. by exists (s :: l').
Qed.

(** What [#basicEventValidation] checks. *)
Lemma basicEventValidation_ok e :
  basicEventValidation c e = Ok tt ->
  truthy (prop e "impl") = true /\ truthy (prop e "type") = true /\ truthy (prop e "subType") = true /\
  (exists p, prop e "priority" = JStr (priority_name p)) /\
  js_gt (prop e "load") (cfg_instanceLoadLimit c) = false /\
  (truthy (prop e "appNames") = true -> exists l, prop e "appNames" = JArr (map JStr l)).
Proof.
  unfold basicEventValidation. intros H.
  destruct (truthy (prop e "impl")) eqn:E1; simpl in H; [|discriminate].
  destruct (truthy (prop e "type")) eqn:E2; simpl in H; [|discriminate].
  destruct (truthy (prop e "subType")) eqn:E3; simpl in H; [|discriminate].
  destruct (truthy (prop e "appNames") && _) eqn:E4; simpl in H; [discriminate|].
  destruct (truthy (prop e "appInstances") && _) eqn:E5; simpl in H; [discriminate|].
  destruct (priority_allowed (prop e "priority")) eqn:E6; simpl in H; [|discriminate].
  destruct (js_gt _ _) eqn:E7; [discriminate|].
  split_and!; auto using priority_allowed_name.
  intros Ht. rewrite Ht in E4. simpl in E4. apply orb_false_iff in E4 as [Ha Hs].
  destruct (prop e "appNames"); try discriminate Ha. simpl in Hs. destruct (all_strings _ Hs) as [l' ->]. eauto.
Qed.

Lemma validateAdHoc_ok m e chk e' :
  validateAdHocEvents toString cronParses cds c m e chk = Ok e' ->
  e' = odefault "inheritTraceContext" (JBool true) e /\ basicEventValidation c e' = Ok tt /\
  adHoc_at m (event_key toString e) && chk = false /\
  (isMultiTenancy cds = true -> truthy (prop e "multiInstanceProcessing") = false) /\
  (truthy (prop e "timeBucket") = true -> cronParses (prop e "timeBucket") = true).
Proof.
  unfold validateAdHocEvents. intros H.
  destruct (adHoc_at m _ && chk) eqn:E1; [discriminate|].
  destruct (isMultiTenancy cds && _) eqn:E2; [discriminate|].
  destruct (truthy (prop e "timeBucket") && _) eqn:E3; [discriminate|].
  destruct (basicEventValidation c _) as [[]|] eqn:E4; [|discriminate]. injection H as <-.
  split_and!; auto.
  - intros Hm. by rewrite Hm in E2.
  - intros Ht. rewrite Ht in E3. simpl in E3. by apply negb_false_iff.
Qed.

Lemma validatePeriodic_ok m e e' :
  validatePeriodicConfig toString cronParses cronNext c m e = Ok e' ->
  e' = (if truthy (prop e "cron") then set_tz c e else e) /\ basicEventValidation c e' = Ok tt /\
  periodic_at m (event_key toString e) = false /\
  ((truthy (prop e "cron") = false /\ truthy (prop e "interval") = true /\
      js_le (prop e "interval") (JNum MIN_INTERVAL_SEC) = false) \/
   (truthy (prop e "interval") = false /\ truthy (prop e "cron") = true /\ cronParses (prop e "cron") = true /\
      exists t1 t2, cronNext (prop e "cron") = Ok (t1, t2) /\ js_le (secs (t2 - t1)) (JNum MIN_INTERVAL_SEC) = false)).
Proof.
  unfold validatePeriodicConfig. intros H.
  destruct (periodic_at m _) eqn:E1; [discriminate|].
  destruct (truthy (prop e "cron")) eqn:C, (truthy (prop e "interval")) eqn:I; simpl in H; try discriminate.
  - destruct (cronParses _) eqn:P; simpl in H; [|discriminate].
    destruct (cronNext _) as [[t1 t2]|] eqn:N; [|discriminate].
    destruct (js_le (secs _) _) eqn:L; [discriminate|].
    destruct (basicEventValidation c _) as [[]|] eqn:B; [|discriminate]. injection H as <-.
    split_and!; auto. right. eauto 10.
  - destruct (js_le _ _) eqn:L; [discriminate|].
    destruct (basicEventValidation c _) as [[]|] eqn:B; [|discriminate]. injection H as <-.
    split_and!; auto.
Qed.


Lemma after_opt e k :
  k ∉ ["propagateHeaders"; "propagateContextProperties"; "retryFailedAfter"; "retryOpenAfter"] ->
  opt (basicEventTransformationAfterValidate toString validRegex e) k = prop e k.
Proof.
  intros Hk. unfold opt, basicEventTransformationAfterValidate. cbn [re_opts].
  skip_writes ltac:(intros <-; apply Hk; elem_lit). done.
Qed.

Lemma set_tz_prop e k : k ∉ ["utc"; "useCronTimezone"; "tz"] -> prop (set_tz c e) k = prop e k.
Proof.
  intros Hk. unfold set_tz. destruct (negb (truthy (cfg_cronTimezone c)));
    skip_writes ltac:(intros <-; apply Hk; elem_lit); done.
Qed.

Lemma tz_prop e k :
  k ∉ ["utc"; "useCronTimezone"; "tz"] -> prop (if truthy (prop e "cron") then set_tz c e else e) k = prop e k.
Proof. intros Hk. destruct (truthy _); [by apply set_tz_prop | done]. Qed.

Lemma inherit_prop e k :
  k <> "inheritTraceContext" -> prop (odefault "inheritTraceContext" (JBool true) e) k = prop e k.
Proof. intros Hk. by apply prop_odefault_ne. Qed.

Lemma transformation_keepAlive e :
  prop (basicEventTransformation c e) "keepAliveMaxInProgressTime" =
  js_mul (prop (basicEventTransformation c e) "keepAliveInterval") 7 2.
Proof.
  unfold basicEventTransformation. skip_writes ltac:(discriminate). etrans; [apply prop_oset_eq|].
  f_equal. symmetry. skip_writes ltac:(discriminate). done.
Qed.

Lemma transformation_prop e k :
  k ∉ ["load"; "priority"; "increasePriorityOverTime"; "keepAliveInterval"; "keepAliveMaxInProgressTime";
       "checkForNextChunk"; "namespace"] ->
  prop (basicEventTransformation c e) k = prop e k.
Proof.
  intros Hk. unfold basicEventTransformation. skip_writes ltac:(intros <-; apply Hk; elem_lit). done.
Qed.

Lemma key_after e : key_of (basicEventTransformationAfterValidate toString validRegex e) = event_key toString e.
Proof.
  unfold key_of, event_key. by rewrite <- !(after_opt e) by elem_lit.
Qed.

Lemma key_adHoc event :
  key_of (adHocEntry event) = event_key toString (basicEventTransformation c (sanitizeParamsAdHocEvent event)).
Proof. unfold adHocEntry. rewrite key_after. unfold event_key. by rewrite !inherit_prop. Qed.

Lemma key_periodic event :
  key_of (periodicEntry event) = event_key toString (basicEventTransformation c (periodicBase toString event)).
Proof. unfold periodicEntry. rewrite key_after. unfold event_key. by rewrite !tz_prop by elem_lit. Qed.

Lemma adHoc_not_periodic event : opt (adHocEntry event) "isPeriodic" = JUndef.
Proof.
  unfold adHocEntry. rewrite after_opt, inherit_prop, transformation_prop by (elem_lit || discriminate).
  apply sanitize_other. elem_lit.
Qed.

Lemma periodic_periodic event : opt (periodicEntry event) "isPeriodic" = JBool true.
Proof.
  unfold periodicEntry. cbv zeta. rewrite after_opt, tz_prop, transformation_prop by elem_lit. apply prop_oset_eq.
Qed.

(** The checks of [#basicEventValidation] carry over to the entry. *)
Lemma validated_ok e k :
  basicEventValidation c e = Ok tt ->
  prop e "keepAliveMaxInProgressTime" = js_mul (prop e "keepAliveInterval") 7 2 ->
  let r := basicEventTransformationAfterValidate toString validRegex e in
  k = key_of r ->
  (truthy (prop e "isPeriodic") = true ->
    (truthy (prop e "cron") = false /\ truthy (prop e "interval") = true /\
       js_le (prop e "interval") (JNum MIN_INTERVAL_SEC) = false) \/
    (truthy (prop e "interval") = false /\ truthy (prop e "cron") = true /\ cronParses (prop e "cron") = true /\
       exists t1 t2, cronNext (prop e "cron") = Ok (t1, t2) /\ js_le (secs (t2 - t1)) (JNum MIN_INTERVAL_SEC) = false)) ->
  (truthy (prop e "isPeriodic") = false ->
    (truthy (prop e "timeBucket") = true -> cronParses (prop e "timeBucket") = true) /\
    (isMultiTenancy cds = true -> truthy (prop e "multiInstanceProcessing") = false)) ->
  registered_ok k r.
Proof.
  intros (H1 & H2 & H3 & H4 & H5 & H6)%basicEventValidation_ok Hk r -> Hp Ha. subst r.
  constructor; rewrite ?after_opt by elem_lit; done.
Qed.

Lemma adHoc_registered m event m' :
  registerAdHoc toString cronParses validRegex cds c m event = Ok m' ->
  let r := adHocEntry event in
  m' = oset (key_of r) r m /\ registered_ok (key_of r) r /\ adHoc_at m (key_of r) = false.
Proof.
  unfold registerAdHoc. destruct (validateAdHocEvents _ _ _ _ _ _ _) as [e|] eqn:V; [|discriminate].
  intros [= <-]. apply validateAdHoc_ok in V as (-> & Hb & Hd & Hm & Ht). cbv zeta. split_and!.
  - unfold key_of, adHocEntry. reflexivity.
  - apply validated_ok; auto; rewrite !inherit_prop by discriminate.
    + apply transformation_keepAlive.
    + rewrite transformation_prop by elem_lit. unfold sanitizeParamsAdHocEvent.
      rewrite sanitize_other by elem_lit. discriminate.
    + auto.
  - rewrite key_adHoc. by rewrite andb_true_r in Hd.
Qed.

Lemma periodic_registered m event m' :
  registerPeriodic toString cronParses cronNext validRegex c m event = Ok m' ->
  let r := periodicEntry event in
  m' = oset (key_of r) r m /\ registered_ok (key_of r) r /\ periodic_at m (key_of r) = false.
Proof.
  unfold registerPeriodic. destruct (validatePeriodicConfig _ _ _ _ _ _) as [e|] eqn:V; [|discriminate].
  intros [= <-]. apply validatePeriodic_ok in V as (-> & Hb & Hd & Hc). cbv zeta. split_and!.
  - unfold key_of, periodicEntry. cbv zeta. reflexivity.
  - apply validated_ok; auto; rewrite !tz_prop by elem_lit.
    + apply transformation_keepAlive.
    + auto.
    + rewrite transformation_prop by elem_lit. unfold periodicBase. rewrite prop_oset_eq. discriminate.
  - by rewrite key_periodic.
Qed.

(** A reduction that registers each element under its key, unless the key is taken
    by an element of the same kind. *)
Lemma reduce_registers (f : eventMapT -> obj jsval -> throws eventMapT) (entry : obj jsval -> regEvent)
    (kind : regEvent -> bool) l m0 m :
  (forall m e m', f m e = Ok m' ->
     m' = oset (key_of (entry e)) (entry e) m /\
     forall r, oget (key_of (entry e)) m = Some r -> kind r = false) ->
  (forall e, kind (entry e) = true) ->
  reduceM f l m0 = Ok m ->
  NoDup ((fun e => key_of (entry e)) <$> l) /\
  (forall e, e ∈ l -> oget (key_of (entry e)) m = Some (entry e)) /\
  (forall k, k ∉ (fun e => key_of (entry e)) <$> l -> oget k m = oget k m0) /\
  (forall e r, e ∈ l -> oget (key_of (entry e)) m0 = Some r -> kind r = false).
Proof.
  intros Hf Hkind. revert m0. induction l as [|e l IH]; intros m0 H; simpl in H.
  - injection H as <-. split_and!; [apply NoDup_nil_2| | |]; set_solver.
  - destruct (f m0 e) as [m1|] eqn:F; [|discriminate]. destruct (Hf _ _ _ F) as [-> H0].
    destruct (IH _ H) as (I1 & I2 & I3 & I4).
    assert (N : key_of (entry e) ∉ (fun e => key_of (entry e)) <$> l).
    { intros (e2 & E & He2)%list_elem_of_fmap. pose proof (I4 e2 (entry e) He2) as K.
      rewrite <- E, oget_oset_eq in K. rewrite Hkind in K. by discriminate K. }
    csimpl. split_and!.
    + by apply NoDup_cons.
    + intros e2 [->|He2]%elem_of_cons; [|auto]. rewrite I3 by done. apply oget_oset_eq.
    + intros k [Hne Hk]%not_elem_of_cons. rewrite I3 by done. by apply oget_oset_ne.
    + intros e2 r [->|He2]%elem_of_cons; [apply H0|]. intros Hr. apply (I4 e2 r He2).
      rewrite oget_oset_ne; [done|]. intros E. apply N. rewrite E. apply list_elem_of_fmap. eauto.
Qed.

Lemma reduceM_invariant {A B} (I : A -> Prop) (f : A -> B -> throws A) l a a' :
  (forall a x a', f a x = Ok a' -> I a -> I a') -> reduceM f l a = Ok a' -> I a -> I a'.
Proof.
  intros Hf. revert a. induction l as [|x l IH]; simpl; intros a H Ha; [by injection H as <-|].
  destruct (f a x) eqn:F; [|discriminate]. eauto.
Qed.

(** The two reductions of a successful [set fileContent]. *)
Lemma setFileContent_ok evs pers c' :
  setFileContent toString cronParses cronNext validRegex cds evs pers c = (c', None) ->
  exists m, reduceM (registerAdHoc toString cronParses validRegex cds c) evs [] = Ok m /\
    reduceM (registerPeriodic toString cronParses cronNext validRegex c) pers m = Ok (cfg_eventMap c').
Proof.
  unfold setFileContent. destruct (reduceM (registerAdHoc _ _ _ _ c) evs []) as [m|] eqn:R1; [|discriminate].
  destruct (reduceM (registerPeriodic _ _ _ _ c) pers m) as [m'|] eqn:R2; [|discriminate].
  intros [= <-]. simpl. eauto.
Qed.

(** C30. Every registered event is well formed: it is filed under its key, it has an
    implementation, a type and a sub type, a known priority, a load within the
    instance's limit and a stuck time of 3.5 keep-alive intervals; a periodic event
    has either a cron expression whose executions are more than ten seconds apart or
    an interval of more than ten seconds, never both. *)
Theorem registry_sound evs pers c' k r :
  setFileContent toString cronParses cronNext validRegex cds evs pers c = (c', None) ->
  oget k (cfg_eventMap c') = Some r -> registered_ok k r.
Proof.
  intros (m & R1 & R2)%setFileContent_ok. set (I := fun m : eventMapT => forall k r, oget k m = Some r -> registered_ok k r).
  enough (I (cfg_eventMap c')) by auto.
  apply (reduceM_invariant I _ _ _ _) in R2; [done| |].
  - intros a x a' (-> & Hr & _)%periodic_registered Ha k' r'. rewrite oget_oset.
    case_decide; [intros [= <-]; by subst | apply Ha].
  - apply (reduceM_invariant I _ _ _ _) in R1; [done| |by intros ? ?].
    intros a x a' (-> & Hr & _)%adHoc_registered Ha k' r'. rewrite oget_oset.
    case_decide; [intros [= <-]; by subst | apply Ha].
Qed.

(** C15. A configuration that is accepted is registered as a whole: no two ad-hoc
    events and no two periodic events share a key, every periodic event is found
    under its key, and so is every ad-hoc event, unless a periodic event has the
    same key; nothing else is registered. *)
Theorem registry_complete evs pers c' :
  setFileContent toString cronParses cronNext validRegex cds evs pers c = (c', None) ->
  NoDup ((fun e => key_of (adHocEntry e)) <$> evs) /\ NoDup ((fun e => key_of (periodicEntry e)) <$> pers) /\
  (forall e, e ∈ pers -> oget (key_of (periodicEntry e)) (cfg_eventMap c') = Some (periodicEntry e)) /\
  (forall e, e ∈ evs -> key_of (adHocEntry e) ∉ (fun p => key_of (periodicEntry p)) <$> pers ->
     oget (key_of (adHocEntry e)) (cfg_eventMap c') = Some (adHocEntry e)) /\
  (forall k, k ∉ (fun e => key_of (adHocEntry e)) <$> evs -> k ∉ (fun p => key_of (periodicEntry p)) <$> pers ->
     oget k (cfg_eventMap c') = None).
Proof.
  intros (m & R1 & R2)%setFileContent_ok.
  apply (reduce_registers _ adHocEntry (fun r => negb (truthy (opt r "isPeriodic")))) in R1 as (A1 & A2 & A3 & _).
  - apply (reduce_registers _ periodicEntry (fun r => truthy (opt r "isPeriodic"))) in R2 as (P1 & P2 & P3 & _).
    + split_and!; auto.
      * intros e He Hp. rewrite P3 by done. auto.
      * intros k Hk Hp. by rewrite P3, A3 by done.
    + intros m1 e m2 (-> & _ & Hp)%periodic_registered. split; [done|]. intros r Hr. unfold periodic_at in Hp.
      by rewrite Hr in Hp.
    + intros e. by rewrite periodic_periodic.
  - intros m1 e m2 (-> & _ & Hp)%adHoc_registered. split; [done|]. intros r Hr. unfold adHoc_at in Hp.
    by rewrite Hr in Hp.
  - intros e. by rewrite adHoc_not_periodic.
Qed.
End registry.

(** ** The application filter *)

Lemma oget_fromEntries_fun {V} (f : string -> V) l k :
  oget k (fromEntries (map (fun a => (a, f a)) l)) = if decide (k ∈ l) then Some (f k) else None.
Proof.
  unfold fromEntries. assert (G : forall o : obj V,
    oget k (fold_left (fun o kv => oset kv.1 kv.2 o) (map (fun a => (a, f a)) l) o) =
    if decide (k ∈ l) then Some (f k) else oget k o).
  { induction l as [|a l IH]; intros o; simpl; [done|]. rewrite IH, oget_oset.
    destruct (decide (k ∈ l)) as [Hk|Hk].
    - rewrite decide_True; [done | by right].
    - destruct (decide (a = k)) as [->|Hne]; [rewrite decide_True; [done | left] |].
      rewrite decide_False; [done|]. rewrite elem_of_cons. naive_solver. }
  apply G.
Qed.

Lemma NoDup_fromEntries {V} (l : list (string * V)) : NoDup (okeys (fromEntries l)).
Proof.
  unfold fromEntries. assert (G : forall o : obj V, NoDup (okeys o) ->
    NoDup (okeys (fold_left (fun o kv => oset kv.1 kv.2 o) l o))).
  { induction l as [|[k v] l IH]; intros o Ho; simpl; [done|]. apply IH. by apply NoDup_okeys_oset. }
  apply G. apply NoDup_nil_2.
Qed.

Lemma elem_of_fromEntries_fun {V} (f : string -> V) l k v :
  (k, v) ∈ fromEntries (map (fun a => (a, f a)) l) <-> k ∈ l /\ v = f k.
Proof.
  split.
  - intros H. apply elem_of_oget in H; [|apply NoDup_fromEntries]. rewrite oget_fromEntries_fun in H.
    case_decide; [by injection H as <- | discriminate].
  - intros [Hk ->]. apply oget_elem_of. rewrite oget_fromEntries_fun. by rewrite decide_True.
Qed.

Section filter_props.
Context (toString : jsval -> string) (validRegex : string -> string -> bool)
  (regexTest : string -> string -> Z -> string -> bool * Z) (cds : cdsEnv).

(** Whether an entry of [appNames] admits an application. *)
Definition name_matches (app name : string) : bool :=
  match parseRegexOrString validRegex name with
  | AppRegex source flags => (regexTest source flags 0 app).1
  | AppString value => bool_decide (value = app)
  end.

(** A name without the flags that make [test] depend on earlier calls. *)
Definition stateless_name (name : string) : bool :=
  match parseRegexOrString validRegex name with
  | AppRegex _ flags =>
    forallb (fun ch => negb (Ascii.eqb ch "g" || Ascii.eqb ch "y")%char) (String.list_ascii_of_string flags)
  | AppString _ => true
  end.

Definition stateless_flags (flags : string) : bool :=
  forallb (fun ch => negb (Ascii.eqb ch "g" || Ascii.eqb ch "y")%char) (String.list_ascii_of_string flags).

(** [lastIndex] matters only with the flags [g] and [y]. *)
Hypothesis test_stateless : forall source flags i app,
  stateless_flags flags = true -> (regexTest source flags i app).1 = (regexTest source flags 0 app).1.

Lemma parse_string name v : parseRegexOrString validRegex name = AppString v -> v = name.
Proof.
  unfold parseRegexOrString. destruct (regex_literal name) as [[b f]|]; [|congruence].
  destruct (validRegex b f); congruence.
Qed.

Lemma app_loop_spec all app names result last :
  Forall (fun kv => match kv.2 with AppRegex _ f => stateless_flags f = true | AppString _ => True end) names ->
  names <> [] ->
  (app_loop regexTest all app names result last).1 =
    existsb (fun kv => match kv.2 with
                       | AppRegex s f => (regexTest s f 0 app).1
                       | AppString _ => ohas app all end) names.
Proof.
  intros Hf Hne. revert result last. induction Hf as [|[k a] names Ha Hf IH]; intros result last; [done|].
  assert (G : forall last', (app_loop regexTest all app names false last').1 =
    existsb (fun kv => match kv.2 with
                       | AppRegex s f => (regexTest s f 0 app).1
                       | AppString _ => ohas app all end) names).
  { intros last'. destruct names; [done | by apply IH]. }
  destruct a as [source flags|v]; cbn [app_loop existsb].
  - pose proof (test_stateless source flags (default 0 (oget k last)) app Ha) as T.
    destruct (regexTest source flags _ app) as [ok i]. simpl in T. cbn [fst snd]. rewrite <- T.
    destruct ok; [done|]. apply G.
  - cbn [snd]. destruct (ohas app all) eqn:O; [done|]. apply G.
Qed.

Lemma app_names_match app l m last :
  regex_literal app = None -> Forall (fun a => stateless_name a = true) l ->
  existsb (fun a => is_regex (parseRegexOrString validRegex a)) l = true ->
  m = fromEntries (map (fun a => (a, parseRegexOrString validRegex a)) l) ->
  (app_loop regexTest m app m true last).1 = existsb (name_matches app) l.
Proof.
  intros Happ Hl Hre Em.
  assert (Hg : forall k, oget k m = if decide (k ∈ l) then Some (parseRegexOrString validRegex k) else None)
    by (intros k; rewrite Em; apply oget_fromEntries_fun).
  assert (Hin : forall k v, (k, v) ∈ m <-> k ∈ l /\ v = parseRegexOrString validRegex k)
    by (intros k v; rewrite Em; apply elem_of_fromEntries_fun).
  rewrite app_loop_spec.
  - apply eq_bool_prop_intro. rewrite !Is_true_true, !existsb_exists. split.
    + intros ([k a] & [Hk ->]%list_elem_of_In%Hin & Hm). simpl in Hm.
      destruct (parseRegexOrString validRegex k) as [s f|v] eqn:P.
      * exists k. split; [by apply list_elem_of_In|]. unfold name_matches. by rewrite P.
      * exists app. apply ohas_true in Hm. rewrite Hg in Hm. destruct (decide (app ∈ l)); [|by destruct Hm].
        split; [by apply list_elem_of_In|]. unfold name_matches, parseRegexOrString. rewrite Happ.
        by apply bool_decide_eq_true.
    + intros (a & Ha%list_elem_of_In & Hm). exists (a, parseRegexOrString validRegex a).
      split; [apply list_elem_of_In, Hin; auto|]. simpl. unfold name_matches in Hm.
      destruct (parseRegexOrString validRegex a) as [s f|v] eqn:P; [done|].
      apply parse_string in P as ->. apply bool_decide_eq_true in Hm as ->. apply ohas_true.
      rewrite Hg, decide_True by done. eauto.
  - apply Forall_forall. intros [k a] [Hk ->]%Hin. simpl. eapply Forall_forall in Hl; [|exact Hk].
    unfold stateless_name in Hl. by destruct (parseRegexOrString validRegex k).
  - apply existsb_exists in Hre as (a & Ha%list_elem_of_In & _). intros ->. specialize (Hg a).
    by rewrite decide_True in Hg.
Qed.

Definition listed {A} (f : A -> jsval) (o : option (list A)) : jsval :=
  match o with Some l => JArr (map f l) | None => JUndef end.

Lemma js_string_strings l : map (js_string toString) (map JStr l) = l.
Proof. rewrite map_map. apply map_id. Qed.

(** The app names: the result of the loop, or the early return. *)
Lemma check_app_names_spec e names app last :
  prop e "appNames" = listed JStr names ->
  regex_literal app = None -> Forall (fun a => stateless_name a = true) (default [] names) ->
  exists go res last',
    check_app_names regexTest (basicEventTransformationAfterValidate toString validRegex e) app last = (go, res, last') /\
    go && res = match names with Some l => existsb (name_matches app) l | None => true end.
Proof.
  intros Hn Hlit Hst. unfold check_app_names, basicEventTransformationAfterValidate.
  cbn [re_appNameMap re_appNameContainsRegex]. rewrite Hn.
  destruct names as [l|]; cbn [listed truthy]; [|eauto 10].
  unfold str_items. cbn [items]. rewrite js_string_strings. cbn [from_option].
  destruct (existsb (fun a => is_regex _) l) eqn:Ere.
  - pose proof (app_names_match app l _ last Hlit Hst Ere eq_refl) as E.
    destruct (app_loop _ _ _ _ _ _) as [res last']. simpl in E. subst. eauto 10.
  - eexists _, true, last. split; [done|]. rewrite andb_true_r. apply eq_bool_prop_intro.
    rewrite !Is_true_true, ohas_true, existsb_exists, oget_fromEntries_fun. split.
    + destruct (decide (app ∈ l)) as [Hin|]; [|by intros [? ?]]. intros _. exists app.
      split; [by apply list_elem_of_In|]. unfold name_matches, parseRegexOrString. rewrite Hlit.
      by apply bool_decide_eq_true.
    + intros (a & Ha & Hm). assert (Hr : is_regex (parseRegexOrString validRegex a) = false).
      { destruct (is_regex _) eqn:E; [|done]. rewrite <- Ere. symmetry. apply existsb_exists. eauto. }
      unfold name_matches in Hm. destruct (parseRegexOrString validRegex a) as [? ?|v] eqn:P; [discriminate Hr|].
      apply parse_string in P as ->. apply bool_decide_eq_true in Hm as ->.
      rewrite decide_True by (by apply list_elem_of_In). eauto.
Qed.

Lemma instances_listed l i :
  ohas (pretty i) (fromEntries (map (fun a => (a, true)) (str_items toString (JArr (map JNum l))))) =
  existsb (Z.eqb i) l.
Proof.
  unfold str_items. cbn [items]. rewrite (map_map JNum (js_string toString)). unfold ohas.
  rewrite (oget_fromEntries_fun (fun _ => true)). apply eq_bool_prop_intro. rewrite !Is_true_true, existsb_exists.
  destruct (decide _) as [Hin|Hin].
  - apply list_elem_of_In, in_map_iff in Hin as (z & E & Hz). simpl in E. apply (inj pretty) in E as ->.
    split; [|done]. intros _. exists i. split; [done | apply Z.eqb_refl].
  - split; [done|]. intros (z & Hz & ->%Z.eqb_eq). destruct Hin. apply list_elem_of_In, in_map_iff. eauto.
Qed.

(** The application filter: an event is processed by an application exactly if its
    name is listed in [appNames] or matches one of the listed regular expressions,
    and its instance is listed in [appInstances]; a list that is not configured
    admits everything. *)
Theorem app_filter_correct c type_ rawSubType namespace last e names instances app i :
  getEventConfig toString c (JStr type_) (JStr (n_subType (normalizeSubType cds type_ rawSubType))) namespace =
    Some (basicEventTransformationAfterValidate toString validRegex e) ->
  prop e "appNames" = listed JStr names -> prop e "appInstances" = listed JNum instances ->
  applicationName cds = JStr app -> applicationInstance cds = JNum i ->
  regex_literal app = None -> Forall (fun a => stateless_name a = true) (default [] names) ->
  exists last',
    shouldBeProcessedInThisApplication toString cds regexTest c type_ rawSubType namespace last =
    Ok (match names with Some l => existsb (name_matches app) l | None => true end &&
        match instances with Some l => existsb (Z.eqb i) l | None => true end, last').
Proof.
  intros Hcfg Hn Hi Happ Hinst Hlit Hst. unfold shouldBeProcessedInThisApplication. rewrite Hcfg, Happ, Hinst.
  destruct (check_app_names_spec e names app last Hn Hlit Hst) as (go & res & last' & C & <-).
  cbn [js_string]. rewrite C. exists last'. destruct go; [|done]. cbn [negb andb].
  unfold basicEventTransformationAfterValidate. cbn [re_appInstancesMap]. rewrite Hi.
  destruct instances as [l|]; cbn [listed truthy]; [|by rewrite andb_true_r].
  by rewrite instances_listed.
Qed.
End filter_props.

(** ** Names of CAP services *)

Section naming.
Context (cds : cdsEnv).

Definition known (srvName : string) : bool := truthy (prop (env_requires cds) srvName).

Lemma join_snoc sep (pre : list string) p q :
  join sep [join sep (pre ++ [p]); q] = join sep (pre ++ [p; q]).
Proof.
  induction pre as [|a pre IH]; [done|].
  change (join sep (a :: (pre ++ [p])) +:+ sep +:+ q = join sep (a :: (pre ++ [p; q]))).
  assert (E : forall l, l <> [] -> join sep (a :: l) = a +:+ sep +:+ join sep l) by (by intros [|? ?]).
  rewrite !E by (by destruct pre). rewrite !append_assoc_str. do 2 f_equal. exact IH.
Qed.

(** The loop stops at the first prefix of the parts that names a service. *)
Lemma find_service_first (pre mid rest : list string) p :
  (forall l1 l2, mid = l1 ++ l2 -> l2 <> [] -> known (join "." (pre ++ p :: l1)) = false) ->
  known (join "." (pre ++ p :: mid)) = true ->
  find_service cds (join "." (pre ++ [p])) (mid ++ rest) = (join "." (pre ++ p :: mid), rest).
Proof.
  revert pre p. induction mid as [|q mid IH]; intros pre p Hno Hyes; cbn [app].
  - destruct rest; cbn [find_service]; unfold known in Hyes; by rewrite Hyes.
  - cbn [find_service]. pose proof (Hno [] (q :: mid) eq_refl ltac:(discriminate)) as H0. unfold known in H0.
    rewrite H0, join_snoc. change (pre ++ [p; q]) with (pre ++ ([p] ++ [q])). rewrite app_assoc.
    replace (pre ++ p :: q :: mid) with ((pre ++ [p]) ++ q :: mid) in * by (by rewrite <- app_assoc).
    apply IH; [|done]. intros l1 l2 -> Hl. rewrite <- app_assoc. apply (Hno (q :: l1) l2); done.
Qed.

(** The name of an outboxed call, [service.action], is resolved to its service
    also when the service name itself contains dots, as long as no shorter prefix
    names a service; the whole name is kept as sub type exactly if the action has
    its own configuration. *)
Theorem normalizeSubType_resolves type_ p mid action :
  isCapOutboxEvent type_ = true ->
  Forall (fun s => char_free "."%char s = true) (p :: mid ++ [action]) ->
  (forall l1 l2, mid = l1 ++ l2 -> l2 <> [] -> known (join "." (p :: l1)) = false) ->
  let srv := join "." (p :: mid) in
  known srv = true ->
  normalizeSubType cds type_ (join "." [srv; action]) =
    mkNormalized
      (match getCdsOutboxEventSpecificConfig cds srv (Some action) with
       | Some _ => join "." [srv; action] | None => srv end)
      (Some action) (Some srv).
Proof.
  intros Ht Hf Hno srv Hs. unfold normalizeSubType. rewrite Ht. cbn [negb].
  assert (E : join "." [srv; action] = join "." (p :: mid ++ [action])).
  { unfold srv. destruct mid as [|q mid'] using rev_ind; [done|].
    change (p :: mid' ++ [q]) with ((p :: mid') ++ [q]). rewrite join_snoc. simpl app. by rewrite <- app_assoc. }
  rewrite E. rewrite (split_join_char "."%char) by done. cbn [head tail default from_option].
  pose proof (find_service_first [] mid [action] p Hno Hs) as F. cbn [app] in F.
  change (join "." [p]) with p in F. unfold id. rewrite F. fold srv. rewrite <- E. done.
Qed.
End naming.

(** ** Events of CAP services *)

Section cap.
Context (toString : jsval -> string) (cronParses : jsval -> bool) (validRegex : string -> string -> bool).
Context (cds : cdsEnv) (c : Config).

(** The map of registered events matters for the duplicate check only. *)
Lemma finishCAP_map m1 m2 e :
  finishCAP toString cronParses validRegex cds c m1 e = finishCAP toString cronParses validRegex cds c m2 e.
Proof. unfold finishCAP, validateAdHocEvents. by rewrite !andb_false_r. Qed.

Lemma specificAction_map base srv action m1 m2 :
  addCAPOutboxEventSpecificAction toString cronParses validRegex cds c base srv action m1 =
  addCAPOutboxEventSpecificAction toString cronParses validRegex cds c base srv action m2.
Proof. unfold addCAPOutboxEventSpecificAction. by rewrite (finishCAP_map m1 m2). Qed.

Lemma saga_key_ne key suffix : join "/" [key; suffix] <> key.
Proof.
  cbn [join]. intros E. rewrite <- (append_nil_str key) in E at 2. apply append_inj_str in E. discriminate E.
Qed.

Lemma saga_key_inj key s1 s2 : join "/" [key; s1] = join "/" [key; s2] -> s1 = s2.
Proof. cbn [join]. intros E%append_inj_str. by injection E. Qed.

Definition sagas : list string := [SAGA_SUCCESS; SAGA_DONE; SAGA_FAILED].

(** What [addSagaEvent] registers. *)
Lemma addSagaEvent_spec config srvConfig specific name fnName key m0 adHoc adHoc' suffix :
  addCAPOutboxEventSpecificAction toString cronParses validRegex cds c srvConfig name fnName m0 = Ok (key, specific) ->
  addSagaEvent toString cronParses validRegex cds c config srvConfig specific name fnName key adHoc suffix = Ok adHoc' ->
  adHoc' = if truthy (optp (field config "events") suffix) then oset key specific adHoc
           else oset (join "/" [key; suffix])
                  (with_subType (join "/" [js_string toString (opt specific "subType"); suffix]) specific) adHoc.
Proof.
  intros Hs. unfold addSagaEvent. destruct (truthy _); [|by intros [= <-]].
  rewrite (specificAction_map _ _ _ adHoc m0), Hs. by intros [= <-].
Qed.

Lemma reduce_sagas config srvConfig specific name fnName key m0 l adHoc adHoc' :
  addCAPOutboxEventSpecificAction toString cronParses validRegex cds c srvConfig name fnName m0 = Ok (key, specific) ->
  reduceM (addSagaEvent toString cronParses validRegex cds c config srvConfig specific name fnName key) l adHoc = Ok adHoc' ->
  (oget key adHoc = Some specific -> oget key adHoc' = Some specific) /\
  forall suffix, oget (join "/" [key; suffix]) adHoc' =
    if decide (suffix ∈ l) then
      if truthy (optp (field config "events") suffix) then oget (join "/" [key; suffix]) adHoc
      else Some (with_subType (join "/" [js_string toString (opt specific "subType"); suffix]) specific)
    else oget (join "/" [key; suffix]) adHoc.
Proof.
  intros Hs. revert adHoc. induction l as [|x l IH]; intros adHoc H; simpl in H; [by injection H as <-|].
  destruct (addSagaEvent _ _ _ _ _ _ _ _ _ _ _ adHoc x) as [m1|] eqn:A; [|discriminate].
  apply (addSagaEvent_spec _ _ _ _ _ _ m0) in A; [|done]. destruct (IH _ H) as [K S]. split.
  - intros Hk. apply K. subst m1. destruct (truthy _); [apply oget_oset_eq|].
    rewrite oget_oset_ne; [done | apply saga_key_ne].
  - intros suffix. rewrite S. clear S K IH H.
    assert (G : suffix <> x -> oget (join "/" [key; suffix]) m1 = oget (join "/" [key; suffix]) adHoc).
    { intros Hne. subst m1. destruct (truthy _); rewrite oget_oset_ne; try done.
      - intros E. by apply (saga_key_ne key suffix).
      - intros E%saga_key_inj. congruence. }
    destruct (decide (suffix = x)) as [->|Hne].
    + rewrite (decide_True (P := x ∈ x :: l)) by left.
      destruct (truthy (optp (field config "events") x)) eqn:T; subst m1.
      * assert (oget (join "/" [key; x]) (oset key specific adHoc) = oget (join "/" [key; x]) adHoc) as ->
          by (apply oget_oset_ne; intros E; by apply (saga_key_ne key x)). by case_decide.
      * rewrite oget_oset_eq. by case_decide.
    + rewrite G by done. repeat case_decide; try done; set_solver.
Qed.

(** An ad-hoc action of a service is registered, and with it the configuration of
    its three saga events, except for those the service handles generically: an
    entry "#succeeded", "#done" or "#failed" in the service's events suppresses the
    registration of [action/#succeeded] and its siblings. *)
Theorem saga_events_registered name config srvConfig adHoc periodic fnName fnConfig adHoc' periodic' :
  addServiceEvent toString cronParses validRegex cds c name config srvConfig (adHoc, periodic) (fnName, fnConfig) =
    Ok (adHoc', periodic') ->
  truthy (field fnConfig "interval") = false -> truthy (field fnConfig "cron") = false ->
  exists key specific,
    addCAPOutboxEventSpecificAction toString cronParses validRegex cds c srvConfig name fnName adHoc = Ok (key, specific) /\
    oget key adHoc' = Some specific /\
    forall suffix, suffix ∈ sagas ->
      oget (join "/" [key; suffix]) adHoc' =
        if truthy (optp (field config "events") suffix) then oget (join "/" [key; suffix]) adHoc
        else Some (with_subType (join "/" [js_string toString (opt specific "subType"); suffix]) specific).
Proof.
  unfold addServiceEvent. intros H Hi Hc. destruct (nullish fnConfig); [discriminate|].
  rewrite Hi, Hc in H. simpl orb in H. cbv iota in H.
  destruct (addCAPOutboxEventSpecificAction _ _ _ _ _ _ _ _ adHoc) as [[key specific]|] eqn:S; [|discriminate].
  destruct (reduceM _ _ _) as [m|] eqn:R; [|discriminate]. injection H as <- <-.
  destruct (reduce_sagas _ _ _ _ _ _ _ _ _ _ S R) as [K G]. exists key, specific. split_and!; [done| |].
  - apply K, oget_oset_eq.
  - intros suffix Hin. rewrite G, decide_True by exact Hin.
    destruct (truthy (optp (field config "events") suffix)); [|reflexivity].
    apply oget_oset_ne. intros E. by apply (saga_key_ne key suffix).
Qed.

Lemma oget_oassign_None {V} k (o1 o2 : obj V) : oget k o2 = None -> oget k (oassign o1 o2) = oget k o1.
Proof.
  unfold oassign. revert o1. induction o2 as [|[k0 v0] o2 IH]; intros o1 H; [done|]. simpl in *.
  case_decide; [discriminate|]. rewrite IH by done. by apply oget_oset_ne.
Qed.

Lemma NoDup_oassign {V} (o1 o2 : obj V) : NoDup (okeys o1) -> NoDup (okeys (oassign o1 o2)).
Proof.
  unfold oassign. revert o1. induction o2 as [|kv o2 IH]; intros o1 H; [done|]. by apply IH, NoDup_okeys_oset.
Qed.

Lemma oget_mixed k config :
  k ∉ ["selectMaxChunkSize"; "parallelEventProcessing"; "retryAttempts"] -> oget k config = None ->
  oget k (mixCAPPropertyNamesWithEventQueueNames config) = None.
Proof.
  intros Hk Hn. unfold mixCAPPropertyNamesWithEventQueueNames, cleanUndefined.
  assert (G : forall l r : obj jsval, oget k l = None -> oget k r = None ->
    oget k (fold_left (fun acc kv => if is_undefined kv.2 then acc else oset kv.1 kv.2 acc) l r) = None).
  { induction l as [|[k0 v0] l IH]; intros r Hl Hr; simpl in *; [done|]. case_decide; [discriminate|].
    apply IH; [done|]. destruct (is_undefined v0); [done|]. by rewrite oget_oset_ne. }
  apply G; [|done]. rewrite oget_oassign_None by done. simpl.
  repeat (rewrite decide_False; [|intros ->; apply Hk; elem_lit]). done.
Qed.

Lemma cap_literal_prop serviceName config k :
  k ∈ ["type"; "subType"] -> oget k config = None ->
  prop (sanitizeParamsAdHocEvent (cap_literal c serviceName config)) k =
  prop [("type", JStr CAP_EVENT_TYPE); ("subType", JStr serviceName)] k.
Proof.
  intros Hk Hn. assert (Hk' : k = "type" \/ k = "subType") by set_solver. unfold prop, sanitizeParamsAdHocEvent.
  rewrite oget_sanitize.
  - rewrite decide_True by (destruct Hk' as [-> | ->]; elem_lit). unfold cap_literal.
    rewrite oget_oassign_None by done. rewrite oget_oset_ne by (destruct Hk' as [-> | ->]; discriminate).
    rewrite oget_oassign_None by (apply oget_mixed; [destruct Hk' as [-> | ->]; elem_lit | done]).
    by destruct Hk' as [-> | ->].
  - apply NoDup_oassign, NoDup_okeys_oset, NoDup_oassign. apply (bool_decide_unpack _). vm_compute. exact I.
Qed.

Lemma base_type_subType m serviceName config key r :
  addCAPOutboxEventBase toString cronParses validRegex cds c serviceName config m = Ok (key, r) ->
  oget "type" config = None -> oget "subType" config = None ->
  opt r "type" = JStr CAP_EVENT_TYPE /\ opt r "subType" = JStr serviceName.
Proof.
  unfold addCAPOutboxEventBase, finishCAP. cbv zeta.
  destruct (validateAdHocEvents _ _ _ _ _ _ _) as [e|] eqn:V; [|discriminate]. intros [= <- <-] Ht Hs.
  apply validateAdHoc_ok in V as (-> & _).
  assert (G : forall k, k ∈ ["type"; "subType"] -> oget k config = None ->
    opt (basicEventTransformationAfterValidate toString validRegex (odefault "inheritTraceContext" (JBool true)
      (basicEventTransformation c (oset "internalEvent" (JBool true) (odefault "retryAttempts" CAP_MAX_ATTEMPTS_DEFAULT
        (sanitizeParamsAdHocEvent (cap_literal c serviceName config))))))) k =
    prop [("type", JStr CAP_EVENT_TYPE); ("subType", JStr serviceName)] k).
  { intros k Hk Hn. assert (k = "type" \/ k = "subType") as Hk' by set_solver.
    rewrite after_opt, inherit_prop, transformation_prop, prop_oset_ne, prop_odefault_ne
      by (destruct Hk' as [-> | ->]; first [elem_lit | discriminate]).
    by apply cap_literal_prop. }
  split; (etrans; [apply G; [elem_lit | done] | done]).
Qed.

(** A service that is outboxed without configuration is found afterwards, so that
    the publication that triggered its registration can go on. *)
Theorem added_service_found serviceName options customOpts c' :
  addCAPServiceWithoutEnvConfig toString cronParses validRegex cds serviceName options customOpts c = (c', None) ->
  let config := oassign (oassign (getBasicCapOutboxEventConfig cds serviceName)
                  (spread (coalesce (field options "queued") (field options "outbox")))) customOpts in
  oget "type" config = None -> oget "subType" config = None ->
  exists r, findBaseCAPServiceWithoutNamespace c' serviceName = Some r /\
    opt r "type" = JStr CAP_EVENT_TYPE /\ opt r "subType" = JStr serviceName.
Proof.
  intros H config Ht Hs. unfold addCAPServiceWithoutEnvConfig in H. fold config in H.
  destruct (addCAPOutboxEventBase _ _ _ _ _ _ _ _) as [[key r]|] eqn:B; [|discriminate]. injection H as <-.
  destruct (base_type_subType _ _ _ _ _ B Ht Hs) as [Rt Rs].
  unfold findBaseCAPServiceWithoutNamespace. cbn [cfg_eventMap set_eventMap].
  destruct (List.find _ _) as [r'|] eqn:F.
  - exists r'. split; [done|]. apply List.find_some in F as [_ P].
    destruct (opt r' "type") eqn:E1, (opt r' "subType") eqn:E2; try discriminate P.
    apply andb_true_iff in P as [->%bool_decide_eq_true ->%bool_decide_eq_true]. done.
  - exfalso. assert (Hin : In r (ovalues (oset key r (cfg_eventMap c)))).
    { apply list_elem_of_In. unfold ovalues. apply list_elem_of_fmap. exists (key, r). split; [done|].
      apply oget_elem_of, oget_oset_eq. }
    pose proof (List.find_none _ _ F r Hin) as N. cbv beta in N. rewrite Rt, Rs in N.
    by rewrite !bool_decide_eq_true_2 in N by done.
Qed.
End cap.

(** ** Witnesses *)

Definition demoCfgString (v : jsval) : string := "[object]".
Definition demoCronParses (v : jsval) : bool := truthy v.
Definition demoCronNext (v : jsval) : result jsval (Z * Z) := Ok (0, 60000).
Definition demoValidRegex (source flags : string) : bool := true.

(** A test that ignores [lastIndex]: the source is a prefix of the name. *)
Definition demoRegexTest (source flags : string) (lastIndex : Z) (app : string) : bool * Z :=
  (String.prefix source app, lastIndex).

Definition demoCds : cdsEnv :=
  mkCdsEnv
    [("srv.mail", JObj [("outbox", JObj [("events", JObj [("send", JObj [("load", JNum 3)]); (SAGA_DONE, JObj [])])])])]
    [] (JStr "billing") (JNum 2).

Definition demoCfg : Config := mkCfg (JStr "default") (JNum 100) JUndef [] None None ["default"] ∅ JNull.

Definition demoAdHoc : obj jsval :=
  [("type", JStr "Mail"); ("subType", JStr "send"); ("impl", JStr "./Mail"); ("load", JNum 5); ("unknown", JNum 1);
   ("appNames", JArr [JStr "shop"; JStr "/bill/"]); ("appInstances", JArr [JNum 0; JNum 2])].

Definition demoPeriodic : obj jsval :=
  [("type", JStr "Clean"); ("subType", JStr "all"); ("impl", JStr "./Clean"); ("interval", JNum 60)].

Definition demoRegistered : Config :=
  (setFileContent demoCfgString demoCronParses demoCronNext demoValidRegex demoCds [demoAdHoc] [demoPeriodic] demoCfg).1.

Lemma registry_sound_witness :
  registered_ok demoCfgString demoCronParses demoCronNext demoCds demoCfg "default##Clean_PERIODIC##all"
    (periodicEntry demoCfgString demoValidRegex demoCfg demoPeriodic).
Proof.
  apply (registry_sound demoCfgString demoCronParses demoCronNext demoValidRegex demoCds demoCfg
           [demoAdHoc] [demoPeriodic] demoRegistered); vm_compute; reflexivity.
Defined.

Lemma registry_complete_witness :
  oget "default##Mail##send" (cfg_eventMap demoRegistered) =
    Some (adHocEntry demoCfgString demoValidRegex demoCfg demoAdHoc).
Proof.
  assert (H : setFileContent demoCfgString demoCronParses demoCronNext demoValidRegex demoCds
                [demoAdHoc] [demoPeriodic] demoCfg = (demoRegistered, None)) by (vm_compute; reflexivity).
  destruct (registry_complete demoCfgString demoCronParses demoCronNext demoValidRegex demoCds demoCfg
              [demoAdHoc] [demoPeriodic] demoRegistered H) as (_ & _ & _ & A & _).
  apply (A demoAdHoc); [left|]. apply (bool_decide_unpack _). vm_compute. exact I.
Defined.

Lemma app_filter_correct_witness :
  exists last',
    shouldBeProcessedInThisApplication demoCfgString demoCds demoRegexTest demoRegistered "Mail" "send" JUndef [] =
    Ok (true && true, last').
Proof.
  apply (app_filter_correct demoCfgString demoValidRegex demoRegexTest demoCds
           (fun _ _ _ _ _ => eq_refl) demoRegistered "Mail" "send" JUndef []
           (odefault "inheritTraceContext" (JBool true)
              (basicEventTransformation demoCfg (sanitizeParamsAdHocEvent demoAdHoc)))
           (Some ["shop"; "/bill/"]) (Some [0; 2]) "billing" 2); try (vm_compute; reflexivity).
  apply Forall_forall. intros a Ha. apply elem_of_cons in Ha as [->|Ha]; [vm_compute; reflexivity|].
  apply list_elem_of_singleton in Ha as ->. vm_compute. reflexivity.
Defined.

Lemma normalizeSubType_resolves_witness :
  normalizeSubType demoCds "CAP_OUTBOX" "srv.mail.send" = mkNormalized "srv.mail.send" (Some "send") (Some "srv.mail").
Proof.
  apply (normalizeSubType_resolves demoCds "CAP_OUTBOX" "srv" ["mail"] "send").
  - vm_compute. reflexivity.
  - repeat constructor.
  - intros [|x l1] l2 E Hl; [vm_compute; reflexivity|]. destruct l1, l2; simpl in E; congruence.
  - vm_compute. reflexivity.
Defined.

Definition demoOptions : jsval := field (prop (env_requires demoCds) "srv.mail") "outbox".

(** The configuration of the service itself and the events after its action is added. *)
Definition demoSrv : regEvent :=
  match addCAPOutboxEventBase demoCfgString demoCronParses demoValidRegex demoCds demoCfg "srv.mail"
          (getBasicCapOutboxEventConfig demoCds "srv.mail") [] with
  | Ok (_, r) => r
  | Err _ => mkReg [] None None None
  end.

Definition demoAdHocMap : eventMapT :=
  match addServiceEvent demoCfgString demoCronParses demoValidRegex demoCds demoCfg "srv.mail" demoOptions demoSrv
          ([], []) ("send", JObj [("load", JNum 3)]) with
  | Ok (m, _) => m
  | Err _ => []
  end.

Lemma saga_events_registered_witness :
  exists key specific,
    addCAPOutboxEventSpecificAction demoCfgString demoCronParses demoValidRegex demoCds demoCfg demoSrv "srv.mail" "send" [] =
      Ok (key, specific) /\
    oget key demoAdHocMap = Some specific /\
    forall suffix, suffix ∈ sagas ->
      oget (join "/" [key; suffix]) demoAdHocMap =
        if truthy (optp (field demoOptions "events") suffix) then None
        else Some (with_subType (join "/" [js_string demoCfgString (opt specific "subType"); suffix]) specific).
Proof.
  apply (saga_events_registered demoCfgString demoCronParses demoValidRegex demoCds demoCfg "srv.mail" demoOptions demoSrv
           [] [] "send" (JObj [("load", JNum 3)]) demoAdHocMap []); vm_compute; reflexivity.
Defined.

Lemma added_service_found_witness :
  exists r, findBaseCAPServiceWithoutNamespace
    (addCAPServiceWithoutEnvConfig demoCfgString demoCronParses demoValidRegex demoCds "other" (JObj []) [] demoCfg).1
    "other" = Some r /\ opt r "type" = JStr CAP_EVENT_TYPE /\ opt r "subType" = JStr "other".
Proof.
  apply (added_service_found demoCfgString demoCronParses demoValidRegex demoCds demoCfg "other" (JObj []) []);
    vm_compute; reflexivity.
Defined.

(** The saga event of an action that the registration leaves out is still resolved to
    its own name, and the application filter then fails on it. *)
Lemma saga_event_throws :
  n_subType (normalizeSubType demoCds "CAP_OUTBOX" "srv.mail.send/#done") = "srv.mail.send/#done" /\
  match mixFileContentWithEnv demoCfgString demoCronParses demoCronNext demoValidRegex demoCds [] [] demoCfg with
  | (c', None) =>
    is_ok (shouldBeProcessedInThisApplication demoCfgString demoCds demoRegexTest c' "CAP_OUTBOX" "srv.mail.send" JUndef []) = true /\
    is_ok (shouldBeProcessedInThisApplication demoCfgString demoCds demoRegexTest c' "CAP_OUTBOX" "srv.mail.send/#done" JUndef []) = false
  | (_, Some _) => False
  end.
Proof. vm_compute. repeat split; reflexivity. Qed.
