(* ===== verification/WorkerQueue.v ===== *)
(** * The worker queue of an application instance ([shared/WorkerQueue.js])

    Tasks with a load wait in four priority queues; a task runs only while the sum
    of the running loads stays within the concurrency limit.  A synchronous turn
    of the JavaScript program (one call, or one [finally] callback) is one
    operation; the clocks are constant within a turn. *)

From S2P Require Import Prelude Js Errors.
#[local] Open Scope Z_scope.

(** ** Data *)

(** The two clocks of a turn: [Date.now()] and [process.hrtime.bigint()]. *)
Record clock := mkClock { ms : Z; hr : Z }.

(** A queue entry [[load, label, cb, resolve, reject, increasePriorityOverTime,
    startTime, ...shifted times]]; [e_id] is the identity of [cb] and of the promise
    that [resolve] and [reject] settle. *)
Record entry := mkEntry {
  e_load : Z;
  e_label : string;
  e_id : nat;
  e_increase : bool;
  e_start : Z;
  e_shifts : list Z }.

#[export] Instance entry_eq_dec : EqDecision entry.
Proof. solve_decision. Defined.

(** [queueEntry[7] ?? queueEntry[6]] *)
Definition effective_start (e : entry) : Z :=
  match e_shifts e with t :: _ => t | [] => e_start e end.

(** [entry.push(checkTime)] *)
Definition push_shift (checkTime : Z) (e : entry) : entry :=
  mkEntry (e_load e) (e_label e) (e_id e) (e_increase e) (e_start e) (e_shifts e ++ [checkTime]).

Record queues := mkQueues {
  qLow : list entry; qMedium : list entry; qHigh : list entry; qVeryHigh : list entry }.

Definition qget (p : Priorities) (q : queues) : list entry :=
  match p with Low => qLow q | Medium => qMedium q | High => qHigh q | VeryHigh => qVeryHigh q end.

Definition qset (p : Priorities) (l : list entry) (q : queues) : queues :=
  match p with
  | Low => mkQueues l (qMedium q) (qHigh q) (qVeryHigh q)
  | Medium => mkQueues (qLow q) l (qHigh q) (qVeryHigh q)
  | High => mkQueues (qLow q) (qMedium q) l (qVeryHigh q)
  | VeryHigh => mkQueues (qLow q) (qMedium q) (qHigh q) l
  end.

(** [PRIORITIES]: the priorities from the highest to the lowest. *)
Definition PRIORITIES : list Priorities := rev priority_values.

(** [PRIORITY_MULTIPLICATION] *)
Definition PRIORITY_MULTIPLICATION (p : Priorities) : Z :=
  match find_index (fun p' => bool_decide (p' = p)) PRIORITIES with
  | Some i => Z.of_nat i + 1
  | None => 0
  end.

Definition NANO_TO_MS : Z := 1000000.
Definition MIN_TO_MS : Z := 60 * 1000.
Definition INCREASE_PRIORITY_AFTER : Z := 3.
Definition THRESHOLD_INFO : Z := 35 * 1000.
Definition THRESHOLD_WARN : Z := 55 * 1000.
Definition THRESHOLD_ERROR : Z := 75 * 1000.

(** The instance, with the module variable [lastLogTs], the written log lines
    (level, label, waiting time) and the settled promises (id, fulfilled). *)
Record wq := mkWq {
  concurrencyLimit : Z;
  runningPromises : list entry;
  runningLoad : Z;
  queue : queues;
  lastLogTs : option Z;
  log : list (string * string * Z);
  settled : list (nat * bool);
  nextId : nat }.

(** All waiting entries, in the order of [PRIORITIES]. *)
Definition queued (q : queues) : list entry := qVeryHigh q ++ qHigh q ++ qMedium q ++ qLow q.

(** ** Operations *)

(** [constructor(concurrency)]; [None] is [NaN]. *)
Definition new (concurrency : option Z) : wq :=
  mkWq (match concurrency with None => 1 | Some c => if c <=? 0 then 1 else c end)
    [] 0 (mkQueues [] [] [] []) None [] [] 0.

(** [#checkAndLogWaitingTime(startTime, label, priority)] *)
Definition waiting_level (p : Priorities) (diffMs : Z) : string :=
  let m := PRIORITY_MULTIPLICATION p in
  if THRESHOLD_ERROR * m <=? diffMs then "error"
  else if THRESHOLD_WARN * m <=? diffMs then "warn"
  else if THRESHOLD_INFO * m <=? diffMs then "info"
  else "debug".

Definition checkAndLogWaitingTime (c : clock) (startTime : Z) (label : string) (p : Priorities)
    (s : wq) : wq :=
  if match lastLogTs s with Some l => ms c - l <=? 1000 | None => false end then s
  else
    let diffMs := math_round_div (hr c - startTime) NANO_TO_MS in
    mkWq (concurrencyLimit s) (runningPromises s) (runningLoad s) (queue s) (Some (ms c))
      (log s ++ [(waiting_level p diffMs, label, diffMs)]) (settled s) (nextId s).

(** The part of [_executeFunction] that starts the callback. *)
Definition start_entry (c : clock) (p : Priorities) (e : entry) (s0 : wq) : wq :=
  let s := checkAndLogWaitingTime c (e_start e) (e_label e) p s0 in
  mkWq (concurrencyLimit s) (runningPromises s ++ [e]) (runningLoad s + e_load e) (queue s)
    (lastLogTs s) (log s) (settled s) (nextId s).

(** [_executeFunction(priority, ...args)], with [#checkForNext] passed in. *)
Definition executeFunction (check : wq -> wq) (c : clock) (p : Priorities) (e : entry) (s0 : wq) : wq :=
  let s := start_entry c p e s0 in
  if negb (runningLoad s =? concurrencyLimit s) then check s else s.

Definition fits (s : wq) (e : entry) : bool := runningLoad s + e_load e <=? concurrencyLimit s.

(** The two nested loops of [#checkForNext]: the first entry that fits. *)
Fixpoint find_fit (ps : list Priorities) (s : wq) : option (Priorities * nat) :=
  match ps with
  | [] => None
  | p :: r =>
    match find_index (fits s) (qget p (queue s)) with
    | Some i => Some (p, i)
    | None => find_fit r s
    end
  end.

Definition set_queue (q : queues) (s : wq) : wq :=
  mkWq (concurrencyLimit s) (runningPromises s) (runningLoad s) q (lastLogTs s) (log s)
    (settled s) (nextId s).

(** [#checkForNext()]; every call starts at most one entry, so the number of
    waiting entries is enough fuel. *)
Fixpoint checkForNext_fuel (fuel : nat) (c : clock) (s : wq) : wq :=
  match fuel with
  | O => s
  | S fuel =>
    if bool_decide (queued (queue s) = []) || (runningLoad s =? concurrencyLimit s) then s
    else
      match find_fit PRIORITIES s with
      | None => s
      | Some (p, i) =>
        match qget p (queue s) !! i with
        | None => s
        | Some e =>
          executeFunction (checkForNext_fuel fuel c) c p e
            (set_queue (qset p (delete i (qget p (queue s))) (queue s)) s)
        end
      end
  end.

Definition checkForNext (c : clock) (s : wq) : wq :=
  checkForNext_fuel (S (length (queued (queue s)))) c s.

(** [addToQueue(load, label, priority, increasePriorityOverTime, cb)]: the id of
    the returned promise, or the thrown error.  [None] is the omitted priority. *)
Definition addToQueue (c : clock) (load : Z) (label : string) (priority : option string)
    (increase : bool) (s : wq) : result EventQueueError (nat * wq) :=
  if concurrencyLimit s <? load then Err (loadHigherThanLimit (JNum load) (JStr label))
  else
    let name := default (priority_name Medium) priority in
    match priority_of_name name with
    | None => Err (priorityNotAllowed (JStr name) (JStr label))
    | Some p =>
      let e := mkEntry load label (nextId s) increase (hr c) [] in
      let q := qset p (qget p (queue s) ++ [e]) (queue s) in
      Ok (nextId s,
          checkForNext c (mkWq (concurrencyLimit s) (runningPromises s) (runningLoad s) q
            (lastLogTs s) (log s) (settled s) (S (nextId s))))
    end.

(** The [finally] callback of a started promise and the settlement of the promise
    that [addToQueue] returned. *)
Definition finish (c : clock) (id : nat) (fulfilled : bool) (s : wq) : wq :=
  match find_index (fun e => Nat.eqb (e_id e) id) (runningPromises s) with
  | None => s
  | Some i =>
    match runningPromises s !! i with
    | None => s
    | Some e =>
      let s1 := checkForNext c (mkWq (concurrencyLimit s) (delete i (runningPromises s))
                  (runningLoad s - e_load e) (queue s) (lastLogTs s) (log s) (settled s) (nextId s)) in
      mkWq (concurrencyLimit s1) (runningPromises s1) (runningLoad s1) (queue s1) (lastLogTs s1)
        (if fulfilled then log s1 else log s1 ++ [("error", e_label e, 0)])
        (settled s1 ++ [(id, fulfilled)]) (nextId s1)
    end
  end.

(** The test of [#adjustPriority] on one entry. *)
Definition due (checkTime : Z) (e : entry) : bool :=
  INCREASE_PRIORITY_AFTER * MIN_TO_MS
    <? math_round_div (checkTime - effective_start e) NANO_TO_MS.

(** The inner loop of [#adjustPriority]: [splice] shortens the array while the
    index goes on. *)
Fixpoint adjust_loop (fuel i : nat) (checkTime : Z) (q nq : list entry) : list entry * list entry :=
  match fuel with
  | O => (q, nq)
  | S fuel =>
    match q !! i with
    | None => (q, nq)
    | Some e =>
      if negb (e_increase e) then adjust_loop fuel (S i) checkTime q nq
      else if due checkTime e
        then adjust_loop fuel (S i) checkTime (delete i q) (nq ++ [push_shift checkTime e])
        else adjust_loop fuel (S i) checkTime q nq
    end
  end.

Definition adjust_pair (checkTime : Z) (pn : Priorities * Priorities) (q : queues) : queues :=
  let '(p, n) := pn in
  let '(l, nl) := adjust_loop (length (qget p q)) 0 checkTime (qget p q) (qget n q) in
  qset n nl (qset p l q).

(** [#adjustPriority()] *)
Definition adjustPriority (checkTime : Z) (s : wq) : wq :=
  set_queue (fold_left (fun q pn => adjust_pair checkTime pn q)
    [(Low, Medium); (Medium, High); (High, VeryHigh)] (queue s)) s.

(** ** Runs *)

Inductive op :=
| OAdd (c : clock) (load : Z) (label : string) (priority : option string) (increase : bool)
| OFinish (c : clock) (id : nat) (fulfilled : bool)
| OAdjust (checkTime : Z).

Definition step (o : op) (s : wq) : wq :=
  match o with
  | OAdd c load label priority increase =>
    match addToQueue c load label priority increase s with Ok (_, s') => s' | Err _ => s end
  | OFinish c id fulfilled => finish c id fulfilled s
  | OAdjust t => adjustPriority t s
  end.

Definition nonneg_op (o : op) : Prop :=
  match o with OAdd _ load _ _ _ => 0 <= load | _ => True end.

Definition positive_op (o : op) : Prop :=
  match o with OAdd _ load _ _ _ => 0 < load | _ => True end.

(** ** Lemmas on the priority queues *)

Lemma qget_qset_eq p l q : qget p (qset p l q) = l.
Proof. by destruct p. Qed.

Lemma qget_qset_ne p p' l q : p <> p' -> qget p' (qset p l q) = qget p' q.
Proof. by destruct p, p'. Qed.

Lemma queued_qset_perm p l q e :
  qget p q ≡ₚ e :: l -> queued q ≡ₚ e :: queued (qset p l q).
Proof. destruct p; simpl; intros H; unfold queued; simpl; rewrite H; solve_Permutation. Qed.

Lemma queued_delete p i q e :
  qget p q !! i = Some e -> queued q ≡ₚ e :: queued (qset p (delete i (qget p q)) q).
Proof. intros H. apply queued_qset_perm. by apply lookup_delete_perm. Qed.

Lemma queued_push p q e : queued (qset p (qget p q ++ [e]) q) ≡ₚ e :: queued q.
Proof. destruct p; unfold queued; simpl; solve_Permutation. Qed.

Lemma qget_queued p q e : e ∈ qget p q -> e ∈ queued q.
Proof. destruct p; unfold queued; simpl; set_solver. Qed.

Lemma queued_qget q e : e ∈ queued q -> exists p, e ∈ qget p q /\ p ∈ PRIORITIES.
Proof.
  unfold queued. rewrite !elem_of_app.
  intros [H|[H|[H|H]]]; [exists VeryHigh | exists High | exists Medium | exists Low];
    (split; [exact H | unfold PRIORITIES; simpl; set_solver]).
Qed.

(** ** Starting entries *)

Lemma start_entry_fields c p e s :
  let s' := start_entry c p e s in
  concurrencyLimit s' = concurrencyLimit s /\ runningPromises s' = runningPromises s ++ [e] /\
  runningLoad s' = runningLoad s + e_load e /\ queue s' = queue s /\
  settled s' = settled s /\ nextId s' = nextId s.
Proof. unfold start_entry, checkAndLogWaitingTime. case_goal; repeat split. Qed.

Lemma find_fit_Some ps s p i :
  find_fit ps s = Some (p, i) ->
  exists ps1 ps2 e, ps = ps1 ++ p :: ps2 /\ qget p (queue s) !! i = Some e /\ fits s e = true /\
    (forall j e', (j < i)%nat -> qget p (queue s) !! j = Some e' -> fits s e' = false) /\
    Forall (fun p' => Forall (fun e' => fits s e' = false) (qget p' (queue s))) ps1.
Proof.
  induction ps as [|q ps IH]; simpl; [discriminate|].
  destruct (find_index (fits s) (qget q (queue s))) as [k|] eqn:F.
  - intros [= -> ->]. apply find_index_Some in F as (e & He & Hf & Hj).
    exists [], ps, e. split_and!; auto.
  - intros H. apply IH in H as (ps1 & ps2 & e & -> & He & Hf & Hj & H1).
    exists (q :: ps1), ps2, e. split_and!; auto. constructor; [by apply find_index_None | done].
Qed.

Lemma find_fit_None ps s :
  find_fit ps s = None ->
  Forall (fun p' => Forall (fun e' => fits s e' = false) (qget p' (queue s))) ps.
Proof.
  induction ps as [|q ps IH]; simpl; [done|].
  destruct (find_index (fits s) (qget q (queue s))) as [k|] eqn:F; [discriminate|].
  intros H. constructor; [by apply find_index_None | auto].
Qed.

(** One iteration of [#checkForNext]: the state after the entry it starts. *)
Definition next_start (c : clock) (s : wq) : option wq :=
  if bool_decide (queued (queue s) = []) || (runningLoad s =? concurrencyLimit s) then None
  else
    match find_fit PRIORITIES s with
    | None => None
    | Some (p, i) =>
      (fun e => start_entry c p e (set_queue (qset p (delete i (qget p (queue s))) (queue s)) s))
        <$> qget p (queue s) !! i
    end.

Lemma next_start_Some c s s' :
  next_start c s = Some s' ->
  exists e, fits s e = true /\ queued (queue s) ≡ₚ e :: queued (queue s') /\
    concurrencyLimit s' = concurrencyLimit s /\ runningPromises s' = runningPromises s ++ [e] /\
    runningLoad s' = runningLoad s + e_load e /\ settled s' = settled s /\ nextId s' = nextId s.
Proof.
  unfold next_start. destruct (_ || _); [discriminate|].
  destruct (find_fit PRIORITIES s) as [[p i]|] eqn:F; [|discriminate].
  apply find_fit_Some in F as (_ & _ & e & _ & He & Hf & _ & _). rewrite He.
  intros [= <-]. exists e. pose proof (start_entry_fields c p e
    (set_queue (qset p (delete i (qget p (queue s))) (queue s)) s)) as (-> & -> & -> & -> & -> & ->).
  split_and!; auto. by apply queued_delete.
Qed.

Lemma next_start_None c s :
  next_start c s = None ->
  Forall (fun e => 0 < e_load e) (queued (queue s)) ->
  Forall (fun e => fits s e = false) (queued (queue s)).
Proof.
  unfold next_start. intros H Hpos. apply Forall_forall. intros e He.
  rewrite Forall_forall in Hpos. specialize (Hpos _ He).
  destruct (bool_decide (queued (queue s) = [])) eqn:B1; cbn [orb] in H.
  { apply bool_decide_eq_true in B1. rewrite B1 in He. by apply elem_of_nil in He. }
  destruct (runningLoad s =? concurrencyLimit s) eqn:B2.
  { zbool. unfold fits. apply Z.leb_gt. lia. }
  destruct (find_fit PRIORITIES s) as [[p i]|] eqn:F.
  { apply find_fit_Some in F as (_ & _ & e' & _ & He' & _). by rewrite He' in H. }
  apply queued_qget in He as (p & Hp & Hin). apply find_fit_None in F.
  rewrite Forall_forall in F. specialize (F _ Hin). rewrite Forall_forall in F. by apply F.
Qed.

Lemma checkForNext_fuel_S fuel c s :
  checkForNext_fuel (S fuel) c s =
  match next_start c s with None => s | Some s' => checkForNext_fuel fuel c s' end.
Proof.
  cbn [checkForNext_fuel]. unfold next_start. destruct (_ || _) eqn:G; [done|].
  destruct (find_fit PRIORITIES s) as [[p i]|]; [|done].
  destruct (qget p (queue s) !! i) as [e|]; [|done]. cbn [fmap option_fmap option_map].
  unfold executeFunction. case_goal; [done|].
  apply negb_false_iff in Heqb. destruct fuel; [done|]. cbn [checkForNext_fuel].
  by rewrite Heqb, orb_true_r.
Qed.

Lemma checkForNext_fuel_preserves (P : wq -> Prop) c fuel s :
  (forall s s', next_start c s = Some s' -> P s -> P s') -> P s -> P (checkForNext_fuel fuel c s).
Proof.
  intros HP. revert s. induction fuel as [|fuel IH]; intros s Hs; [done|].
  rewrite checkForNext_fuel_S. destruct (next_start c s) eqn:E; [|done]. apply IH. eauto.
Qed.

(** The fuel is enough: nothing more can be started afterwards. *)
Lemma checkForNext_fuel_done c fuel s :
  (length (queued (queue s)) < fuel)%nat -> next_start c (checkForNext_fuel fuel c s) = None.
Proof.
  revert s. induction fuel as [|fuel IH]; intros s Hl; [lia|].
  rewrite checkForNext_fuel_S. destruct (next_start c s) eqn:E; [|done].
  apply IH. apply next_start_Some in E as (e & _ & Hp & _).
  apply Permutation_length in Hp. simpl in Hp. lia.
Qed.

Lemma checkForNext_done c s : next_start c (checkForNext c s) = None.
Proof. apply checkForNext_fuel_done. lia. Qed.

Lemma checkForNext_preserves (P : wq -> Prop) c s :
  (forall s s', next_start c s = Some s' -> P s -> P s') -> P s -> P (checkForNext c s).
Proof. apply checkForNext_fuel_preserves. Qed.

(** ** The priority adjustment *)

(** What the inner loop does, without indices: the entry behind a promoted one is
    skipped. *)
Fixpoint scan (checkTime : Z) (l : list entry) : list entry * list entry :=
  match l with
  | [] => ([], [])
  | e :: r =>
    if e_increase e && due checkTime e then
      match r with
      | [] => ([], [push_shift checkTime e])
      | e2 :: r2 =>
        let '(kept, moved) := scan checkTime r2 in
        (e2 :: kept, push_shift checkTime e :: moved)
      end
    else let '(kept, moved) := scan checkTime r in (e :: kept, moved)
  end.

Lemma adjust_loop_scan_go n t pre rest nq fuel :
  (length rest <= n)%nat -> (length rest <= fuel)%nat ->
  adjust_loop fuel (length pre) t (pre ++ rest) nq =
  (pre ++ (scan t rest).1, nq ++ (scan t rest).2).
Proof.
  revert pre rest nq fuel. induction n as [|n IH]; intros pre rest nq fuel Hn Hf.
  { destruct rest; simpl in *; [|lia]. destruct fuel; simpl; [by rewrite !app_nil_r|].
    rewrite lookup_ge_None_2 by (rewrite app_nil_r; lia). by rewrite !app_nil_r. }
  destruct rest as [|e r].
  { destruct fuel; simpl; [by rewrite !app_nil_r|].
    rewrite lookup_ge_None_2 by (rewrite app_nil_r; lia). by rewrite !app_nil_r. }
  destruct fuel as [|fuel]; [simpl in Hf; lia|]. cbn [adjust_loop].
  rewrite list_lookup_middle by done. simpl in Hn, Hf.
  assert (Hkeep : adjust_loop fuel (S (length pre)) t (pre ++ e :: r) nq =
            ((pre ++ [e]) ++ (scan t r).1, nq ++ (scan t r).2)).
  { replace (S (length pre)) with (length (pre ++ [e])) by (rewrite length_app; simpl; lia).
    replace (pre ++ e :: r) with ((pre ++ [e]) ++ r) by (by rewrite <- app_assoc).
    apply IH; lia. }
  cbn [scan]. destruct (e_increase e); cbn [negb andb];
    [|rewrite Hkeep; by destruct (scan t r); rewrite <- app_assoc].
  destruct (due t e); [|rewrite Hkeep; by destruct (scan t r); rewrite <- app_assoc].
  rewrite delete_middle. destruct r as [|e2 r2].
  - destruct fuel; simpl; rewrite ?app_nil_r; [done|].
    by rewrite lookup_ge_None_2 by lia.
  - replace (S (length pre)) with (length (pre ++ [e2])) by (rewrite length_app; simpl; lia).
    replace (pre ++ e2 :: r2) with ((pre ++ [e2]) ++ r2) by (by rewrite <- app_assoc).
    simpl in Hn, Hf. rewrite IH by lia.
    destruct (scan t r2); simpl. by rewrite <- !app_assoc.
Qed.

Lemma adjust_loop_eq_scan t q nq :
  adjust_loop (length q) 0 t q nq = ((scan t q).1, nq ++ (scan t q).2).
Proof. apply (adjust_loop_scan_go (length q) t [] q nq); lia. Qed.

Lemma scan_ids t n l :
  (length l <= n)%nat -> e_id <$> ((scan t l).1 ++ (scan t l).2) ≡ₚ e_id <$> l.
Proof.
  revert l. induction n as [|n IH]; intros [|e r] Hn; simpl in *; try done; try lia.
  destruct (e_increase e && due t e).
  - destruct r as [|e2 r2]; [done|]. simpl in Hn. specialize (IH r2).
    destruct (scan t r2) as [k m]; csimpl in *. rewrite fmap_app in *. csimpl.
    rewrite <- IH by lia. solve_Permutation.
  - specialize (IH r). destruct (scan t r) as [k m]; csimpl in *. by rewrite IH by lia.
Qed.

Lemma scan_Forall (P : entry -> Prop) t n l :
  (forall e, P e -> P (push_shift t e)) -> (length l <= n)%nat ->
  Forall P l -> Forall P (scan t l).1 /\ Forall P (scan t l).2.
Proof.
  intros HP. revert l. induction n as [|n IH]; intros [|e r] Hn Hl; simpl in *; try lia;
    [by split..|].
  apply Forall_cons in Hl as [He Hr]. destruct (e_increase e && due t e).
  - destruct r as [|e2 r2]; [split; repeat constructor; by auto|]. simpl in Hn.
    apply Forall_cons in Hr as [H2 Hr2]. specialize (IH r2 ltac:(lia) Hr2).
    destruct (scan t r2); simpl in *. destruct IH. split; constructor; auto.
  - specialize (IH r ltac:(lia) Hr). destruct (scan t r); simpl in *.
    destruct IH. split; auto.
Qed.

Lemma adjust_pair_ids t pn q :
  pn.1 <> pn.2 -> e_id <$> queued (adjust_pair t pn q) ≡ₚ e_id <$> queued q.
Proof.
  destruct pn as [p n]. intros Hne. cbn [fst snd] in Hne. unfold adjust_pair.
  rewrite adjust_loop_eq_scan.
  pose proof (scan_ids t _ (qget p q) ltac:(reflexivity)) as H.
  destruct (scan t (qget p q)) as [k m]. cbn [fst snd] in *.
  unfold queued. destruct p, n; try done; cbn [qget qset qLow qMedium qHigh qVeryHigh] in *;
    rewrite !fmap_app in *; rewrite <- H; solve_Permutation.
Qed.

Lemma adjust_pair_Forall (P : entry -> Prop) t pn q :
  (forall e, P e -> P (push_shift t e)) ->
  Forall P (queued q) -> Forall P (queued (adjust_pair t pn q)).
Proof.
  intros HP Hq. destruct pn as [p n]. unfold adjust_pair. rewrite adjust_loop_eq_scan.
  unfold queued in *. rewrite !Forall_app in Hq. destruct Hq as (H1 & H2 & H3 & H4).
  assert (Hp : Forall P (qget p q)) by (destruct p; done).
  destruct (scan_Forall P t _ _ HP ltac:(reflexivity) Hp) as [Hk Hm].
  destruct p, n; cbn [qget qset qLow qMedium qHigh qVeryHigh] in *;
    rewrite !Forall_app; split_and!; auto.
Qed.

Lemma adjustPriority_Forall (P : entry -> Prop) t s :
  (forall e, P e -> P (push_shift t e)) ->
  Forall P (queued (queue s)) -> Forall P (queued (queue (adjustPriority t s))).
Proof.
  intros HP H. unfold adjustPriority. cbn [fold_left queue set_queue].
  repeat (apply adjust_pair_Forall; [exact HP|]). exact H.
Qed.

Lemma adjustPriority_ids t s :
  e_id <$> queued (queue (adjustPriority t s)) ≡ₚ e_id <$> queued (queue s).
Proof.
  unfold adjustPriority. cbn [fold_left queue set_queue].
  by rewrite !adjust_pair_ids.
Qed.

(** ** Invariants *)

(** The running load is the sum of the loads of the running entries and stays
    within the limit; every known entry has an admissible load. *)
Definition load_inv (s : wq) : Prop :=
  runningLoad s = sumZ e_load (runningPromises s) /\
  runningLoad s <= concurrencyLimit s /\
  Forall (fun e => 0 <= e_load e <= concurrencyLimit s) (runningPromises s ++ queued (queue s)).

(** No waiting entry could be started. *)
Definition saturated (s : wq) : Prop :=
  Forall (fun e => 0 < e_load e) (queued (queue s)) /\
  Forall (fun e => fits s e = false) (queued (queue s)).

(** Every entry that was ever accepted is waiting, running or settled, once. *)
Definition tasks (s : wq) : list nat :=
  (e_id <$> queued (queue s)) ++ (e_id <$> runningPromises s) ++ (settled s).*1.

Definition conserved (s : wq) : Prop := tasks s ≡ₚ seq 0 (nextId s).

Lemma next_start_load_inv c s s' : next_start c s = Some s' -> load_inv s -> load_inv s'.
Proof.
  intros (e & Hf & Hp & Hc & Hr & Hl & _)%next_start_Some (H1 & H2 & H3).
  unfold load_inv. rewrite Hc, Hr, Hl, sumZ_app. unfold fits in Hf. zbool.
  split_and!; [unfold sumZ in *; simpl; lia | lia |].
  rewrite Hp in H3. rewrite <- app_assoc. exact H3.
Qed.

Lemma next_start_positive c s s' :
  next_start c s = Some s' ->
  Forall (fun e => 0 < e_load e) (queued (queue s)) ->
  Forall (fun e => 0 < e_load e) (queued (queue s')).
Proof. intros (e & _ & Hp & _)%next_start_Some H. rewrite Hp in H. by apply Forall_cons in H as [_ H]. Qed.

Lemma next_start_tasks c s s' :
  next_start c s = Some s' -> tasks s' ≡ₚ tasks s /\ nextId s' = nextId s.
Proof.
  intros (e & _ & Hp & _ & Hr & _ & Hs & Hn)%next_start_Some. split; [|done].
  unfold tasks. rewrite Hp, Hr, Hs, fmap_app. csimpl. solve_Permutation.
Qed.

Lemma checkForNext_load_inv c s : load_inv s -> load_inv (checkForNext c s).
Proof. apply checkForNext_preserves. intros. by eapply next_start_load_inv. Qed.

Lemma checkForNext_tasks c s :
  tasks (checkForNext c s) ≡ₚ tasks s /\ nextId (checkForNext c s) = nextId s.
Proof.
  apply (checkForNext_preserves (fun s' => tasks s' ≡ₚ tasks s /\ nextId s' = nextId s)); [|done].
  intros s1 s2 [H1 H2]%next_start_tasks [H3 H4]. split; [by rewrite H1 | congruence].
Qed.

Lemma checkForNext_saturated c s :
  Forall (fun e => 0 < e_load e) (queued (queue s)) -> saturated (checkForNext c s).
Proof.
  intros H. assert (H' : Forall (fun e => 0 < e_load e) (queued (queue (checkForNext c s)))).
  { apply (checkForNext_preserves (fun s1 => Forall (fun e => 0 < e_load e) (queued (queue s1)))).
    - intros. by eapply next_start_positive.
    - exact H. }
  split; [done|]. apply (next_start_None c); [apply checkForNext_done | done].
Qed.

#[export] Hint Resolve checkForNext_load_inv checkForNext_saturated : evq.

Lemma step_load_inv o s : nonneg_op o -> load_inv s -> load_inv (step o s).
Proof.
  destruct o as [c load label priority increase | c id ok | t]; intros Hg (H1 & H2 & H3); simpl in *.
  - unfold addToQueue. destruct (_ <? load) eqn:L; [done|].
    destruct (priority_of_name _) as [p|]; [|done].
    apply checkForNext_load_inv. zbool. split_and!; simpl; auto.
    rewrite queued_push. apply Forall_app in H3 as [Ha Hb].
    apply Forall_app. split; [done|]. constructor; [simpl; lia | done].
  - unfold finish. destruct (find_index _ _) as [i|]; [|done].
    destruct (runningPromises s !! i) as [e|] eqn:E; [|done].
    apply lookup_delete_perm in E. rewrite E in H3.
    apply (sumZ_perm e_load) in E. unfold sumZ in E; simpl in E. fold (sumZ e_load) in *.
    assert (Hi : load_inv (checkForNext c (mkWq (concurrencyLimit s) (delete i (runningPromises s))
                  (runningLoad s - e_load e) (queue s) (lastLogTs s) (log s) (settled s) (nextId s)))).
    { simpl in H3. apply Forall_cons in H3 as [He H3].
      apply checkForNext_load_inv. split_and!; simpl; [unfold sumZ in *; lia | lia | done]. }
    exact Hi.
  - split_and!; [exact H1 | exact H2 |]. apply Forall_app in H3 as [Ha Hb].
    apply Forall_app. split; [exact Ha|]. apply adjustPriority_Forall; [|exact Hb]. auto.
Qed.

Lemma new_load_inv concurrency : load_inv (new concurrency).
Proof.
  unfold load_inv, new, queued; simpl. split_and!; [done | | done].
  destruct concurrency as [z|]; [|lia]. destruct (z <=? 0) eqn:E; zbool; lia.
Qed.

Lemma step_saturated o s : positive_op o -> saturated s -> saturated (step o s).
Proof.
  destruct o as [c load label priority increase | c id ok | t]; intros Hg [H1 H2]; simpl in *.
  - unfold addToQueue. destruct (_ <? load); [done|]. destruct (priority_of_name _); [|done].
    apply checkForNext_saturated. simpl. rewrite queued_push. by constructor.
  - unfold finish. destruct (find_index _ _) as [i|]; [|done].
    destruct (runningPromises s !! i) as [e|]; [|done].
    assert (Hi : saturated (checkForNext c (mkWq (concurrencyLimit s) (delete i (runningPromises s))
                  (runningLoad s - e_load e) (queue s) (lastLogTs s) (log s) (settled s) (nextId s)))).
    { by apply checkForNext_saturated. }
    exact Hi.
  - split; (apply adjustPriority_Forall; [auto | done]).
Qed.

Lemma step_conserved o s : conserved s -> conserved (step o s).
Proof.
  unfold conserved. destruct o as [c load label priority increase | c id ok | t]; intros H; simpl.
  - unfold addToQueue. destruct (_ <? load); [done|]. destruct (priority_of_name _); [|done].
    destruct (checkForNext_tasks c (mkWq (concurrencyLimit s) (runningPromises s) (runningLoad s)
      (qset p (qget p (queue s) ++ [mkEntry load label (nextId s) increase (hr c) []]) (queue s))
            (lastLogTs s) (log s) (settled s) (S (nextId s)))) as [-> ->].
    unfold tasks in *. cbn [queue runningPromises settled nextId].
    rewrite queued_push. rewrite seq_S. csimpl. rewrite H. solve_Permutation.
  - unfold finish. destruct (find_index _ _) as [i|] eqn:F; [|done].
    apply find_index_Some in F as (e & He & Hid & _). apply Nat.eqb_eq in Hid.
    rewrite He. pose proof (lookup_delete_perm _ _ _ He) as Hd.
    destruct (checkForNext_tasks c (mkWq (concurrencyLimit s) (delete i (runningPromises s))
                  (runningLoad s - e_load e) (queue s) (lastLogTs s) (log s) (settled s) (nextId s)))
      as [Ht Hn].
    set (s1 := checkForNext _ _) in *. unfold tasks in *.
    cbn [queue runningPromises settled nextId concurrencyLimit] in *. rewrite Hn, <- H.
    rewrite fmap_app. csimpl.
    rewrite (Permutation_app_comm (s1.(settled).*1) [id]).
    rewrite Hd. csimpl. rewrite Hid.
    transitivity (id :: (e_id <$> queued (queue s1)) ++ (e_id <$> runningPromises s1) ++ (settled s1).*1);
      [solve_Permutation|]. rewrite Ht. solve_Permutation.
  - unfold tasks in *. cbn [runningPromises settled nextId set_queue adjustPriority].
    rewrite <- H. by rewrite adjustPriority_ids.
Qed.

(** ** Properties *)

(** C28. Whatever tasks with a non-negative load are added, finish and are
    re-prioritised, the running load of the instance is exactly the sum of the loads
    of the running tasks and never exceeds the concurrency limit. *)
Theorem running_load_bounded concurrency ops :
  Forall nonneg_op ops ->
  let s := run step ops (new concurrency) in
  runningLoad s = sumZ e_load (runningPromises s) /\ 0 <= runningLoad s <= concurrencyLimit s.
Proof.
  intros H s.
  destruct (run_invariant step load_inv nonneg_op step_load_inv ops _ H (new_load_inv concurrency))
    as (H1 & H2 & H3). fold s in H1, H2, H3. apply Forall_app in H3 as [H3 _].
  split_and!; [done | | done]. rewrite H1. apply sumZ_nonneg.
  eapply Forall_impl; [exact H3|]. simpl. lia.
Qed.

(** A waiting task does not fit; it waits for a running one. *)
Lemma saturated_waits s e : saturated s -> e ∈ queued (queue s) -> concurrencyLimit s < runningLoad s + e_load e.
Proof. intros [_ Hs] He. rewrite Forall_forall in Hs. specialize (Hs e He). unfold fits in Hs. zbool. lia. Qed.

Lemma idle_empty s : saturated s -> load_inv s -> runningPromises s = [] -> queued (queue s) = [].
Proof.
  intros Hs (H1 & H2 & H3) Hr. destruct (queued (queue s)) as [|e l] eqn:Q; [done|]. exfalso.
  assert (Hw := saturated_waits s e Hs). rewrite Q in Hw. specialize (Hw (list_elem_of_here _ _)).
  rewrite Hr, ?Q in *. rewrite app_nil_l in H3. apply Forall_cons in H3 as [H3 _]. simpl in H1. lia.
Qed.

(** The states runs reach. *)
Record reached (s : wq) : Prop := {
  re_saturated : saturated s;
  re_load : load_inv s;
  re_conserved : conserved s }.

Lemma run_reached concurrency ops : Forall positive_op ops -> reached (run step ops (new concurrency)).
Proof.
  intros H. split.
  - apply (run_invariant step saturated positive_op step_saturated ops); [done|]. by split.
  - apply (run_invariant step load_inv nonneg_op step_load_inv ops); [|apply new_load_inv].
    eapply Forall_impl; [exact H|]. intros []; simpl; lia.
  - apply (run_invariant step conserved (fun _ => True)); [intros; by apply step_conserved | by apply Forall_true |].
    unfold conserved, tasks, queued. simpl. reflexivity.
Qed.

Lemma finish_reached c id ok s : reached s -> reached (finish c id ok s).
Proof.
  intros [H1 H2 H3]. change (finish c id ok s) with (step (OFinish c id ok) s).
  split; [by apply step_saturated | by apply step_load_inv | by apply step_conserved].
Qed.

(** The queue is work conserving: with positive loads, in every reachable state
    each waiting task would exceed the limit if it were started now; in particular
    tasks only wait while something runs, so the queue cannot get stuck. *)
Theorem work_conserving concurrency ops :
  Forall positive_op ops ->
  let s := run step ops (new concurrency) in
  (forall e, e ∈ queued (queue s) -> concurrencyLimit s < runningLoad s + e_load e) /\
  (runningPromises s = [] -> queued (queue s) = []).
Proof.
  intros H s. destruct (run_reached concurrency ops H) as [Hs Hl _]. split.
  - intros e. by apply saturated_waits.
  - by apply idle_empty.
Qed.

(** ** The queue drains *)

(** The tasks that are not settled yet. *)
Definition pending (s : wq) : nat := (length (queued (queue s)) + length (runningPromises s))%nat.

Lemma checkForNext_pending c s : pending (checkForNext c s) = pending s.
Proof.
  apply (checkForNext_preserves (fun s' => pending s' = pending s)); [|done].
  intros s1 s2 (e & _ & Hp & _ & Hr & _)%next_start_Some <-. unfold pending. rewrite Hr, length_app.
  apply Permutation_length in Hp. rewrite Hp. simpl. lia.
Qed.

Lemma finish_pending c id ok s :
  id ∈ e_id <$> runningPromises s -> pending s = S (pending (finish c id ok s)).
Proof.
  intros (e0 & E & He0)%list_elem_of_fmap. unfold finish.
  destruct (find_index (fun e => Nat.eqb (e_id e) id) (runningPromises s)) as [i|] eqn:F.
  - apply find_index_Some in F as (e & He & _). rewrite He. cbn [pending queue runningPromises].
    set (s1 := mkWq _ (delete i (runningPromises s)) _ _ _ _ _ _). assert (P := checkForNext_pending c s1).
    unfold pending in *. cbn [queue runningPromises]. rewrite P. subst s1. cbn [queue runningPromises].
    apply lookup_delete_perm, Permutation_length in He. rewrite He. simpl. lia.
  - apply find_index_None in F. rewrite Forall_forall in F. specialize (F e0 He0). simpl in F.
    apply Nat.eqb_neq in F. congruence.
Qed.

(** [n] running tasks settle one after the other, in the order [pick] chooses. *)
Fixpoint drain (pick : wq -> nat) (c : nat -> clock) (ok : nat -> bool) (n : nat) (s : wq) : wq :=
  match n with O => s | S n => drain pick c ok n (finish (c n) (pick s) (ok n) s) end.

(** C29. Every accepted task is executed: from every reachable state, if no tasks are added
    any more and the running ones settle, one after the other in any order, fulfilled or
    rejected, then after as many settlements as there are unsettled tasks nothing waits or
    runs, and each task that was ever accepted is settled exactly once. *)
Theorem queue_drains concurrency ops pick c ok :
  Forall positive_op ops ->
  (forall s, runningPromises s <> [] -> pick s ∈ e_id <$> runningPromises s) ->
  let s := run step ops (new concurrency) in
  let s' := drain pick c ok (pending s) s in
  queued (queue s') = [] /\ runningPromises s' = [] /\ (settled s').*1 ≡ₚ seq 0 (nextId s').
Proof.
  intros Hops Hpick s. assert (G : forall n s, reached s -> pending s = n -> reached (drain pick c ok n s) /\ pending (drain pick c ok n s) = 0%nat).
  { induction n as [|n IH]; intros s0 R P; simpl; [done|]. destruct (runningPromises s0) as [|e l] eqn:Q.
    - exfalso. assert (E := idle_empty s0 (re_saturated _ R) (re_load _ R) Q). unfold pending in P. by rewrite E, Q in P.
    - apply IH; [by apply finish_reached|].
      assert (F := finish_pending (c n) (pick s0) (ok n) s0). rewrite F in P; [by injection P|]. apply Hpick. by rewrite Q. }
  destruct (G (pending s) s (run_reached concurrency ops Hops) eq_refl) as [[_ _ C] P]. intros s'. fold s' in C, P.
  unfold pending in P. assert (Q : queued (queue s') = []) by (apply nil_length_inv; lia).
  assert (Rn : runningPromises s' = []) by (apply nil_length_inv; lia). split_and!; [done..|].
  unfold conserved, tasks in C. by rewrite Q, Rn in C.
Qed.

(** No task is lost or duplicated: in every reachable state the accepted tasks
    are exactly the waiting, running and settled ones, each once. *)
Theorem tasks_conserved concurrency ops :
  let s := run step ops (new concurrency) in
  (e_id <$> queued (queue s)) ++ (e_id <$> runningPromises s) ++ (settled s).*1
    ≡ₚ seq 0 (nextId s).
Proof.
  intros s. apply (run_invariant step conserved (fun _ => True)).
  - intros; by apply step_conserved.
  - by apply Forall_true.
  - unfold conserved, tasks, queued. simpl. reflexivity.
Qed.

Lemma checkForNext_step c s :
  checkForNext c s = match next_start c s with None => s | Some s' => checkForNext c s' end.
Proof.
  unfold checkForNext. rewrite checkForNext_fuel_S. destruct (next_start c s) eqn:E; [|done].
  apply next_start_Some in E as (e & _ & Hp & _). apply Permutation_length in Hp.
  rewrite Hp. done.
Qed.

(** The entry that is started next is the one the priorities ask for: it fits,
    no entry of a higher priority fits, and no earlier entry of its own priority
    fits; the remaining entries are then considered the same way. *)
Theorem started_by_priority c s s' :
  next_start c s = Some s' ->
  exists hi p lo i e,
    PRIORITIES = hi ++ p :: lo /\ qget p (queue s) !! i = Some e /\ fits s e = true /\
    Forall (fun p' => Forall (fun e' => fits s e' = false) (qget p' (queue s))) hi /\
    (forall j e', (j < i)%nat -> qget p (queue s) !! j = Some e' -> fits s e' = false) /\
    runningPromises s' = runningPromises s ++ [e] /\
    queue s' = qset p (delete i (qget p (queue s))) (queue s) /\
    checkForNext c s = checkForNext c s'.
Proof.
  intros H. rewrite (checkForNext_step c s), H. unfold next_start in H.
  destruct (_ || _); [discriminate|].
  destruct (find_fit PRIORITIES s) as [[p i]|] eqn:F; [|discriminate].
  apply find_fit_Some in F as (hi & lo & e & HP & He & Hf & Hj & Hhi).
  rewrite He in H. injection H as <-.
  destruct (start_entry_fields c p e (set_queue (qset p (delete i (qget p (queue s))) (queue s)) s))
    as (_ & Hr & _ & Hq & _ & _).
  exists hi, p, lo, i, e. rewrite Hr, Hq. split_and!; auto.
Qed.

Definition demo_clock : clock := mkClock 0 0.

(** A busy instance: one running task, one waiting for capacity and one that fits. *)
Definition demo : wq :=
  mkWq 10 [mkEntry 6 "run" 0 true 0 []] 6
    (mkQueues [] [mkEntry 4 "small" 2 true 0 []] [mkEntry 8 "big" 1 true 0 []] [])
    (Some 0) [] [] 3.

Lemma started_by_priority_witness :
  exists s', next_start demo_clock demo = Some s' /\
    exists hi p lo i e,
    PRIORITIES = hi ++ p :: lo /\ qget p (queue demo) !! i = Some e /\ fits demo e = true /\
    Forall (fun p' => Forall (fun e' => fits demo e' = false) (qget p' (queue demo))) hi /\
    (forall j e', (j < i)%nat -> qget p (queue demo) !! j = Some e' -> fits demo e' = false) /\
    runningPromises s' = runningPromises demo ++ [e] /\
    queue s' = qset p (delete i (qget p (queue demo))) (queue demo) /\
    checkForNext demo_clock demo = checkForNext demo_clock s'.
Proof.
  eexists. split; [vm_compute; reflexivity|].
  apply (started_by_priority demo_clock demo). vm_compute. reflexivity.
Defined.

Definition demo_ops : list op :=
  [OAdd demo_clock 6 "a" None true; OAdd demo_clock 6 "b" (Some "high") true;
   OFinish demo_clock 0 true; OAdjust 0].

Lemma running_load_bounded_witness :
  let s := run step demo_ops (new (Some 10)) in
  runningLoad s = sumZ e_load (runningPromises s) /\ 0 <= runningLoad s <= concurrencyLimit s.
Proof.
  apply (running_load_bounded (Some 10) demo_ops).
  repeat constructor; simpl; lia.
Defined.

Lemma work_conserving_witness :
  let s := run step demo_ops (new (Some 10)) in
  (forall e, e ∈ queued (queue s) -> concurrencyLimit s < runningLoad s + e_load e) /\
  (runningPromises s = [] -> queued (queue s) = []).
Proof.
  apply (work_conserving (Some 10) demo_ops).
  repeat constructor; simpl; lia.
Defined.

(** The first running task settles. *)
Definition pick_first (s : wq) : nat := default 0%nat (head (e_id <$> runningPromises s)).

Lemma queue_drains_witness :
  let s := run step demo_ops (new (Some 10)) in
  let s' := drain pick_first (fun _ => demo_clock) (fun _ => true) (pending s) s in
  pending s = 1%nat /\ queued (queue s') = [] /\ runningPromises s' = [] /\ (settled s').*1 ≡ₚ seq 0 (nextId s').
Proof.
  split; [vm_compute; reflexivity|].
  apply (queue_drains (Some 10) demo_ops pick_first (fun _ => demo_clock) (fun _ => true)).
  - repeat constructor; simpl; lia.
  - intros s Hs. unfold pick_first. destruct (runningPromises s) as [|e l]; [done|]. left.
Defined.

(** The index loop of the priority adjustment promotes exactly the flagged and
    overdue entries that do not directly follow a promoted one: [splice] shifts the
    next entry under the index that the loop then leaves. *)
Theorem adjust_loop_refines_scan t q nq :
  adjust_loop (length q) 0 t q nq = ((scan t q).1, nq ++ (scan t q).2).
Proof. apply adjust_loop_eq_scan. Qed.

(** Of two neighbouring overdue entries of the low queue only the first is
    promoted by one run of the adjustment. *)
Theorem adjustment_skips_neighbour t e1 e2 s :
  qget Low (queue s) = [e1; e2] ->
  e_increase e1 = true -> e_increase e2 = true -> due t e1 = true -> due t e2 = true ->
  qget Low (queue (adjustPriority t s)) = [e2].
Proof.
  intros Hq I1 I2 D1 D2. unfold adjustPriority. cbn [fold_left queue set_queue].
  assert (H : forall pn q, pn.1 <> Low -> pn.2 <> Low ->
            qget Low (adjust_pair t pn q) = qget Low q).
  { intros [p n] q ? ?. cbn [fst snd] in *. unfold adjust_pair.
    destruct (adjust_loop _ _ _ _ _) as [l nl]. by rewrite !qget_qset_ne. }
  rewrite !H by done. unfold adjust_pair. rewrite adjust_loop_eq_scan, Hq. cbn [scan].
  rewrite I1, D1. cbn [andb fst snd scan]. rewrite qget_qset_ne by done. apply qget_qset_eq.
Qed.

(** An entry that was already shifted once keeps its first shift time at index 7,
    so when it becomes due in the medium queue it is moved to the high queue and, in
    the same run of the adjustment, on to the very high queue. *)
Theorem second_shift_jumps_two_levels t e s :
  qget Low (queue s) = [] -> qget Medium (queue s) = [e] ->
  qget High (queue s) = [] -> qget VeryHigh (queue s) = [] ->
  e_increase e = true -> e_shifts e <> [] -> due t e = true ->
  queue (adjustPriority t s) = mkQueues [] [] [] [push_shift t (push_shift t e)].
Proof.
  destruct s as [cl rp rl [ql qm qh qv] ts lg st ni].
  cbn [qget queue qLow qMedium qHigh qVeryHigh]. intros -> -> -> -> I S D.
  assert (D' : due t (push_shift t e) = true).
  { unfold due, effective_start in *. destruct e as [? ? ? ? ? [|x xs]]; done. }
  assert (H1 : forall x, e_increase x = true -> due t x = true ->
            adjust_pair t (Medium, High) (mkQueues [] [x] [] []) = mkQueues [] [] [push_shift t x] [] /\
            adjust_pair t (High, VeryHigh) (mkQueues [] [] [x] []) = mkQueues [] [] [] [push_shift t x]).
  { intros x Ix Dx. unfold adjust_pair. rewrite !adjust_loop_eq_scan. cbn [qget qMedium qHigh scan].
    rewrite Ix, Dx. done. }
  unfold adjustPriority. cbn [fold_left queue set_queue].
  change (adjust_pair t (Low, Medium) (mkQueues [] [e] [] [])) with (mkQueues [] [e] [] []).
  destruct (H1 e I D) as [-> _]. destruct (H1 (push_shift t e) I D') as [_ ->]. done.
Qed.

Definition overdue (id : nat) (shifts : list Z) : entry := mkEntry 1 "x" id true 0 shifts.

Lemma adjustment_skips_neighbour_witness :
  let s := set_queue (mkQueues [overdue 0 []; overdue 1 []] [] [] []) demo in
  let t := 181 * 1000 * 1000000 in
  qget Low (queue (adjustPriority t s)) = [overdue 1 []].
Proof.
  intros s t.
  by apply (adjustment_skips_neighbour t (overdue 0 []) (overdue 1 []) s).
Defined.

Lemma second_shift_jumps_two_levels_witness :
  let s := set_queue (mkQueues [] [overdue 0 [1000000]] [] []) demo in
  let t := 181 * 1000 * 1000000 in
  queue (adjustPriority t s)
  = mkQueues [] [] [] [push_shift t (push_shift t (overdue 0 [1000000]))].
Proof.
  intros s t. by apply (second_shift_jumps_two_levels t (overdue 0 [1000000]) s).
Defined.
