(* ===== verification/Common.v ===== *)
(** * Shared helpers ([shared/common.js])

    Flat maps, chunked processing, [promiseAllDone], the [limiter] that bounds
    concurrent executions, and the tenant filter callback. *)

From S2P Require Import Prelude Js Errors.
#[local] Open Scope Z_scope.

(** ** arrayToFlatMap and cleanUndefined *)

(** [arrayToFlatMap(array, key)]: the last element of a key wins. *)
Definition arrayToFlatMap {A} (key : A -> string) (array : list A) : obj A :=
  fold_left (fun result element => oset (key element) element result) array [].

(** [cleanUndefined(input)] *)
Definition cleanUndefined (input : obj jsval) : obj jsval :=
  fold_left (fun acc kv => if is_undefined kv.2 then acc else oset kv.1 kv.2 acc) input [].

Section flat_map.
Context {A : Type} (key : A -> string).

Lemma fold_oset_okeys l (o : obj A) k :
  k ∈ okeys (fold_left (fun r e => oset (key e) e r) l o) <-> k ∈ okeys o \/ k ∈ key <$> l.
Proof.
  revert o. induction l as [|e l IH]; intros o; csimpl; [by rewrite elem_of_nil; tauto|].
  rewrite IH, okeys_oset_elem, elem_of_cons. tauto.
Qed.

Lemma fold_oset_NoDup l (o : obj A) :
  NoDup (okeys o) -> NoDup (okeys (fold_left (fun r e => oset (key e) e r) l o)).
Proof. revert o. induction l; simpl; auto with evq. Qed.

Lemma fold_oset_get l (o : obj A) k :
  NoDup (key <$> l) ->
  oget k (fold_left (fun r e => oset (key e) e r) l o) =
  match List.find (fun e => bool_decide (key e = k)) l with Some e => Some e | None => oget k o end.
Proof.
  revert o. induction l as [|e l IH]; intros o; csimpl; [done|].
  intros [Hn Hd]%NoDup_cons. rewrite IH by done. rewrite oget_oset.
  case_bool_decide as B.
  - rewrite decide_True by done.
    destruct (List.find (fun e => bool_decide (key e = k)) l) eqn:F; [|done].
    apply List.find_some in F as [Hin Hk]. apply bool_decide_eq_true in Hk. exfalso. apply Hn.
    rewrite B, <- Hk. apply list_elem_of_fmap. eexists. split; [done|]. by apply list_elem_of_In.
  - by rewrite decide_False.
Qed.

Lemma arrayToFlatMap_keys l k : k ∈ okeys (arrayToFlatMap key l) <-> k ∈ key <$> l.
Proof. unfold arrayToFlatMap. rewrite fold_oset_okeys. set_solver. Qed.

Lemma arrayToFlatMap_NoDup l : NoDup (okeys (arrayToFlatMap key l)).
Proof. apply fold_oset_NoDup. constructor. Qed.

Lemma arrayToFlatMap_has l k : ohas k (arrayToFlatMap key l) = true <-> k ∈ key <$> l.
Proof. by rewrite ohas_true, oget_okeys, arrayToFlatMap_keys. Qed.
End flat_map.

#[export] Hint Resolve arrayToFlatMap_NoDup : evq.

(** ** processChunkedSync *)

(** [Array.prototype.slice(start, end)] *)
Definition rel_index (len i : Z) : Z := if i <? 0 then Z.max (len + i) 0 else Z.min i len.

Definition slice {A} (l : list A) (s e : Z) : list A :=
  let len := Z.of_nat (length l) in
  take (Z.to_nat (rel_index len e) - Z.to_nat (rel_index len s)) (drop (Z.to_nat (rel_index len s)) l).

(** The loop of [processChunkedSync(inputs, chunkSize, chunkHandler)]: the chunks
    the handler is called with, or [None] when the fuel does not suffice. *)
Fixpoint processChunkedSync_loop {A} (fuel : nat) (inputs : list A) (chunkSize start : Z)
    : option (list (list A)) :=
  if start <? Z.of_nat (length inputs) then
    match fuel with
    | O => None
    | S fuel =>
      let e := if Z.of_nat (length inputs) <? start + chunkSize then Z.of_nat (length inputs)
               else start + chunkSize in
      cons (slice inputs start e) <$> processChunkedSync_loop fuel inputs chunkSize e
    end
  else Some [].

Definition processChunkedSync {A} (fuel : nat) (inputs : list A) (chunkSize : Z)
    : option (list (list A)) :=
  processChunkedSync_loop fuel inputs chunkSize 0.

Lemma slice_nonneg {A} (l : list A) s e :
  0 <= s <= e -> e <= Z.of_nat (length l) ->
  slice l s e = take (Z.to_nat (e - s)) (drop (Z.to_nat s) l).
Proof.
  intros H1 H2. unfold slice, rel_index.
  rewrite (proj2 (Z.ltb_ge s 0)), (proj2 (Z.ltb_ge e 0)) by lia.
  rewrite !Z.min_l by lia. f_equal. lia.
Qed.

Lemma processChunkedSync_loop_spec {A} (inputs : list A) chunkSize fuel start :
  0 < chunkSize -> 0 <= start <= Z.of_nat (length inputs) ->
  (length inputs - Z.to_nat start <= fuel)%nat ->
  exists chunks, processChunkedSync_loop fuel inputs chunkSize start = Some chunks /\
    concat chunks = drop (Z.to_nat start) inputs /\
    Forall (fun c => (0 < length c)%nat /\ Z.of_nat (length c) <= chunkSize) chunks /\
    (forall i c, (S i < length chunks)%nat -> chunks !! i = Some c -> Z.of_nat (length c) = chunkSize).
Proof.
  intros Hc. revert start. induction fuel as [|fuel IH]; intros start Hs Hf.
  { exists []. cbn [processChunkedSync_loop]. rewrite (proj2 (Z.ltb_ge _ _)) by lia.
    rewrite drop_ge by lia. split_and!; done. }
  cbn [processChunkedSync_loop]. destruct (start <? _) eqn:L; zbool.
  2: { exists []. rewrite drop_ge by lia. split_and!; done. }
  set (e := if Z.of_nat (length inputs) <? start + chunkSize then _ else _).
  assert (He : start < e <= Z.of_nat (length inputs) /\ e <= start + chunkSize /\
             (e = start + chunkSize \/ e = Z.of_nat (length inputs))).
  { unfold e. destruct (_ <? start + chunkSize) eqn:E; zbool; lia. }
  destruct (IH e) as (chunks & -> & Hcat & Hall & Hfull); [lia | lia |].
  eexists. split; [reflexivity|]. rewrite slice_nonneg by lia.
  assert (Hlen : Z.of_nat (length (take (Z.to_nat (e - start)) (drop (Z.to_nat start) inputs)))
            = e - start) by (rewrite length_take, length_drop; lia).
  split_and!.
  - simpl. rewrite Hcat.
    replace (Z.to_nat e) with (Z.to_nat start + Z.to_nat (e - start))%nat by lia.
    rewrite <- drop_drop. apply take_drop.
  - constructor; [lia | done].
  - intros [|i] c Hi Hl; simpl in Hi, Hl; [|apply (Hfull i); [lia | done]].
    injection Hl as <-. rewrite Hlen. destruct chunks as [|c' cs]; [simpl in Hi; lia|].
    apply Forall_cons in Hall as [[Hp _] _].
    assert (Hd : (0 < length (concat (c' :: cs)))%nat) by (simpl; rewrite length_app; lia).
    rewrite Hcat, length_drop in Hd. lia.
Qed.

Lemma processChunkedSync_loop_diverges {A} (inputs : list A) chunkSize fuel start :
  chunkSize <= 0 -> start < Z.of_nat (length inputs) ->
  processChunkedSync_loop fuel inputs chunkSize start = None.
Proof.
  intros Hc. revert start. induction fuel as [|fuel IH]; intros start Hs; cbn [processChunkedSync_loop];
    rewrite (proj2 (Z.ltb_lt _ _)) by lia; [done|].
  rewrite (proj2 (Z.ltb_ge _ _)) by lia. rewrite IH by lia. done.
Qed.

(** With a positive chunk size the loop ends after at most one round per input
    and hands the handler the inputs in order, cut into non-empty chunks of at most
    the chunk size, all of which but the last have exactly that size; with a chunk
    size of zero or less it never ends on a non-empty input. *)
Theorem processChunkedSync_correct {A} (inputs : list A) chunkSize :
  (0 < chunkSize -> forall fuel, (length inputs <= fuel)%nat ->
   exists chunks, processChunkedSync fuel inputs chunkSize = Some chunks /\
    concat chunks = inputs /\
    Forall (fun c => (0 < length c)%nat /\ Z.of_nat (length c) <= chunkSize) chunks /\
    (forall i c, (S i < length chunks)%nat -> chunks !! i = Some c -> Z.of_nat (length c) = chunkSize)) /\
  (chunkSize <= 0 -> inputs <> [] -> forall fuel, processChunkedSync fuel inputs chunkSize = None).
Proof.
  split.
  - intros Hc fuel Hf. apply (processChunkedSync_loop_spec inputs chunkSize fuel 0); lia.
  - intros Hc Hne fuel. apply processChunkedSync_loop_diverges; [done|].
    destruct inputs; simpl; [done | lia].
Qed.

(** ** promiseAllDone *)

(** What [Promise.allSettled] reports of one promise. *)
Inductive settlement (E A : Type) : Type :=
| Fulfilled (value : A)
| Rejected (reason : E).
Arguments Fulfilled {E A} value.
Arguments Rejected {E A} reason.

(** A rejection with the only reason, or with a [VError.MultiError] of all. *)
Inductive rejection (E : Type) : Type :=
| Single (reason : E)
| MultiError (reasons : list E).
Arguments Single {E} reason.
Arguments MultiError {E} reasons.

Definition reasons {E A} (results : list (settlement E A)) : list E :=
  omap (fun r => match r with Rejected e => Some e | Fulfilled _ => None end) results.

Definition values {E A} (results : list (settlement E A)) : list A :=
  omap (fun r => match r with Fulfilled a => Some a | Rejected _ => None end) results.

(** [promiseAllDone(iterable)] *)
Definition promiseAllDone {E A} (results : list (settlement E A)) : result (rejection E) (list A) :=
  match reasons results with
  | [] => Ok (values results)
  | [e] => Err (Single e)
  | es => Err (MultiError es)
  end.

Lemma promiseAllDone_ok {E A} (results : list (settlement E A)) vs :
  promiseAllDone results = Ok vs <-> results = Fulfilled <$> vs.
Proof.
  unfold promiseAllDone. split.
  - destruct (reasons results) as [|e [|]] eqn:R; try discriminate. intros [= <-].
    induction results as [|[a|e] rs IH]; csimpl in *; [done | | discriminate].
    f_equal. auto.
  - intros ->. assert (reasons (Fulfilled (E := E) <$> vs) = []) as ->.
    { induction vs; [done|]. done. }
    f_equal. induction vs as [|v vs IH]; [done|]. csimpl. by f_equal.
Qed.

(** ** isTenantIdValidCb *)

(** [isTenantIdValidCb(checkType, tenantId)] with the two configured callbacks; a
    callback may throw. *)
Definition isTenantIdValidCb {E} (filterAuthContext filterEventProcessing
      : option (option string -> result E bool))
    (checkType : TenantIdCheckTypes) (tenantId : option string) : bool :=
  let cb := match checkType with
            | getAuthContextCheck => filterAuthContext
            | eventProcessing => filterEventProcessing
            end in
  match cb with
  | None => true
  | Some cb => match cb tenantId with Ok b => b | Err _ => true end
  end.

(** ** limiter *)

Section limiter.
Context {E A P : Type}.

(** A run of [limiter(limit, payloads, iterator)].  Promises are numbered in the
    order they are started; [l_active] are the started and unsettled ones,
    [l_running] is [runningPromises], [l_blocked] says that the loop awaits
    [Promise.race(runningPromises)], [l_results] holds the settlements. *)
Record lim := mkLim {
  l_limit : Z;
  l_total : nat;
  l_todo : list P;
  l_started : list (nat * P);
  l_active : list nat;
  l_running : list nat;
  l_blocked : bool;
  l_results : list (nat * settlement E A) }.

Definition limiter_init (limit : Z) (payloads : list P) : lim :=
  mkLim limit (length payloads) payloads [] [] [] false [].

(** One round of the [for] loop, up to the next [await]. *)
Definition limiter_start (s : lim) : lim :=
  if l_blocked s then s
  else
    match l_todo s with
    | [] => s
    | payload :: rest =>
      let p := length (l_started s) in
      let tracked := l_limit s <=? Z.of_nat (l_total s) in
      let running := if tracked then l_running s ++ [p] else l_running s in
      mkLim (l_limit s) (l_total s) rest (l_started s ++ [(p, payload)]) (l_active s ++ [p]) running
        (tracked && (l_limit s <=? Z.of_nat (length running))) (l_results s)
    end.

Definition remove_id (p : nat) (l : list nat) : list nat := filter (fun q => q <> p) l.

(** A promise settles: its [finally] removes it from [runningPromises], which
    settles the race the loop may wait for. *)
Definition limiter_settle (p : nat) (r : settlement E A) (s : lim) : lim :=
  if bool_decide (p ∈ l_active s) then
    mkLim (l_limit s) (l_total s) (l_todo s) (l_started s) (remove_id p (l_active s))
      (remove_id p (l_running s))
      (l_blocked s && negb (bool_decide (p ∈ l_running s)))
      (l_results s ++ [(p, r)])
  else s.

Inductive lim_op := LStart | LSettle (p : nat) (r : settlement E A).

Definition lim_step (o : lim_op) (s : lim) : lim :=
  match o with LStart => limiter_start s | LSettle p r => limiter_settle p r s end.

(** The returned promise: [promiseAllDone] over the results in start order, once
    the loop is over and everything has settled. *)
Definition limiter_result (s : lim) : option (result (rejection E) (list A)) :=
  if bool_decide (l_todo s = []) && bool_decide (l_active s = []) && negb (l_blocked s)
  then promiseAllDone <$> mapM (fun p => snd <$> List.find (fun r => Nat.eqb r.1 p) (l_results s))
                            (l_started s).*1
  else None.

Definition lim_inv (payloads : list P) (s : lim) : Prop :=
  l_total s = length payloads /\
  (l_started s).*2 ++ l_todo s = payloads /\
  (l_started s).*1 = seq 0 (length (l_started s)) /\
  NoDup (l_active s) /\
  l_active s ++ (l_results s).*1 ≡ₚ (l_started s).*1 /\
  (if l_limit s <=? Z.of_nat (l_total s)
   then l_running s = l_active s /\
        Z.of_nat (length (l_running s)) <= Z.max 1 (l_limit s) /\
        (l_blocked s = false -> Z.of_nat (length (l_running s)) < Z.max 1 (l_limit s)) /\
        (l_blocked s = true -> l_running s <> [])
   else l_running s = [] /\ l_blocked s = false).

Lemma limiter_init_inv limit payloads : lim_inv payloads (limiter_init limit payloads).
Proof.
  unfold lim_inv, limiter_init; simpl. split_and!; try done; [constructor|].
  destruct (_ <=? _); split_and!; try done; simpl; lia.
Qed.

Lemma length_remove_id p l : NoDup l -> p ∈ l -> length l = S (length (remove_id p l)).
Proof.
  unfold remove_id. induction l as [|q l IH]; [by intros _ ?%elem_of_nil|].
  intros [Hn Hd]%NoDup_cons [->|Hin]%elem_of_cons; rewrite filter_cons.
  - rewrite decide_False by (intros H; by apply H). simpl. f_equal.
    clear IH. induction l as [|a l IH]; [done|]. rewrite filter_cons.
    apply not_elem_of_cons in Hn as [Hne Hn]. apply NoDup_cons in Hd as [_ Hd].
    rewrite decide_True by congruence. simpl. f_equal. auto.
  - rewrite decide_True by congruence. simpl. f_equal. auto.
Qed.

Lemma remove_id_perm p l : NoDup l -> p ∈ l -> l ≡ₚ p :: remove_id p l.
Proof.
  intros Hd Hin. apply NoDup_Permutation; [done | |].
  - constructor; [|by apply NoDup_filter]. unfold remove_id. rewrite list_elem_of_filter. tauto.
  - intros x. unfold remove_id. rewrite elem_of_cons, list_elem_of_filter.
    destruct (decide (x = p)); subst; naive_solver.
Qed.

Lemma limiter_start_inv payloads s : lim_inv payloads s -> lim_inv payloads (limiter_start s).
Proof.
  intros (Ht & Hp & Hs & Hd & Hr & Hl). unfold limiter_start.
  destruct (l_blocked s) eqn:B; [unfold lim_inv; by rewrite B|].
  destruct (l_todo s) as [|x rest] eqn:T; [unfold lim_inv; by rewrite B, T|].
  assert (Hfresh : length (l_started s) ∉ l_active s).
  { intros Hin. assert (Hx : length (l_started s) ∈ l_active s ++ (l_results s).*1) by set_solver.
    rewrite Hr, Hs, elem_of_seq in Hx. lia. }
  unfold lim_inv; cbn [l_total l_started l_todo l_active l_results l_limit l_running l_blocked].
  rewrite !fmap_app, length_app, seq_app. csimpl.
  split_and!.
  - done.
  - rewrite <- Hp, <- app_assoc. done.
  - by rewrite Hs.
  - apply NoDup_app. split_and!; [done | set_solver | apply NoDup_singleton].
  - rewrite <- Hr. solve_Permutation.
  - destruct (_ <=? Z.of_nat (l_total s)).
    + destruct Hl as (Hl1 & Hl2 & Hl3 & Hl4). specialize (Hl3 eq_refl). rewrite Hl1 in *.
      cbn [andb]. rewrite length_app; simpl. split_and!; [done | lia | |].
      * intros ?; zbool. lia.
      * intros _ Habs. by apply app_nil in Habs as [_ ?].
    + destruct Hl as [Hl1 _]. done.
Qed.

Lemma limiter_settle_inv payloads p r s :
  lim_inv payloads s -> lim_inv payloads (limiter_settle p r s).
Proof.
  intros (Ht & Hp & Hs & Hd & Hr & Hl). unfold limiter_settle.
  case_bool_decide as Hin; [|done].
  unfold lim_inv; cbn [l_total l_started l_todo l_active l_results l_limit l_running l_blocked].
  split_and!; auto.
  - by apply NoDup_filter.
  - rewrite <- Hr, fmap_app. csimpl. rewrite (remove_id_perm p (l_active s)) at 2 by done.
    solve_Permutation.
  - destruct (_ <=? Z.of_nat (l_total s)).
    + destruct Hl as (Hl1 & Hl2 & Hl3 & Hl4). rewrite Hl1 in *.
      rewrite bool_decide_true by done. rewrite andb_false_r.
      pose proof (length_remove_id p _ Hd Hin). split_and!; try done; intros; lia.
    + destruct Hl as [-> ->]. done.
Qed.

Lemma lim_run_inv limit payloads ops :
  lim_inv payloads (run lim_step ops (limiter_init limit payloads)).
Proof.
  apply (run_invariant lim_step (lim_inv payloads) (fun _ => True)).
  - intros [|p r] s _ H; [by apply limiter_start_inv | by apply limiter_settle_inv].
  - by apply Forall_true.
  - apply limiter_init_inv.
Qed.

Lemma lim_limit_const ops s : l_limit (run lim_step ops s) = l_limit s.
Proof.
  revert s. induction ops as [|o ops IH]; intros s; [done|]. simpl. rewrite IH.
  destruct o; simpl; unfold limiter_start, limiter_settle; repeat case_goal; done.
Qed.

(** However the started executions settle, at most [limit] of them (one, for a
    limit below one) are under way at any time, the payloads are started in order
    and each once, and the loop is never stuck: it awaits a race only while an
    execution it tracks is under way. *)
Theorem limiter_bounds_concurrency limit payloads ops :
  let s := run lim_step ops (limiter_init limit payloads) in
  Z.of_nat (length (l_active s)) <= Z.max 1 limit /\
  (l_started s).*2 ++ l_todo s = payloads /\
  (l_started s).*1 = seq 0 (length (l_started s)) /\
  l_active s ++ (l_results s).*1 ≡ₚ (l_started s).*1 /\
  (l_active s = [] -> l_blocked s = false).
Proof.
  intros s. pose proof (lim_run_inv limit payloads ops) as H. fold s in H.
  assert (Hlim : l_limit s = limit) by apply lim_limit_const.
  destruct H as (Ht & Hp & Hs & Hd & Hr & Hl). rewrite Hlim, Ht in Hl.
  destruct (limit <=? Z.of_nat (length payloads)) eqn:L; zbool.
  - destruct Hl as (Hl1 & Hl2 & Hl3 & Hl4). rewrite <- Hl1.
    split_and!; auto; [by rewrite Hl1|].
    intros Hn. destruct (l_blocked s); [|done]. by apply Hl4 in Hn.
  - destruct Hl as [Hl1 Hl2]. split_and!; auto.
    assert (Hle : (length (l_active s) <= length (l_started s))%nat).
    { apply (f_equal length) in Hs. rewrite length_fmap, length_seq in Hs.
      apply Permutation_length in Hr. rewrite length_app, !length_fmap in Hr. lia. }
    apply (f_equal length) in Hp. rewrite length_app, length_fmap in Hp. lia.
Qed.
End limiter.
Arguments lim : clear implicits.

(** ** Witnesses *)

Lemma processChunkedSync_correct_witness :
  exists chunks, processChunkedSync 5 [1; 2; 3; 4; 5] 2 = Some chunks /\ concat chunks = [1; 2; 3; 4; 5].
Proof.
  destruct (processChunkedSync_correct [1; 2; 3; 4; 5] 2) as [H _].
  destruct (H ltac:(lia) 5%nat ltac:(simpl; lia)) as (chunks & E & Hc & _).
  exists chunks. split; [exact E | exact Hc].
Defined.

Lemma limiter_bounds_concurrency_witness :
  let s := run (lim_step (E := string) (A := Z)) [LStart; LStart; LStart; LSettle 0 (Fulfilled 1)]
             (limiter_init 2 ["a"; "b"; "c"]) in
  Z.of_nat (length (l_active s)) <= 2.
Proof.
  apply (limiter_bounds_concurrency 2 ["a"; "b"; "c"] [LStart; LStart; LStart; LSettle 0 (Fulfilled 1)]).
Defined.
