(* ===== verification/LazyCache.v ===== *)
(** * The lazy cache

    [shared/lazyCache.js]: a cache whose misses run a callback, with the variant whose
    entries expire.  The callback may return a promise; the cache then holds the
    promise, and the handlers the code chains to it change the cache when the promise
    settles ([settle]).  The cache of authentication contexts of [shared/common.js]
    is built on it. *)

From stdpp Require Import pretty.
From S2P Require Import Prelude Js Errors Common.

Local Open Scope Z_scope.

(** ** LazyCache *)

Definition DEFAULT_SEPARATOR : string := "##".
Definition DEFAULT_EXPIRATION_GAP : Z := 60 * 1000.

(** The argument [keyOrKeys]. *)
Inductive keyOrKeys : Type :=
| OneKey (k : string)
| ManyKeys (ks : list string).

Record LazyCache (X : Type) := mkLazyCache {
  __data : obj X;
  __separator : string }.
Arguments mkLazyCache {X} _ _.
Arguments __data {X} _.
Arguments __separator {X} _.

Module Lazy.
Section base.
Context {X : Type}.
Implicit Types c : LazyCache X.

Definition _key (k : keyOrKeys) c : string :=
  match k with OneKey k => k | ManyKeys ks => join (__separator c) ks end.

Definition has (k : keyOrKeys) c : bool := ohas (_key k c) (__data c).

Definition get (k : keyOrKeys) c : option X := oget (_key k c) (__data c).

Definition set (k : keyOrKeys) (value : X) c : LazyCache X :=
  mkLazyCache (oset (_key k c) value (__data c)) (__separator c).

Definition count c : nat := length (okeys (__data c)).

Definition delete (k : keyOrKeys) c : LazyCache X :=
  mkLazyCache (odel (_key k c) (__data c)) (__separator c).

Definition clear c : LazyCache X := mkLazyCache [] (__separator c).

Lemma key_set k k' v c : _key k (set k' v c) = _key k c.
Proof. by destruct k. Qed.

Lemma key_delete k k' c : _key k (delete k' c) = _key k c.
Proof. by destruct k. Qed.

Lemma get_set k k' v c :
  get k (set k' v c) = if decide (_key k' c = _key k c) then Some v else get k c.
Proof. unfold get. rewrite key_set. unfold set. simpl. apply oget_oset. Qed.

Lemma get_delete k k' c :
  get k (delete k' c) = if decide (_key k' c = _key k c) then None else get k c.
Proof. unfold get. rewrite key_delete. unfold delete. simpl. apply oget_odel. Qed.

Lemma has_get k c : has k c = true <-> is_Some (get k c).
Proof. apply ohas_true. Qed.

Lemma NoDup_set k v c : NoDup (okeys (__data c)) -> NoDup (okeys (__data (set k v c))).
Proof. apply NoDup_okeys_oset. Qed.
End base.
End Lazy.

(** What a cache hands out: a value ([None] is [undefined]) or a promise. *)
Inductive slot (V : Type) : Type :=
| Val (v : option V)
| Prom (p : nat).
Arguments Val {V} v.
Arguments Prom {V} p.

(** A call of a callback: it returns a value, a promise, or throws. *)
Inductive callback_result (R : Type) : Type :=
| Returns (r : R)
| ReturnsPromise
| Throws (e : jsval).
Arguments Returns {R} r.
Arguments ReturnsPromise {R}.
Arguments Throws {R} e.

(** The callbacks of the base class: promises are numbered, [l_waiting] are those the
    [catch] handler of [setCb] is chained to. *)
Module LazyCb.
Section callbacks.
Context {V : Type}.

Record state := mkState {
  l_cache : LazyCache (slot V);
  l_next : nat;
  l_waiting : list (nat * keyOrKeys) }.
Implicit Types s : state.

Definition setCb (k : keyOrKeys) (cb : callback_result (option V)) s : state * option jsval :=
  match cb with
  | Throws e => (s, Some e)
  | Returns v => (mkState (Lazy.set k (Val v) (l_cache s)) (l_next s) (l_waiting s), None)
  | ReturnsPromise =>
    (mkState (Lazy.set k (Prom (l_next s)) (l_cache s)) (S (l_next s)) (l_waiting s ++ [(l_next s, k)]), None)
  end.

Definition getSetCb (keys : keyOrKeys) (cb : callback_result (option V)) s : state * result jsval (slot V) :=
  let key := OneKey (Lazy._key keys (l_cache s)) in
  let '(s1, thrown) := if negb (Lazy.has key (l_cache s)) then setCb key cb s else (s, None) in
  match thrown with
  | Some e => (s1, Err e)
  | None => (s1, Ok (default (Val None) (Lazy.get key (l_cache s1))))
  end.

(** The promise settles: a rejection deletes the key. *)
Definition settle (p : nat) (rejected : bool) s : state :=
  match List.find (fun q => bool_decide (q.1 = p)) (l_waiting s) with
  | None => s
  | Some (_, k) =>
    mkState (if rejected then Lazy.delete k (l_cache s) else l_cache s) (l_next s)
      (filter (fun q => q.1 <> p) (l_waiting s))
  end.

(** A miss calls the callback and answers with its value; afterwards the key is a hit
    that answers the same without a call, until a rejection removes it. *)
Lemma getSetCb_memoizes keys cb cb' s s1 v :
  getSetCb keys cb s = (s1, Ok v) -> getSetCb keys cb' s1 = (s1, Ok v).
Proof.
  unfold getSetCb. set (key := OneKey _).
  destruct (Lazy.has key (l_cache s)) eqn:H; simpl.
  - intros [= <- <-]. fold key. by rewrite H.
  - destruct cb as [r| |e]; simpl; intros [= <- <-]; simpl;
      rewrite Lazy.key_set; fold key; unfold Lazy.has, Lazy.get, ohas, Lazy.set; simpl;
      rewrite oget_oset_eq; simpl; by rewrite ?oget_oset_eq.
Qed.
End callbacks.
End LazyCb.

(** ** ExpiringLazyCache *)

(** The numbers of expiration times: [Infinity] marks a pending entry, and an
    [undefined] expiration makes the sum [NaN]. *)
Inductive num : Type := Fin (z : Z) | Infinity | NaN.

Definition num_add (a b : num) : num :=
  match a, b with
  | Fin x, Fin y => Fin (x + y)
  | NaN, _ | _, NaN => NaN
  | _, _ => Infinity
  end.

Definition num_sub (a : num) (z : Z) : num :=
  match a with Fin x => Fin (x - z) | Infinity => Infinity | NaN => NaN end.

Module Expiring.
Section expiring.
(** [V]: cached values; [R]: what callbacks return; [destructure] reads a pair
    [[expiration, value]] from it and throws when it is not iterable. *)
Context {V R : Type} (destructure : R -> result jsval (num * option V)).

(** What an extractor returns: [{ expiration, expiry, value, result }]. *)
Record extracted := mkExtracted {
  x_expiration : option num;
  x_expiry : option num;
  x_value : option V;
  x_result : option V }.

Abbreviation extractor := (option (R -> result jsval extracted)).

(** A promise the cache waits for, with what the chained handlers close over. *)
Record pending := mkPending {
  p_id : nat;
  p_key : keyOrKeys;
  p_time : Z;
  p_extractor : extractor }.

Record ExpiringLazyCache := mkExpiring {
  e_cache : LazyCache (num * slot V);
  __expirationGap : Z;
  e_next : nat;
  e_pending : list pending;
  e_settled : list (nat * settlement jsval (option V)) }.
Implicit Types s : ExpiringLazyCache.

(** [new ExpiringLazyCache({ separator, expirationGap })] *)
Definition new (separator : string) (gap : Z) : ExpiringLazyCache :=
  mkExpiring (mkLazyCache [] separator) gap 0 [] [].

Definition with_cache (c : LazyCache (num * slot V)) s : ExpiringLazyCache :=
  mkExpiring c (__expirationGap s) (e_next s) (e_pending s) (e_settled s).

Definition _isValid (expirationTime : num) (currentTime : Z) : bool :=
  match expirationTime with
  | Fin t => negb (t =? 0) && (currentTime <=? t)
  | Infinity => true
  | NaN => false
  end.

Definition has (k : keyOrKeys) (currentTime : Z) s : bool :=
  if negb (Lazy.has k (e_cache s)) then false
  else match Lazy.get k (e_cache s) with
       | Some (expirationTime, _) => _isValid expirationTime currentTime
       | None => false
       end.

Definition get (k : keyOrKeys) (currentTime : Z) s : slot V :=
  match Lazy.get k (e_cache s) with
  | Some (expirationTime, value) => if _isValid expirationTime currentTime then value else Val None
  | None => Val None
  end.

Definition set (k : keyOrKeys) (expiration : num) (value : slot V) (currentTime : Z) s
    : ExpiringLazyCache :=
  with_cache
    (Lazy.set k (num_sub (num_add (Fin currentTime) expiration) (__expirationGap s), value) (e_cache s)) s.

Definition delete (k : keyOrKeys) s : ExpiringLazyCache := with_cache (Lazy.delete k (e_cache s)) s.

Definition clear s : ExpiringLazyCache := with_cache (Lazy.clear (e_cache s)) s.

Definition or_else {A} (a b : option A) : option A := match a with Some _ => a | None => b end.

(** [_extract(result, extractor)] with the destructuring of its pair. *)
Definition _extract (r : R) (x : extractor) : result jsval (num * option V) :=
  match x with
  | None => destructure r
  | Some f =>
    match f r with
    | Err e => Err e
    | Ok d => Ok (default NaN (or_else (x_expiration d) (x_expiry d)), or_else (x_value d) (x_result d))
    end
  end.

(** [setCb(keyOrKeys, callback, { currentTime, extractor })]: the state and what is
    thrown. *)
Definition setCb (k : keyOrKeys) (cb : callback_result R) (currentTime : Z) (x : extractor) s
    : ExpiringLazyCache * option jsval :=
  match cb with
  | Throws e => (s, Some e)
  | Returns r =>
    match _extract r x with
    | Err e => (s, Some e)
    | Ok (expiration, value) => (set k expiration (Val value) currentTime s, None)
    end
  | ReturnsPromise =>
    let p := e_next s in
    let s1 := set k Infinity (Prom p) currentTime s in
    (mkExpiring (e_cache s1) (__expirationGap s1) (S p)
       (e_pending s1 ++ [mkPending p k currentTime x]) (e_settled s1), None)
  end.

(** [getSetCb(keyOrKeys, callback, { currentTime, extractor })] *)
Definition getSetCb (keys : keyOrKeys) (cb : callback_result R) (currentTime : Z) (x : extractor) s
    : ExpiringLazyCache * result jsval (slot V) :=
  let key := OneKey (Lazy._key keys (e_cache s)) in
  if negb (has key currentTime s) || negb (Lazy.has key (e_cache s)) then
    let '(s1, thrown) := setCb key cb currentTime x s in
    match thrown with
    | Some e => (s1, Err e)
    | None =>
      match Lazy.get key (e_cache s1) with
      | Some (_, value) => (s1, Ok value)
      | None => (s1, Err (TypeError "undefined is not iterable"))
      end
    end
  else (s, Ok (get key currentTime s)).

Definition take_pending (p : nat) (l : list pending) : list pending :=
  filter (fun r => p_id r <> p) l.

(** The promise of the callback settles and the handlers that [setCb] chains to it
    run: [catch] deletes the key and rejects again, [then] stores the value with its
    expiration.  An error in [then] is not caught. *)
Definition settle (p : nat) (r : settlement jsval R) s : ExpiringLazyCache :=
  match List.find (fun q => bool_decide (p_id q = p)) (e_pending s) with
  | None => s
  | Some q =>
    let '(s1, outcome) :=
      match r with
      | Rejected e => (delete (p_key q) s, Rejected e)
      | Fulfilled v =>
        match _extract v (p_extractor q) with
        | Err e => (s, Rejected e)
        | Ok (expiration, value) => (set (p_key q) expiration (Val value) (p_time q) s, Fulfilled value)
        end
      end in
    mkExpiring (e_cache s1) (__expirationGap s1) (e_next s1)
      (take_pending p (e_pending s1)) (e_settled s1 ++ [(p, outcome)])
  end.

(** ** What the cache promises: a memo table

    For every key there is nothing, a request under way, a value that is fresh until a
    time, or a request that could not be evaluated.  A request joins the one under way
    and is answered from a fresh value; otherwise it calls the callback. *)
Inductive cell : Type :=
| Requesting (p : nat) (t : Z) (x : extractor)
| Cached (until : num) (v : option V)
| Broken (p : nat).

Record memo := mkMemo {
  m_cells : gmap string cell;
  m_next : nat }.

Section memo.
Context (gap : Z).

Definition deadline (t : Z) (expiration : num) : num := num_sub (num_add (Fin t) expiration) gap.

Definition memo_call (k : string) (cb : callback_result R) (now : Z) (x : extractor) (m : memo)
    : memo * result jsval (slot V) :=
  match cb with
  | Throws e => (m, Err e)
  | Returns r =>
    match _extract r x with
    | Err e => (m, Err e)
    | Ok (expiration, v) => (mkMemo (<[k := Cached (deadline now expiration) v]> (m_cells m)) (m_next m), Ok (Val v))
    end
  | ReturnsPromise =>
    (mkMemo (<[k := Requesting (m_next m) now x]> (m_cells m)) (S (m_next m)), Ok (Prom (m_next m)))
  end.

Definition memo_request (k : string) (cb : callback_result R) (now : Z) (x : extractor) (m : memo)
    : memo * result jsval (slot V) :=
  match m_cells m !! k with
  | Some (Requesting p _ _) | Some (Broken p) => (m, Ok (Prom p))
  | Some (Cached until v) => if _isValid until now then (m, Ok (Val v)) else memo_call k cb now x m
  | None => memo_call k cb now x m
  end.

(** The end of request [p]: a value becomes fresh, a failure leaves nothing. *)
Definition memo_answer (p : nat) (r : settlement jsval R) (c : cell) : option cell :=
  match c with
  | Requesting q t x =>
    if decide (q = p) then
      match r with
      | Rejected _ => None
      | Fulfilled w =>
        match _extract w x with
        | Ok (expiration, v) => Some (Cached (deadline t expiration) v)
        | Err _ => Some (Broken p)
        end
      end
    else Some c
  | _ => Some c
  end.

Definition memo_settle (p : nat) (r : settlement jsval R) (m : memo) : memo :=
  mkMemo (omap (memo_answer p r) (m_cells m)) (m_next m).
End memo.

(** Runs of requests and settling promises, with the answers given. *)
Inductive cache_op : Type :=
| Request (keys : keyOrKeys) (cb : callback_result R) (now : Z) (x : extractor)
| Settle (p : nat) (r : settlement jsval R).

Definition cache_step (st : ExpiringLazyCache * list (result jsval (slot V))) (o : cache_op)
    : ExpiringLazyCache * list (result jsval (slot V)) :=
  match o with
  | Request keys cb now x => let '(s, a) := getSetCb keys cb now x st.1 in (s, st.2 ++ [a])
  | Settle p r => (settle p r st.1, st.2)
  end.

Definition memo_step (sep : string) (gap : Z) (st : memo * list (result jsval (slot V))) (o : cache_op)
    : memo * list (result jsval (slot V)) :=
  match o with
  | Request keys cb now x =>
    let k := match keys with OneKey k => k | ManyKeys ks => join sep ks end in
    let '(m, a) := memo_request gap k cb now x st.1 in (m, st.2 ++ [a])
  | Settle p r => (memo_settle gap p r st.1, st.2)
  end.

(** *** The simulation *)

Definition cell_entry (c : cell) : num * slot V :=
  match c with
  | Requesting p _ _ | Broken p => (Infinity, Prom p)
  | Cached until v => (until, Val v)
  end.

(** The cache [s] represents the memo table [m]. *)
Record represents s (m : memo) : Prop := {
  rep_next : m_next m = e_next s;
  rep_data : forall k, oget k (__data (e_cache s)) = cell_entry <$> m_cells m !! k;
  rep_pending : forall q, q ∈ e_pending s ->
    exists k, p_key q = OneKey k /\ m_cells m !! k = Some (Requesting (p_id q) (p_time q) (p_extractor q));
  rep_requesting : forall k p t x, m_cells m !! k = Some (Requesting p t x) ->
    mkPending p (OneKey k) t x ∈ e_pending s;
  rep_ids : NoDup (p_id <$> e_pending s);
  rep_fresh : Forall (fun q => (p_id q < e_next s)%nat) (e_pending s) }.

Lemma represents_new sep gap : represents (new sep gap) (mkMemo ∅ 0).
Proof.
  split; simpl; intros; rewrite ?lookup_empty in *; try done; try constructor.
  by apply elem_of_nil in H.
Qed.

(** Replacing a cell that is not under way by a value. *)
Lemma represents_store s m k until v :
  represents s m -> (forall p t x, m_cells m !! k <> Some (Requesting p t x)) ->
  represents (with_cache (Lazy.set (OneKey k) (until, Val v) (e_cache s)) s)
    (mkMemo (<[k := Cached until v]> (m_cells m)) (m_next m)).
Proof.
  intros [R1 R2 R3 R4 R5 R6] Hn. split; simpl; auto.
  - intros k'. rewrite oget_oset, lookup_insert. by case_decide; rewrite ?R2.
  - intros q Hq. destruct (R3 q Hq) as (k' & E & Hk). exists k'. split; [done|].
    rewrite lookup_insert_ne; [done|]. intros ->. by apply Hn in Hk.
  - intros k' p t x. rewrite lookup_insert. case_decide; [done | apply R4].
Qed.

Lemma represents_setCb gap s m k cb now x s1 thrown :
  represents s m -> __expirationGap s = gap -> (forall p t y, m_cells m !! k <> Some (Requesting p t y)) ->
  setCb (OneKey k) cb now x s = (s1, thrown) ->
  let '(m1, a) := memo_call gap k cb now x m in
  represents s1 m1 /\ __expirationGap s1 = gap /\ __separator (e_cache s1) = __separator (e_cache s) /\
  a = match thrown with
      | Some e => Err e
      | None => match Lazy.get (OneKey k) (e_cache s1) with
                | Some (_, v) => Ok v
                | None => Err (TypeError "undefined is not iterable")
                end
      end.
Proof.
  intros HR Hg Hn. unfold setCb, memo_call. destruct cb as [r| |e].
  - destruct (_extract r x) as [[expiration v]|e]; intros [= <- <-]; [|done].
    split_and!; try done.
    + unfold set. rewrite Hg. by apply represents_store.
    + unfold Lazy.get. simpl. by rewrite oget_oset_eq.
  - intros [= <- <-]. destruct HR as [R1 R2 R3 R4 R5 R6]. split_and!; simpl; try done.
    + split; simpl.
      * congruence.
      * intros k'. rewrite oget_oset, lookup_insert. case_decide; rewrite ?R2; simpl; congruence.
      * intros q [Hq|Hq%list_elem_of_singleton]%elem_of_app; [|subst q].
        -- destruct (R3 q Hq) as (k' & E & Hk). exists k'. split; [done|].
           rewrite lookup_insert_ne; [done|]. intros ->. by apply Hn in Hk.
        -- exists k. split; [done|]. by rewrite lookup_insert_eq, R1.
      * intros k' p t y. rewrite lookup_insert, elem_of_app. case_decide as Hk.
        -- intros [= <- <- <-]. right. rewrite R1, Hk. left.
        -- intros Hk'. left. by apply R4.
      * rewrite fmap_app. simpl. apply NoDup_app. split_and!; [done| |apply NoDup_singleton].
        intros i Hi Hl%list_elem_of_singleton. subst i. apply list_elem_of_fmap in Hi as (q & E & Hq).
        rewrite Forall_forall in R6. apply R6 in Hq. lia.
      * apply Forall_app. split; [|repeat constructor].
        eapply Forall_impl; [apply R6|]. simpl. lia.
    + unfold Lazy.get. simpl. by rewrite oget_oset_eq, R1.
  - intros [= <- <-]. done.
Qed.

(** A request that calls the callback. *)
Lemma represents_miss gap s m k cb now x :
  represents s m -> __expirationGap s = gap -> (forall p t y, m_cells m !! k <> Some (Requesting p t y)) ->
  let '(s1, thrown) := setCb (OneKey k) cb now x s in
  let '(s2, a) :=
    match thrown with
    | Some e => (s1, Err e)
    | None => match Lazy.get (OneKey k) (e_cache s1) with
              | Some (_, value) => (s1, Ok value)
              | None => (s1, Err (TypeError "undefined is not iterable"))
              end
    end in
  let '(m1, b) := memo_call gap k cb now x m in
  a = b /\ represents s2 m1 /\ __expirationGap s2 = gap /\ __separator (e_cache s2) = __separator (e_cache s).
Proof.
  intros HR Hg Hn. destruct (setCb (OneKey k) cb now x s) as [s1 thrown] eqn:S.
  eapply represents_setCb in S; eauto.
  destruct (memo_call gap k cb now x m) as [m1 b]. destruct S as (S1 & S2 & S3 & ->).
  destruct thrown; [done|]. by destruct (Lazy.get _ _) as [[? ?]|].
Qed.

Lemma represents_request gap s m keys cb now x :
  represents s m -> __expirationGap s = gap ->
  let '(s1, a) := getSetCb keys cb now x s in
  let '(m1, b) := memo_request gap (Lazy._key keys (e_cache s)) cb now x m in
  a = b /\ represents s1 m1 /\ __expirationGap s1 = gap /\ __separator (e_cache s1) = __separator (e_cache s).
Proof.
  intros HR Hg. unfold getSetCb. set (k := Lazy._key keys (e_cache s)).
  pose proof (rep_data _ _ HR k) as D. unfold has, Lazy.has, ohas, get.
  assert (G : Lazy.get (OneKey k) (e_cache s) = cell_entry <$> m_cells m !! k) by exact D.
  unfold memo_request. rewrite G. simpl. rewrite D.
  destruct (m_cells m !! k) as [[p t y|until v|p]|] eqn:C; simpl; [done| |done|].
  - rewrite orb_false_r. destruct (_isValid until now) eqn:I; simpl; [done|].
    pose proof (represents_miss gap s m k cb now x HR Hg) as M. rewrite C in M.
    destruct (setCb _ _ _ _ _) as [s1 [e|]]; apply M; congruence.
  - pose proof (represents_miss gap s m k cb now x HR Hg) as M. rewrite C in M.
    destruct (setCb _ _ _ _ _) as [s1 [e|]]; apply M; congruence.
Qed.

Lemma pending_unique s m k p t x q :
  represents s m -> m_cells m !! k = Some (Requesting p t x) -> q ∈ e_pending s -> p_id q = p ->
  q = mkPending p (OneKey k) t x.
Proof.
  intros HR Hk Hq E. pose proof (rep_requesting _ _ HR _ _ _ _ Hk) as Hin.
  apply list_elem_of_lookup in Hq as [i Hi]. apply list_elem_of_lookup in Hin as [j Hj].
  assert (i = j).
  { eapply (NoDup_lookup (p_id <$> e_pending s)); [apply (rep_ids _ _ HR)| |];
      rewrite list_lookup_fmap, ?Hi, ?Hj; simpl; [done | by rewrite E]. }
  congruence.
Qed.

Lemma memo_settle_other gap s m p r k :
  represents s m -> Forall (fun q => p_id q = p -> p_key q <> OneKey k) (e_pending s) ->
  m_cells (memo_settle gap p r m) !! k = m_cells m !! k.
Proof.
  intros HR Hf. unfold memo_settle. simpl. rewrite lookup_omap.
  destruct (m_cells m !! k) as [[q t x|until v|q]|] eqn:C; simpl; try done.
  case_decide as Hq; [|done]. subst q. rewrite Forall_forall in Hf.
  exfalso. by eapply (Hf _ (rep_requesting _ _ HR _ _ _ _ C)).
Qed.

(** Request [q] for [k] ends with the cell [c]. *)
Lemma represents_end s m q k c data settled cells :
  represents s m -> q ∈ e_pending s -> p_key q = OneKey k ->
  (forall k', oget k' data = if decide (k = k') then cell_entry <$> c else oget k' (__data (e_cache s))) ->
  (forall k', cells !! k' = if decide (k = k') then c else m_cells m !! k') ->
  (forall p t x, c <> Some (Requesting p t x)) ->
  represents
    (mkExpiring (mkLazyCache data (__separator (e_cache s))) (__expirationGap s) (e_next s)
       (take_pending (p_id q) (e_pending s)) settled)
    (mkMemo cells (m_next m)).
Proof.
  intros HR Hq Ek Hd Hc Hn. pose proof HR as [R1 R2 R3 R4 R5 R6].
  destruct (R3 q Hq) as (k0 & E0 & Hk0). assert (k0 = k) by congruence. subst k0.
  split; simpl; auto.
  - intros k'. rewrite Hd, Hc. by case_decide.
  - intros q' [Hne Hq']%list_elem_of_filter. destruct (R3 q' Hq') as (k' & E' & Hk').
    exists k'. split; [done|]. rewrite Hc. case_decide; [|done]. subst. congruence.
  - intros k' p t x. rewrite Hc. case_decide as Hk; [by intros ?%Hn|]. intros C.
    apply list_elem_of_filter. split; [|by apply R4]. simpl. intros Hp.
    apply (pending_unique _ _ _ _ _ _ q HR C) in Hq; [|done]. rewrite Hq in Ek. simpl in Ek. congruence.
  - eapply sublist_NoDup; [exact R5|]. apply fmap_sublist, sublist_filter.
  - apply Forall_forall. intros q' [_ Hq']%list_elem_of_filter. rewrite Forall_forall in R6. auto.
Qed.

(** The end of a request. *)
Lemma represents_settle gap s m p r :
  represents s m -> __expirationGap s = gap ->
  represents (settle p r s) (memo_settle gap p r m) /\
  __expirationGap (settle p r s) = gap /\ __separator (e_cache (settle p r s)) = __separator (e_cache s).
Proof.
  intros HR Hg. unfold settle. destruct (List.find _ _) as [q|] eqn:F.
  - apply List.find_some in F as [Hq Hp%bool_decide_eq_true]. apply list_elem_of_In in Hq. subst p.
    destruct (rep_pending _ _ HR q Hq) as (k & Ek & Hk).
    assert (Hc : forall k', m_cells (memo_settle gap (p_id q) r m) !! k' =
        if decide (k = k') then memo_answer gap (p_id q) r (Requesting (p_id q) (p_time q) (p_extractor q))
        else m_cells m !! k').
    { intros k'. case_decide as Hkk; [subst k'; simpl; by rewrite lookup_omap, Hk|].
      apply (memo_settle_other _ s); [done|]. apply Forall_forall. intros q' Hq' Eq Ek'.
      apply (pending_unique _ _ _ _ _ _ q' HR Hk) in Hq'; [|done]. subst q'. simpl in Ek'. congruence. }
    cbn [memo_answer] in Hc. rewrite (decide_True (P := p_id q = p_id q)) in Hc by done.
    destruct r as [w|e].
    + destruct (_extract w (p_extractor q)) as [[expiration v]|e]; simpl; (split; [|done]).
      * unfold set. simpl. refine (represents_end s m q k _ _ _ _ HR Hq Ek _ Hc _); [|done].
        intros k'. rewrite Ek. simpl. rewrite oget_oset, Hg. by case_decide.
      * destruct s as [[data sep] g n pend sett]. simpl in *.
        refine (represents_end (mkExpiring (mkLazyCache data sep) g n pend sett) m q k _ _ _ _ HR Hq Ek _ Hc _); [|done].
        intros k'. simpl. case_decide; [|done]. subst k'. pose proof (rep_data _ _ HR k) as D. simpl in D. by rewrite D, Hk.
    + simpl. split; [|done]. refine (represents_end s m q k _ _ _ _ HR Hq Ek _ Hc _); [|done].
      intros k'. rewrite Ek. simpl. rewrite oget_odel. by case_decide.
  - split; [|done]. assert (N : forall q, q ∈ e_pending s -> p_id q <> p).
    { intros q Hq. pose proof (List.find_none _ _ F q (proj1 (list_elem_of_In _ _) Hq)) as Hb.
      by apply bool_decide_eq_false in Hb. }
    assert (m_cells (memo_settle gap p r m) = m_cells m) as E.
    { apply map_eq. intros k. apply (memo_settle_other _ s); [done|].
      apply Forall_forall. intros q Hq Eq. by apply N in Hq. }
    destruct m as [cells n]. unfold memo_settle in *. simpl in *. by rewrite E.
Qed.

Lemma run_represents sep gap ops s m out :
  represents s m -> __expirationGap s = gap -> __separator (e_cache s) = sep ->
  let '(s1, a) := fold_left cache_step ops (s, out) in
  let '(m1, b) := fold_left (memo_step sep gap) ops (m, out) in
  a = b /\ represents s1 m1.
Proof.
  revert s m out. induction ops as [|[keys cb now x|p r] ops IH]; intros s m out HR Hg Hs; [done| |].
  - change (fold_left cache_step _ _) with
      (fold_left cache_step ops (cache_step (s, out) (Request keys cb now x))).
    change (fold_left (memo_step sep gap) _ _) with
      (fold_left (memo_step sep gap) ops (memo_step sep gap (m, out) (Request keys cb now x))).
    unfold cache_step at 2, memo_step at 2. cbn [fst snd].
    pose proof (represents_request gap s m keys cb now x HR Hg) as P.
    replace (match keys with OneKey k => k | ManyKeys ks => join sep ks end)
      with (Lazy._key keys (e_cache s)) by (destruct keys; simpl; congruence).
    destruct (getSetCb keys cb now x s) as [s1 a]. destruct (memo_request _ _ _ _ _ _) as [m1 b].
    destruct P as (-> & P1 & P2 & P3). apply IH; congruence.
  - simpl. destruct (represents_settle gap s m p r HR Hg) as (P1 & P2 & P3). apply IH; congruence.
Qed.

(** C26. The expiring cache implements its memo table: on every sequence of requests and
    settling promises, in any order and at any times, the answers of the cache are
    those of the table, in which a request joins the one under way for its key, is
    answered from a value until its deadline, and otherwise calls the callback; a
    rejected request leaves nothing behind. *)
Theorem cache_refines_memo sep gap ops :
  (fold_left cache_step ops (new sep gap, [])).2 =
    (fold_left (memo_step sep gap) ops (mkMemo ∅ 0, [])).2.
Proof.
  pose proof (run_represents sep gap ops (new sep gap) (mkMemo ∅ 0) []
    (represents_new sep gap) eq_refl eq_refl) as H.
  destruct (fold_left cache_step _ _) as [s1 a]. destruct (fold_left (memo_step _ _) _ _) as [m1 b].
  apply H.
Qed.

(** Single flight: whatever the order of requests and settlements, the cache waits
    for at most one promise per key, so concurrent requests for a key share one call
    of the callback. *)
Theorem single_flight sep gap ops :
  NoDup (p_key <$> e_pending (fold_left cache_step ops (new sep gap, [])).1).
Proof.
  pose proof (run_represents sep gap ops (new sep gap) (mkMemo ∅ 0) []
    (represents_new sep gap) eq_refl eq_refl) as H.
  destruct (fold_left cache_step _ _) as [s a]. destruct (fold_left (memo_step _ _) _ _) as [m b].
  destruct H as [_ HR]. simpl. apply NoDup_fmap_2_strong; [|by eapply NoDup_fmap_1, rep_ids].
  intros q1 q2 H1 H2 E. destruct (rep_pending _ _ HR q1 H1) as (k1 & E1 & C1).
  destruct (rep_pending _ _ HR q2 H2) as (k2 & E2 & C2). assert (k1 = k2) as -> by congruence.
  rewrite C1 in C2. destruct q1, q2. simpl in *. congruence.
Qed.
End expiring.
End Expiring.

(** ** Authentication contexts ([shared/common.js]) *)

Definition EXPIRE_TIME_TENANT_404 : Z := 10 * 60 * 1000.

Module AuthContext.
Section auth.
(** Tokens of the authentication service with their expiration date; the errors of
    requests with their response code. *)
Context {Token FetchError : Type} (getExpirationDate : Token -> Z) (responseCode : FetchError -> option Z).

(** The cached pair [[err, authInfo]]. *)
Abbreviation auth := (option FetchError * option Token)%type.

(** [_getNewAuthContext(tenantId)]: [fetch] is the outcome of the token request, [now]
    the clock when it ends. *)
Definition _getNewAuthContext (fetch : result FetchError Token) (now : Z) : num * option auth :=
  match fetch with
  | Ok token => (Fin (getExpirationDate token - now), Some (None, Some token))
  | Err err =>
    if bool_decide (responseCode err = Some 404) then (Fin EXPIRE_TIME_TENANT_404, Some (Some err, None))
    else (Fin 0, None)
  end.

(** The conditions of [getAuthContext] on the environment. *)
Record env := mkEnv {
  tenantIdValid : bool;
  auth_credentials : bool;
  isMultiTenancy : bool;
  auth_kind_matches : bool;
  requires_xsuaa : bool }.

Abbreviation cache := (Expiring.ExpiringLazyCache (V := auth) (R := num * option auth)).

(** The callback's result is the pair itself. *)
Definition pair_of (r : num * option auth) : result jsval (num * option auth) := Ok r.

Definition tenant_key (tenantId : option string) : keyOrKeys := OneKey (default "undefined" tenantId).

(** [getAuthContext(tenantId)] until it awaits the cache: [None] is an immediate
    [null], otherwise the slot that is awaited.  The callback is an async function, so
    a call of it is a promise. *)
Definition getAuthContext (e : env) (tenantId : option string) (now : Z) (s : cache)
    : cache * option (result jsval (slot auth)) :=
  if negb (tenantIdValid e) then (s, None)
  else if negb (auth_credentials e) then (s, None)
  else if negb (isMultiTenancy e) then (s, None)
  else if negb (auth_kind_matches e) && negb (requires_xsuaa e) then (s, None)
  else let '(s1, r) := Expiring.getSetCb pair_of (tenant_key tenantId) ReturnsPromise now None s in (s1, Some r).

(** The rest of [getAuthContext] on the awaited value: the pair, or its second part. *)
Definition getAuthContext_result (returnError : bool) (r : option auth) : option auth + option Token :=
  if returnError then inl r else inr (a ← r; a.2).

(** Lookups and ends of token requests, each a delay after the previous step. *)
Inductive auth_op : Type :=
| Lookup (delay : N) (e : env) (tenantId : option string)
| Fetched (delay : N) (p : nat) (fetch : result FetchError Token).

Definition auth_step (o : auth_op) (st : Z * cache) : Z * cache :=
  match o with
  | Lookup d e tenantId =>
    let now := st.1 + Z.of_N d in (now, (getAuthContext e tenantId now st.2).1)
  | Fetched d p fetch =>
    let now := st.1 + Z.of_N d in
    (now, Expiring.settle pair_of p (Fulfilled (_getNewAuthContext fetch now)) st.2)
  end.

Definition auth_init (start : Z) : Z * cache := (start, Expiring.new DEFAULT_SEPARATOR DEFAULT_EXPIRATION_GAP).

(** A stored token is dropped at least the gap before it expires; requests under way
    were started in the past and have no extractor. *)
Definition auth_inv (st : Z * cache) : Prop :=
  Expiring.__expirationGap st.2 = DEFAULT_EXPIRATION_GAP /\
  (forall k t err tok, oget k (__data (Expiring.e_cache st.2)) = Some (t, Val (Some (err, Some tok))) ->
     exists u, t = Fin u /\ u + DEFAULT_EXPIRATION_GAP <= getExpirationDate tok) /\
  Forall (fun q => Expiring.p_time q <= st.1 /\ Expiring.p_extractor q = None) (Expiring.e_pending st.2).

Lemma auth_inv_lookup now e tenantId (st : Z * cache) :
  st.1 <= now -> auth_inv st -> auth_inv (now, (getAuthContext e tenantId now st.2).1).
Proof.
  intros Hle (I1 & I2 & I3). unfold getAuthContext.
  assert (W : auth_inv (now, st.2)).
  { split_and!; [done | done |]. simpl. eapply Forall_impl; [exact I3|]. simpl. intros q [? ?]. split; [lia | done]. }
  repeat (case_match; [exact W|]). destruct W as (W1 & W2 & W3). simpl in *.
  unfold Expiring.getSetCb. destruct (negb (Expiring.has _ _ _) || _); [|done].
  cbn [Expiring.setCb]. unfold Lazy.get. simpl. rewrite oget_oset_eq. split_and!; simpl; [done| |].
  - intros k t err tok. rewrite oget_oset. case_decide; [discriminate | apply W2].
  - apply Forall_app. split; [done|]. repeat constructor. simpl. lia.
Qed.

Lemma auth_inv_fetched now p fetch (st : Z * cache) :
  st.1 <= now -> auth_inv st ->
  auth_inv (now, Expiring.settle pair_of p (Fulfilled (_getNewAuthContext fetch now)) st.2).
Proof.
  intros Hle (I1 & I2 & I3). unfold Expiring.settle. destruct (List.find _ _) as [q|] eqn:F.
  2: { split_and!; [done | done |]. simpl. eapply Forall_impl; [exact I3|]. simpl. intros q [? ?]. split; [lia | done]. }
  apply List.find_some in F as [Hq _]. apply list_elem_of_In in Hq.
  rewrite Forall_forall in I3. pose proof (I3 q Hq) as [Ht Hx]. rewrite Hx. cbn [Expiring._extract pair_of].
  destruct (_getNewAuthContext fetch now) as [exp v] eqn:G. split_and!; simpl; [done| |].
  - intros k t err tok. rewrite oget_oset. case_decide; [|apply I2]. intros [= <- ->].
    unfold _getNewAuthContext in G. destruct fetch as [token|er].
    + injection G as <- <- <-. simpl. eexists. split; [done|]. rewrite I1. lia.
    + case_bool_decide; discriminate.
  - apply Forall_forall. intros q' [_ Hq']%list_elem_of_filter. destruct (I3 q' Hq'). split; [lia | done].
Qed.

Lemma auth_inv_step o st : auth_inv st -> auth_inv (auth_step o st).
Proof.
  destruct o; simpl; intros H; [apply auth_inv_lookup | apply auth_inv_fetched]; (lia || done).
Qed.

(** No stale token is served from the cache: whatever lookups and token requests
    came before, a token found in the cache at a time has at least the expiration gap
    of a minute left. *)
Theorem cached_token_not_stale start ops tenantId now err tok :
  Expiring.get (tenant_key tenantId) now (run auth_step ops (auth_init start)).2 = Val (Some (err, Some tok)) ->
  now + DEFAULT_EXPIRATION_GAP <= getExpirationDate tok.
Proof.
  assert (I : auth_inv (run auth_step ops (auth_init start))).
  { apply (run_invariant _ auth_inv (fun _ => True)); [intros; by apply auth_inv_step | by apply Forall_true |].
    split_and!; simpl; [done | discriminate | constructor]. }
  unfold Expiring.get, Lazy.get. destruct (oget _ _) as [[t v]|] eqn:G; [|discriminate].
  case_match eqn:V; [|discriminate]. intros ->. destruct I as (_ & I & _).
  destruct (I _ _ _ _ G) as (u & -> & Hu). simpl in V. zbool. lia.
Qed.

(** Failed token requests are not remembered, except that an unknown tenant (404)
    is for ten minutes less the gap: after the request [p] of a key has failed, the key
    is served from the cache exactly in that case and that period. *)
Theorem failed_fetch_retried (s : cache) p k t err now later :
  let q := Expiring.mkPending p (OneKey k) t None in
  List.find (fun q => bool_decide (Expiring.p_id q = p)) (Expiring.e_pending s) = Some q ->
  Expiring.__expirationGap s = DEFAULT_EXPIRATION_GAP -> 0 < t <= later ->
  Expiring.has (OneKey k) later (Expiring.settle pair_of p (Fulfilled (_getNewAuthContext (Err err) now)) s) =
    bool_decide (responseCode err = Some 404) && (later <=? t + EXPIRE_TIME_TENANT_404 - DEFAULT_EXPIRATION_GAP).
Proof.
  intros q F G Ht. unfold Expiring.settle. rewrite F. unfold q. cbn [Expiring._extract pair_of Expiring.p_extractor].
  unfold _getNewAuthContext, EXPIRE_TIME_TENANT_404, DEFAULT_EXPIRATION_GAP in *.
  case_bool_decide; simpl; unfold Expiring.has, Lazy.has, Lazy.get, ohas; simpl; rewrite oget_oset_eq; simpl; rewrite G.
  - destruct (Z.eqb_spec (t + 10 * 60 * 1000 - 60 * 1000) 0); [lia | done].
  - destruct (Z.leb_spec later (t + 0 - 60 * 1000)); [lia|]. apply andb_false_r.
Qed.
End auth.
End AuthContext.

(** ** Witnesses *)

(** Tokens that are their expiration date, errors that are their response code. *)
Definition env_on : AuthContext.env := AuthContext.mkEnv true true true true false.

Definition auth_ops : list (AuthContext.auth_op (Token := Z) (FetchError := Z)) :=
  [AuthContext.Lookup 0 env_on (Some "t1"); AuthContext.Fetched 100 0 (Ok 7200000)].

Lemma cached_token_not_stale_witness :
  Expiring.get (AuthContext.tenant_key (Some "t1")) 7139900
    (run (AuthContext.auth_step (fun t => t) Some) auth_ops (AuthContext.auth_init 1000000)).2 =
      Val (Some (None, Some 7200000)) /\
  7139900 + DEFAULT_EXPIRATION_GAP <= 7200000.
Proof.
  split; [vm_compute; reflexivity|].
  apply (AuthContext.cached_token_not_stale (fun t => t) (Some : Z -> option Z) 1000000 auth_ops (Some "t1") 7139900 None 7200000).
  vm_compute. reflexivity.
Defined.

Definition auth_waiting : Expiring.ExpiringLazyCache :=
  (run (AuthContext.auth_step (fun t : Z => t) (Some : Z -> option Z))
     [AuthContext.Lookup 0 env_on (Some "t1")] (AuthContext.auth_init 1000000)).2.

Lemma failed_fetch_retried_witness :
  (exists q, List.find (fun q => bool_decide (Expiring.p_id q = 0%nat)) (Expiring.e_pending auth_waiting) = Some q) /\
  Expiring.has (OneKey "t1") 1540000
    (Expiring.settle AuthContext.pair_of 0
       (Fulfilled (AuthContext._getNewAuthContext (fun t : Z => t) Some (Err 404) 1000200)) auth_waiting) = true /\
  Expiring.has (OneKey "t1") 1000200
    (Expiring.settle AuthContext.pair_of 0
       (Fulfilled (AuthContext._getNewAuthContext (fun t : Z => t) Some (Err 500) 1000200)) auth_waiting) = false.
Proof.
  split_and!.
  - eexists. vm_compute. reflexivity.
  - rewrite (AuthContext.failed_fetch_retried (fun t : Z => t) Some auth_waiting 0 "t1" 1000000 404 1000200 1540000);
      [reflexivity | vm_compute; reflexivity | reflexivity | lia].
  - rewrite (AuthContext.failed_fetch_retried (fun t : Z => t) Some auth_waiting 0 "t1" 1000000 500 1000200 1000200);
      [reflexivity | vm_compute; reflexivity | reflexivity | lia].
Defined.

(** A result that is not a pair makes the handler throw after [catch] was chained: the
    rejected promise stays in the cache and is answered for ever. *)
Lemma broken_entry_is_kept (now : Z) :
  let destructure (_ : unit) : result jsval (num * option unit) := Err (TypeError "undefined is not iterable") in
  let s1 := (Expiring.getSetCb destructure (OneKey "k") ReturnsPromise 0 None (Expiring.new DEFAULT_SEPARATOR DEFAULT_EXPIRATION_GAP)).1 in
  let s2 := Expiring.settle destructure 0 (Fulfilled tt) s1 in
  Expiring.e_settled s2 = [(0%nat, Rejected (TypeError "undefined is not iterable"))] /\
  Expiring.getSetCb destructure (OneKey "k") ReturnsPromise now None s2 = (s2, Ok (Prom 0)).
Proof. split; reflexivity. Qed.
