(* ===== verification/Publish.v ===== *)
(** * Publishing events

    [publishEvent.js]: events are checked, completed and inserted, at once or by a
    handler that runs before the commit.  [dbHandler.js]: every insert is observed, the
    new combinations of type, sub type and namespace are collected and broadcast when
    the transaction has succeeded.  [redisPub.js]: the broadcast, which skips
    combinations that are being processed.

    The event table is a sequence of inserted entries.  Failures of the database are
    inputs of the operations. *)

From S2P Require Import Prelude Js Errors Config.
#[local] Open Scope Z_scope.

(** ** The transaction *)

(** The fields the code keeps on [tx] and [tx._]: the entries inserted so far,
    [_eventQueue] (its events and [handlerRegistered]), [_skipEventQueueBroadcast],
    the registered before-commit handlers (each with the [skipBroadcast] it closes
    over), [eventQueuePublishEvents], [eventQueueBroadcastCombinations] and
    [eventQueueStatsOpenCount]. *)
Record txState : Type := mkTx {
  tx_rows : list (obj jsval);
  tx_eventQueue : option (list (obj jsval) * bool);
  tx_skipEventQueueBroadcast : bool;
  tx_beforeCommit : list bool;
  tx_publishEvents : obj bool;
  tx_combinations : list string;
  tx_statsOpenCount : Z }.

Definition newTx : txState := mkTx [] None false [] [] [] 0.

Definition set_tx_eventQueue (q : option (list (obj jsval) * bool)) (t : txState) : txState :=
  mkTx (tx_rows t) q (tx_skipEventQueueBroadcast t) (tx_beforeCommit t) (tx_publishEvents t) (tx_combinations t)
    (tx_statsOpenCount t).
Definition set_tx_skip (b : bool) (t : txState) : txState :=
  mkTx (tx_rows t) (tx_eventQueue t) b (tx_beforeCommit t) (tx_publishEvents t) (tx_combinations t) (tx_statsOpenCount t).
Definition set_tx_beforeCommit (l : list bool) (t : txState) : txState :=
  mkTx (tx_rows t) (tx_eventQueue t) (tx_skipEventQueueBroadcast t) l (tx_publishEvents t) (tx_combinations t)
    (tx_statsOpenCount t).

Record publishOptions : Type := mkOptions {
  skipBroadcast : bool;
  skipInsertEventsBeforeCommit : bool;
  addTraceContext : bool;
  allowNotExistingConfiguration : bool }.

Definition defaultOptions : publishOptions := mkOptions false false true false.

Section publish.
(** [String(v)], [JSON.stringify], [Date.parse] and the next execution of a cron
    expression as an ISO string. *)
Context (toString : jsval -> string) (stringify : jsval -> jsval) (dateParse : string -> option Z)
  (cronNextISO : jsval -> result jsval string).
Context (c : Config) (initialized insertEventsBeforeCommit : bool).

(** [isValidDate(value)] of [common.js] *)
Definition isValidDate (value : jsval) : bool :=
  match value with
  | JStr s => match dateParse s with Some _ => true | None => false end
  | JDate (Some _) => true
  | _ => false
  end.

(** ** [dbHandler.js]: after an insert *)

(** The key of a combination. *)
Definition combination (e : obj jsval) : string :=
  join hash2 (map (join_string toString) [prop e "type"; prop e "subType"; prop e "namespace"]).

(** The [reduce] over the inserted entries. *)
Definition newCombination (st : obj bool * list string) (e : obj jsval) : obj bool * list string :=
  let '(published, result) := st in
  let key := combination e in
  if truthy (hasEventAfterCommitFlag toString c (prop e "type") (prop e "subType") (prop e "namespace")) &&
     negb (default false (oget key published))
  then (oset key true published, result ++ [key])
  else (published, result).

(** The handler [after("CREATE")]. *)
Definition afterCreate (data : list (obj jsval)) (t : txState) : txState :=
  if tx_skipEventQueueBroadcast t then t
  else
    let '(published, newCombinations) := fold_left newCombination data (tx_publishEvents t, []) in
    mkTx (tx_rows t) (tx_eventQueue t) (tx_skipEventQueueBroadcast t) (tx_beforeCommit t) published
      (tx_combinations t ++ newCombinations) (tx_statsOpenCount t + Z.of_nat (length data)).

(** [tx.run(INSERT.into(...).entries(entries))]; [dbError] is what the database throws. *)
Definition insertEntries (entries : list (obj jsval)) (dbError : option jsval) (t : txState) : txState * option jsval :=
  match dbError with
  | Some err => (t, Some err)
  | None =>
    (afterCreate entries
       (mkTx (tx_rows t ++ entries) (tx_eventQueue t) (tx_skipEventQueueBroadcast t) (tx_beforeCommit t)
          (tx_publishEvents t) (tx_combinations t) (tx_statsOpenCount t)), None)
  end.

(** The insert with its broadcast flag; the flag is not restored when the insert
    fails. *)
Definition insertWithFlag (skip : bool) (entries : list (obj jsval)) (dbError : option jsval) (t : txState)
    : txState * option jsval :=
  match insertEntries entries dbError (set_tx_skip skip t) with
  | (t, None) => (set_tx_skip false t, None)
  | (t, Some err) => (t, Some err)
  end.

(** ** [publishEvent.js] *)

(** The body of the loop: the checks and the completion of one event. *)
Definition prepareEvent (o : publishOptions) (traceContext : jsval) (event : obj jsval) : throws (obj jsval) :=
  let type_ := prop event "type" in
  let subType := prop event "subType" in
  let startAfter := prop event "startAfter" in
  let eventConfig := getEventConfig toString c type_ subType (prop event "namespace") in
  if bool_decide (eventConfig = None) && negb (allowNotExistingConfiguration o) then throwQ (unknownEventType type_ subType)
  else if truthy startAfter && negb (isValidDate startAfter) then throwQ (malformedDate startAfter)
  else if match eventConfig with Some r => truthy (opt r "isPeriodic") | None => false end
  then throwQ (manuelPeriodicEventInsert type_ subType)
  else
    let event := if is_string (prop event "payload") then event
                 else oset "payload" (stringify (prop event "payload")) event in
    let event := if addTraceContext o then oset "context" (stringify (JObj [("traceContext", traceContext)])) event
                 else event in
    let timeBucket := match eventConfig with Some r => opt r "timeBucket" | None => JUndef end in
    let finish event := oset "namespace" (if is_undefined (prop event "namespace") then cfg_namespace c
                                          else prop event "namespace") event in
    if truthy timeBucket && negb (ohas (js_string toString startAfter) event) then
      match cronNextISO timeBucket with
      | Ok iso => Ok (finish (oset "startAfter" (JStr iso) event))
      | Err err => Err (JsError err)
      end
    else Ok (finish event).

Fixpoint prepareEvents (o : publishOptions) (traceContext : jsval) (events : list (obj jsval)) : throws (list (obj jsval)) :=
  match events with
  | [] => Ok []
  | e :: r =>
    match prepareEvent o traceContext e with
    | Err err => Err err
    | Ok e' => match prepareEvents o traceContext r with Ok r' => Ok (e' :: r') | Err err => Err err end
    end
  end.

(** [_addEventsToContext(tx, events)] *)
Definition addEventsToContext (events : list (obj jsval)) (t : txState) : txState :=
  let '(evs, registered) := default ([], false) (tx_eventQueue t) in
  set_tx_eventQueue (Some (evs ++ events, registered)) t.

(** [_registerHandler(tx, skipBroadcast)] *)
Definition registerHandler (skip : bool) (t : txState) : txState :=
  match tx_eventQueue t with
  | Some (evs, false) => set_tx_beforeCommit (tx_beforeCommit t ++ [skip]) (set_tx_eventQueue (Some (evs, true)) t)
  | _ => t
  end.

(** The handler [before("commit")]. *)
Definition commitHandler (dbError : option jsval) (skip : bool) (t : txState) : txState * option jsval :=
  match tx_eventQueue t with
  | None => (t, Some (TypeError "Cannot read properties of null (reading 'events')"))
  | Some ([], _) => (t, None)
  | Some (evs, _) =>
    match insertWithFlag skip evs dbError t with
    | (t, None) => (set_tx_eventQueue None t, None)
    | (t, Some err) => (t, Some err)
    end
  end.

(** [publishEvent(tx, events, options)] *)
Definition publishEvent (o : publishOptions) (traceContext : jsval) (events : list (obj jsval)) (dbError : option jsval)
    (t : txState) : txState * option cfgError :=
  if negb initialized then (t, Some (QueueError notInitialized))
  else
    match prepareEvents o traceContext events with
    | Err err => (t, Some err)
    | Ok events =>
      let t := addEventsToContext events t in
      if insertEventsBeforeCommit && negb (skipInsertEventsBeforeCommit o) then (registerHandler (skipBroadcast o) t, None)
      else
        match insertWithFlag (skipBroadcast o) events dbError t with
        | (t, None) => (t, None)
        | (t, Some err) => (t, Some (JsError err))
        end
    end.

(** The commit: the registered handlers run, then the combinations are broadcast
    ([None] when a handler fails and the transaction rolls back). *)
Fixpoint runCommitHandlers (dbError : option jsval) (handlers : list bool) (t : txState) : txState * option jsval :=
  match handlers with
  | [] => (t, None)
  | skip :: r =>
    match commitHandler dbError skip t with
    | (t, None) => runCommitHandlers dbError r t
    | (t, Some err) => (t, Some err)
    end
  end.

Definition commitTx (dbError : option jsval) (t : txState) : option (list (obj jsval) * list string) :=
  match runCommitHandlers dbError (tx_beforeCommit t) t with
  | (t, None) => Some (tx_rows t, tx_combinations t)
  | (_, Some _) => None
  end.

(** A sequence of publications in one transaction, until one fails. *)
Fixpoint publishAll (calls : list (publishOptions * jsval * list (obj jsval))) (t : txState) : txState * option cfgError :=
  match calls with
  | [] => (t, None)
  | (o, trace, events) :: r =>
    match publishEvent o trace events None t with
    | (t, None) => publishAll r t
    | (t, Some err) => (t, Some err)
    end
  end.
End publish.

(** ** Each published event is inserted once *)

Section publish_props.
Context (toString : jsval -> string) (stringify : jsval -> jsval) (dateParse : string -> option Z)
  (cronNextISO : jsval -> result jsval string).
Context (c : Config).

Definition call : Type := publishOptions * jsval * list (obj jsval).

(** The completed events of a publication. *)
Definition prepared (k : call) (evs : list (obj jsval)) : Prop :=
  prepareEvents toString stringify dateParse cronNextISO c k.1.1 k.1.2 k.2 = Ok evs.

(** Whether the event is to be processed after the commit. *)
Definition flagged (e : obj jsval) : bool :=
  truthy (hasEventAfterCommitFlag toString c (prop e "type") (prop e "subType") (prop e "namespace")).

(** The collected combinations are distinct, and the map of published ones holds
    exactly them. *)
Definition comb_inv (published : obj bool) (combinations : list string) : Prop :=
  NoDup combinations /\ forall k, default false (oget k published) = true <-> k ∈ combinations.

Lemma newCombinations_spec data published base new :
  comb_inv published (base ++ new) ->
  let '(published', new') := fold_left (newCombination toString c) data (published, new) in
  comb_inv published' (base ++ new') /\
  forall k, k ∈ base ++ new' <-> k ∈ base ++ new \/ exists e, e ∈ data /\ flagged e = true /\ combination toString e = k.
Proof.
  revert published new. induction data as [|e data IH]; intros published new [Hn Hk]; cbn [fold_left].
  - split; [done|]. intros k. split; [auto|]. intros [H|(e & He & _)]; [done | by apply elem_of_nil in He].
  - cbn [newCombination]. fold (flagged e).
    destruct (flagged e && negb (default false (oget (combination toString e) published))) eqn:N.
    + apply andb_true_iff in N as [F N]. apply negb_true_iff in N.
      assert (Hnew : combination toString e ∉ base ++ new) by (intros Hin%Hk; congruence).
      specialize (IH (oset (combination toString e) true published) (new ++ [combination toString e])).
      destruct (fold_left _ _ _) as [p' n']. destruct IH as [I1 I2].
      { split.
        - rewrite app_assoc. apply NoDup_app. split_and!; [done| |apply NoDup_singleton].
          intros x Hx ->%list_elem_of_singleton. done.
        - intros k. rewrite oget_oset, app_assoc, elem_of_app, list_elem_of_singleton.
          destruct (decide (combination toString e = k)) as [->|Hne]; [naive_solver|]. rewrite Hk. naive_solver. }
      split; [done|]. intros k. rewrite I2, app_assoc, (elem_of_app (base ++ new)), list_elem_of_singleton.
      setoid_rewrite elem_of_cons. split.
      * intros [[H| ->]|(e' & He & HF & E)]; [by left | right; exists e; auto | right; exists e'; auto].
      * intros [H|(e' & [->|He] & HF & <-)]; [by left; left | by left; right | right; exists e'; auto].
    + specialize (IH published new (conj Hn Hk)). destruct (fold_left _ _ _) as [p' n'].
      destruct IH as [I1 I2]. split; [done|]. intros k. rewrite I2. setoid_rewrite elem_of_cons.
      split; [intros [H|(e' & He' & HF & E)]; [by left | right; exists e'; auto]|]. intros [H|(e' & [->|He'] & F & <-)]; [by left| |right; eauto].
      left. apply Hk. rewrite F in N. simpl in N. by apply negb_false_iff in N.
Qed.

(** An insert that succeeds. *)
Lemma insertWithFlag_spec skip evs t :
  exists t', insertWithFlag toString c skip evs None t = (t', None) /\
    tx_rows t' = tx_rows t ++ evs /\ tx_beforeCommit t' = tx_beforeCommit t /\ tx_eventQueue t' = tx_eventQueue t /\
    (tx_publishEvents t', tx_combinations t') =
      (if skip then (tx_publishEvents t, tx_combinations t)
       else let '(p, new) := fold_left (newCombination toString c) evs (tx_publishEvents t, []) in
            (p, tx_combinations t ++ new)).
Proof.
  unfold insertWithFlag, insertEntries, afterCreate, set_tx_skip. cbn. destruct skip; [by eexists|].
  destruct (fold_left _ _ _) as [p new]. by eexists.
Qed.

(** A publication whose events are inserted at once, and one whose events are
    inserted before the commit. *)
Lemma publish_direct ibc o trace events evs t :
  ibc && negb (skipInsertEventsBeforeCommit o) = false -> prepared (o, trace, events) evs ->
  publishEvent toString stringify dateParse cronNextISO c true ibc o trace events None t =
    ((insertWithFlag toString c (skipBroadcast o) evs None (addEventsToContext evs t)).1, None).
Proof.
  unfold prepared, publishEvent. cbn [negb fst snd]. intros -> ->.
  destruct (insertWithFlag_spec (skipBroadcast o) evs (addEventsToContext evs t)) as (t' & -> & _). done.
Qed.

Lemma publish_deferred o trace events evs t :
  skipInsertEventsBeforeCommit o = false -> prepared (o, trace, events) evs ->
  publishEvent toString stringify dateParse cronNextISO c true true o trace events None t =
    (registerHandler (skipBroadcast o) (addEventsToContext evs t), None).
Proof. unfold prepared, publishEvent. simpl. intros -> ->. done. Qed.

Lemma publish_prepares ibc o trace events dbError t t' :
  publishEvent toString stringify dateParse cronNextISO c true ibc o trace events dbError t = (t', None) ->
  exists evs, prepared (o, trace, events) evs.
Proof.
  unfold publishEvent, prepared. simpl. destruct (prepareEvents _ _ _ _ _ _ _ _) as [evs|]; [eauto|discriminate].
Qed.

(** The combinations are those of the flagged events. *)
Definition covers (evs : list (obj jsval)) (combinations : list string) : Prop :=
  forall k, k ∈ combinations <-> exists e, e ∈ evs /\ flagged e = true /\ combination toString e = k.

(** What holds of a transaction that has published [evs], all of them at once or all
    of them deferred; [bc] tells that no publication skips the broadcast. *)
Definition direct_inv (bc : bool) (evs : list (obj jsval)) (t : txState) : Prop :=
  tx_rows t = evs /\ tx_beforeCommit t = [] /\ comb_inv (tx_publishEvents t) (tx_combinations t) /\
  (bc = true -> covers evs (tx_combinations t)).

Definition deferred_inv (bc : bool) (evs : list (obj jsval)) (t : txState) : Prop :=
  tx_rows t = [] /\ tx_publishEvents t = [] /\ tx_combinations t = [] /\
  ((evs = [] /\ tx_beforeCommit t = [] /\ tx_eventQueue t = None) \/
   exists skip, tx_beforeCommit t = [skip] /\ tx_eventQueue t = Some (evs, true) /\ (bc = true -> skip = false)).

Lemma comb_inv_nil : comb_inv [] [].
Proof. split; [apply NoDup_nil_2|]. intros k. simpl. split; [discriminate | by intros ?%elem_of_nil]. Qed.

Lemma covers_nil : covers [] [].
Proof. intros k. split; [by intros ?%elem_of_nil | intros (e & He & _); by apply elem_of_nil in He]. Qed.

(** An insert keeps the combinations complete, and distinct in any case. *)
Lemma insert_combinations bc skip old evs t t' :
  insertWithFlag toString c skip evs None t = (t', None) ->
  (bc = true -> skip = false) ->
  comb_inv (tx_publishEvents t) (tx_combinations t) -> (bc = true -> covers old (tx_combinations t)) ->
  comb_inv (tx_publishEvents t') (tx_combinations t') /\ (bc = true -> covers (old ++ evs) (tx_combinations t')).
Proof.
  intros H Hskip Hc Hcov. destruct (insertWithFlag_spec skip evs t) as (t1 & E & _ & _ & _ & P).
  rewrite E in H. injection H as ->. destruct skip.
  - injection P as -> ->. split; [done|]. intros Hb. discriminate (Hskip Hb).
  - assert (Hc' := Hc). rewrite <- (app_nil_r (tx_combinations t)) in Hc'.
    pose proof (newCombinations_spec evs _ _ _ Hc') as N.
    destruct (fold_left _ _ _) as [p new]. injection P as -> ->. destruct N as [N1 N2]. split; [done|].
    intros Hb k. rewrite N2, app_nil_r, (Hcov Hb k). setoid_rewrite elem_of_app. naive_solver.
Qed.

Lemma direct_step bc skip evs new t :
  (bc = true -> skip = false) -> direct_inv bc evs t ->
  direct_inv bc (evs ++ new) (insertWithFlag toString c skip new None (addEventsToContext new t)).1.
Proof.
  intros Hs (H1 & H2 & H3 & H4).
  assert (A : forall new, tx_rows (addEventsToContext new t) = tx_rows t /\
    tx_beforeCommit (addEventsToContext new t) = tx_beforeCommit t /\
    tx_publishEvents (addEventsToContext new t) = tx_publishEvents t /\
    tx_combinations (addEventsToContext new t) = tx_combinations t)
    by (intros n; unfold addEventsToContext; by destruct (default _ _)).
  destruct (A new) as (A1 & A2 & A3 & A4).
  destruct (insertWithFlag_spec skip new (addEventsToContext new t)) as (t' & E & R & B & _).
  destruct (insert_combinations bc skip evs new (addEventsToContext new t) t' E Hs) as [C1 C2]; rewrite ?A3, ?A4; auto.
  rewrite E. unfold direct_inv. cbn [fst]. split_and!; [by rewrite R, A1, H1 | by rewrite B, A2 | done | done].
Qed.

Lemma deferred_step bc skip evs new t :
  (bc = true -> skip = false) -> deferred_inv bc evs t ->
  deferred_inv bc (evs ++ new) (registerHandler skip (addEventsToContext new t)).
Proof.
  intros Hs (H1 & H2 & H3 & [(-> & H4 & H5)|(sk & H4 & H5 & H6)]);
    unfold addEventsToContext, registerHandler; rewrite H5; cbn; unfold deferred_inv; cbn; split_and!; auto; right.
  - exists skip. by rewrite H4.
  - exists sk. done.
Qed.

Lemma publishAll_direct bc ibc calls t : forall evs t0,
  (forall k, k ∈ calls -> ibc && negb (skipInsertEventsBeforeCommit k.1.1) = false /\ (bc = true -> skipBroadcast k.1.1 = false)) ->
  direct_inv bc evs t0 -> publishAll toString stringify dateParse cronNextISO c true ibc calls t0 = (t, None) ->
  exists batches, Forall2 prepared calls batches /\ direct_inv bc (evs ++ List.concat batches) t.
Proof.
  induction calls as [|[[o tr] es] calls IH]; intros evs t0 Hs Hi H; cbn [publishAll] in H.
  { injection H as <-. exists []. split; [done|]. by rewrite app_nil_r. }
  destruct (publishEvent _ _ _ _ _ _ _ _ _ _ _ t0) as [t1 [|]] eqn:P; [discriminate|].
  destruct (publish_prepares _ _ _ _ _ _ _ P) as [es' Hp]. destruct (Hs (o, tr, es)) as [Hd Hb]; [left|].
  rewrite (publish_direct _ _ _ _ es') in P by done. injection P as <-.
  destruct (IH _ _ ltac:(intros k Hk; apply Hs; by right) (direct_step bc (skipBroadcast o) _ es' _ Hb Hi) H) as (b & HF & HI).
  exists (es' :: b). split; [by constructor|]. simpl. by rewrite app_assoc.
Qed.

Lemma publishAll_deferred bc calls t : forall evs t0,
  (forall k, k ∈ calls -> skipInsertEventsBeforeCommit k.1.1 = false /\ (bc = true -> skipBroadcast k.1.1 = false)) ->
  deferred_inv bc evs t0 -> publishAll toString stringify dateParse cronNextISO c true true calls t0 = (t, None) ->
  exists batches, Forall2 prepared calls batches /\ deferred_inv bc (evs ++ List.concat batches) t.
Proof.
  induction calls as [|[[o tr] es] calls IH]; intros evs t0 Hs Hi H; cbn [publishAll] in H.
  { injection H as <-. exists []. split; [done|]. by rewrite app_nil_r. }
  destruct (publishEvent _ _ _ _ _ _ _ _ _ _ _ t0) as [t1 [|]] eqn:P; [discriminate|].
  destruct (publish_prepares _ _ _ _ _ _ _ P) as [es' Hp]. destruct (Hs (o, tr, es)) as [Hd Hb]; [left|].
  rewrite (publish_deferred _ _ _ es') in P by done. injection P as <-.
  destruct (IH _ _ ltac:(intros k Hk; apply Hs; by right) (deferred_step bc (skipBroadcast o) _ es' _ Hb Hi) H) as (b & HF & HI).
  exists (es' :: b). split; [by constructor|]. simpl. by rewrite app_assoc.
Qed.

(** The commit of collected events. *)
Lemma commit_deferred bc evs t :
  deferred_inv bc evs t ->
  exists combinations, commitTx toString c None t = Some (evs, combinations) /\ NoDup combinations /\
    (bc = true -> covers evs combinations).
Proof.
  intros (H1 & H2 & H3 & [(-> & H4 & H5)|(sk & H4 & H5 & H6)]); unfold commitTx; rewrite H4; cbn [runCommitHandlers].
  - exists []. rewrite H1, H3. split_and!; [done | apply NoDup_nil_2 | intros _; apply covers_nil].
  - unfold commitHandler. rewrite H5. destruct evs as [|e evs].
    + exists []. rewrite H1, H3. split_and!; [done | apply NoDup_nil_2 | intros _; apply covers_nil].
    + destruct (insertWithFlag_spec sk (e :: evs) t) as (t' & E & R & _).
      destruct (insert_combinations bc sk [] (e :: evs) t t' E H6) as [[C1 _] C2].
      { rewrite H2, H3. apply comb_inv_nil. } { rewrite H3. intros _. apply covers_nil. }
      rewrite E. cbn. exists (tx_combinations t'). by rewrite R, H1.
Qed.

(** Both theorems on committed transactions. *)
Lemma published_committed bc ibc skipInsert calls t :
  (forall k, k ∈ calls -> skipInsertEventsBeforeCommit k.1.1 = skipInsert /\ (bc = true -> skipBroadcast k.1.1 = false)) ->
  publishAll toString stringify dateParse cronNextISO c true ibc calls newTx = (t, None) ->
  exists batches combinations, Forall2 prepared calls batches /\
    commitTx toString c None t = Some (List.concat batches, combinations) /\ NoDup combinations /\
    (bc = true -> covers (List.concat batches) combinations).
Proof.
  intros Hs H. destruct (ibc && negb skipInsert) eqn:M.
  - apply andb_true_iff in M as [-> Hf%negb_true_iff]. subst skipInsert.
    destruct (publishAll_deferred bc calls t [] newTx) as (b & HF & HI); [done|by repeat split; auto; left|done|].
    destruct (commit_deferred _ _ _ HI) as (cs & C & N & V). exists b, cs. done.
  - destruct (publishAll_direct bc ibc calls t [] newTx) as (b & HF & (R & B & [N _] & V)); [| |done|].
    + intros k Hk. destruct (Hs k Hk) as [-> ?]. done.
    + split_and!; [done..|apply comb_inv_nil | intros _; apply covers_nil].
    + exists b, (tx_combinations t). unfold commitTx. rewrite B. cbn. by rewrite R.
Qed.

(** C17. When all publications of a transaction use the same value of
    [skipInsertEventsBeforeCommit] and none of them fails, every published event is
    inserted exactly once, in the order of publication: at once when the events are not
    collected, and with the commit when they are.  (With both values in one transaction events
    are inserted twice, [mixed_publication_inserts_twice].) *)
Theorem published_inserted_once ibc skipInsert calls t :
  (forall k, k ∈ calls -> skipInsertEventsBeforeCommit k.1.1 = skipInsert) ->
  publishAll toString stringify dateParse cronNextISO c true ibc calls newTx = (t, None) ->
  exists batches combinations, Forall2 prepared calls batches /\
    commitTx toString c None t = Some (List.concat batches, combinations).
Proof.
  intros Hs H. destruct (published_committed false ibc skipInsert calls t) as (b & cs & F & C & _); [|done|eauto].
  intros k Hk. by split; [apply Hs|].
Qed.

(** The completed events of a publication are determined. *)
Lemma prepared_all_unique calls b1 b2 : Forall2 prepared calls b1 -> Forall2 prepared calls b2 -> b1 = b2.
Proof.
  intros F1. revert b2. induction F1 as [|k evs calls b1 H1 _ IH]; intros b2 F2; inversion F2 as [|? evs' ? ? H2 F2']; subst; [done|].
  unfold prepared in *. rewrite H1 in H2. injection H2 as ->. f_equal. by apply IH.
Qed.

Lemma commit_collected t rows evs skip :
  tx_rows t = rows -> tx_beforeCommit t = [skip] -> tx_eventQueue t = Some (evs, true) ->
  exists combinations, commitTx toString c None t = Some (rows ++ evs, combinations).
Proof.
  intros <- B Q. unfold commitTx. rewrite B. cbn [runCommitHandlers]. unfold commitHandler. rewrite Q.
  destruct evs as [|e evs]; [rewrite app_nil_r; eauto|].
  destruct (insertWithFlag_spec skip (e :: evs) t) as (t' & -> & R & _). cbn. rewrite R. eauto.
Qed.

(** Publications of one transaction that collect their events and publications
    that do not cannot be mixed: the events of a publication that inserts at once
    stay in the collection, and the commit inserts them a second time. *)
Theorem mixed_publication_inserts_twice o1 o2 tr1 tr2 evs1 evs2 es1 es2 :
  skipInsertEventsBeforeCommit o1 = true -> skipInsertEventsBeforeCommit o2 = false ->
  prepared (o1, tr1, es1) evs1 -> prepared (o2, tr2, es2) evs2 ->
  exists t combinations,
    publishAll toString stringify dateParse cronNextISO c true true [(o1, tr1, es1); (o2, tr2, es2)] newTx = (t, None) /\
    commitTx toString c None t = Some (evs1 ++ (evs1 ++ evs2), combinations).
Proof.
  intros H1 H2 P1 P2. cbn [publishAll]. rewrite (publish_direct _ _ _ _ evs1) by (rewrite ?H1; done).
  destruct (insertWithFlag_spec (skipBroadcast o1) evs1 (addEventsToContext evs1 newTx)) as (t1 & -> & R1 & B1 & Q1 & _).
  cbn [fst]. rewrite (publish_deferred _ _ _ evs2) by done.
  destruct (commit_collected (registerHandler (skipBroadcast o2) (addEventsToContext evs2 t1)) evs1 (evs1 ++ evs2)
              (skipBroadcast o2)) as [cs C].
  - unfold addEventsToContext, registerHandler. rewrite Q1. done.
  - unfold addEventsToContext, registerHandler. rewrite Q1. cbn. by rewrite B1.
  - unfold addEventsToContext, registerHandler. rewrite Q1. done.
  - eauto.
Qed.

(** Collected events whose commit handler skips the broadcast. *)
Definition silent (t : txState) : Prop :=
  tx_combinations t = [] /\ tx_beforeCommit t = [true] /\ exists evs, tx_eventQueue t = Some (evs, true).

Lemma silent_publishAll calls : forall t t',
  (forall k, k ∈ calls -> skipInsertEventsBeforeCommit k.1.1 = false) -> silent t ->
  publishAll toString stringify dateParse cronNextISO c true true calls t = (t', None) -> silent t'.
Proof.
  induction calls as [|[[o tr] es] calls IH]; intros t t' Hs Ht H; cbn [publishAll] in H; [by injection H as <-|].
  destruct (publishEvent _ _ _ _ _ _ _ _ _ _ _ t) as [t1 [|]] eqn:P; [discriminate|].
  destruct (publish_prepares _ _ _ _ _ _ _ P) as [es' Hp].
  rewrite (publish_deferred _ _ _ es') in P by (done || apply (Hs (o, tr, es)); left). injection P as <-.
  eapply IH; [|  |exact H]; [intros k Hk; apply Hs; by right|].
  destruct Ht as (C & B & evs & Q). unfold addEventsToContext, registerHandler. rewrite Q. cbn.
  split_and!; [done..|]. eexists. reflexivity.
Qed.

(** The first publication of a transaction decides about the broadcast of all of
    them when the events are collected: if it skips the broadcast, the combinations of
    later publications are not broadcast either. *)
Theorem first_skip_silences_transaction calls o1 tr1 es1 t :
  (forall k, k ∈ calls -> skipInsertEventsBeforeCommit k.1.1 = false) ->
  skipInsertEventsBeforeCommit o1 = false -> skipBroadcast o1 = true ->
  publishAll toString stringify dateParse cronNextISO c true true ((o1, tr1, es1) :: calls) newTx = (t, None) ->
  exists rows, commitTx toString c None t = Some (rows, []).
Proof.
  intros Hs H1 Hsk H. cbn [publishAll] in H.
  destruct (publishEvent _ _ _ _ _ _ _ _ _ _ _ newTx) as [t1 [|]] eqn:P; [discriminate|].
  destruct (publish_prepares _ _ _ _ _ _ _ P) as [es' Hp].
  rewrite (publish_deferred _ _ _ es') in P by done. injection P as <-. rewrite Hsk in H.
  apply silent_publishAll in H as (C & B & evs & Q); [|done|by split_and!; eauto].
  unfold commitTx. rewrite B. cbn [runCommitHandlers]. unfold commitHandler. rewrite Q.
  destruct evs as [|e evs]; [rewrite C; eauto|].
  destruct (insertWithFlag_spec true (e :: evs) t) as (t' & -> & _ & _ & _ & E). injection E as _ E.
  cbn. rewrite E, C. eauto.
Qed.

(** An event of a type with a time bucket is always moved to the bucket: a start
    time the publisher supplies is replaced. *)
Theorem timeBucket_replaces_startAfter o tr e r s iso :
  getEventConfig toString c (prop e "type") (prop e "subType") (prop e "namespace") = Some r ->
  truthy (opt r "isPeriodic") = false -> truthy (opt r "timeBucket") = true ->
  cronNextISO (opt r "timeBucket") = Ok iso ->
  prop e "startAfter" = JStr s -> isValidDate dateParse (JStr s) = true ->
  oget s e = None -> s ∉ ["payload"; "context"] ->
  exists e', prepareEvent toString stringify dateParse cronNextISO c o tr e = Ok e' /\ prop e' "startAfter" = JStr iso.
Proof.
  intros Hc Hp Ht Hi Hs Hv Hn Hne. unfold prepareEvent. rewrite Hc, Hs, Hp, Hv, Ht, andb_false_r, Hi.
  rewrite bool_decide_eq_false_2 by done. cbn [andb negb js_string].
  assert (N : forall v (e0 : obj jsval), oget s e0 = None -> s ∉ ["payload"; "context"] ->
    oget s (oset "payload" v e0) = None /\ oget s (oset "context" v e0) = None).
  { intros v e0 H0 Hs0. rewrite !oget_oset_ne; [done| |]; intros <-; apply Hs0; elem_lit. }
  match goal with |- context [ohas s ?e1] => assert (O : ohas s e1 = false) end.
  { apply ohas_false. destruct (is_string _), (addTraceContext o); repeat apply N; done. }
  rewrite O. cbn [negb]. eexists. split; [reflexivity|].
  rewrite prop_oset_ne by discriminate. apply prop_oset_eq.
Qed.
End publish_props.

(** ** [redisPub.js]: the broadcast *)

Definition TRIES_FOR_PUBLISH_PERIODIC_EVENT : nat := 10.

Section broadcast.
Context (toString : jsval -> string) (c : Config).

(** The attempts for one combination: [locked i] is the answer of [checkLockExists] at
    the [i]-th attempt; the result tells whether the message is published. *)
Fixpoint publish_attempts (multiInstance retry : bool) (locked : nat -> bool) (i fuel : nat) : bool :=
  match fuel with
  | O => false
  | S n =>
    if negb multiInstance && locked i then
      if negb retry then false else publish_attempts multiInstance retry locked (S i) n
    else true
  end.

(** The loop over the combinations; [fails] tells where the message cannot be
    published, which ends the loop with an error that is logged. *)
Fixpoint publish_loop (forceBroadcast : bool) (locked : string * string * string -> nat -> bool)
    (fails : string * string * string -> bool) (evs : list (string * string * string)) : list (string * string * string) :=
  match evs with
  | [] => []
  | (type_, subType, namespace) as e :: rest =>
    let continue := publish_loop forceBroadcast locked fails rest in
    match getEventConfig toString c (JStr type_) (JStr subType) (JStr namespace) with
    | None => continue
    | Some r =>
      if publish_attempts (truthy (opt r "multiInstanceProcessing")) (truthy (opt r "isPeriodic") || forceBroadcast)
           (locked e) 0 TRIES_FOR_PUBLISH_PERIODIC_EVENT
      then if fails e then [] else e :: continue
      else continue
    end
  end.

(** [_processLocalWithoutRedis(tenantId, events)]: the combinations that are run. *)
Definition processLocalWithoutRedis (registerAsEventProcessor : bool) (evs : list (string * string * string))
    : list (string * string * string) :=
  if registerAsEventProcessor then
    List.filter (fun e => shouldProcessNamespace c e.2) evs
  else [].

(** What a broadcast does: messages are published, or combinations are run in this
    process. *)
Inductive broadcastResult : Type :=
| Published (evs : list (string * string * string))
| RunLocally (evs : list (string * string * string)).

(** [broadcastEvent(tenantId, events, forceBroadcast)] *)
Definition broadcastEvent (isEventQueueActive redisEnabled tenantShouldBeProcessed registerAsEventProcessor : bool)
    (forceBroadcast : bool) (locked : string * string * string -> nat -> bool) (fails : string * string * string -> bool)
    (evs : list (string * string * string)) : broadcastResult :=
  if negb isEventQueueActive then Published []
  else if negb redisEnabled then
    if negb tenantShouldBeProcessed then RunLocally []
    else RunLocally (processLocalWithoutRedis registerAsEventProcessor evs)
  else Published (publish_loop forceBroadcast locked fails evs).

(** The event of a combination, by the parts of its key: a key has three of them at least. *)
Definition combinationParts (combination : string) : string * string * string :=
  let parts := split hash2 combination in (nth 0 parts EmptyString, nth 1 parts EmptyString, nth 2 parts EmptyString).

(** The broadcast of the handler [on("succeeded")] after the inserts of a transaction. *)
Definition broadcastCombinations (isEventQueueActive redisEnabled tenantShouldBeProcessed registerAsEventProcessor : bool)
    (locked : string * string * string -> nat -> bool) (fails : string * string * string -> bool) (combinations : list string)
    : option broadcastResult :=
  match combinations with
  | [] => None
  | _ => Some (broadcastEvent isEventQueueActive redisEnabled tenantShouldBeProcessed registerAsEventProcessor false locked fails
                 (map combinationParts combinations))
  end.

Lemma combinationParts_join type_ subType namespace :
  Forall (fun p => hash_free p = true) [type_; subType; namespace] ->
  combinationParts (join hash2 [type_; subType; namespace]) = (type_, subType, namespace).
Proof. intros Hf. unfold combinationParts. by rewrite split_join. Qed.

Lemma attempts_spec multi locked i n :
  publish_attempts multi true locked i n = true <->
  exists j, (j < n)%nat /\ (multi = true \/ locked (i + j)%nat = false).
Proof.
  revert i. induction n as [|n IH]; intros i; cbn [publish_attempts].
  - split; [discriminate | intros (j & Hj & _); lia].
  - destruct (negb multi && locked i) eqn:L; simpl.
    + apply andb_true_iff in L as [Hm%negb_true_iff Hl]. rewrite IH. split.
      * intros (j & Hj & H). exists (S j). split; [lia|]. by replace (i + S j)%nat with (S i + j)%nat by lia.
      * intros ([|j] & Hj & [H|H]); try congruence; [rewrite Nat.add_0_r in H; congruence|].
        exists j. split; [lia|]. right. by replace (S i + j)%nat with (i + S j)%nat by lia.
    + split; [|done]. intros _. exists O. split; [lia|]. rewrite Nat.add_0_r.
      apply andb_false_iff in L as [->%negb_false_iff|L]; auto.
Qed.

(** The decision for one combination. *)
Lemma attempts_decision multi retry locked :
  publish_attempts multi retry locked 0 TRIES_FOR_PUBLISH_PERIODIC_EVENT = true <->
  multi = true \/ if retry then exists i, (i < TRIES_FOR_PUBLISH_PERIODIC_EVENT)%nat /\ locked i = false
                  else locked O = false.
Proof.
  destruct retry.
  - rewrite attempts_spec. split.
    + intros (j & Hj & [H|H]); eauto.
    + intros [H|(j & Hj & H)]; [exists O; unfold TRIES_FOR_PUBLISH_PERIODIC_EVENT; split; [lia|auto] | eauto].
  - unfold TRIES_FOR_PUBLISH_PERIODIC_EVENT. cbn [publish_attempts negb].
    destruct multi, (locked O); cbn; naive_solver.
Qed.

(** Whether a combination that is configured as [r] is published. *)
Definition sendable (r : regEvent) (force : bool) (locked : nat -> bool) : Prop :=
  truthy (opt r "multiInstanceProcessing") = true \/
  if truthy (opt r "isPeriodic") || force
  then exists i, (i < TRIES_FOR_PUBLISH_PERIODIC_EVENT)%nat /\ locked i = false
  else locked O = false.

Lemma publish_loop_elem force locked evs type_ subType namespace :
  let e := (type_, subType, namespace) in
  e ∈ publish_loop force locked (fun _ => false) evs <->
  e ∈ evs /\ exists r, getEventConfig toString c (JStr type_) (JStr subType) (JStr namespace) = Some r /\ sendable r force (locked e).
Proof.
  intros e. induction evs as [|[[t s] n] evs IH]; cbn [publish_loop].
  { split; [by intros ?%elem_of_nil | by intros [?%elem_of_nil _]]. }
  rewrite elem_of_cons. destruct (decide (e = (t, s, n))) as [[= <- <- <-]|Hne].
  - destruct (getEventConfig _ _ _ _ _) as [r|]; [|rewrite IH; naive_solver]. fold e.
    destruct (publish_attempts _ _ _ _ _) eqn:P.
    + apply attempts_decision in P. split; [|intros _; left]. intros _. split; [by left | by exists r].
    + rewrite IH. split; [naive_solver|]. intros [_ (r' & [= <-] & S%attempts_decision)]. congruence.
  - destruct (getEventConfig toString c (JStr t) (JStr s) (JStr n)) as [r0|]; [|rewrite IH; naive_solver].
    destruct (publish_attempts _ _ (locked (t, s, n)) _ _); rewrite ?elem_of_cons, IH; naive_solver.
Qed.

Lemma publish_loop_NoDup force locked evs : NoDup evs -> NoDup (publish_loop force locked (fun _ => false) evs).
Proof.
  induction evs as [|[[t s] n] evs IH]; [done|]. intros [Hn Hd]%NoDup_cons. cbn [publish_loop].
  destruct (getEventConfig _ _ _ _ _); [|by apply IH]. destruct (publish_attempts _ _ _ _ _); [|by apply IH].
  apply NoDup_cons. split; [|by apply IH]. by intros [? _]%publish_loop_elem.
Qed.

(** A combination is published exactly if it is configured and not being processed:
    an ad-hoc event is given up when its lock is held, a periodic or forced one is
    published if the lock is free at one of ten attempts; combinations that may be
    processed by several instances ignore the lock. *)
Theorem broadcast_published tenantOk register force locked evs type_ subType namespace r :
  (type_, subType, namespace) ∈ evs ->
  getEventConfig toString c (JStr type_) (JStr subType) (JStr namespace) = Some r ->
  let e := (type_, subType, namespace) in
  exists messages,
    broadcastEvent true true tenantOk register force locked (fun _ => false) evs = Published messages /\
    (e ∈ messages <-> sendable r force (locked e)).
Proof.
  intros Hin Hc e. eexists. split; [reflexivity|]. unfold e. rewrite publish_loop_elem. naive_solver.
Qed.
End broadcast.

(** ** The broadcast of a transaction *)

Section committed.
Context (toString : jsval -> string) (stringify : jsval -> jsval) (dateParse : string -> option Z)
  (cronNextISO : jsval -> result jsval string).
Context (c : Config).

(** An event that is named by strings without the separator of the keys. *)
Definition named (e : obj jsval) (p : string * string * string) : Prop :=
  prop e "type" = JStr p.1.1 /\ prop e "subType" = JStr p.1.2 /\ prop e "namespace" = JStr p.2 /\
  Forall (fun p => hash_free p = true) [p.1.1; p.1.2; p.2].

Lemma combinationParts_named e p : named e p -> combinationParts (combination toString e) = p.
Proof.
  intros (T & S & N & F). unfold combination. rewrite T, S, N.
  change (combinationParts (join hash2 [p.1.1; p.1.2; p.2]) = p).
  rewrite (combinationParts_join _ _ _ F). by destruct p as [[? ?] ?].
Qed.

Lemma NoDup_bool_filter {A} (f : A -> bool) l : NoDup l -> NoDup (List.filter f l).
Proof.
  induction 1 as [|x l Hn _ IH]; simpl; [constructor|]. destruct (f x); [|done]. constructor; [|done].
  intros Hin. apply Hn. apply list_elem_of_In, List.filter_In in Hin as [Hin _]. by apply list_elem_of_In.
Qed.

(** The combinations of distinct keys are distinct, and are those of the events. *)
Lemma combinations_named rows combinations :
  covers toString c rows combinations -> NoDup combinations ->
  (forall e, e ∈ rows -> flagged toString c e = true -> exists p, named e p) ->
  NoDup (map combinationParts combinations) /\
  forall p, p ∈ map combinationParts combinations <-> exists e, e ∈ rows /\ flagged toString c e = true /\ named e p.
Proof.
  intros Hc Hn Hp. split.
  - apply (NoDup_fmap_2_strong combinationParts); [|done]. intros k1 k2 (e1 & H1 & F1 & <-)%Hc (e2 & H2 & F2 & <-)%Hc.
    destruct (Hp e1 H1 F1) as [p1 N1], (Hp e2 H2 F2) as [p2 N2].
    rewrite (combinationParts_named e1 p1 N1), (combinationParts_named e2 p2 N2). intros <-.
    destruct N1 as (T1 & S1 & M1 & _), N2 as (T2 & S2 & M2 & _). unfold combination. congruence.
  - intros p. rewrite list_elem_of_fmap. split.
    + intros (k & -> & (e & H & F & <-)%Hc). destruct (Hp e H F) as [p N]. exists e.
      by rewrite (combinationParts_named e p N).
    + intros (e & H & F & N). exists (combination toString e). split; [by rewrite (combinationParts_named e p N)|].
      apply Hc. by exists e.
Qed.

(** C31. What is broadcast after the commit.  When all publications of a transaction use
    the same [skipInsertEventsBeforeCommit], none of them skips the broadcast, and the events
    that are to be processed after the commit are named by strings without ["##"]: the
    handler of the committed transaction hands every combination of type, sub type and
    namespace of such an event to [broadcastEvent] exactly once, and no other; there is no
    broadcast if there is no such event.  With Redis, if no publication of a message fails,
    each of them is published once if it is sendable (its lock is not held, or it may be
    processed by several instances) and not otherwise; without Redis each whose
    namespace the instance processes is run once in the process. *)
Theorem broadcast_once ibc skipInsert calls batches t tenantOk register locked :
  (forall k, k ∈ calls -> skipInsertEventsBeforeCommit k.1.1 = skipInsert /\ skipBroadcast k.1.1 = false) ->
  publishAll toString stringify dateParse cronNextISO c true ibc calls newTx = (t, None) ->
  Forall2 (prepared toString stringify dateParse cronNextISO c) calls batches ->
  (forall e, e ∈ concat batches -> flagged toString c e = true -> exists p, named e p) ->
  let due p := exists e, e ∈ concat batches /\ flagged toString c e = true /\ named e p in
  exists combinations, commitTx toString c None t = Some (concat batches, combinations) /\
    NoDup (map combinationParts combinations) /\ (forall p, p ∈ map combinationParts combinations <-> due p) /\
    ((forall p, ~ due p) -> forall redisEnabled,
       broadcastCombinations toString c true redisEnabled true true locked (fun _ => false) combinations = None) /\
    ((exists p, due p) -> exists sent run,
       broadcastCombinations toString c true true tenantOk register locked (fun _ => false) combinations = Some (Published sent) /\
       NoDup sent /\
       (forall p, p ∈ sent <-> due p /\
          exists r, getEventConfig toString c (JStr p.1.1) (JStr p.1.2) (JStr p.2) = Some r /\ sendable r false (locked p)) /\
       broadcastCombinations toString c true false true true locked (fun _ => false) combinations = Some (RunLocally run) /\
       NoDup run /\ forall p, p ∈ run <-> due p /\ shouldProcessNamespace c p.2 = true).
Proof.
  intros Hs H Hb Hp due.
  destruct (published_committed toString stringify dateParse cronNextISO c true ibc skipInsert calls t) as (b & cs & F & C & N & V);
    [|done|].
  { intros k Hk. destruct (Hs k Hk). done. }
  rewrite (prepared_all_unique _ _ _ _ _ _ _ _ F Hb) in *. specialize (V eq_refl).
  destruct (combinations_named (concat batches) cs V N Hp) as [N1 N2]. exists cs. split_and!; [done..| |].
  - intros Hno redisEnabled. destruct cs as [|k cs]; [done|]. exfalso. apply (Hno (combinationParts k)), N2. left.
  - intros [p0 Hd%N2]. destruct cs as [|k cs]; [by apply elem_of_nil in Hd|]. eexists _, _.
    split; [reflexivity|]. split; [by apply publish_loop_NoDup|]. split.
    { intros [[type_ subType] namespace]. by rewrite publish_loop_elem, N2. }
    split; [reflexivity|]. split; [by apply NoDup_bool_filter|]. intros p.
    unfold due. rewrite <- N2. unfold processLocalWithoutRedis. rewrite !list_elem_of_In. apply List.filter_In.
Qed.
End committed.

(** ** Witnesses *)

Definition demoStringifyJson (v : jsval) : jsval := JStr "{}".
Definition demoDateParse (s : string) : option Z := if bool_decide (s = "2025-01-01") then Some 0 else None.
Definition demoCronISO (v : jsval) : result jsval string := Ok "2025-02-01".

(** A registry with one event that has a time bucket. *)
Definition demoBucket : obj jsval :=
  [("type", JStr "Report"); ("subType", JStr "daily"); ("impl", JStr "./Report"); ("timeBucket", JStr "0 0 * * *")].

Definition demoPublishCfg : Config :=
  (setFileContent demoCfgString demoCronParses demoCronNext demoValidRegex demoCds [demoAdHoc; demoBucket] [demoPeriodic] demoCfg).1.

Definition demoMail : obj jsval := [("type", JStr "Mail"); ("subType", JStr "send"); ("payload", JObj [])].
Definition demoReport : obj jsval :=
  [("type", JStr "Report"); ("subType", JStr "daily"); ("startAfter", JStr "2025-01-01"); ("payload", JStr "{}")].

Definition demoPublishAll := publishAll demoCfgString demoStringifyJson demoDateParse demoCronISO demoPublishCfg true true.

Definition demoCalls (skip : bool) : list call :=
  [(mkOptions skip false true false, JNull, [demoMail; demoMail]); (defaultOptions, JNull, [demoReport])].

Lemma published_inserted_once_witness :
  exists batches combinations,
    Forall2 (prepared demoCfgString demoStringifyJson demoDateParse demoCronISO demoPublishCfg) (demoCalls false) batches /\
    commitTx demoCfgString demoPublishCfg None (demoPublishAll (demoCalls false) newTx).1 =
      Some (List.concat batches, combinations).
Proof.
  apply (published_inserted_once demoCfgString demoStringifyJson demoDateParse demoCronISO demoPublishCfg true false).
  - intros k Hk. apply list_elem_of_In in Hk. destruct Hk as [<-|[<-|[]]]; reflexivity.
  - vm_compute. reflexivity.
Defined.

(** The mails of two publications are broadcast once; the report is not due at once. *)
Lemma broadcast_once_witness :
  exists rows combinations sent,
    commitTx demoCfgString demoPublishCfg None (demoPublishAll (demoCalls false) newTx).1 = Some (rows, combinations) /\
    broadcastCombinations demoCfgString demoPublishCfg true true true true (fun _ _ => false) (fun _ => false) combinations =
      Some (Published sent) /\ NoDup sent /\ ("Mail", "send", "default") ∈ sent.
Proof.
  let b := eval vm_compute in (map (fun k : call => match prepareEvents demoCfgString demoStringifyJson demoDateParse demoCronISO
    demoPublishCfg k.1.1 k.1.2 k.2 with Ok evs => evs | Err _ => [] end) (demoCalls false)) in pose (batches := b).
  destruct (broadcast_once demoCfgString demoStringifyJson demoDateParse demoCronISO demoPublishCfg true false (demoCalls false)
    batches (demoPublishAll (demoCalls false) newTx).1 true true (fun _ _ => false)) as (cs & C & _ & _ & _ & S).
  - intros k Hk. apply list_elem_of_In in Hk. destruct Hk as [<-|[<-|[]]]; split; reflexivity.
  - vm_compute. reflexivity.
  - repeat constructor; vm_compute; reflexivity.
  - intros e He _. apply list_elem_of_In in He. destruct He as [<-|[<-|[<-|[]]]];
      [exists ("Mail", "send", "default") | exists ("Mail", "send", "default") | exists ("Report", "daily", "default")];
      split_and!; try (vm_compute; reflexivity); repeat constructor.
  - assert (Due : exists e, e ∈ concat batches /\ flagged demoCfgString demoPublishCfg e = true /\ named e ("Mail", "send", "default")).
    { eexists. split; [left|]. split; [vm_compute; reflexivity|]. split_and!; try (vm_compute; reflexivity). repeat constructor. }
    destruct S as (sent & run & B & N & I & _); [by eexists|]. exists (concat batches), cs, sent.
    split; [exact C|]. split; [exact B|]. split; [exact N|]. apply I. split; [exact Due|].
    eexists. split; [vm_compute; reflexivity | right; reflexivity].
Defined.

Lemma mixed_publication_inserts_twice_witness :
  exists evs1 evs2 t combinations,
    demoPublishAll [(mkOptions false true true false, JNull, [demoMail]); (defaultOptions, JNull, [demoReport])] newTx = (t, None) /\
    commitTx demoCfgString demoPublishCfg None t = Some (evs1 ++ (evs1 ++ evs2), combinations) /\ length evs1 = 1%nat.
Proof.
  destruct (prepareEvents demoCfgString demoStringifyJson demoDateParse demoCronISO demoPublishCfg
              (mkOptions false true true false) JNull [demoMail]) as [evs1|] eqn:P1; [|vm_compute in P1; discriminate P1].
  destruct (prepareEvents demoCfgString demoStringifyJson demoDateParse demoCronISO demoPublishCfg
              defaultOptions JNull [demoReport]) as [evs2|] eqn:P2; [|vm_compute in P2; discriminate P2].
  destruct (mixed_publication_inserts_twice demoCfgString demoStringifyJson demoDateParse demoCronISO demoPublishCfg
              (mkOptions false true true false) defaultOptions JNull JNull evs1 evs2 [demoMail] [demoReport]
              eq_refl eq_refl P1 P2) as (t & cs & H1 & H2).
  exists evs1, evs2, t, cs. split; [exact H1|]. split; [exact H2|]. vm_compute in P1. injection P1 as <-. reflexivity.
Defined.

Lemma first_skip_silences_transaction_witness :
  exists rows, commitTx demoCfgString demoPublishCfg None (demoPublishAll (demoCalls true) newTx).1 = Some (rows, []).
Proof.
  apply (first_skip_silences_transaction demoCfgString demoStringifyJson demoDateParse demoCronISO demoPublishCfg
           [(defaultOptions, JNull, [demoReport])] (mkOptions true false true false) JNull [demoMail; demoMail]).
  - intros k Hk. apply list_elem_of_In in Hk. destruct Hk as [<-|[]]. reflexivity.
  - reflexivity.
  - reflexivity.
  - vm_compute. reflexivity.
Defined.

Lemma timeBucket_replaces_startAfter_witness :
  exists e', prepareEvent demoCfgString demoStringifyJson demoDateParse demoCronISO demoPublishCfg defaultOptions JNull demoReport
      = Ok e' /\ prop e' "startAfter" = JStr "2025-02-01".
Proof.
  destruct (getEventConfig demoCfgString demoPublishCfg (JStr "Report") (JStr "daily") JUndef) as [r|] eqn:C;
    [|vm_compute in C; discriminate C].
  assert (E : getEventConfig demoCfgString demoPublishCfg (JStr "Report") (JStr "daily") JUndef =
    Some (adHocEntry demoCfgString demoValidRegex demoCfg demoBucket)) by (vm_compute; reflexivity).
  apply (timeBucket_replaces_startAfter demoCfgString demoStringifyJson demoDateParse demoCronISO demoPublishCfg
           defaultOptions JNull demoReport (adHocEntry demoCfgString demoValidRegex demoCfg demoBucket) "2025-01-01" "2025-02-01");
    try (vm_compute; reflexivity).
  apply (bool_decide_unpack _). vm_compute. exact I.
Defined.

Lemma broadcast_published_witness :
  exists messages,
    broadcastEvent demoCfgString demoPublishCfg true true true true false (fun _ i => Nat.ltb i 3) (fun _ => false)
      [("Mail", "send", "default"); ("Clean_PERIODIC", "all", "default")] = Published messages /\
    (("Clean_PERIODIC", "all", "default") ∈ messages <->
      sendable (periodicEntry demoCfgString demoValidRegex demoCfg demoPeriodic) false (fun i => Nat.ltb i 3)).
Proof.
  apply (broadcast_published demoCfgString demoPublishCfg true true false (fun _ i => Nat.ltb i 3)
           [("Mail", "send", "default"); ("Clean_PERIODIC", "all", "default")] "Clean_PERIODIC" "all" "default"
           (periodicEntry demoCfgString demoValidRegex demoCfg demoPeriodic)).
  - right. left.
  - vm_compute. reflexivity.
Defined.
