(* ===== verification/Scheduling.v ===== *)
(** * Timers: the drift-safe interval and the scheduler of delayed events

    [shared/SetIntervalDriftSafe.js] and [shared/eventScheduler.js] over Node's
    timers: a pending timer has an id and the time it is due. *)

From S2P Require Import Prelude Js.
From stdpp Require pretty.
#[local] Open Scope Z_scope.

(** Node sets a delay below 1 or above 2^31 - 1 milliseconds to 1. *)
Definition TIMEOUT_MAX : Z := 2147483647.

Definition timeout_delay (d : Z) : Z := if (1 <=? d) && (d <=? TIMEOUT_MAX) then d else 1.

(** ** SetIntervalDriftSafe *)

Module Drift.

(** The fields of the class, the timers it has pending and the number of calls of
    the function it drives. *)
Record t := mk {
  interval : Z;
  adjustedInterval : Z;
  expectedCycleTime : Z;
  shouldRun : bool;
  lastTimeoutId : option nat;
  timers : list (nat * Z);
  nextTimer : nat;
  calls : nat }.

(** [constructor(interval)] *)
Definition new (interval : Z) : t := mk interval interval 0 true None [] 0 0.

(** [run(fn)] at the time [now] *)
Definition run (now : Z) (s : t) : t :=
  if negb (shouldRun s) then s
  else
    let '(adjusted, expected) :=
      if expectedCycleTime s =? 0 then (adjustedInterval s, now + interval s)
      else (interval s - (now - expectedCycleTime s), expectedCycleTime s + interval s) in
    mk (interval s) adjusted expected (shouldRun s) (Some (nextTimer s))
      (timers s ++ [(nextTimer s, now + timeout_delay adjusted)]) (S (nextTimer s)) (calls s).

(** [start(fn)] *)
Definition start (now : Z) (s : t) : t :=
  run now (mk (interval s) (adjustedInterval s) (expectedCycleTime s) true (lastTimeoutId s)
             (timers s) (nextTimer s) (calls s)).

Definition clear (id : nat) (l : list (nat * Z)) : list (nat * Z) :=
  filter (fun x => x.1 <> id) l.

Lemma clear_single id T : clear id [(id, T)] = [].
Proof. unfold clear. rewrite filter_cons, decide_False by (intros H; by apply H). done. Qed.

(** The callback of the timer [id], at the time [now]. *)
Definition fire (now : Z) (id : nat) (s : t) : t :=
  let s1 := mk (interval s) (adjustedInterval s) (expectedCycleTime s) (shouldRun s)
              (lastTimeoutId s) (clear id (timers s)) (nextTimer s) (calls s) in
  if negb (shouldRun s1) then s1
  else
    let s2 := run now s1 in
    mk (interval s2) (adjustedInterval s2) (expectedCycleTime s2) (shouldRun s2)
      (lastTimeoutId s2) (timers s2) (nextTimer s2) (S (calls s2)).

(** [stop()] *)
Definition stop (s : t) : t :=
  mk (interval s) (adjustedInterval s) (expectedCycleTime s) false (lastTimeoutId s)
    (match lastTimeoutId s with Some id => clear id (timers s) | None => timers s end)
    (nextTimer s) (calls s).

(** The only pending timer fires, each time [late] milliseconds after it is due. *)
Fixpoint fire_late (lates : list Z) (s : t) : t :=
  match lates with
  | [] => s
  | late :: r =>
    match timers s with
    | [(id, due)] => fire_late r (fire (due + late) id s)
    | _ => s
    end
  end.

(** Running on schedule: one timer, due when the next cycle is expected. *)
Definition on_schedule (T : Z) (s : t) : Prop :=
  shouldRun s = true /\ expectedCycleTime s = T /\ T <> 0 /\
  exists id, timers s = [(id, T)].

Lemma fire_on_schedule T late s :
  on_schedule T s -> 0 < T -> 0 <= late < interval s -> interval s <= TIMEOUT_MAX ->
  exists id, timers s = [(id, T)] /\
    on_schedule (T + interval s) (fire (T + late) id s) /\
    interval (fire (T + late) id s) = interval s /\
    calls (fire (T + late) id s) = S (calls s).
Proof.
  intros (Hr & He & Hne & id & Ht) HT Hl Hi. exists id. split; [done|].
  unfold fire, run. cbn -[clear]. rewrite Hr, He, Ht. cbn [negb].
  rewrite (proj2 (Z.eqb_neq T 0)), clear_single by lia. cbn -[clear].
  assert (Hd : T + late + timeout_delay (interval s - (T + late - T)) = T + interval s).
  { unfold timeout_delay.
    rewrite (proj2 (Z.leb_le 1 _)), (proj2 (Z.leb_le _ TIMEOUT_MAX)) by lia. simpl. lia. }
  split_and!; [|done..]. unfold on_schedule; cbn. rewrite Hd.
  split_and!; [done | done | lia |]. by exists (nextTimer s).
Qed.

(** The interval does not drift: when every timer fires late, but by less than
    an interval, the n-th call still leaves the next timer due exactly n + 1
    intervals after the start, and the function is called once per interval. *)
Theorem no_drift (now ival : Z) (lates : list Z) :
  0 <= now -> 0 < ival <= TIMEOUT_MAX -> Forall (fun l => 0 <= l < ival) lates ->
  let s := fire_late lates (run now (new ival)) in
  on_schedule (now + (Z.of_nat (length lates) + 1) * ival) s /\ calls s = length lates.
Proof.
  intros Hn Hi Hl.
  assert (H0 : on_schedule (now + ival) (run now (new ival))).
  { unfold run, new, on_schedule; cbn. unfold timeout_delay.
    rewrite (proj2 (Z.leb_le 1 _)), (proj2 (Z.leb_le _ TIMEOUT_MAX)) by lia. simpl.
    split_and!; [done | done | lia | eauto]. }
  assert (Hgen : forall lates T s, on_schedule T s -> 0 < T -> interval s = ival ->
            Forall (fun l => 0 <= l < ival) lates ->
            on_schedule (T + Z.of_nat (length lates) * ival) (fire_late lates s) /\
            calls (fire_late lates s) = (calls s + length lates)%nat).
  { clear lates Hl. induction lates as [|l r IH]; intros T s Hs HT Hiv Hf; simpl.
    - replace (T + Z.of_nat 0 * ival) with T by lia. split; [done | lia].
    - apply Forall_cons in Hf as [Hl Hr].
      destruct (fire_on_schedule T l s Hs HT) as (id & Ht & Hs' & Hiv' & Hc); [lia..|].
      rewrite Ht. destruct (IH (T + interval s) (fire (T + l) id s)) as [IH1 IH2];
        [done | lia | congruence | done |].
      replace (T + Z.of_nat (S (length r)) * ival)
        with (T + interval s + Z.of_nat (length r) * ival) by lia.
      split; [done | rewrite IH2, Hc; lia]. }
  destruct (Hgen lates (now + ival) (run now (new ival)) H0) as [H1 H2]; [lia | done | done |].
  split; [|rewrite H2; done].
  replace (now + (Z.of_nat (length lates) + 1) * ival)
    with (now + ival + Z.of_nat (length lates) * ival) by lia. done.
Qed.

Lemma no_drift_witness :
  let s := fire_late [5; 0; 59] (run 1000 (new 60)) in
  on_schedule (1000 + 4 * 60) s /\ calls s = 3%nat.
Proof.
  apply (no_drift 1000 60 [5; 0; 59]); [lia | unfold TIMEOUT_MAX; lia |].
  repeat constructor; lia.
Defined.

(** A stopped interval leaves no timer of its current chain pending, and a timer
    that fires nevertheless neither calls the function nor renews itself. *)
Lemma stop_quiet now id s :
  calls (fire now id (stop s)) = calls s /\
  timers (fire now id (stop s)) = clear id (timers (stop s)).
Proof. done. Qed.
End Drift.

(** ** EventScheduler *)

Section scheduler.
(** [Date.prototype.toISOString] on a valid time value. *)
Context (toISOString : Z -> string).

(** An event combination, as it is broadcast. *)
Record combination := mkCombination {
  c_tenant : option string; c_type : string; c_subType : string; c_namespace : option string }.

Record timer := mkTimer {
  t_id : nat; t_due : Z; t_key : string; t_comb : combination; t_date : Z }.

(** [scheduledEvents], [eventsByTenants] (the timer ids of a tenant), the pending
    timers and the broadcasts sent so far. *)
Record scheduler := mkScheduler {
  scheduledEvents : obj unit;
  eventsByTenants : obj (list nat);
  pending : list timer;
  nextTimerId : nat;
  broadcasts : list combination }.

Definition newScheduler : scheduler := mkScheduler [] [] [] 0 [].

(** The property name a tenant id is used as. *)
Definition tenant_prop (tenantId : option string) : string := default "undefined" tenantId.

Definition schedule_key (c : combination) (date : Z) : string :=
  join hash2 [opt_str (c_tenant c); c_type c; c_subType c; opt_str (c_namespace c); toISOString date].

(** [calculateOffset(type, subType, startAfter)] *)
Definition calculateOffset (now startAfter : Z) : Z * Z := (startAfter, startAfter - now).

(** [scheduleEvent(tenantId, type, subType, namespace, startAfter)] at [now] *)
Definition scheduleEvent (now : Z) (c : combination) (startAfter : Z) (s : scheduler) : scheduler :=
  let '(date, relative) := calculateOffset now startAfter in
  let key := schedule_key c date in
  if ohas key (scheduledEvents s) then s
  else
    let tp := tenant_prop (c_tenant c) in
    let id := nextTimerId s in
    let ids := default [] (oget tp (eventsByTenants s)) in
    mkScheduler (oset key tt (scheduledEvents s)) (oset tp (ids ++ [id]) (eventsByTenants s))
      (pending s ++ [mkTimer id (now + timeout_delay relative) key c date])
      (S id) (broadcasts s).

(** The timer callback of [scheduleEvent]; [delete undefined[timeout]] throws. *)
Definition fireTimer (id : nat) (s : scheduler) : result string scheduler :=
  match List.find (fun t => Nat.eqb (t_id t) id) (pending s) with
  | None => Ok s
  | Some t =>
    let rest := filter (fun t' => t_id t' <> id) (pending s) in
    let tp := tenant_prop (c_tenant (t_comb t)) in
    match oget tp (eventsByTenants s) with
    | None => Err "TypeError"
    | Some ids =>
      Ok (mkScheduler (odel (t_key t) (scheduledEvents s))
            (oset tp (filter (fun i => i <> id) ids) (eventsByTenants s)) rest (nextTimerId s)
            (broadcasts s ++ [t_comb t]))
    end
  end.

(** [clearForTenant(tenantId)] *)
Definition clearForTenant (tenantId : option string) (s : scheduler) : scheduler :=
  let ids := default [] (oget (tenant_prop tenantId) (eventsByTenants s)) in
  mkScheduler (scheduledEvents s) (eventsByTenants s)
    (filter (fun t => t_id t ∉ ids) (pending s)) (nextTimerId s) (broadcasts s).

Definition clearScheduledEvents (s : scheduler) : scheduler :=
  mkScheduler [] (eventsByTenants s) (pending s) (nextTimerId s) (broadcasts s).

Definition clearEventsByTenants (s : scheduler) : scheduler :=
  mkScheduler (scheduledEvents s) [] (pending s) (nextTimerId s) (broadcasts s).

(** ** Properties *)

Inductive sched_op :=
| SSchedule (now : Z) (c : combination) (startAfter : Z)
| SFire (id : nat).

Definition sched_step (o : sched_op) (s : scheduler) : scheduler :=
  match o with
  | SSchedule now c startAfter => scheduleEvent now c startAfter s
  | SFire id => match fireTimer id s with Ok s' => s' | Err _ => s end
  end.

(** The scheduled keys are the keys of the pending timers, each once; timer ids are
    unique, and every pending timer is registered for its tenant. *)
Definition sched_inv (s : scheduler) : Prop :=
  okeys (scheduledEvents s) ≡ₚ t_key <$> pending s /\
  NoDup (okeys (scheduledEvents s)) /\
  NoDup (t_id <$> pending s) /\
  Forall (fun t => (t_id t < nextTimerId s)%nat) (pending s) /\
  Forall (fun t => t_key t = schedule_key (t_comb t) (t_date t) /\
                   is_Some (oget (tenant_prop (c_tenant (t_comb t))) (eventsByTenants s))) (pending s).

Lemma find_pending id l t :
  List.find (fun t => Nat.eqb (t_id t) id) l = Some t -> t ∈ l /\ t_id t = id.
Proof. intros [H1 H2]%List.find_some. apply Nat.eqb_eq in H2. by rewrite list_elem_of_In. Qed.

Lemma remove_timer_perm t l :
  NoDup (t_id <$> l) -> t ∈ l -> l ≡ₚ t :: filter (fun t' => t_id t' <> t_id t) l.
Proof.
  induction l as [|x l IH]; [by intros _ ?%elem_of_nil|]. csimpl.
  intros [Hn Hd]%NoDup_cons [->|Hin]%elem_of_cons; rewrite filter_cons.
  - rewrite decide_False by (intros H; by apply H). rewrite filter_all; [done|].
    apply Forall_forall. intros y Hy E.
    apply Hn. rewrite <- E. apply list_elem_of_fmap. eauto.
  - rewrite decide_True.
    + rewrite (IH Hd Hin) at 1. solve_Permutation.
    + intros E. apply Hn. rewrite E. apply list_elem_of_fmap. eauto.
Qed.

Lemma schedule_inv now c d s : sched_inv s -> sched_inv (scheduleEvent now c d s).
Proof.
  intros (H1 & H2 & H3 & H4 & H5). unfold scheduleEvent. simpl.
  destruct (ohas _ _) eqn:Hh; [done|]. apply ohas_false, oget_None_okeys in Hh.
  unfold sched_inv; cbn [scheduledEvents eventsByTenants pending nextTimerId].
  rewrite okeys_oset, decide_False by done. rewrite !fmap_app. csimpl. split_and!.
  - by rewrite H1.
  - apply NoDup_app. split_and!; [done | set_solver | apply NoDup_singleton].
  - apply NoDup_app. split_and!; [done | | apply NoDup_singleton].
    intros x Hx Hx2%list_elem_of_singleton. subst x. apply list_elem_of_fmap in Hx as (t & E & Ht).
    rewrite Forall_forall in H4. specialize (H4 _ Ht). lia.
  - apply Forall_app. split; [|repeat constructor].
    eapply Forall_impl; [exact H4|]. simpl. lia.
  - apply Forall_app. split; [|repeat constructor; rewrite oget_oset_eq; eauto].
    eapply Forall_impl; [exact H5|]. intros t [Hk Ht]. split; [done|].
    rewrite oget_oset. case_decide; eauto.
Qed.

Lemma fire_inv id s s' : sched_inv s -> fireTimer id s = Ok s' -> sched_inv s'.
Proof.
  intros (H1 & H2 & H3 & H4 & H5). unfold fireTimer.
  destruct (List.find _ _) as [t|] eqn:F; [|by intros [= <-]].
  apply find_pending in F as [Hin <-].
  destruct (oget _ (eventsByTenants s)) as [ids|] eqn:G; [|discriminate]. intros [= <-].
  pose proof (remove_timer_perm t _ H3 Hin) as Hp.
  set (rest := filter _ (pending s)) in *.
  unfold sched_inv; cbn [scheduledEvents eventsByTenants pending nextTimerId].
  rewrite Hp in H1, H3, H4, H5. csimpl in H1. csimpl in H3.
  apply NoDup_cons in H3 as [_ H3]. apply Forall_cons in H4 as [_ H4].
  apply Forall_cons in H5 as [_ H5]. split_and!; auto with evq.
  - rewrite okeys_odel, H1, filter_cons, decide_False by (intros H; by apply H).
    rewrite filter_all; [done|]. rewrite H1 in H2. apply NoDup_cons in H2 as [H2 _].
    apply Forall_forall. intros k Hk ->. done.
  - eapply Forall_impl; [exact H5|]. intros t' [Hk Ht]. split; [done|].
    rewrite oget_oset. case_decide; eauto.
Qed.

Lemma sched_run_inv ops : sched_inv (run sched_step ops newScheduler).
Proof.
  apply (run_invariant sched_step sched_inv (fun _ => True)).
  - intros [now c d | id] s _ H; simpl; [by apply schedule_inv|].
    destruct (fireTimer id s) eqn:F; [by eapply fire_inv | done].
  - by apply Forall_true.
  - unfold sched_inv, newScheduler, okeys; simpl. split_and!; done || constructor.
Qed.

(** Scheduling deduplicates and never drops: however events are scheduled and
    timers fire, there is exactly one pending timer per scheduled combination and
    date; firing it broadcasts exactly its combination and frees its key, so that
    the same combination can be scheduled again. *)
Theorem schedule_once_and_fire ops :
  let s := run sched_step ops newScheduler in
  okeys (scheduledEvents s) ≡ₚ t_key <$> pending s /\ NoDup (t_key <$> pending s) /\
  (forall now c d, exists t, t ∈ pending (scheduleEvent now c d s) /\ t_key t = schedule_key c d) /\
  (forall t, t ∈ pending s ->
    exists s', fireTimer (t_id t) s = Ok s' /\ broadcasts s' = broadcasts s ++ [t_comb t] /\
      pending s ≡ₚ t :: pending s' /\ ohas (t_key t) (scheduledEvents s') = false).
Proof.
  intros s. pose proof (sched_run_inv ops) as Hinv. fold s in Hinv.
  pose proof Hinv as (H1 & H2 & H3 & H4 & H5). split_and!.
  - done.
  - by rewrite <- H1.
  - intros now c d. unfold scheduleEvent; simpl. destruct (ohas _ _) eqn:Hh.
    + apply ohas_true, oget_okeys in Hh. rewrite H1 in Hh.
      apply list_elem_of_fmap in Hh as (t & -> & Ht). eauto.
    + eexists. split; [simpl; apply elem_of_app; right; by apply list_elem_of_singleton | done].
  - intros t Ht. unfold fireTimer.
    destruct (List.find _ (pending s)) as [t'|] eqn:F.
    2: { apply list_elem_of_In in Ht. apply (List.find_none _ _ F) in Ht.
         by rewrite Nat.eqb_refl in Ht. }
    apply find_pending in F as [Hin Hid].
    assert (t' = t) as ->.
    { pose proof (remove_timer_perm t' _ H3 Hin) as Hp. rewrite Hp in Ht.
      apply elem_of_cons in Ht as [->|Ht]; [done|].
      apply list_elem_of_filter in Ht as [Ht _]. congruence. }
    rewrite Forall_forall in H5. destruct (H5 _ Ht) as [_ [ids ->]].
    eexists. split; [done|]. split; [done|]. split; [by apply remove_timer_perm|].
    simpl. apply ohas_false. rewrite oget_odel. by rewrite decide_True.
Qed.

(** A delayed event is broadcast at its date: for a start date at least one and at most 2^31 - 1 milliseconds ahead the timer is
    due exactly at that date; a past date is broadcast in the next millisecond.  A
    date further ahead overflows the timer, which is then due at once. *)
Theorem schedule_due now c d s :
  ohas (schedule_key c d) (scheduledEvents s) = false ->
  exists t, pending (scheduleEvent now c d s) = pending s ++ [t] /\ t_comb t = c /\
    (1 <= d - now <= TIMEOUT_MAX -> t_due t = d) /\
    (d - now < 1 -> t_due t = now + 1) /\
    (TIMEOUT_MAX < d - now -> t_due t = now + 1 /\ t_due t < d).
Proof.
  intros Hh. unfold scheduleEvent; simpl. rewrite Hh. eexists. split; [done|].
  simpl. split; [done|]. unfold timeout_delay, TIMEOUT_MAX.
  destruct ((1 <=? d - now) && (d - now <=? 2147483647)) eqn:B; zbool.
  - split_and!; lia.
  - apply andb_false_iff in B as [B|B]; zbool; split_and!; lia.
Qed.

(** Clearing the timers of an unsubscribed tenant keeps the keys of its scheduled
    events: scheduling such an event again is then ignored although no timer for it
    is pending. *)
Theorem cleared_key_stays_blocked now now' c d :
  let s := clearForTenant (c_tenant c) (scheduleEvent now c d newScheduler) in
  pending s = [] /\ scheduleEvent now' c d s = s.
Proof.
  intros s. assert (Hp : pending s = []).
  { unfold s, clearForTenant, scheduleEvent; simpl. rewrite decide_True by done. simpl.
    rewrite filter_cons, decide_False; [done|]. simpl. rewrite list_elem_of_singleton. tauto. }
  split; [done|].
  assert (E : ohas (schedule_key c d) (scheduledEvents s) = true).
  { apply ohas_true. unfold s; simpl. rewrite decide_True by done. eauto. }
  unfold scheduleEvent, calculateOffset. cbv beta iota zeta. by rewrite E.
Qed.
End scheduler.

Definition demo_comb : combination := mkCombination (Some "t1") "Mail" "Send" (Some "default").

Lemma schedule_due_witness :
  exists t, pending (scheduleEvent pretty.pretty 1000 demo_comb 4000 newScheduler) = [] ++ [t] /\
      t_comb t = demo_comb /\ t_due t = 4000.
Proof.
  destruct (schedule_due pretty.pretty 1000 demo_comb 4000 newScheduler) as (t & Ht & Hc & Hd & _);
    [reflexivity|].
  exists t. split_and!; [exact Ht | exact Hc | apply Hd; unfold TIMEOUT_MAX; lia].
Defined.

Lemma schedule_once_and_fire_witness :
  let s := run (sched_step pretty.pretty) [SSchedule 1000 demo_comb 4000; SSchedule 1001 demo_comb 4000] newScheduler in
  NoDup (t_key <$> pending s).
Proof.
  destruct (schedule_once_and_fire pretty.pretty [SSchedule 1000 demo_comb 4000; SSchedule 1001 demo_comb 4000])
    as (_ & H & _). exact H.
Defined.
