(* ===== verification/DistributedLock.v ===== *)
(** * Distributed locks ([shared/distributedLock.js])

    A lock is a key of Redis or a row of the lock table.  Redis and the database
    are parameters: the classes [RedisClient] and [LockTable] hold the commands the
    code issues, [RedisLaws] and [LockTableLaws] their documented behaviour.  Both
    back ends implement the contract [LockService], against which mutual exclusion
    is proved. *)

From S2P Require Import Prelude Js.
From stdpp Require pretty.
#[local] Open Scope Z_scope.

(** ** The services *)

(** [SET key value PX px], with [NX], [XX] or neither. *)
Inductive set_mode := SetAlways | SetNX | SetXX.

Class RedisClient (R : Type) := {
  r_set : Z -> string -> string -> Z -> set_mode -> R -> R * bool;
  r_get : Z -> string -> R -> option string;
  r_del : Z -> string -> R -> R * Z }.

Definition set_allowed (mode : set_mode) (current : option string) : bool :=
  match mode, current with
  | SetAlways, _ => true
  | SetNX, None => true
  | SetNX, Some _ => false
  | SetXX, Some _ => true
  | SetXX, None => false
  end.

(** Redis: [SET] answers OK unless its condition fails; a key with a time to live
    is gone from then on; [DEL] removes the key. *)
Class RedisLaws (R : Type) `{RedisClient R} := {
  r_set_ok now k v px mode s :
    0 < px -> (r_set now k v px mode s).2 = set_allowed mode (r_get now k s);
  r_set_get now k v px mode s t k' :
    0 < px -> now <= t ->
    r_get t k' (r_set now k v px mode s).1 =
      if set_allowed mode (r_get now k s) then
        if decide (k' = k) then (if t <? now + px then Some v else None) else r_get t k' s
      else r_get t k' s;
  r_get_expired k s t t' : t <= t' -> r_get t k s = None -> r_get t' k s = None;
  r_del_get now k s t k' :
    now <= t -> r_get t k' (r_del now k s).1 = if decide (k' = k) then None else r_get t k' s;
  r_del_count now k s :
    (r_del now k s).2 = match r_get now k s with Some _ => 1 | None => 0 end }.

(** The lock table: [code] is unique, [createdAt] is set on insert. *)
Class LockTable (D : Type) := {
  l_insert : Z -> string -> string -> D -> option D;
  l_select : string -> D -> option (string * Z);
  l_update : string -> string -> Z -> D -> D;
  l_delete : string -> D -> D }.

Class LockTableLaws (D : Type) `{LockTable D} := {
  l_insert_dup now k v d : is_Some (l_select k d) -> l_insert now k v d = None;
  l_insert_new now k v d : l_select k d = None ->
    exists d', l_insert now k v d = Some d' /\
      forall k', l_select k' d' = if decide (k' = k) then Some (v, now) else l_select k' d;
  l_update_select k v ts d k' :
    l_select k' (l_update k v ts d) =
      if decide (k' = k) then (fun _ => (v, ts)) <$> l_select k d else l_select k' d;
  l_delete_select k d k' :
    l_select k' (l_delete k d) = if decide (k' = k) then None else l_select k' d }.

(** ** Configuration and state *)

Definition REDIS_PREFIX : string := "EVENT_QUEUE".

(** The settings the module reads: [config.namespace], [config.redisEnabled] and
    [config.globalTxTimeout]. *)
Record lockConfig := mkLockConfig {
  lc_namespace : option string;
  lc_redisEnabled : bool;
  lc_globalTxTimeout : Z }.

(** [redisNamespace(addPublishNamespace)] of [config.js] *)
Definition redisNamespace (cfg : lockConfig) (addPublishNamespace : bool) : string :=
  if addPublishNamespace
  then join hash2 (filter (fun a => a <> EmptyString) [REDIS_PREFIX; opt_str (lc_namespace cfg)])
  else REDIS_PREFIX.

(** [_generateKey(context, tenantScoped, key, skipNamespace)] *)
Definition generateKey (cfg : lockConfig) (tenant : option string) (tenantScoped : bool)
    (key : string) (skipNamespace : bool) : string :=
  join hash2 (redisNamespace cfg (negb skipNamespace) ::
              (if tenantScoped then [opt_str tenant] else []) ++ [key]).

(** An expiry time in milliseconds as a fraction; the module rounds it. *)
Definition round_ms (expiryTime : Z * Z) : Z := math_round_div expiryTime.1 expiryTime.2.

Section locks.
Context {R D : Type} `{RedisClient R} `{LockTable D}.

(** Redis, the lock table and the module variable [existingLocks]. *)
Record lstate := mkLstate {
  ls_redis : R;
  ls_db : D;
  existingLocks : obj (option string) }.

(** ** Redis *)

(** [_acquireLockRedis(context, fullKey, expiryTime, {value, overrideValue, keepTrackOfLock})];
    the default value is [Date.now()]. *)
Definition acquireLockRedis (now : Z) (tenant : option string) (fullKey : string) (expiryTime : Z * Z)
    (value : option string) (overrideValue keepTrackOfLock : bool) (s : lstate) : lstate * bool :=
  let '(r, isOk) := r_set now fullKey (default (pretty.pretty now) value) (round_ms expiryTime)
                      (if overrideValue then SetAlways else SetNX) (ls_redis s) in
  (mkLstate r (ls_db s)
     (if isOk && keepTrackOfLock then oset fullKey tenant (existingLocks s) else existingLocks s),
   isOk).

(** [_renewLockRedis(context, fullKey, expiryTime)] *)
Definition renewLockRedis (now : Z) (fullKey : string) (expiryTime : Z * Z) (s : lstate) : lstate * bool :=
  let '(r1, ok1) := r_set now fullKey "true" (round_ms expiryTime) SetXX (ls_redis s) in
  if ok1 then (mkLstate r1 (ls_db s) (existingLocks s), true)
  else
    match r_get now fullKey r1 with
    | Some v =>
      if bool_decide (v = EmptyString)
      then let '(r2, ok2) := r_set now fullKey "true" (round_ms expiryTime) SetAlways r1 in
           (mkLstate r2 (ls_db s) (existingLocks s), ok2)
      else (mkLstate r1 (ls_db s) (existingLocks s), false)
    | None =>
      let '(r2, ok2) := r_set now fullKey "true" (round_ms expiryTime) SetAlways r1 in
      (mkLstate r2 (ls_db s) (existingLocks s), ok2)
    end.

(** [_getLockValueRedis(context, fullKey)] *)
Definition getLockValueRedis (now : Z) (fullKey : string) (s : lstate) : option string :=
  r_get now fullKey (ls_redis s).

(** [_releaseLockRedis(context, fullKey)] *)
Definition releaseLockRedis (now : Z) (fullKey : string) (s : lstate) : lstate * bool :=
  let '(r, n) := r_del now fullKey (ls_redis s) in
  (mkLstate r (ls_db s) (odel fullKey (existingLocks s)), n =? 1).

(** ** Lock table *)

(** [_getLockValueDb(context, fullKey)] *)
Definition getLockValueDb (fullKey : string) (s : lstate) : option string :=
  fst <$> l_select fullKey (ls_db s).

(** [_releaseLockDb(context, fullKey)] *)
Definition releaseLockDb (fullKey : string) (s : lstate) : lstate * bool :=
  (mkLstate (ls_redis s) (l_delete fullKey (ls_db s)) (odel fullKey (existingLocks s)), true).

(** [_acquireLockDB(context, fullKey, expiryTime, {value, overrideValue, keepTrackOfLock})] *)
Definition acquireLockDB (now : Z) (tenant : option string) (fullKey : string) (expiryTime : Z * Z)
    (value : string) (overrideValue keepTrackOfLock : bool) (s : lstate) : lstate * bool :=
  let '(d, result) :=
    match l_insert now fullKey value (ls_db s) with
    | Some d => (d, true)
    | None =>
      let currentEntry := if overrideValue then None else l_select fullKey (ls_db s) in
      if overrideValue ||
         match currentEntry with
         | Some (_, createdAt) => createdAt + round_ms expiryTime <=? now
         | None => false
         end
      then (l_update fullKey value now (ls_db s), true)
      else (ls_db s, false)
    end in
  (mkLstate (ls_redis s) d
     (if result && keepTrackOfLock then oset fullKey tenant (existingLocks s) else existingLocks s),
   result).

(** ** The exported functions *)

Context (cfg : lockConfig).

(** [acquireLock(context, key, {tenantScoped, expiryTime, keepTrackOfLock, skipNamespace})] *)
Definition acquireLock (now : Z) (tenant : option string) (key : string) (tenantScoped : bool)
    (expiryTime : Z * Z) (keepTrackOfLock skipNamespace : bool) (s : lstate) : lstate * bool :=
  let fullKey := generateKey cfg tenant tenantScoped key skipNamespace in
  if lc_redisEnabled cfg
  then acquireLockRedis now tenant fullKey expiryTime None false keepTrackOfLock s
  else acquireLockDB now tenant fullKey expiryTime "true" false keepTrackOfLock s.

(** [renewLock(context, key, {tenantScoped, expiryTime})] *)
Definition renewLock (now : Z) (tenant : option string) (key : string) (tenantScoped : bool)
    (expiryTime : Z * Z) (s : lstate) : lstate * bool :=
  let fullKey := generateKey cfg tenant tenantScoped key false in
  if lc_redisEnabled cfg then renewLockRedis now fullKey expiryTime s
  else acquireLockDB now tenant fullKey expiryTime "true" true false s.

(** [setValueWithExpire(context, key, value, {...})] *)
Definition setValueWithExpire (now : Z) (tenant : option string) (key value : string)
    (tenantScoped : bool) (expiryTime : Z * Z) (overrideValue keepTrackOfLock : bool) (s : lstate)
    : lstate * bool :=
  let fullKey := generateKey cfg tenant tenantScoped key false in
  if lc_redisEnabled cfg
  then acquireLockRedis now tenant fullKey expiryTime (Some value) overrideValue keepTrackOfLock s
  else acquireLockDB now tenant fullKey expiryTime value overrideValue false s.

(** [releaseLock(context, key, {tenantScoped, skipNamespace})] *)
Definition releaseLock (now : Z) (tenant : option string) (key : string)
    (tenantScoped skipNamespace : bool) (s : lstate) : lstate * bool :=
  let fullKey := generateKey cfg tenant tenantScoped key skipNamespace in
  if lc_redisEnabled cfg then releaseLockRedis now fullKey s else releaseLockDb fullKey s.

(** [getValue(context, key, {tenantScoped})] *)
Definition getValue (now : Z) (tenant : option string) (key : string) (tenantScoped : bool)
    (s : lstate) : option string :=
  let fullKey := generateKey cfg tenant tenantScoped key false in
  if lc_redisEnabled cfg then getLockValueRedis now fullKey s else getLockValueDb fullKey s.

(** [checkLockExists(context, key, {tenantScoped})]: the truthiness of the value *)
Definition checkLockExists (now : Z) (tenant : option string) (key : string) (tenantScoped : bool)
    (s : lstate) : bool :=
  match getValue now tenant key tenantScoped s with
  | Some v => negb (bool_decide (v = EmptyString))
  | None => false
  end.

(** [shutdownHandler()]: release every tracked lock *)
Definition shutdownHandler (now : Z) (s : lstate) : lstate :=
  fold_left (fun s k => (if lc_redisEnabled cfg then releaseLockRedis now k s else releaseLockDb k s).1)
    (okeys (existingLocks s)) s.
End locks.
Arguments lstate : clear implicits.

(** ** getAllLocksRedis *)

(** The row of a key found by [SCAN]; a key with fewer than five parts is skipped. *)
Record lockRow := mkLockRow {
  lr_namespace : string; lr_tenant : string; lr_type : string; lr_subType : string;
  lr_ttl : Z; lr_createdAt : option string }.

(** [getAllLocksRedis()] over the scanned keys with the time to live and the value
    of each. *)
Definition getAllLocksRedis (ttl : string -> Z) (value : string -> option string) (keys : list string)
    : list lockRow :=
  omap (fun key =>
    match split hash2 key with
    | _ :: namespace :: tenant :: guidOrType :: subType :: _ =>
      if bool_decide (subType = EmptyString) then None
      else Some (mkLockRow namespace tenant guidOrType subType (ttl key) (value key))
    | _ => None
    end) keys.

(** ** The contract of a lock service

    [ls_busy s k x t]: a client asking at time [t] for the lock [k] with expiry
    time [x] is turned away. *)
Class LockService (S : Type) := {
  ls_acquire : Z -> string -> Z * Z -> S -> S * bool;
  ls_release : Z -> string -> S -> S;
  ls_busy : S -> string -> Z * Z -> Z -> bool }.

Class LockServiceLaws (S : Type) `{LockService S} := {
  ls_acquire_free now k x s :
    0 < round_ms x -> (ls_acquire now k x s).2 = negb (ls_busy s k x now);
  ls_acquire_busy now k x s k' x' t :
    0 < round_ms x -> now <= t -> (k' = k -> x' = x) ->
    ls_busy (ls_acquire now k x s).1 k' x' t =
      if decide (k' = k) then
        if ls_busy s k x now then ls_busy s k x t else t <? now + round_ms x
      else ls_busy s k' x' t;
  ls_release_busy now k s k' x t :
    now <= t ->
    ls_busy (ls_release now k s) k' x t = if decide (k' = k) then false else ls_busy s k' x t;
  ls_busy_expires s k x t t' : t <= t' -> ls_busy s k x t = false -> ls_busy s k x t' = false }.

(** The module implements the contract with either back end. *)
Section implementation.
Context {R D : Type} `{RedisLaws R} `{LockTableLaws D} (cfg : lockConfig) (tenant : option string).

Definition module_acquire (now : Z) (k : string) (x : Z * Z) (s : lstate R D) : lstate R D * bool :=
  if lc_redisEnabled cfg then acquireLockRedis now tenant k x None false true s
  else acquireLockDB now tenant k x "true" false true s.
Definition module_release (now : Z) (k : string) (s : lstate R D) : lstate R D :=
  (if lc_redisEnabled cfg then releaseLockRedis now k s else releaseLockDb k s).1.
Definition module_busy (s : lstate R D) (k : string) (x : Z * Z) (t : Z) : bool :=
  if lc_redisEnabled cfg
  then match r_get t k (ls_redis s) with Some _ => true | None => false end
  else match l_select k (ls_db s) with
       | Some (_, createdAt) => t <? createdAt + round_ms x
       | None => false
       end.

#[local] Instance lockModule : LockService (lstate R D) :=
  {| ls_acquire := module_acquire; ls_release := module_release; ls_busy := module_busy |}.

Lemma acquireLock_module now key tenantScoped x skip s :
  acquireLock cfg now tenant key tenantScoped x true skip s =
    ls_acquire now (generateKey cfg tenant tenantScoped key skip) x s.
Proof. done. Qed.

Lemma releaseLock_module now key tenantScoped skip s :
  (releaseLock cfg now tenant key tenantScoped skip s).1 =
    ls_release now (generateKey cfg tenant tenantScoped key skip) s.
Proof. done. Qed.

(** The outcome of [_acquireLockDB] without [overrideValue]. *)
Lemma acquireLockDB_spec now t k x v keep (s : lstate R D) :
  let taken := match l_select k (ls_db s) with
               | Some (_, createdAt) => now <? createdAt + round_ms x
               | None => false end in
  (acquireLockDB now t k x v false keep s).2 = negb taken /\
  forall k', l_select k' (ls_db (acquireLockDB now t k x v false keep s).1) =
    if taken then l_select k' (ls_db s)
    else if decide (k' = k) then Some (v, now) else l_select k' (ls_db s).
Proof.
  unfold acquireLockDB. destruct (l_select k (ls_db s)) as [[v0 c]|] eqn:E.
  - rewrite l_insert_dup by eauto. simpl. rewrite Z.ltb_antisym.
    destruct (_ <=? now); simpl; (split; [done|]); [|done].
    intros k'. rewrite l_update_select, E. done.
  - destruct (l_insert_new now k v (ls_db s) E) as (d' & -> & Hd). simpl. auto.
Qed.

#[local] Instance lockModule_laws : LockServiceLaws (lstate R D).
Proof.
  split; unfold ls_acquire, ls_release, ls_busy, lockModule, module_acquire, module_release, module_busy;
    destruct (lc_redisEnabled cfg).
  - intros now k x s Hx. unfold acquireLockRedis.
    pose proof (r_set_ok now k (pretty.pretty now) (round_ms x) SetNX (ls_redis s) Hx) as E.
    simpl. destruct (r_set _ _ _ _ _ _) as [r ok]. simpl in *. rewrite E.
    by destruct (r_get now k (ls_redis s)).
  - intros now k x s Hx. destruct (acquireLockDB_spec now tenant k x "true" true s) as [-> _].
    done.
  - intros now k x s k' x' t Hx Ht _. unfold acquireLockRedis.
    pose proof (r_set_get now k (pretty.pretty now) (round_ms x) SetNX (ls_redis s) t k' Hx Ht) as E.
    simpl. destruct (r_set _ _ _ _ _ _) as [r ok]. simpl in *. rewrite E.
    destruct (r_get now k (ls_redis s)); simpl; case_decide as Hk; subst; auto. by destruct (t <? _).
  - intros now k x s k' x' t Hx Ht Hxx.
    destruct (acquireLockDB_spec now tenant k x "true" true s) as [_ ->].
    case_decide as Hk.
    + rewrite (Hxx Hk), Hk in *.
      destruct (l_select k (ls_db s)) as [[v0 c]|]; [destruct (now <? _) eqn:?|]; done.
    + destruct (l_select k (ls_db s)) as [[v0 c]|]; [destruct (now <? _)|]; done.
  - intros now k s k' x t Ht. unfold releaseLockRedis.
    pose proof (r_del_get now k (ls_redis s) t k' Ht) as E.
    destruct (r_del now k (ls_redis s)). simpl in *. rewrite E. by case_decide.
  - intros now k s k' x t Ht. unfold releaseLockDb. simpl. rewrite l_delete_select. by case_decide.
  - intros s k x t t' Ht Hb. destruct (r_get t k (ls_redis s)) eqn:E; [done|].
    by rewrite (r_get_expired k (ls_redis s) t t' Ht E).
  - intros s k x t t' Ht Hb. destruct (l_select k (ls_db s)) as [[v c]|]; [|done].
    apply Z.ltb_ge in Hb. apply Z.ltb_ge. lia.
Qed.
End implementation.

(** ** Clients of a lock service

    The application instances that compete for locks: the service's state, the
    leases handed out and the time.  A lease is the client, the lock and the time
    at which it expires.  [expiry] is the expiry time of each lock; all clients of
    one lock use the same. *)
Section clients.
Context {S : Type} `{LockServiceLaws S} (expiry : string -> Z * Z).

Record lease := mkLease { le_client : nat; le_key : string; le_until : Z }.

Record system := mkSystem { sys_service : S; sys_leases : list lease; sys_now : Z }.

#[global] Instance lease_eq_dec : EqDecision lease.
Proof. solve_decision. Defined.

(** Acquisitions (successful or not) and releases within the lease, in any
    interleaving of the clients. *)
Inductive lock_step : system -> system -> Prop :=
| step_acquire s ls now t c k :
    now <= t ->
    lock_step (mkSystem s ls now)
      (mkSystem (ls_acquire t k (expiry k) s).1
         (if (ls_acquire t k (expiry k) s).2 then mkLease c k (t + round_ms (expiry k)) :: ls else ls) t)
| step_release s ls now t c k u :
    now <= t -> mkLease c k u ∈ ls -> t < u ->
    lock_step (mkSystem s ls now)
      (mkSystem (ls_release t k s)
         (filter (fun l => ~ (le_client l = c /\ le_key l = k)) ls) t).

Definition live (sys : system) (k : string) (t : Z) (l : lease) : Prop :=
  l ∈ sys_leases sys /\ le_key l = k /\ t < le_until l.

Definition fresh (sys : system) : Prop :=
  sys_leases sys = [] /\
  forall k t, sys_now sys <= t -> ls_busy (sys_service sys) k (expiry k) t = false.

(** The service is busy exactly while some lease is live, and no two leases of a
    lock are live together. *)
Definition sys_inv (sys : system) : Prop :=
  (forall k t, sys_now sys <= t ->
     ls_busy (sys_service sys) k (expiry k) t = true <-> exists l, live sys k t l) /\
  (forall k l1 l2, live sys k (sys_now sys) l1 -> live sys k (sys_now sys) l2 -> l1 = l2).

Context (expiry_pos : forall k, 0 < round_ms (expiry k)).

Lemma sys_inv_fresh sys : fresh sys -> sys_inv sys.
Proof.
  intros [Hl Hb]. unfold sys_inv, live. rewrite Hl. split; [|intros k l1 l2 [[]%not_elem_of_nil _]].
  intros k t Ht. rewrite Hb by done. split; [done|intros (l & []%not_elem_of_nil & _)].
Qed.

Lemma sys_inv_acquire s ls now t c k :
  now <= t -> sys_inv (mkSystem s ls now) ->
  sys_inv (mkSystem (ls_acquire t k (expiry k) s).1
    (if (ls_acquire t k (expiry k) s).2 then mkLease c k (t + round_ms (expiry k)) :: ls else ls) t).
Proof.
  intros Ht [Hb Hu]. unfold live in *. simpl in *.
  rewrite ls_acquire_free by auto. destruct (ls_busy s k (expiry k) t) eqn:E; simpl; split; simpl.
  - intros k' t' Ht'. rewrite ls_acquire_busy by (auto; congruence). rewrite E.
    case_decide; subst; apply Hb; lia.
  - intros k' l1 l2 (Hl1 & ? & ?) (Hl2 & ? & ?). apply (Hu k'); split_and!; auto; lia.
  - intros k' t' Ht'. rewrite ls_acquire_busy by (auto; congruence). rewrite E. case_decide; subst.
    + rewrite Z.ltb_lt. split; [intros; eexists; split; [apply list_elem_of_here|auto]|].
      intros (l & Hl & Hk & Hlt). apply elem_of_cons in Hl as [->|Hl]; [done|].
      assert (ls_busy s k (expiry k) t = true); [apply Hb; eauto 6 with lia | congruence].
    + rewrite Hb by lia. split; intros (l & Hl & Hk & Hlt); exists l; [split_and!; [by apply list_elem_of_further|auto..]|].
      apply elem_of_cons in Hl as [->|Hl]; [by simpl in *|auto].
  - assert (Hno : forall l, l ∈ ls -> le_key l = k -> t < le_until l -> False).
    { intros l ? ? ?. assert (ls_busy s k (expiry k) t = true); [apply Hb; eauto 6 with lia | congruence]. }
    intros k' l1 l2 (Hl1 & Hk1 & ?) (Hl2 & Hk2 & ?).
    apply elem_of_cons in Hl1 as [->|Hl1]; apply elem_of_cons in Hl2 as [->|Hl2]; auto;
      simpl in *; subst; try (exfalso; eauto; fail).
    eapply Hu; split_and!; eauto; lia.
Qed.

Lemma sys_inv_release s ls now t c k u :
  now <= t -> mkLease c k u ∈ ls -> t < u -> sys_inv (mkSystem s ls now) ->
  sys_inv (mkSystem (ls_release t k s)
    (filter (fun l => ~ (le_client l = c /\ le_key l = k)) ls) t).
Proof.
  intros Ht Hin Hlt [Hb Hu]. unfold live in *. simpl in *.
  assert (Hown : forall l, l ∈ ls -> le_key l = k -> t < le_until l -> le_client l = c).
  { intros l Hl Hk Hll. enough (l = mkLease c k u) as -> by done.
    apply (Hu k); split_and!; simpl; auto; lia. }
  split; simpl.
  - intros k' t' Ht'. rewrite ls_release_busy by done. case_decide; subst.
    + split; [done|]. intros (l & [Hn Hl]%list_elem_of_filter & Hk & ?). destruct Hn. split; [apply Hown|]; auto; lia.
    + rewrite Hb by lia. split; intros (l & Hl & Hk & ?); exists l.
      * split_and!; auto. apply list_elem_of_filter. split; [intros [_ ?]; congruence|auto].
      * apply list_elem_of_filter in Hl as [_ Hl]. auto.
  - intros k' l1 l2 (Hl1 & ? & ?) (Hl2 & ? & ?).
    apply list_elem_of_filter in Hl1 as [_ Hl1]. apply list_elem_of_filter in Hl2 as [_ Hl2].
    eapply (Hu k'); split_and!; eauto; lia.
Qed.

Lemma sys_inv_reachable s0 s1 : fresh s0 -> rtc lock_step s0 s1 -> sys_inv s1.
Proof.
  intros Hf Hr. assert (Hi := sys_inv_fresh _ Hf). clear Hf.
  induction Hr as [|s0 s s1 Hs _ IH]; [done|]. apply IH.
  inversion Hs; subst; [eapply sys_inv_acquire | eapply sys_inv_release]; eauto.
Qed.
End clients.

(** ** Shutdown *)

Section shutdown.
Context {R D : Type} `{RedisLaws R} `{LockTableLaws D} (cfg : lockConfig).
#[local] Existing Instance lockModule.
#[local] Existing Instance lockModule_laws.

Definition release_all (now : Z) (ks : list string) (s : lstate R D) : lstate R D :=
  fold_left (fun s k => module_release cfg now k s) ks s.

Lemma release_all_busy now ks s k x t :
  now <= t ->
  module_busy cfg (release_all now ks s) k x t =
    if decide (k ∈ ks) then false else module_busy cfg s k x t.
Proof.
  intros Ht. revert s. induction ks as [|k0 ks IH]; intros s; simpl; [done|].
  unfold release_all in *. simpl. rewrite IH.
  pose proof (@ls_release_busy _ (lockModule cfg None) _ now k0 s k x t Ht) as E.
  simpl in E. rewrite E. repeat case_decide; set_solver.
Qed.

Lemma release_all_tracked now ks s k :
  oget k (existingLocks (release_all now ks s)) =
    if decide (k ∈ ks) then None else oget k (existingLocks s).
Proof.
  revert s. induction ks as [|k0 ks IH]; intros s; simpl; [done|].
  unfold release_all in *. simpl. rewrite IH.
  assert (oget k (existingLocks (module_release cfg now k0 s)) =
          if decide (k = k0) then None else oget k (existingLocks s)) as ->.
  { unfold module_release, releaseLockRedis, releaseLockDb.
    destruct (lc_redisEnabled cfg); [destruct (r_del now k0 (ls_redis s))|]; simpl; rewrite oget_odel;
      repeat case_decide; congruence. }
  repeat case_decide; set_solver.
Qed.

(** The shutdown handler frees every lock this process tracks, leaves all
    other locks as they are, and forgets the ones it freed. *)
Theorem shutdown_releases_tracked now s k x t :
  now <= t ->
  module_busy cfg (shutdownHandler cfg now s) k x t =
    (if ohas k (existingLocks s) then false else module_busy cfg s k x t) /\
  existingLocks (shutdownHandler cfg now s) = [].
Proof.
  intros Ht. change (shutdownHandler cfg now s) with (release_all now (okeys (existingLocks s)) s).
  split.
  - rewrite release_all_busy by done. destruct (ohas k (existingLocks s)) eqn:E.
    + apply ohas_true, oget_okeys in E. by rewrite decide_True.
    + apply ohas_false in E. rewrite decide_False; [done|]. by apply oget_None_okeys.
  - apply oget_all_None. intros k'. rewrite release_all_tracked. case_decide; [done|].
    by apply oget_None_okeys.
Qed.
End shutdown.

(** ** The keys the clients use *)

Section keys.
Context (cfg : lockConfig) (tenant : option string).

(** [acquireDistributedLock] and [handleReleaseLock] of the processor *)
Definition processorLockKey (namespace type subType : string) : string :=
  generateKey cfg tenant true (join hash2 [namespace; type; subType]) true.

(** [#renewDistributedLock] of the processor *)
Definition processorRenewKey (type subType : string) : string :=
  generateKey cfg tenant true (join hash2 [type; subType]) false.

(** [broadcastEvent] of [redisPub.js] *)
Definition broadcastCheckKey (namespace type subType : string) : string :=
  generateKey cfg tenant true (join hash2 [namespace; type; subType]) false.

Context (appNamespace namespace type subType : string).
Hypothesis app_ns : lc_namespace cfg = Some appNamespace.
Hypothesis app_ns_set : appNamespace <> EmptyString.

Definition key_parts : list string := [REDIS_PREFIX; appNamespace; opt_str tenant; namespace; type; subType].

Lemma redisNamespace_set : redisNamespace cfg true = join hash2 [REDIS_PREFIX; appNamespace].
Proof.
  unfold redisNamespace. rewrite app_ns. cbn [opt_str].
  by rewrite filter_all by (repeat constructor; done).
Qed.

Lemma processorLockKey_parts :
  processorLockKey namespace type subType = join hash2 [REDIS_PREFIX; opt_str tenant; namespace; type; subType].
Proof. apply (join_app hash2 [REDIS_PREFIX; opt_str tenant]). done. Qed.

Lemma processorRenewKey_parts :
  processorRenewKey type subType = join hash2 [REDIS_PREFIX; appNamespace; opt_str tenant; type; subType].
Proof.
  unfold processorRenewKey, generateKey. cbn [negb]. rewrite redisNamespace_set.
  trans (join hash2 ([REDIS_PREFIX; appNamespace; opt_str tenant] ++ [join hash2 [type; subType]])); [|by apply join_app].
  simpl. by rewrite !append_assoc_str.
Qed.

Lemma broadcastCheckKey_parts :
  broadcastCheckKey namespace type subType = join hash2 key_parts.
Proof.
  unfold broadcastCheckKey, generateKey, key_parts. cbn [negb]. rewrite redisNamespace_set.
  trans (join hash2 ([REDIS_PREFIX; appNamespace; opt_str tenant] ++ [join hash2 [namespace; type; subType]])); [|by apply join_app].
  simpl. by rewrite !append_assoc_str.
Qed.

Hypothesis parts_free : Forall (fun p => hash_free p = true) key_parts.

Lemma processor_lock_parts_free :
  Forall (fun p => hash_free p = true) [REDIS_PREFIX; opt_str tenant; namespace; type; subType].
Proof. unfold key_parts in parts_free. rewrite !Forall_cons in *. naive_solver. Qed.

Lemma processor_renew_parts_free :
  Forall (fun p => hash_free p = true) [REDIS_PREFIX; appNamespace; opt_str tenant; type; subType].
Proof. unfold key_parts in parts_free. rewrite !Forall_cons in *. naive_solver. Qed.

Lemma renew_key_eq :
  processorRenewKey type subType = processorLockKey namespace type subType <->
  opt_str tenant = appNamespace /\ namespace = appNamespace.
Proof.
  rewrite processorRenewKey_parts, processorLockKey_parts. split.
  - intros E. apply join_inj in E; [|done..|apply processor_renew_parts_free|apply processor_lock_parts_free].
    injection E as E1 E2. split; congruence.
  - by intros [-> ->].
Qed.

Lemma broadcast_key_ne : broadcastCheckKey namespace type subType <> processorLockKey namespace type subType.
Proof.
  rewrite broadcastCheckKey_parts, processorLockKey_parts. intros E.
  apply join_inj in E; [|done..|apply parts_free|apply processor_lock_parts_free].
  by apply (f_equal length) in E.
Qed.

Lemma processor_lock_row ttl value :
  subType <> EmptyString ->
  getAllLocksRedis ttl value [processorLockKey namespace type subType] =
    [mkLockRow (opt_str tenant) namespace type subType
       (ttl (processorLockKey namespace type subType)) (value (processorLockKey namespace type subType))].
Proof.
  intros Hs. unfold getAllLocksRedis. cbn [omap list_omap].
  rewrite processorLockKey_parts at 1. rewrite split_join by (done || apply processor_lock_parts_free).
  by rewrite bool_decide_false.
Qed.
End keys.

(** ** In-memory services: the laws have models *)

Abbreviation memStore := (gmap string (string * Z)).

(** Redis as a map from keys to values and the times they expire. *)
#[global] Instance memRedis : RedisClient memStore :=
  let get (now : Z) (k : string) (s : memStore) : option string :=
    match s !! k with Some (v, e) => if now <? e then Some v else None | None => None end in
  {| r_get := get;
     r_set now k v px mode s :=
       if set_allowed mode (get now k s) then (<[k := (v, now + px)]> s, true) else (s, false);
     r_del now k s := (delete k s, match get now k s with Some _ => 1 | None => 0 end) |}.

#[global] Instance memRedis_laws : RedisLaws memStore.
Proof.
  split; unfold r_get, r_set, r_del, memRedis.
  - intros. by destruct (set_allowed _ _).
  - intros now k v px mode s t k' Hp Ht. destruct (set_allowed _ _); [|done]. simpl.
    case_decide; subst; [by rewrite lookup_insert_eq | by rewrite lookup_insert_ne].
  - intros k s t t' Ht. destruct (s !! k) as [[v e]|]; [|done]. repeat case_goal; zbool; done || lia.
  - intros now k s t k' Ht. simpl.
    case_decide; subst; [by rewrite lookup_delete_eq | by rewrite lookup_delete_ne].
  - done.
Qed.

(** The lock table as a map from codes to values and creation times. *)
#[global] Instance memTable : LockTable memStore :=
  {| l_select k d := d !! k;
     l_insert now k v d := match d !! k with Some _ => None | None => Some (<[k := (v, now)]> d) end;
     l_update k v ts d := match d !! k with Some _ => <[k := (v, ts)]> d | None => d end;
     l_delete k d := delete k d |}.

#[global] Instance memTable_laws : LockTableLaws memStore.
Proof.
  split; unfold l_select, l_insert, l_update, l_delete, memTable.
  - intros now k v d [x ->]. done.
  - intros now k v d ->. eexists. split; [done|]. intros k'.
    case_decide; subst; [by rewrite lookup_insert_eq | by rewrite lookup_insert_ne].
  - intros k v ts d k'. destruct (d !! k) eqn:E.
    + case_decide; subst; [by rewrite lookup_insert_eq | by rewrite lookup_insert_ne].
    + case_decide; subst; done.
  - intros k d k'. case_decide; subst; [by rewrite lookup_delete_eq | by rewrite lookup_delete_ne].
Qed.

Definition memInit : lstate memStore memStore := mkLstate ∅ ∅ [].

(** ** Mutual exclusion *)

(** C3. Over every interleaving of acquisitions and in-time releases by any number
    of clients, with Redis or with the lock table, [acquireLock] succeeds exactly
    when no lease of the lock is live: two clients never hold it together, and a
    lock whose lease has expired or was released can be taken again. *)
Theorem lock_exclusive {R D} `{RedisLaws R} `{LockTableLaws D} cfg tenant expiry
    (s0 s1 : @system (lstate R D)) now key tenantScoped skipNamespace :
  (forall k, 0 < round_ms (expiry k)) ->
  @fresh _ (lockModule cfg tenant) expiry s0 ->
  rtc (@lock_step _ (lockModule cfg tenant) expiry) s0 s1 ->
  sys_now s1 <= now ->
  let k := generateKey cfg tenant tenantScoped key skipNamespace in
  ((acquireLock cfg now tenant key tenantScoped (expiry k) true skipNamespace (sys_service s1)).2 = true
     <-> ~ exists l, live s1 k now l) /\
  (forall l1 l2, live s1 k now l1 -> live s1 k now l2 -> l1 = l2).
Proof.
  intros Hx Hf Hr Hn k. rewrite acquireLock_module. fold k.
  destruct (@sys_inv_reachable _ _ (lockModule_laws cfg tenant) expiry Hx _ _ Hf Hr) as [Hb Hu].
  rewrite (@ls_acquire_free _ _ (lockModule_laws cfg tenant)) by done.
  rewrite <- (Hb k now Hn). split.
  - destruct (@ls_busy _ _ _ _ _ _); simpl; naive_solver.
  - intros l1 l2 (? & ? & ?) (? & ? & ?). apply (Hu k); repeat split; auto; lia.
Qed.

Definition demoConfig (redis : bool) : lockConfig := mkLockConfig (Some "default") redis 60000.
Definition demoExpiry : string -> Z * Z := fun _ => (100, 1).

(** Client 0 takes the lock at time 5; client 1 is turned away at 50 and is let in
    at 105. *)
Lemma lock_exclusive_witness :
  exists s1 : @system (lstate memStore memStore),
    rtc (@lock_step _ (lockModule (demoConfig false) None) demoExpiry) (mkSystem memInit [] 0) s1 /\
    sys_leases s1 = [mkLease 0 "EVENT_QUEUE####job" 105] /\
    ((acquireLock (demoConfig false) 50 None "job" true (100, 1) true true (sys_service s1)).2 = true
       <-> ~ exists l, live s1 "EVENT_QUEUE####job" 50 l).
Proof.
  set (k := "EVENT_QUEUE####job").
  pose proof (@step_acquire _ (lockModule (demoConfig false) None) demoExpiry memInit [] 0 5 0%nat k
                ltac:(lia)) as Hstep.
  eexists. split; [eapply rtc_l; [exact Hstep | apply rtc_refl]|]. split; [vm_compute; reflexivity|].
  eapply (lock_exclusive (demoConfig false) None demoExpiry _ _ 50 "job" true true);
    [intros; vm_compute; reflexivity | | eapply rtc_l; [exact Hstep | apply rtc_refl] | simpl; lia].
  split; [reflexivity|]. intros k' t _. vm_compute. reflexivity.
Defined.

(** ** Renewal *)

Section renewal.
Context {R D : Type} `{RedisLaws R} `{LockTableLaws D} (cfg : lockConfig) (tenant : option string).

Lemma renewLockRedis_other now k k' x t (s : lstate R D) :
  0 < round_ms x -> now <= t -> k' <> k ->
  r_get t k' (ls_redis (renewLockRedis now k x s).1) = r_get t k' (ls_redis s).
Proof.
  intros Hx Ht Hk. unfold renewLockRedis.
  pose proof (r_set_get now k "true" (round_ms x) SetXX (ls_redis s) t k' Hx Ht) as E1.
  destruct (r_set now k "true" (round_ms x) SetXX (ls_redis s)) as [r1 ok1]. simpl in E1.
  rewrite decide_False in E1 by done.
  assert (E3 : r_get t k' r1 = r_get t k' (ls_redis s)) by (rewrite E1; by case_goal).
  pose proof (r_set_get now k "true" (round_ms x) SetAlways r1 t k' Hx Ht) as E2.
  destruct (r_set now k "true" (round_ms x) SetAlways r1) as [r2 ok2]. simpl in E2.
  rewrite decide_False in E2 by done.
  repeat case_goal; simpl; congruence.
Qed.

Lemma renewLockDb_other now k k' x v keep (s : lstate R D) :
  k' <> k -> l_select k' (ls_db (acquireLockDB now tenant k x v true keep s).1) = l_select k' (ls_db s).
Proof.
  intros Hk. unfold acquireLockDB. destruct (l_select k (ls_db s)) eqn:E.
  - rewrite l_insert_dup by eauto. simpl. by rewrite l_update_select, decide_False.
  - destruct (l_insert_new now k v (ls_db s) E) as (d & -> & Hd). simpl. by rewrite Hd, decide_False.
Qed.

(** A renewal under the acquired key extends the lease. *)
Lemma renewLock_extends now key ts x t (s : lstate R D) :
  0 < round_ms x -> now <= t ->
  module_busy cfg (renewLock cfg now tenant key ts x s).1 (generateKey cfg tenant ts key false) x t =
    (t <? now + round_ms x).
Proof.
  intros Hx Ht. unfold renewLock, module_busy. set (k := generateKey _ _ _ _ _).
  destruct (lc_redisEnabled cfg).
  - unfold renewLockRedis.
    pose proof (r_set_get now k "true" (round_ms x) SetXX (ls_redis s) now k Hx ltac:(lia)) as E0.
    pose proof (r_set_get now k "true" (round_ms x) SetXX (ls_redis s) t k Hx Ht) as E1.
    pose proof (r_set_ok now k "true" (round_ms x) SetXX (ls_redis s) Hx) as O1.
    destruct (r_set now k "true" (round_ms x) SetXX (ls_redis s)) as [r1 ok1]. simpl in *.
    rewrite decide_True in E0, E1 by done.
    destruct (r_get now k (ls_redis s)) eqn:G; simpl in *; subst; simpl.
    + rewrite E1. by destruct (t <? _).
    + rewrite E0. pose proof (r_set_get now k "true" (round_ms x) SetAlways r1 t k Hx Ht) as E2.
      destruct (r_set now k "true" (round_ms x) SetAlways r1) as [r2 ok2]. simpl in *.
      rewrite E2, decide_True by done. by destruct (t <? _).
  - unfold acquireLockDB. destruct (l_select k (ls_db s)) eqn:E.
    + rewrite l_insert_dup by eauto. simpl. by rewrite l_update_select, decide_True, E.
    + destruct (l_insert_new now k "true" (ls_db s) E) as (d & -> & Hd). simpl. by rewrite Hd, decide_True.
Qed.

(** The keep-alive renews the key of [[type, subType]] under the
    application's namespace, the processor acquired the key of
    [[namespace, type, subType]] without it.  Unless tenant and event namespace
    both equal the application's namespace, a renewal leaves the acquired lock's
    expiry as it was. *)
Theorem renewal_misses_acquired_lock appNamespace namespace type subType now t x s :
  lc_namespace cfg = Some appNamespace -> appNamespace <> EmptyString ->
  Forall (fun p => hash_free p = true) (key_parts tenant appNamespace namespace type subType) ->
  ~ (opt_str tenant = appNamespace /\ namespace = appNamespace) ->
  0 < round_ms x -> now <= t ->
  let k := processorLockKey cfg tenant namespace type subType in
  module_busy cfg (renewLock cfg now tenant (join hash2 [type; subType]) true x s).1 k x t =
    module_busy (R := R) (D := D) cfg s k x t.
Proof.
  intros Ha Hn Hf Hne Hx Ht k.
  assert (Hk : k <> generateKey cfg tenant true (join hash2 [type; subType]) false).
  { intros E. apply Hne. by eapply (renew_key_eq cfg tenant appNamespace namespace type subType). }
  unfold module_busy, renewLock. destruct (lc_redisEnabled cfg).
  - by rewrite renewLockRedis_other.
  - by rewrite renewLockDb_other.
Qed.
End renewal.

(** The lock of tenant t1, taken at 0, is renewed at 90 and is free again at 100. *)
Lemma renewal_misses_acquired_lock_witness :
  let cfg := demoConfig true in
  let k := processorLockKey cfg (Some "t1") "default" "Mail" "send" in
  let s := (module_acquire cfg (Some "t1") 0 k (100, 1) memInit).1 in
  module_busy cfg (renewLock cfg 90 (Some "t1") (join hash2 ["Mail"; "send"]) true (100, 1) s).1 k (100, 1) 100
    = false.
Proof.
  intros cfg k s. unfold k.
  erewrite (renewal_misses_acquired_lock cfg (Some "t1") "default" "default" "Mail" "send" 90 100 (100, 1) s).
  - vm_compute. reflexivity.
  - reflexivity.
  - discriminate.
  - repeat constructor.
  - intros [H _]. discriminate H.
  - vm_compute. reflexivity.
  - lia.
Defined.

(** The lock the broadcaster looks for before it publishes is never the lock
    a processor holds. *)
Theorem broadcast_check_misses_lock cfg tenant appNamespace namespace type subType :
  lc_namespace cfg = Some appNamespace -> appNamespace <> EmptyString ->
  Forall (fun p => hash_free p = true) (key_parts tenant appNamespace namespace type subType) ->
  broadcastCheckKey cfg tenant namespace type subType <> processorLockKey cfg tenant namespace type subType.
Proof. apply broadcast_key_ne. Qed.

Lemma broadcast_check_misses_lock_witness :
  broadcastCheckKey (demoConfig true) (Some "t1") "default" "Mail" "send" <>
  processorLockKey (demoConfig true) (Some "t1") "default" "Mail" "send".
Proof.
  apply (broadcast_check_misses_lock (demoConfig true) (Some "t1") "default" "default" "Mail" "send");
    [reflexivity | discriminate | repeat constructor].
Defined.

(** [getAllLocksRedis] lists a processor's lock with the tenant in the column
    [namespace] and the namespace in the column [tenant]. *)
Theorem listed_lock_swaps_columns cfg tenant appNamespace namespace type subType ttl value :
  subType <> EmptyString ->
  Forall (fun p => hash_free p = true) (key_parts tenant appNamespace namespace type subType) ->
  let k := processorLockKey cfg tenant namespace type subType in
  getAllLocksRedis ttl value [k] =
    [{| lr_namespace := opt_str tenant; lr_tenant := namespace; lr_type := type; lr_subType := subType;
        lr_ttl := ttl k; lr_createdAt := value k |}].
Proof. intros Hs Hf. by eapply processor_lock_row. Qed.

Lemma listed_lock_swaps_columns_witness :
  getAllLocksRedis (fun _ => 7) (fun _ => None) ["EVENT_QUEUE##t1##default##Mail##send"] =
    [mkLockRow "t1" "default" "Mail" "send" 7 None].
Proof.
  apply (listed_lock_swaps_columns (demoConfig true) (Some "t1") "default" "default" "Mail" "send"
           (fun _ => 7) (fun _ => None)); [discriminate | repeat constructor].
Defined.

Lemma shutdown_releases_tracked_witness :
  let cfg := demoConfig true in
  let s := (acquireLock cfg 0 None "job" true (100, 1) true true memInit).1 in
  module_busy cfg s "EVENT_QUEUE####job" (100, 1) 10 = true /\
  module_busy cfg (shutdownHandler cfg 5 s) "EVENT_QUEUE####job" (100, 1) 10 = false.
Proof.
  intros cfg s. split; [vm_compute; reflexivity|].
  destruct (shutdown_releases_tracked cfg 5 s "EVENT_QUEUE####job" (100, 1) 10 ltac:(lia)) as [-> _].
  vm_compute. reflexivity.
Defined.
