(* ===== verification/Stats.v ===== *)
(** * Statistics ([shared/eventQueueStats.js], the update handler of [dbHandler.js])

    Counters of pending events and of events in progress, per tenant and for all
    tenants, in Redis hashes.  Inserts and status updates of a transaction are collected
    and applied when it has succeeded; runs of the runner set the pending counters. *)

From S2P Require Import Prelude Js Errors Config Publish DistributedLock.

Local Open Scope Z_scope.

(** ** Redis hashes

    The fields are integers; their decimal text, which [HGETALL] returns and [parseInt]
    reads, is represented by the number. *)
Class RedisHash (H : Type) := {
  hIncrBy : string -> string -> Z -> H -> H;
  hSet : string -> string -> Z -> H -> H;
  hDel : string -> H -> H;
  hGet : string -> string -> H -> option Z;
  hKeys : H -> list string }.

Class RedisHashLaws (H : Type) `{RedisHash H} := {
  hIncrBy_get k f n h k' f' :
    hGet k' f' (hIncrBy k f n h) =
      if decide (k' = k /\ f' = f) then Some (default 0 (hGet k f h) + n) else hGet k' f' h;
  hSet_get k f v h k' f' :
    hGet k' f' (hSet k f v h) = if decide (k' = k /\ f' = f) then Some v else hGet k' f' h;
  hDel_get k h k' f' : hGet k' f' (hDel k h) = if decide (k' = k) then None else hGet k' f' h;
  hKeys_get h k f v : hGet k f h = Some v -> k ∈ hKeys h }.

Inductive StatusField : Type := Pending | InProgressField.

#[export] Instance StatusField_eq_dec : EqDecision StatusField.
Proof. solve_decision. Defined.

Definition field_name (f : StatusField) : string := match f with Pending => "pending" | InProgressField => "inProgress" end.

Section stats.
Context {H : Type} `{RedisHash H} (cfg : lockConfig) (processingNamespaces : list string).

Definition _tenantKey (tenantId : string) : string := redisNamespace cfg true +:+ "##stats##tenant##" +:+ tenantId.
Definition _globalKey : string := redisNamespace cfg true +:+ "##stats##global".
Definition _keyPrefix (namespace : string) : string := redisNamespace cfg false +:+ "##" +:+ namespace.

(** Every operation catches the errors of Redis: [fails] tells that the client throws,
    the counters then stay as they are. *)
Definition adjustTenantCounter (fails : bool) (tenantId : string) (f : StatusField) (increment : Z) (h : H) : H :=
  if fails then h else hIncrBy (_tenantKey tenantId) (field_name f) increment h.

Definition adjustGlobalCounter (fails : bool) (f : StatusField) (increment : Z) (h : H) : H :=
  if fails then h else hIncrBy _globalKey (field_name f) increment h.

Definition incrementCounters (fails1 fails2 : bool) (tenantId : string) (f : StatusField) (increment : Z) (h : H) : H :=
  adjustGlobalCounter fails2 f increment (adjustTenantCounter fails1 tenantId f increment h).

Definition decrementCounters (fails1 fails2 : bool) (tenantId : string) (f : StatusField) (decrement : Z) (h : H) : H :=
  adjustGlobalCounter fails2 f (- decrement) (adjustTenantCounter fails1 tenantId f (- decrement) h).

(** [_parseCounterHash(raw)] and [_emptyCounters()]: the pair of both counters. *)
Definition _parseCounterHash (key : string) (h : H) : Z * Z :=
  (default 0 (hGet key (field_name Pending) h), default 0 (hGet key (field_name InProgressField) h)).
Definition _emptyCounters : Z * Z := (0, 0).

Definition getTenantStats (fails : bool) (tenantId : string) (h : H) : Z * Z :=
  if fails then _emptyCounters else _parseCounterHash (_tenantKey tenantId) h.
Definition getGlobalStats (fails : bool) (h : H) : Z * Z :=
  if fails then _emptyCounters else _parseCounterHash _globalKey h.

Definition setTenantCounter (fails : bool) (tenantId namespace : string) (f : StatusField) (value : Z) (h : H) : H :=
  if fails then h else hSet (_keyPrefix namespace +:+ "##stats##tenant##" +:+ tenantId) (field_name f) value h.

Definition namespaceGlobalKey (namespace : string) : string := _keyPrefix namespace +:+ "##stats##global".

Definition setGlobalCounter (fails : bool) (namespace : string) (f : StatusField) (value : Z) (h : H) : H :=
  if fails then h else hSet (namespaceGlobalKey namespace) (field_name f) value h.

(** [getAllNamespaceStats()]: the namespaces whose counters could be read. *)
Definition getAllNamespaceStats (fails : string -> bool) (h : H) : obj (Z * Z) :=
  fold_left (fun out ns => if fails ns then out else oset ns (_parseCounterHash (namespaceGlobalKey ns) h) out)
    processingNamespaces [].

Definition deleteTenantStats (fails : bool) (tenantId : string) (h : H) : H :=
  if fails then h else hDel (_tenantKey tenantId) h.

(** The keys [SCAN] finds for the pattern of tenant counters. *)
Fixpoint contains (p s : string) : bool :=
  String.prefix p s || match s with EmptyString => false | String _ r => contains p r end.

(** [resetInProgressCounters()] *)
Definition resetInProgressCounters (fails : bool) (h : H) : H :=
  if fails then h
  else
    let h := fold_left (fun h ns => hSet (namespaceGlobalKey ns) (field_name InProgressField) 0 h) processingNamespaces h in
    fold_left (fun h k => hSet k (field_name InProgressField) 0 h)
      (List.filter (contains "##stats##tenant##") (hKeys h)) h.

(** ** The deltas of a transaction *)

(** [eventQueueStatsPendingDelta] and [eventQueueStatsInProgressDelta]. *)
Record deltas := mkDeltas { d_pending : Z; d_inProgress : Z }.

(** The handler [after("UPDATE")] for a statement that set [status] on [count] rows. *)
Definition afterUpdate (newStatus : option EventProcessingStatus) (count : Z) (d : deltas) : deltas :=
  match newStatus with
  | None => d
  | Some InProgress => mkDeltas (d_pending d - count) (d_inProgress d + count)
  | Some Error => mkDeltas (d_pending d + count) (d_inProgress d - count)
  | Some Done | Some Exceeded | Some Suspended => mkDeltas (d_pending d) (d_inProgress d - count)
  | Some Open => d
  end.

(** The handler ["succeeded"] of the updates. *)
Definition applyDeltas (tenantId : string) (d : deltas) (h : H) : H :=
  if negb (lc_redisEnabled cfg) then h
  else
    let h := if d_pending d =? 0 then h
             else adjustGlobalCounter false Pending (d_pending d) (adjustTenantCounter false tenantId Pending (d_pending d) h) in
    if d_inProgress d =? 0 then h
    else adjustGlobalCounter false InProgressField (d_inProgress d)
           (adjustTenantCounter false tenantId InProgressField (d_inProgress d) h).

(** The count [eventQueueStatsOpenCount] after an insert of [count] rows: with the flag
    [_skipEventQueueBroadcast] the handler [after("CREATE")] returns before it counts. *)
Definition afterInsert (skipEventQueueBroadcast : bool) (count openCount : Z) : Z :=
  if skipEventQueueBroadcast then openCount else openCount + count.

(** What the handler ["succeeded"] of the inserts does to the counters. *)
Definition applyInserts (collectEventQueueMetrics : bool) (tenantId : string) (openCount : Z) (h : H) : H :=
  if collectEventQueueMetrics && lc_redisEnabled cfg && negb (openCount =? 0)
  then incrementCounters false false tenantId Pending openCount h else h.
End stats.

(** The publication counts its inserts in this way. *)
Lemma afterCreate_count toString c data t :
  tx_statsOpenCount (afterCreate toString c data t) =
    afterInsert (tx_skipEventQueueBroadcast t) (Z.of_nat (length data)) (tx_statsOpenCount t).
Proof. unfold afterCreate, afterInsert. destruct (tx_skipEventQueueBroadcast t); [done|]. by destruct (fold_left _ _ _). Qed.

(** ** The counters follow the table

    The rows of all tenants by id, with their tenant and status. *)
Abbreviation table := (obj (string * EventProcessingStatus)).

Definition total (w : string * EventProcessingStatus -> Z) (t : table) : Z := sumZ (fun kv => w kv.2) t.

Definition in_field (f : StatusField) (st : EventProcessingStatus) : bool :=
  match f, st with
  | Pending, Open | Pending, Error => true
  | InProgressField, InProgress => true
  | _, _ => false
  end.

(** A row counts for all tenants, or for one. *)
Definition weight (f : StatusField) (r : string * EventProcessingStatus) : Z := if in_field f r.2 then 1 else 0.
Definition tenant_weight (tn : string) (f : StatusField) (r : string * EventProcessingStatus) : Z :=
  if bool_decide (r.1 = tn) then weight f r else 0.

Lemma tenant_weight_eq tn f st : tenant_weight tn f (tn, st) = weight f (tn, st).
Proof. unfold tenant_weight. simpl. by rewrite bool_decide_eq_true_2. Qed.

Lemma tenant_weight_ne tn tn' f st : tn <> tn' -> tenant_weight tn' f (tn, st) = 0.
Proof. unfold tenant_weight. simpl. intros. by rewrite bool_decide_eq_false_2. Qed.

(** The life cycle: pending events are set to in progress, events in progress are
    finished or become pending again by an error. *)
Definition lifecycle (old new : EventProcessingStatus) : bool :=
  match new with
  | InProgress => in_field Pending old
  | Error | Done | Exceeded | Suspended => in_field InProgressField old
  | Open => false
  end.

(** A statement that sets the status of rows of a tenant. *)
Definition set_rows (tn : string) (ids : list string) (st : EventProcessingStatus) (t : table) : table :=
  fold_left (fun t id => oset id (tn, st) t) ids t.

Inductive updates (tn : string) : list (list string * EventProcessingStatus) -> table -> table -> Prop :=
| updates_nil t : updates tn [] t t
| updates_cons ids st us t t' :
    NoDup ids -> Forall (fun id => exists old, oget id t = Some (tn, old) /\ lifecycle old st = true) ids ->
    updates tn us (set_rows tn ids st t) t' -> updates tn ((ids, st) :: us) t t'.

Definition tx_deltas (us : list (list string * EventProcessingStatus)) : deltas :=
  fold_left (fun d u => afterUpdate (Some u.2) (Z.of_nat (length u.1)) d) us (mkDeltas 0 0).

Lemma total_oset w id r0 r t : oget id t = Some r0 -> total w (oset id r t) = total w t - w r0 + w r.
Proof.
  unfold total, sumZ. induction t as [|[k v] t IH]; simpl; [discriminate|].
  case_decide; simpl; [intros [= ->]; lia|]. intros E. rewrite IH by done. lia.
Qed.

Lemma total_set_rows w tn ids st t c :
  NoDup ids -> Forall (fun id => exists r, oget id t = Some r /\ w r = c) ids ->
  total w (set_rows tn ids st t) = total w t + Z.of_nat (length ids) * (w (tn, st) - c).
Proof.
  unfold set_rows. revert t. induction ids as [|id ids IH]; intros t; [simpl; lia|].
  intros [Hn Hd]%NoDup_cons [(r & Hr & Hw) Hf]%Forall_cons. cbn [fold_left]. rewrite IH; [|done|].
  - rewrite (total_oset w id r) by done. cbn [length]. lia.
  - rewrite Forall_forall in Hf |- *. intros id' Hid. destruct (Hf id' Hid) as (r' & Hr' & Hw').
    exists r'. split; [|done]. rewrite oget_oset_ne; [done | congruence].
Qed.

(** What a row counted before a status was set on it. *)
Definition before (f : StatusField) (st : EventProcessingStatus) : Z :=
  match f, st with
  | Pending, InProgress => 1
  | InProgressField, InProgress => 0
  | Pending, _ => 0
  | InProgressField, _ => 1
  end.

Lemma lifecycle_before f tn old st : lifecycle old st = true -> weight f (tn, old) = before f st.
Proof. by destruct f, old, st. Qed.

Definition delta_of (f : StatusField) (d : deltas) : Z := match f with Pending => d_pending d | InProgressField => d_inProgress d end.

Lemma afterUpdate_delta f tn st n d :
  st <> Open -> delta_of f (afterUpdate (Some st) n d) = delta_of f d + n * (weight f (tn, st) - before f st).
Proof. intros. destruct f, st; unfold weight; simpl; first [lia | congruence]. Qed.

(** The deltas of a transaction are the changes of the counts. *)
Lemma updates_totals tn us t t' d :
  updates tn us t t' ->
  let d' := fold_left (fun d u => afterUpdate (Some u.2) (Z.of_nat (length u.1)) d) us d in
  forall f, total (weight f) t' = total (weight f) t + (delta_of f d' - delta_of f d) /\
    forall tn', total (tenant_weight tn' f) t' =
      total (tenant_weight tn' f) t + if decide (tn' = tn) then delta_of f d' - delta_of f d else 0.
Proof.
  intros U. revert d. induction U as [t|ids st us t t' Hn Hf U IH]; intros d d' f.
  - subst d'. cbn [fold_left]. split; [lia|]. intros tn'. case_decide; lia.
  - subst d'. cbn [fold_left fst snd]. destruct (decide (st = Open)) as [->|Ho].
    { destruct ids as [|id ids]; [|apply Forall_cons in Hf as [(old & _ & L) _]; discriminate L].
      cbn [length set_rows fold_left] in *. specialize (IH d f). cbn [afterUpdate]. exact IH. }
    specialize (IH (afterUpdate (Some st) (Z.of_nat (length ids)) d) f) as [I1 I2]. fold (set_rows tn ids st t) in *.
    pose proof (afterUpdate_delta f tn st (Z.of_nat (length ids)) d Ho) as A. split.
    + rewrite I1, (total_set_rows _ _ _ _ _ (before f st)); [lia | done |].
      eapply Forall_impl; [exact Hf|]. simpl. intros id (old & G & L). exists (tn, old). split; [done|]. by apply lifecycle_before.
    + intros tn'. rewrite I2. destruct (decide (tn' = tn)) as [->|Hne].
      * rewrite (total_set_rows _ _ _ _ _ (before f st)).
        -- rewrite tenant_weight_eq. lia.
        -- done.
        -- eapply Forall_impl; [exact Hf|]. simpl. intros id (old & G & L). exists (tn, old). split; [done|].
           rewrite tenant_weight_eq. by apply lifecycle_before.
      * rewrite (total_set_rows _ _ _ _ _ 0).
        -- rewrite tenant_weight_ne by congruence. lia.
        -- done.
        -- eapply Forall_impl; [exact Hf|]. simpl. intros id (old & G & L). exists (tn, old). split; [done|].
           by rewrite tenant_weight_ne by congruence.
Qed.

Section tracking.
Context {H : Type} {RH : RedisHash H} {RL : RedisHashLaws H} (cfg : lockConfig).
Context (Hredis : lc_redisEnabled cfg = true).

Definition counter (k : string) (f : StatusField) (h : H) : Z := default 0 (hGet k (field_name f) h).

Lemma field_name_inj f1 f2 : field_name f1 = field_name f2 -> f1 = f2.
Proof. by destruct f1, f2. Qed.

Lemma tenantKey_inj t1 t2 : _tenantKey cfg t1 = _tenantKey cfg t2 -> t1 = t2.
Proof. unfold _tenantKey. intros E%append_inj_str. by apply append_inj_str in E. Qed.

Lemma tenantKey_not_global tn : _tenantKey cfg tn <> _globalKey cfg.
Proof. unfold _tenantKey, _globalKey. intros E%append_inj_str. discriminate E. Qed.

Lemma counter_incr k f n h k' f' :
  counter k' f' (hIncrBy k (field_name f) n h) = counter k' f' h + if decide (k' = k /\ f' = f) then n else 0.
Proof.
  unfold counter. rewrite hIncrBy_get. destruct (decide (k' = k /\ f' = f)) as [[-> ->]|Hne].
  - rewrite decide_True by done. done.
  - rewrite decide_False; [lia|]. intros [-> E%field_name_inj]. by apply Hne.
Qed.

(** The two counters one adjustment changes. *)
Lemma adjust_counters tn f n h k' f' :
  counter k' f' (adjustGlobalCounter cfg false f n (adjustTenantCounter cfg false tn f n h)) =
    counter k' f' h + if decide (f' = f /\ (k' = _tenantKey cfg tn \/ k' = _globalKey cfg)) then n else 0.
Proof.
  unfold adjustGlobalCounter, adjustTenantCounter. rewrite !counter_incr. pose proof (tenantKey_not_global tn).
  repeat case_decide; naive_solver lia.
Qed.

Lemma applyDeltas_counters tn d h k f :
  counter k f (applyDeltas cfg tn d h) =
    counter k f h + if decide (k = _tenantKey cfg tn \/ k = _globalKey cfg) then delta_of f d else 0.
Proof using RL Hredis.
  unfold applyDeltas. rewrite Hredis. cbn [negb].
  destruct (Z.eqb_spec (d_pending d) 0) as [E1|E1], (Z.eqb_spec (d_inProgress d) 0) as [E2|E2];
    rewrite ?adjust_counters; destruct f; simpl; repeat case_decide; naive_solver lia.
Qed.

(** The inserts of a transaction, each with its flag and the ids of its rows. *)
Abbreviation inserts := (list (bool * list string)).

Definition inserted_ids (ins : inserts) : list string := concat ins.*2.

Definition tx_openCount (ins : inserts) : Z := fold_left (fun n i => afterInsert i.1 (Z.of_nat (length i.2)) n) ins 0.

(** The rows inserted with the flag, which no counter has seen. *)
Definition uncounted_ids (ins : inserts) : list string := concat (map (fun i : bool * list string => if i.1 then i.2 else []) ins).

Lemma tx_openCount_spec ins :
  tx_openCount ins = Z.of_nat (length (inserted_ids ins)) - Z.of_nat (length (uncounted_ids ins)).
Proof.
  enough (forall n, fold_left (fun (n : Z) (i : bool * list string) => afterInsert i.1 (Z.of_nat (length i.2)) n) ins n =
    n + (Z.of_nat (length (inserted_ids ins)) - Z.of_nat (length (uncounted_ids ins)))) as E by (unfold tx_openCount; rewrite E; lia).
  unfold inserted_ids, uncounted_ids. induction ins as [|[b ids] ins IH]; intros n; csimpl; [lia|].
  rewrite IH, !length_app. unfold afterInsert. destruct b; simpl; lia.
Qed.

(** The rows of all tenants, the tenants of the rows that were inserted with the flag
    since the counters are kept, and the counters. *)
Abbreviation counted := (table * list string * H)%type.

(** Transactions that insert events and that update statuses, each with what its handler
    does to the counters when it has succeeded; metrics are collected. *)
Inductive stat_step : counted -> counted -> Prop :=
| stat_insert tn ins t u h :
    NoDup (inserted_ids ins) -> Forall (fun id => oget id t = None) (inserted_ids ins) ->
    stat_step (t, u, h) (t ++ map (fun id => (id, (tn, Open))) (inserted_ids ins),
                         u ++ map (fun _ => tn) (uncounted_ids ins), applyInserts cfg true tn (tx_openCount ins) h)
| stat_update tn us t t' u h :
    updates tn us t t' -> stat_step (t, u, h) (t', u, applyDeltas cfg tn (tx_deltas us) h).

(** How many of them a tenant has. *)
Definition uncounted (tn : string) (u : list string) : Z := Z.of_nat (length (filter (eq tn) u)).

Definition missing (f : StatusField) (n : Z) : Z := match f with Pending => n | InProgressField => 0 end.

Definition tracked (st : counted) : Prop := forall f,
  counter (_globalKey cfg) f st.2 = total (weight f) st.1.1 - missing f (Z.of_nat (length st.1.2)) /\
  forall tn, counter (_tenantKey cfg tn) f st.2 = total (tenant_weight tn f) st.1.1 - missing f (uncounted tn st.1.2).

Lemma total_new w tn ids t : total w (t ++ map (fun id => (id, (tn, Open))) ids) = total w t + Z.of_nat (length ids) * w (tn, Open).
Proof.
  unfold total. rewrite sumZ_app. f_equal. induction ids as [|id ids IH]; [done|].
  cbn [map length]. change (sumZ (fun kv => w kv.2) ((id, (tn, Open)) :: map (fun id0 => (id0, (tn, Open))) ids))
    with (w (tn, Open) + sumZ (fun kv : string * (string * EventProcessingStatus) => w kv.2) (map (fun id0 => (id0, (tn, Open))) ids)).
  rewrite IH. lia.
Qed.

Lemma weight_open f tn : weight f (tn, Open) = missing f 1.
Proof. by destruct f. Qed.

Lemma uncounted_app tn u tn' (ids : list string) :
  uncounted tn (u ++ map (fun _ => tn') ids) = uncounted tn u + if decide (tn = tn') then Z.of_nat (length ids) else 0.
Proof.
  unfold uncounted. rewrite filter_app, length_app, Nat2Z.inj_add. f_equal.
  destruct (decide (tn = tn')) as [E|E]; induction ids as [|id ids IH]; try done; cbn [map]; rewrite filter_cons.
  - rewrite decide_True by exact E. cbn [length]. lia.
  - by rewrite decide_False by exact E.
Qed.

Lemma applyInserts_counters tn n h k f :
  counter k f (applyInserts cfg true tn n h) =
    counter k f h + if decide (k = _tenantKey cfg tn \/ k = _globalKey cfg) then missing f n else 0.
Proof using RL Hredis.
  unfold applyInserts, incrementCounters. rewrite Hredis. cbn [andb].
  destruct (Z.eqb_spec n 0) as [->|Hn]; cbn [negb]; [destruct f; case_decide; simpl; lia|].
  rewrite adjust_counters. destruct f; simpl; repeat case_decide; naive_solver lia.
Qed.

Lemma stat_step_tracked st st' : stat_step st st' -> tracked st -> tracked st'.
Proof using RL Hredis.
  destruct 1 as [tn ins t u h _ _|tn us t t' u h U]; intros T f; destruct (T f) as [T1 T2]; cbn [fst snd] in *.
  - rewrite length_app, length_map. split; [|intros tn'; pose proof (tenantKey_not_global tn')];
      rewrite applyInserts_counters, tx_openCount_spec, total_new, ?uncounted_app, ?T1, ?T2.
    + rewrite decide_True by auto. rewrite weight_open. destruct f; simpl; lia.
    + destruct (decide (tn' = tn)) as [->|Hne].
      * rewrite decide_True by auto. rewrite tenant_weight_eq, weight_open. destruct f; simpl; lia.
      * rewrite decide_False by (intros [E%tenantKey_inj|E]; congruence). rewrite tenant_weight_ne by congruence.
        destruct f; simpl; lia.
  - destruct (updates_totals tn us t t' (mkDeltas 0 0) U f) as [U1 U2]. fold (tx_deltas us) in U1, U2.
    assert (Z0 : delta_of f (mkDeltas 0 0) = 0) by by destruct f. rewrite Z0 in U1, U2.
    split; [|intros tn'; pose proof (tenantKey_not_global tn')]; rewrite applyDeltas_counters, ?T1, ?T2, ?U1, ?U2.
    + rewrite decide_True by auto. lia.
    + destruct (decide (tn' = tn)) as [->|Hne]; [rewrite decide_True by auto; lia|].
      rewrite decide_False; [lia|]. intros [E%tenantKey_inj|E]; congruence.
Qed.

Lemma runs_tracked st st' : rtc stat_step st st' -> tracked st -> tracked st'.
Proof using RL Hredis. induction 1; eauto using stat_step_tracked. Qed.

(** C27. The counters and the table.  Metrics are collected, Redis is on and reachable, and
    there are neither events nor counters at the start.  After any sequence of
    transactions that insert events, with or without the flag that skips the broadcast, or
    move events along their life cycle, the statistics of every tenant and the global ones
    are: the number of events in progress; and the number of pending events less the number of
    events that were ever inserted with the flag, which are taken off the pending events when
    they are processed without having been counted.  Without such inserts the
    statistics are exactly the numbers of the table. *)
Theorem counters_follow_table h0 t u h :
  (forall k f, hGet k f h0 = None) -> rtc stat_step ([], [], h0) (t, u, h) ->
  getGlobalStats cfg false h = (total (weight Pending) t - Z.of_nat (length u), total (weight InProgressField) t) /\
  forall tn, getTenantStats cfg false tn h =
    (total (tenant_weight tn Pending) t - uncounted tn u, total (tenant_weight tn InProgressField) t).
Proof using RL Hredis.
  intros H0 R.
  assert (T : tracked (t, u, h)).
  { apply (runs_tracked _ _ R). intros f. unfold counter, uncounted. simpl.
    split; [rewrite H0|intros tn; rewrite H0]; by destruct f. }
  pose proof (T Pending) as [P1 P2]. pose proof (T InProgressField) as [I1 I2]. simpl in *. rewrite Z.sub_0_r in I1.
  unfold getGlobalStats, getTenantStats, _parseCounterHash. split; [by f_equal|]. intros tn. f_equal; [apply P2|].
  rewrite <- (Z.sub_0_r (total _ _)). apply I2.
Qed.
End tracking.

(** ** An in-memory store and witnesses *)

Abbreviation memHash := (gmap (string * string) Z).

#[global] Instance memHash_hash : RedisHash memHash := {|
  hIncrBy k f n h := <[(k, f) := default 0 (h !! (k, f)) + n]> h;
  hSet k f v h := <[(k, f) := v]> h;
  hDel k h := filter (fun kv => kv.1.1 <> k) h;
  hGet k f h := h !! (k, f);
  hKeys h := (map_to_list h).*1.*1 |}.

#[global] Instance memHash_laws : RedisHashLaws memHash.
Proof.
  split; unfold hGet, hIncrBy, hSet, hDel, hKeys, memHash_hash; intros.
  - destruct (decide (k' = k /\ f' = f)) as [[-> ->]|Hne]; [by rewrite lookup_insert_eq|].
    rewrite lookup_insert_ne; [done|]. intros [= -> ->]. by apply Hne.
  - destruct (decide (k' = k /\ f' = f)) as [[-> ->]|Hne]; [by rewrite lookup_insert_eq|].
    rewrite lookup_insert_ne; [done|]. intros [= -> ->]. by apply Hne.
  - case_decide as Hk.
    + apply map_lookup_filter_None. right. intros v _. simpl. tauto.
    + destruct (h !! (k', f')) as [v|] eqn:E; [by apply map_lookup_filter_Some|].
      apply map_lookup_filter_None. by left.
  - apply list_elem_of_fmap. exists (k, f). split; [done|]. apply list_elem_of_fmap. exists ((k, f), v).
    split; [done|]. by apply elem_of_map_to_list.
Qed.

Definition demoStatsCfg : lockConfig := mkLockConfig (Some "default") true 60000.

(** Two new events of a tenant, one of which is processed, and one that was inserted
    with the flag and is processed. *)
Definition demoStatsTable : table := [("a", ("t1", Done)); ("b", ("t1", Open)); ("p", ("t2", Done))].

Definition demoCounters : memHash :=
  applyDeltas demoStatsCfg "t2" (tx_deltas [(["p"], InProgress); (["p"], Done)])
    (applyInserts demoStatsCfg true "t2" (tx_openCount [(true, ["p"])])
      (applyDeltas demoStatsCfg "t1" (tx_deltas [(["a"], InProgress); (["a"], Done)])
        (applyInserts demoStatsCfg true "t1" (tx_openCount [(false, ["a"; "b"])]) ∅))).

Lemma counters_follow_table_witness :
  getGlobalStats demoStatsCfg false demoCounters = (0, 0) /\
  getTenantStats demoStatsCfg false "t1" demoCounters = (1, 0) /\
  getTenantStats demoStatsCfg false "t2" demoCounters = (-1, 0).
Proof.
  destruct (counters_follow_table demoStatsCfg eq_refl (∅ : memHash) demoStatsTable ["t2"] demoCounters) as [G T].
  - intros k f. apply lookup_empty.
  - assert (U : forall id tn t, oget id t = Some (tn, Open) ->
      updates tn [([id], InProgress); ([id], Done)] t (set_rows tn [id] Done (set_rows tn [id] InProgress t))).
    { intros id tn t E. eapply updates_cons; [apply NoDup_singleton | apply Forall_singleton; by eexists |].
      eapply updates_cons; [apply NoDup_singleton | apply Forall_singleton; eexists; split; [apply oget_oset_eq | done] |].
      apply updates_nil. }
    eapply rtc_l; [apply (stat_insert demoStatsCfg "t1" [(false, ["a"; "b"])]); [apply (bool_decide_unpack _); vm_compute; exact I | repeat constructor]|].
    eapply rtc_l; [apply (stat_update demoStatsCfg "t1"), (U "a"); reflexivity|].
    eapply rtc_l; [apply (stat_insert demoStatsCfg "t2" [(true, ["p"])]); [apply (bool_decide_unpack _); vm_compute; exact I | repeat constructor]|].
    eapply rtc_l; [apply (stat_update demoStatsCfg "t2"), (U "p"); reflexivity | apply rtc_refl].
  - rewrite G, !T. split_and!; reflexivity.
Defined.

(** An event that is set back to open, which handlers may report, changes no counter: it
    stays counted as in progress. *)
Lemma open_update_not_counted count d : afterUpdate (Some Open) count d = d.
Proof. done. Qed.

(** The counters that runs set and those that transactions adjust are the same for the
    namespace of the application, when it has a name. *)
Lemma namespace_keys_agree cfg ns tn :
  lc_namespace cfg = Some ns -> ns <> EmptyString ->
  _tenantKey cfg tn = _keyPrefix cfg ns +:+ "##stats##tenant##" +:+ tn /\ _globalKey cfg = namespaceGlobalKey cfg ns.
Proof.
  intros E Hn. unfold _tenantKey, _globalKey, namespaceGlobalKey, _keyPrefix, redisNamespace. rewrite E.
  cbn [opt_str default]. rewrite !filter_cons, filter_nil, !decide_True by done.
  split; by rewrite !append_assoc_str.
Qed.

(** ** Where the counters drift *)

Section drift.
Context {H : Type} {RH : RedisHash H} {RL : RedisHashLaws H} (cfg : lockConfig).
Context (Hredis : lc_redisEnabled cfg = true).

(** An event that is stuck in progress is selected again and set to in progress once
    more: it is taken off the pending events, where it was not counted, and counted a
    second time as in progress. *)
Theorem stuck_event_counted_twice tn id t h :
  tracked cfg (t, [], h) -> oget id t = Some (tn, InProgress) ->
  let t' := set_rows tn [id] InProgress t in
  let h' := applyDeltas cfg tn (tx_deltas [([id], InProgress)]) h in
  counter (_globalKey cfg) InProgressField h' = total (weight InProgressField) t' + 1 /\
  counter (_globalKey cfg) Pending h' = total (weight Pending) t' - 1.
Proof.
  intros T E t' h'. subst t' h'. pose proof Hredis. unfold set_rows, tx_deltas. cbn [fold_left fst snd length].
  rewrite !applyDeltas_counters, !decide_True by auto.
  rewrite !(total_oset _ id (tn, InProgress)) by done.
  pose proof (proj1 (T Pending)). pose proof (proj1 (T InProgressField)).
  cbn [delta_of afterUpdate d_pending d_inProgress fst snd missing length Z.of_nat] in *. lia.
Qed.

(** Setting a field of many hashes to 0. *)
Definition zeroed {A} (key : A -> string) (f : StatusField) (l : list A) (h : H) : H :=
  fold_left (fun h a => hSet (key a) (field_name f) 0 h) l h.

Lemma zeroed_keeps {A} (key : A -> string) f l k h : counter k f h = 0 -> counter k f (zeroed key f l h) = 0.
Proof.
  unfold zeroed. revert h. induction l as [|a l IH]; intros h H0; [done|]. cbn [fold_left]. apply IH.
  unfold counter in *. rewrite hSet_get. by case_decide.
Qed.

Lemma zeroed_zero {A} `{EqDecision A} (key : A -> string) f l a h : a ∈ l -> counter (key a) f (zeroed key f l h) = 0.
Proof.
  revert h. induction l as [|a0 l IH]; intros h Hin; [by apply not_elem_of_nil in Hin|].
  destruct (decide (a ∈ l)) as [Hl|Hl]; [by apply (IH (hSet (key a0) (field_name f) 0 h))|].
  apply elem_of_cons in Hin as [<-|Hin]; [|done].
  apply (zeroed_keeps key f l (key a) (hSet (key a) (field_name f) 0 h)).
  unfold counter. by rewrite hSet_get, decide_True by done.
Qed.

(** The reset at the start of an instance does not know the events other instances are
    processing: when the first of them is done, the counter of the namespace is negative. *)
Theorem reset_counter_negative ns tn h processingNamespaces :
  lc_namespace cfg = Some ns -> ns <> EmptyString -> ns ∈ processingNamespaces ->
  let h' := resetInProgressCounters cfg processingNamespaces false h in
  counter (_globalKey cfg) InProgressField h' = 0 /\
  counter (_globalKey cfg) InProgressField (applyDeltas cfg tn (mkDeltas 0 (-1)) h') = -1.
Proof.
  intros Hns Hne Hin h'.
  assert (R : counter (_globalKey cfg) InProgressField h' = 0).
  { destruct (namespace_keys_agree cfg ns "" Hns Hne) as [_ ->].
    apply (zeroed_keeps (fun k => k)). by apply (zeroed_zero (namespaceGlobalKey cfg)). }
  split; [done|]. rewrite applyDeltas_counters, R, decide_True by auto. done.
Qed.
End drift.
