(* ===== verification/ProcessorContext.v ===== *)
(** * Transactions of a processor ([EventQueueProcessorBase.js], [processEventQueue.js])

    The accessors [tx], [context] and those per cluster, and how [processEventQueue] sets
    them: which transaction a handler gets when the clusters of a chunk run concurrently. *)

From S2P Require Import Prelude Js Errors.

Local Open Scope Z_scope.

Section context.
(** The transactions; a context is identified with the transaction that belongs to it. *)
Context {T : Type} (eventType eventSubType : string) (parallelEventProcessing : Z).

(** [__tx], [__processTx], [__txUsageAllowed] and [__txMap]. *)
Record processorTx := mkProcessorTx {
  x_tx : T;
  x_processTx : option T;
  x_txUsageAllowed : bool;
  x_txMap : obj T }.

(** The constructor with the transaction of the preprocessing. *)
Definition newProcessorTx (tx : T) : processorTx := mkProcessorTx tx None true [].

(** [set processEventContext(context)]; [None] for a missing context. *)
Definition setProcessEventContext (context : option T) (s : processorTx) : processorTx :=
  mkProcessorTx (x_tx s) context (x_txUsageAllowed s) (x_txMap s).

Definition clearEventProcessingContext (s : processorTx) : processorTx := setProcessEventContext None s.

Definition setTxUsageAllowed (value : bool) (s : processorTx) : processorTx :=
  mkProcessorTx (x_tx s) (x_processTx s) value (x_txMap s).

(** [get tx()] and [get context()] *)
Definition getTx (s : processorTx) : result EventQueueError T :=
  if negb (x_txUsageAllowed s) && (1 <? parallelEventProcessing) then Err (wrongTxUsage (JStr eventType) (JStr eventSubType))
  else Ok (default (x_tx s) (x_processTx s)).

Definition getContext (s : processorTx) : result EventQueueError T :=
  if negb (x_txUsageAllowed s) && (1 <? parallelEventProcessing) then Err (wrongTxUsage (JStr eventType) (JStr eventSubType))
  else Ok (default (x_tx s) (x_processTx s)).

Definition setTxForEventProcessing (key : string) (tx : T) (s : processorTx) : processorTx :=
  mkProcessorTx (x_tx s) (x_processTx s) (x_txUsageAllowed s) (oset key tx (x_txMap s)).

Definition getTxForEventProcessing (key : string) (s : processorTx) : option T := oget key (x_txMap s).
Definition getContextForEventProcessing (key : string) (s : processorTx) : option T := oget key (x_txMap s).

(** ** The clusters of a chunk in isolated mode

    The steps of the clusters that change the state: a cluster starts its handler in a
    transaction of its own, or opens the transaction that only writes its status. *)
Inductive clusterStep : Type :=
| StartHandler (key : string) (tx : T)
| CommitStatus (tx : T).

Definition stepCluster (i : clusterStep) (s : processorTx) : processorTx :=
  match i with
  | StartHandler key tx => setTxForEventProcessing key tx s
  | CommitStatus tx => setProcessEventContext (Some tx) s
  end.

(** [processEventMap]: the usage is not allowed while the clusters run, and the context is
    cleared afterwards. *)
Definition beginClusters (commitOnEventLevel : bool) (s : processorTx) : processorTx :=
  if commitOnEventLevel then setTxUsageAllowed false s else s.
Definition endClusters (commitOnEventLevel : bool) (s : processorTx) : processorTx :=
  let s := clearEventProcessingContext s in
  if commitOnEventLevel then setTxUsageAllowed true s else s.

(** The state while the clusters run: [chunkTx] is the transaction of the chunk. *)
Definition duringClusters (chunkTx : T) (steps : list clusterStep) (s : processorTx) : processorTx :=
  run stepCluster steps (beginClusters true (setProcessEventContext (Some chunkTx) s)).

Definition starts (steps : list clusterStep) : obj T :=
  omap (fun i => match i with StartHandler key tx => Some (key, tx) | CommitStatus _ => None end) steps.
Definition statusTxs (steps : list clusterStep) : list T :=
  omap (fun i => match i with CommitStatus tx => Some tx | StartHandler _ _ => None end) steps.

Lemma run_steps steps s :
  x_txUsageAllowed (run stepCluster steps s) = x_txUsageAllowed s /\ x_tx (run stepCluster steps s) = x_tx s /\
  x_txMap (run stepCluster steps s) = oassign (x_txMap s) (starts steps) /\
  x_processTx (run stepCluster steps s) = match last (statusTxs steps) with Some t => Some t | None => x_processTx s end.
Proof.
  revert s. induction steps as [|i steps IH]; intros s; [done|]. change (run stepCluster (i :: steps) s) with
    (run stepCluster steps (stepCluster i s)). destruct (IH (stepCluster i s)) as (-> & -> & -> & ->).
  destruct i as [key tx|tx]; [done|]. split_and!; try done. csimpl. rewrite last_cons. by destruct (last _).
Qed.

(** A handler gets its own transaction by its key, whatever the other clusters of the
    chunk do; the shared accessors throw when clusters can run in parallel. *)
Theorem cluster_gets_own_tx chunkTx steps s key tx :
  NoDup (okeys (starts steps)) -> (key, tx) ∈ starts steps ->
  getTxForEventProcessing key (duringClusters chunkTx steps s) = Some tx /\
  getContextForEventProcessing key (duringClusters chunkTx steps s) = Some tx /\
  (1 < parallelEventProcessing ->
    getTx (duringClusters chunkTx steps s) = Err (wrongTxUsage (JStr eventType) (JStr eventSubType)) /\
    getContext (duringClusters chunkTx steps s) = Err (wrongTxUsage (JStr eventType) (JStr eventSubType))).
Proof.
  intros Hd Hin. unfold getTxForEventProcessing, getContextForEventProcessing, duringClusters, getTx, getContext.
  destruct (run_steps steps (beginClusters true (setProcessEventContext (Some chunkTx) s))) as (-> & _ & -> & _).
  assert (E : oget key (oassign (x_txMap s) (starts steps)) = Some tx).
  { rewrite oget_oassign by done. by rewrite (elem_of_oget key tx). }
  split_and!; [exact E | exact E |]. intros Hp. simpl. by destruct (Z.ltb_spec 1 parallelEventProcessing); [|lia].
Qed.
(** One cluster at a time: the guard lets the shared accessors through.  They give the
    transaction of the chunk, which is rolled back in isolated mode, or, once a cluster has
    failed, the one that wrote its status; never the transaction of the running cluster. *)
Lemma sequential_handler_gets_chunk_tx chunkTx steps s :
  parallelEventProcessing <= 1 ->
  getTx (duringClusters chunkTx steps s) = Ok (default chunkTx (last (statusTxs steps))).
Proof.
  intros Hp. unfold getTx, duringClusters.
  destruct (run_steps steps (beginClusters true (setProcessEventContext (Some chunkTx) s))) as (-> & -> & _ & ->).
  destruct (Z.ltb_spec 1 parallelEventProcessing); [lia|]. simpl. by destruct (last (statusTxs steps)).
Qed.

(** After the clusters the accessors work again and give the transaction of the constructor. *)
Lemma tx_after_clusters chunkTx steps s :
  getTx (endClusters true (duringClusters chunkTx steps s)) = Ok (x_tx s).
Proof.
  destruct (run_steps steps (beginClusters true (setProcessEventContext (Some chunkTx) s))) as (_ & E & _ & _).
  unfold getTx, duringClusters. simpl in *. by rewrite E.
Qed.
End context.

(** Two clusters, the first of which has failed when the second one runs. *)
Definition demoSteps : list (clusterStep (T := string)) :=
  [StartHandler "a" "tx of a"; StartHandler "b" "tx of b"; CommitStatus "status of a"].

Lemma cluster_gets_own_tx_witness :
  NoDup (okeys (starts demoSteps)) /\
  getTxForEventProcessing "b" (duringClusters "chunk" demoSteps (newProcessorTx "preprocessing")) = Some "tx of b".
Proof.
  assert (Hd : NoDup (okeys (starts demoSteps))) by (apply (bool_decide_unpack _); vm_compute; exact I).
  split; [exact Hd|].
  apply (cluster_gets_own_tx "type" "subType" 10 "chunk" demoSteps (newProcessorTx "preprocessing") "b" "tx of b");
    [exact Hd | right; left].
Defined.

Example demo_sequential :
  getTx "type" "subType" 1 (duringClusters "chunk" demoSteps (newProcessorTx "preprocessing")) = Ok "status of a".
Proof. reflexivity. Qed.
