(* ===== verification/Telemetry.v ===== *)
(** * Telemetry ([shared/openTelemetry.js], [shared/PerformanceTracer.js], [shared/env.js])

    [trace] wraps the functions of the event queue into spans, [initMetrics] registers
    gauges that show the counters of [Stats], the performance tracer writes a log record
    for slow steps.  Spans and contexts of the OpenTelemetry API are classes with laws. *)

From S2P Require Import Prelude Js Errors DistributedLock Stats.

Local Open Scope Z_scope.

(** ** Spans *)

Inductive SpanStatusCode : Type := UNSET | OK | ERROR.

#[export] Instance SpanStatusCode_eq_dec : EqDecision SpanStatusCode.
Proof. solve_decision. Defined.

(** The methods of a span the code calls.  [sp_code] is [span.status?.code]: a span that
    does not record has no status.  [end] may throw. *)
Class SpanApi (Sp : Type) := {
  sp_code : Sp -> option SpanStatusCode;
  sp_ended : Sp -> bool;
  sp_setStatus : SpanStatusCode -> option jsval -> Sp -> Sp;
  sp_recordException : jsval -> Sp -> Sp;
  sp_setAttribute : string -> jsval -> Sp -> Sp;
  sp_end : Sp -> result jsval Sp }.

(** Spans that record: the status of a running span is the one that is set, attributes
    and exceptions do not change it, and [end] ends the span. *)
Class SpanLaws (Sp : Type) `{SpanApi Sp} := {
  setStatus_code c m s : sp_ended s = false -> sp_code s = Some UNSET -> sp_code (sp_setStatus c m s) = Some c;
  setStatus_ended c m s : sp_ended (sp_setStatus c m s) = sp_ended s;
  recordException_code e s : sp_code (sp_recordException e s) = sp_code s;
  recordException_ended e s : sp_ended (sp_recordException e s) = sp_ended s;
  setAttribute_code k v s : sp_code (sp_setAttribute k v s) = sp_code s;
  setAttribute_ended k v s : sp_ended (sp_setAttribute k v s) = sp_ended s;
  end_ended s : exists s', sp_end s = Ok s' /\ sp_ended s' = true }.

(** The calls of the methods of a span, in the order in which they are made. *)
Inductive spanCall : Type :=
| CSetAttribute (key : string) (value : jsval)
| CRecordException (e : jsval)
| CSetStatus (code : SpanStatusCode) (message : option jsval)
| CEnd.

(** What the call of the traced function gives: it throws, it returns a value that is not a
    promise, or a promise, which is pending or settled. *)
Inductive answer : Type :=
| Threw (e : jsval)
| Returned (v : jsval)
| Promised (settled : option (result jsval jsval)).

(** The outcome for a caller that awaits it; [None] while the promise is pending. *)
Definition awaited (a : answer) : option (result jsval jsval) :=
  match a with Threw e => Some (Err e) | Returned v => Some (Ok v) | Promised r => r end.

(** [attributes[k] = typeof attributes[k] !== "string" ? JSON.stringify(attributes[k]) : attributes[k]]
    for every key; the object of the caller is changed. *)
Definition _sanitizeAttributes (stringify : jsval -> jsval) (attributes : obj jsval) : obj jsval :=
  fold_left (fun o k => oset k (if is_string (prop o k) then prop o k else stringify (prop o k)) o)
    (okeys attributes) attributes.

(** [e.message], which throws on [undefined] and [null] *)
Definition messageOf (e : jsval) : result jsval jsval :=
  match e with JErr _ m => Ok (JStr m) | _ => read_field e "message" end.

Section tracing.
Context {Sp Ctx W : Type} {SA : SpanApi Sp}.

(** A span with the calls made so far. *)
Record traced := mkTraced { tr_span : Sp; tr_calls : list spanCall }.

Definition setAttribute (k : string) (v : jsval) (t : traced) : traced :=
  mkTraced (sp_setAttribute k v (tr_span t)) (tr_calls t ++ [CSetAttribute k v]).
Definition recordException (e : jsval) (t : traced) : traced :=
  mkTraced (sp_recordException e (tr_span t)) (tr_calls t ++ [CRecordException e]).
Definition setStatus (c : SpanStatusCode) (m : option jsval) (t : traced) : traced :=
  mkTraced (sp_setStatus c m (tr_span t)) (tr_calls t ++ [CSetStatus c m]).

Definition onSuccess (t : traced) : traced := setStatus OK None t.

(** The span, and the value that is thrown: a value without properties makes the handler
    itself throw. *)
Definition onFailure (e : jsval) (t : traced) : traced * jsval :=
  let t := recordException e t in
  match messageOf e with
  | Err err => (t, err)
  | Ok m => (setStatus ERROR (if truthy m then Some m else None) t, e)
  end.

Definition onDone (t : traced) : traced :=
  if negb (bool_decide (sp_code (tr_span t) = Some UNSET)) && negb (sp_ended (tr_span t)) then
    mkTraced (match sp_end (tr_span t) with Ok s => s | Err _ => tr_span t end) (tr_calls t ++ [CEnd])
  else t.

(** [_startOtelTrace]: the [finally] of the [try] runs when the function has returned, for
    a promise before it is settled. *)
Definition _startOtelTrace (t : traced) (a : answer) : option (result jsval jsval) * traced :=
  match a with
  | Threw e => let '(t, e') := onFailure e t in (Some (Err e'), onDone t)
  | Returned v => (Some (Ok v), onDone (onSuccess t))
  | Promised None => (None, onDone t)
  | Promised (Some (Ok v)) => (Some (Ok v), onDone (onSuccess (onDone t)))
  | Promised (Some (Err e)) => let '(t, e') := onFailure e (onDone t) in (Some (Err e'), onDone t)
  end.

(** [_setAttributes]: also the attributes of the caller as they are afterwards. *)
Definition _setAttributes (stringify : jsval -> jsval) (tenant id : jsval) (attributes : obj jsval) (t : traced)
    : traced * obj jsval :=
  let t := setAttribute "sap.correlation_id" id (setAttribute "sap.tenancy.tenant_id" tenant t) in
  let attributes := _sanitizeAttributes stringify attributes in
  (fold_left (fun t kv => setAttribute kv.1 kv.2 t) attributes t, attributes).

(** [otel.trace.getTracerProvider()] *)
Inductive tracerProvider : Type := NoProvider | NoopProvider | Provider.

(** The part of the OpenTelemetry API the code uses: the active context, propagation, and
    spans, which are started with a name, as a root or not, below a context. *)
Record otelApi := mkOtel {
  ot_provider : tracerProvider;
  ot_active : Ctx;
  ot_extract : Ctx -> obj jsval -> Ctx;
  ot_inject : Ctx -> obj jsval;
  ot_startSpan : string -> bool -> Ctx -> Sp;
  ot_setSpan : Ctx -> Sp -> Ctx }.

Definition extractedContext (o : otelApi) (traceContext : option (obj jsval)) : Ctx :=
  match traceContext with Some carrier => ot_extract o (ot_active o) carrier | None => ot_active o end.

(** [trace(context, label, fn, { attributes, newRootSpan, traceContext })].  [fn] runs in a
    context ([None]: the one of the caller).  The outcome, what the function leaves, the
    span and the attributes of the caller. *)
Definition trace (stringify : jsval -> jsval) (enableTelemetry : bool) (otel : option otelApi) (dynatrace : bool)
    (tenant id : jsval) (label : string) (fn : option Ctx -> W -> answer * W) (attributes : obj jsval)
    (newRootSpan : bool) (traceContext : option (obj jsval)) (w : W)
    : option (result jsval jsval) * W * option traced * obj jsval :=
  let plain := let '(a, w') := fn None w in (awaited a, w', None, attributes) in
  match otel with
  | None => plain
  | Some o =>
    let noTracer := match ot_provider o with NoProvider | NoopProvider => true | Provider => false end in
    if negb enableTelemetry then plain
    else if noTracer && negb dynatrace then plain
    else
      let ctx := extractedContext o traceContext in
      let span := ot_startSpan o ("eventqueue-" +:+ label) newRootSpan ctx in
      let '(t, attributes') := _setAttributes stringify tenant id attributes (mkTraced span []) in
      let '(a, w') := fn (Some (ot_setSpan o ctx (tr_span t))) w in
      let '(r, t') := _startOtelTrace t a in
      (r, w', Some t', attributes')
  end.

(** [getCurrentTraceContext()] *)
Definition getCurrentTraceContext (otel : option otelApi) : option (obj jsval) :=
  match otel with None => None | Some o => Some (ot_inject o (ot_active o)) end.
End tracing.
Arguments traced : clear implicits.
Arguments otelApi : clear implicits.

(** ** Tracing does not change what a function does *)

Lemma sanitize_step (f : jsval -> jsval) ks (o : obj jsval) k :
  NoDup ks -> let o' := fold_left (fun o k => oset k (f (prop o k)) o) ks o in
  prop o' k = if decide (k ∈ ks) then f (prop o k) else prop o k.
Proof.
  revert o. induction ks as [|k0 ks IH]; intros o Hd; simpl.
  - done.
  - apply NoDup_cons in Hd as [Hn Hd]. rewrite IH by done. rewrite prop_oset. destruct (decide (k0 = k)) as [->|Hne].
    + repeat case_decide; set_solver.
    + repeat case_decide; set_solver.
Qed.

(** The attributes of a span are strings: values that are none are serialised. *)
Lemma sanitized_attribute stringify (o : obj jsval) k :
  NoDup (okeys o) ->
  prop (_sanitizeAttributes stringify o) k =
    if decide (k ∈ okeys o) then (if is_string (prop o k) then prop o k else stringify (prop o k)) else JUndef.
Proof.
  intros Hd. unfold _sanitizeAttributes.
  rewrite (sanitize_step (fun v => if is_string v then v else stringify v)) by done.
  case_decide as Hk; [done|]. unfold prop. destruct (oget k o) eqn:E; [|done].
  exfalso. apply Hk, oget_okeys. eauto.
Qed.

Section transparent.
Context {Sp Ctx W : Type} {SA : SpanApi Sp}.

Lemma onFailure_thrown e (t : traced Sp) : nullish e = false -> (onFailure e t).2 = e.
Proof. intros N. unfold onFailure, messageOf, read_field. destruct e; try done; by rewrite N. Qed.

Definition throws_value (a : answer) : Prop :=
  match awaited a with Some (Err e) => nullish e = false | _ => True end.

Lemma startOtelTrace_outcome (t : traced Sp) a : throws_value a -> (_startOtelTrace t a).1 = awaited a.
Proof.
  unfold throws_value, _startOtelTrace. destruct a as [e|v|[[v|e]|]]; simpl; try done; intros N.
  - pose proof (onFailure_thrown e t N) as E. destruct (onFailure e t). simpl in *. by subst.
  - pose proof (onFailure_thrown e (onDone t) N) as E. destruct (onFailure e (onDone t)). simpl in *. by subst.
Qed.

(** The context the function runs in. *)
Definition runsIn (otel : option (otelApi Sp Ctx)) (traceContext : option (obj jsval)) (span : option (traced Sp)) (c : option Ctx) : Prop :=
  match span with
  | None => c = None
  | Some _ => exists o s, otel = Some o /\ c = Some (ot_setSpan o (extractedContext o traceContext) s)
  end.

(** C35. Tracing is transparent: whatever the telemetry settings, the provider and the
    attributes, [trace] calls the function exactly once and the caller gets what the
    function returns, throws, resolves or rejects to, unless it throws [undefined] or
    [null]; only the active context of the function differs. *)
Theorem trace_transparent stringify enable (otel : option (otelApi Sp Ctx)) dynatrace tenant id label
    (fn : option Ctx -> W -> answer * W) attributes root traceContext w :
  (forall c, throws_value (fn c w).1) ->
  exists c r,
    trace stringify enable otel dynatrace tenant id label fn attributes root traceContext w = r /\
    r.1.1 = (awaited (fn c w).1, (fn c w).2) /\ runsIn otel traceContext r.1.2 c.
Proof.
  intros N. unfold trace.
  assert (P : exists c r, (let '(a, w') := fn None w in (awaited a, w', None, attributes)) = r /\
    r.1.1 = (awaited (fn c w).1, (fn c w).2) /\ runsIn otel traceContext (r.1.2 : option (traced Sp)) c).
  { exists None. eexists. split; [reflexivity|]. by destruct (fn None w). }
  destruct otel as [o|]; [|exact P]. destruct (negb enable); [exact P|].
  destruct (_ && negb dynatrace); [exact P|].
  destruct (_setAttributes _ _ _ _ _) as [t attributes'] eqn:Et.
  set (c := ot_setSpan o (extractedContext o traceContext) (tr_span t)).
  exists (Some c). eexists. split; [reflexivity|]. fold c. specialize (N (Some c)).
  destruct (fn (Some c) w) as [a w']. pose proof (startOtelTrace_outcome t a N) as E.
  destruct (_startOtelTrace t a) as [r t']. simpl in *. subst r. split; [done|]. exists o, (tr_span t). done.
Qed.

(** ** The life of a span *)

Context {SL : SpanLaws Sp}.

(** A span that has been started and has no status. *)
Definition running (t : traced Sp) : Prop := sp_code (tr_span t) = Some UNSET /\ sp_ended (tr_span t) = false.

Lemma onDone_running t : running t -> onDone t = t.
Proof. intros [C _]. unfold onDone. rewrite C. by rewrite bool_decide_eq_true_2. Qed.

(** [onDone] of a span whose status has been set ends it. *)
Lemma onDone_ends c m t :
  c <> UNSET -> running t ->
  let t' := onDone (setStatus c m t) in
  tr_calls t' = tr_calls t ++ [CSetStatus c m; CEnd] /\ sp_ended (tr_span t') = true.
Proof.
  intros Hc [C E]. unfold onDone, setStatus. simpl. rewrite setStatus_code, setStatus_ended, E by done.
  rewrite bool_decide_eq_false_2 by congruence. simpl.
  destruct (end_ended (sp_setStatus c m (tr_span t))) as (s' & -> & ?). by rewrite <- app_assoc.
Qed.

Lemma recordException_running e (t : traced Sp) : running t -> running (recordException e t).
Proof. intros [C E]. split; simpl; [by rewrite recordException_code | by rewrite recordException_ended]. Qed.

(** What the code calls on the span for an answer. *)
Definition finalCalls (a : answer) : list spanCall :=
  match awaited a with
  | None => []
  | Some (Ok _) => [CSetStatus OK None; CEnd]
  | Some (Err e) =>
    match messageOf e with
    | Ok m => [CRecordException e; CSetStatus ERROR (if truthy m then Some m else None); CEnd]
    | Err _ => [CRecordException e]
    end
  end.

Lemma onFailure_calls e (t : traced Sp) :
  running t ->
  let t' := onDone (onFailure e t).1 in
  tr_calls t' = tr_calls t ++ finalCalls (Threw e) /\ sp_ended (tr_span t') = is_ok (messageOf e).
Proof.
  intros R. unfold onFailure, finalCalls. simpl. destruct (messageOf e) as [m|err]; simpl.
  - destruct (onDone_ends ERROR (if truthy m then Some m else None) (recordException e t)) as [C E];
      [done | by apply recordException_running |]. rewrite C, E. simpl. by rewrite <- app_assoc.
  - rewrite onDone_running by by apply recordException_running. split; [done|]. simpl.
    rewrite recordException_ended. apply R.
Qed.

Lemma startOtelTrace_calls (t : traced Sp) a :
  running t -> let t' := (_startOtelTrace t a).2 in
  tr_calls t' = tr_calls t ++ finalCalls a /\
  sp_ended (tr_span t') = match awaited a with Some (Err e) => is_ok (messageOf e) | Some (Ok _) => true | None => false end.
Proof.
  intros R. pose proof (onDone_running t R) as D. destruct a as [e|v|[[v|e]|]]; simpl; rewrite ?D.
  - pose proof (onFailure_calls e t R). by destruct (onFailure e t).
  - by apply onDone_ends.
  - by apply onDone_ends.
  - pose proof (onFailure_calls e t R). by destruct (onFailure e t).
  - rewrite app_nil_r. split; [done | apply R].
Qed.

(** What setting an attribute keeps, setting those of a span keeps. *)
Lemma setAttributes_keeps (P : traced Sp -> Prop) stringify tenant id attributes t :
  (forall k v t, P t -> P (setAttribute k v t)) -> P t -> P (_setAttributes stringify tenant id attributes t).1.
Proof.
  intros S Ht. unfold _setAttributes. simpl.
  assert (F : forall l t, P t -> P (fold_left (fun t kv => setAttribute kv.1 kv.2 t) l t)).
  { induction l as [|kv l IH]; intros t0 H0; [done|]. simpl. auto. }
  auto.
Qed.

Lemma setAttribute_running k v (t : traced Sp) : running t -> running (setAttribute k v t).
Proof. intros [C E]. split; simpl; [by rewrite setAttribute_code | by rewrite setAttribute_ended]. Qed.

Definition onlyAttributes (t : traced Sp) : Prop := Forall (fun x => exists k v, x = CSetAttribute k v) (tr_calls t).

Lemma setAttribute_only k v (t : traced Sp) : onlyAttributes t -> onlyAttributes (setAttribute k v t).
Proof. intros A. apply Forall_app. split; [done|]. repeat constructor; eauto. Qed.

(** A span of a function that settles gets its status and is then ended, exactly once; it
    stays open while the function runs. *)
Theorem span_closed stringify (o : otelApi Sp Ctx) tenant id label
    (fn : option Ctx -> W -> answer * W) attributes root traceContext w :
  ot_provider o = Provider ->
  (forall name root c, sp_code (ot_startSpan o name root c) = Some UNSET /\ sp_ended (ot_startSpan o name root c) = false) ->
  exists c t calls,
    (trace stringify true (Some o) false tenant id label fn attributes root traceContext w).1.2 = Some t /\
    tr_calls t = calls ++ finalCalls (fn c w).1 /\ Forall (fun x => exists k v, x = CSetAttribute k v) calls /\
    (throws_value (fn c w).1 -> sp_ended (tr_span t) = bool_decide (is_Some (awaited (fn c w).1))).
Proof.
  intros P Fresh. unfold trace. rewrite P. cbn [negb andb].
  set (span := ot_startSpan o _ root _).
  pose proof (setAttributes_keeps running stringify tenant id attributes (mkTraced span []) setAttribute_running (Fresh _ _ _)) as R.
  pose proof (setAttributes_keeps onlyAttributes stringify tenant id attributes (mkTraced span []) setAttribute_only (Forall_nil_2 _)) as A.
  destruct (_setAttributes _ _ _ _ _) as [t attributes'] eqn:Et. cbn [fst] in R, A.
  set (c := Some (ot_setSpan o (extractedContext o traceContext) (tr_span t))). exists c.
  destruct (fn c w) as [a w']. pose proof (startOtelTrace_calls t a R) as [C E].
  destruct (_startOtelTrace t a) as [r t'] eqn:Es. simpl in *. exists t', (tr_calls t).
  split; [done|]. split; [exact C|]. split; [exact A|].
  intros N. rewrite E. unfold throws_value in N. destruct (awaited a) as [[v|e]|]; simpl.
  - done.
  - unfold messageOf, read_field. destruct e; done.
  - done.
Qed.

(** A function that rejects with [undefined]: the caller gets a [TypeError], the span has
    no status and stays open. *)
Lemma undefined_rejection_replaced (t : traced Sp) :
  running t ->
  (_startOtelTrace t (Promised (Some (Err JUndef)))).1 = Some (Err (TypeError "Cannot read properties of undefined")) /\
  sp_ended (tr_span (_startOtelTrace t (Promised (Some (Err JUndef)))).2) = false.
Proof.
  intros R. split; [done|]. by rewrite (proj2 (startOtelTrace_calls t (Promised (Some (Err JUndef))) R)).
Qed.
End transparent.

(** Spans that record, as the SDK has them. *)
Record memSpan := mkMemSpan { ms_code : SpanStatusCode; ms_ended : bool; ms_attributes : obj jsval }.

#[export] Instance memSpan_api : SpanApi memSpan := {
  sp_code s := Some (ms_code s);
  sp_ended := ms_ended;
  sp_setStatus c _ s := if ms_ended s then s else mkMemSpan c (ms_ended s) (ms_attributes s);
  sp_recordException _ s := s;
  sp_setAttribute k v s := if ms_ended s then s else mkMemSpan (ms_code s) (ms_ended s) (oset k v (ms_attributes s));
  sp_end s := Ok (mkMemSpan (ms_code s) true (ms_attributes s)) }.

#[export] Instance memSpan_laws : SpanLaws memSpan.
Proof.
  split; simpl; try done.
  - by intros c m s -> _.
  - intros c m s. by destruct (ms_ended s) eqn:E.
  - intros k v s. by destruct (ms_ended s) eqn:E.
  - intros k v s. by destruct (ms_ended s) eqn:E.
  - eauto.
Qed.

(** The context is the list of the spans that are open, the carrier names the parent. *)
Definition demoOtel : otelApi memSpan (list memSpan) :=
  mkOtel Provider [] (fun c _ => mkMemSpan UNSET false [] :: c) (fun c => [("depth", JNum (Z.of_nat (length c)))])
    (fun name root c => mkMemSpan UNSET false [("name", JStr name)]) (fun c s => s :: c).

(** A function that counts its calls and rejects. *)
Definition demoTraced (c : option (list memSpan)) (n : Z) : answer * Z := (Promised (Some (Err (JErr "Error" "no"))), n + 1).

Lemma trace_transparent_witness :
  (forall c, throws_value (demoTraced c 0).1) /\
  exists c r,
    trace (fun _ => JStr "[]") true (Some demoOtel) false (JStr "t1") (JStr "id") "acquire-lock" demoTraced
      [("eventIds", JArr [])] false None 0 = r /\
    r.1.1 = (awaited (demoTraced c 0).1, (demoTraced c 0).2) /\ runsIn (Some demoOtel) None r.1.2 c.
Proof.
  assert (N : forall c, throws_value (demoTraced c 0).1) by (intros; reflexivity).
  split; [exact N | apply (trace_transparent (fun _ => JStr "[]") true (Some demoOtel) false (JStr "t1") (JStr "id")
    "acquire-lock" demoTraced [("eventIds", JArr [])] false None 0 N)].
Defined.

(** The same call: the span has been given the error, its status and its end. *)
Example demo_span_calls :
  option_map tr_calls (trace (fun _ => JStr "[]") true (Some demoOtel) false (JStr "t1") (JStr "id") "acquire-lock" demoTraced
      [("eventIds", JArr [])] false None 0).1.2 =
    Some [CSetAttribute "sap.tenancy.tenant_id" (JStr "t1"); CSetAttribute "sap.correlation_id" (JStr "id");
      CSetAttribute "eventIds" (JStr "[]"); CRecordException (JErr "Error" "no"); CSetStatus ERROR (Some (JStr "no")); CEnd].
Proof. reflexivity. Qed.

(** ** The environment ([shared/env.js]) *)

(** [Number(process.env.CF_INSTANCE_INDEX)] *)
Definition applicationInstance (CF_INSTANCE_INDEX : option string) : jsval :=
  match CF_INSTANCE_INDEX with
  | None => JNaN
  | Some s => match digits s with Some z => JNum z | None => JNaN end
  end.

(** ** The gauges *)

(** The namespaces with their counters, and the time they were read. *)
Record statsSnapshot := mkSnapshot { sn_namespaces : obj (Z * Z); sn_lastRefreshedAt : Z }.

Record metricsState := mkMetrics { m_initialized : bool; m_snapshot : option statsSnapshot }.

(** What [initMetrics] starts: resetting the counters of events in progress, reading the
    counters once and then periodically, and the callback of the gauges. *)
Inductive metricsCall : Type :=
| CallReset
| CallRefresh
| CallAddCallback
| CallSetInterval (ms : Z).

Inductive gauge : Type := PendingGauge | InProgressGauge | RefreshAgeGauge.

Definition gauge_name (g : gauge) : string :=
  match g with
  | PendingGauge => "cap.event_queue.jobs.pending"
  | InProgressGauge => "cap.event_queue.jobs.in_progress"
  | RefreshAgeGauge => "cap.event_queue.stats.refresh_age"
  end.

(** [observableResult.observe(gauge, value, attributes)]; the value is a fraction. *)
Record observation := mkObservation { ob_gauge : gauge; ob_value : Z * positive; ob_attributes : obj jsval }.

Section metrics.
Context {H : Type} `{RedisHash H} (cfg : lockConfig) (processingNamespaces : list string).

(** [_refreshStats()]: [connectFails] tells that no client could be created, which is
    caught; [fails] for which namespaces reading the hash throws. *)
Definition _refreshStats (connectFails : bool) (fails : string -> bool) (now : Z) (h : H) (m : metricsState) : metricsState :=
  if connectFails then m
  else mkMetrics (m_initialized m) (Some (mkSnapshot (getAllNamespaceStats cfg processingNamespaces fails h) now)).

(** The conditions of [initMetrics]; [otelMetrics] and [meterProvider] tell whether the
    API has metrics and a provider. *)
Definition metricsWanted (collectEventQueueMetrics enableTelemetry redisEnabled registerAsEventProcessor : bool)
    (instance : jsval) (otelMetrics : bool) : bool :=
  collectEventQueueMetrics && enableTelemetry && redisEnabled && registerAsEventProcessor &&
  negb (negb (is_undefined instance) && negb (match instance with JNum 0 => true | _ => false end)) && otelMetrics.

Definition initMetrics (collectEventQueueMetrics enableTelemetry redisEnabled registerAsEventProcessor : bool)
    (instance : jsval) (otelMetrics meterProvider : bool) (now : Z) (m : metricsState) : metricsState * list metricsCall :=
  if m_initialized m
     || negb (metricsWanted collectEventQueueMetrics enableTelemetry redisEnabled registerAsEventProcessor instance otelMetrics)
  then (m, [])
  else if negb meterProvider then (m, [])
  else
    (mkMetrics true (Some (mkSnapshot (fromEntries (map (fun namespace => (namespace, (0, 0))) processingNamespaces)) now)),
     [CallReset; CallRefresh; CallAddCallback; CallSetInterval 30000]).

(** The callback of the gauges. *)
Definition observe (now : Z) (m : metricsState) : list observation :=
  match m_snapshot m with
  | None => []
  | Some s =>
    mkObservation RefreshAgeGauge (now - sn_lastRefreshedAt s, 1000%positive) [] ::
    flat_map (fun kv =>
      let attrs := [("queue.namespace", JStr kv.1)] in
      [mkObservation PendingGauge (kv.2.1, 1%positive) attrs; mkObservation InProgressGauge (kv.2.2, 1%positive) attrs])
      (sn_namespaces s)
  end.

(** ** What the gauges show *)

(** When every hash can be read, the snapshot has the namespaces in their order. *)
Lemma allNamespaceStats_all h :
  NoDup processingNamespaces ->
  getAllNamespaceStats cfg processingNamespaces (fun _ => false) h =
    map (fun ns => (ns, _parseCounterHash (namespaceGlobalKey cfg ns) h)) processingNamespaces.
Proof.
  intros Hd. set (l := map _ processingNamespaces).
  assert (E : getAllNamespaceStats cfg processingNamespaces (fun _ => false) h = oassign [] l).
  { unfold getAllNamespaceStats, oassign, l. generalize ([] : obj (Z * Z)).
    induction processingNamespaces as [|ns ns' IH]; intros o; [done|]. simpl. apply IH. by apply NoDup_cons in Hd as [_ Hd]. }
  rewrite E, oassign_disjoint; [done | | done]. replace (okeys l) with processingNamespaces; [done|].
  unfold l, okeys. clear. induction processingNamespaces as [|ns ns' IH]; [done|]. csimpl. by f_equal.
Qed.

(** The gauges show the counters: after a refresh that has read all hashes, the callback
    reports the age of the snapshot and for every processed namespace exactly one value of
    each counter, those that the runs and the transactions have written to Redis. *)
Theorem gauges_report_counters read now h m :
  NoDup processingNamespaces ->
  observe now (_refreshStats false (fun _ => false) read h m) =
    mkObservation RefreshAgeGauge (now - read, 1000%positive) [] ::
    flat_map (fun ns =>
      let attrs := [("queue.namespace", JStr ns)] in
      [mkObservation PendingGauge (counter (namespaceGlobalKey cfg ns) Pending h, 1%positive) attrs;
       mkObservation InProgressGauge (counter (namespaceGlobalKey cfg ns) InProgressField h, 1%positive) attrs])
      processingNamespaces.
Proof.
  intros Hd. unfold observe, _refreshStats. simpl. rewrite allNamespaceStats_all by done. f_equal.
  clear Hd. induction processingNamespaces as [|ns l IH]; [done|]. simpl. by rewrite IH.
Qed.

(** A client that cannot be created leaves the snapshot, whose age grows; hashes that
    cannot be read are left out of a new snapshot, which is as fresh as a complete one. *)
Lemma failed_reads_look_fresh now h m :
  observe now (_refreshStats false (fun _ => true) now h m) = [mkObservation RefreshAgeGauge (0, 1000%positive) []] /\
  _refreshStats true (fun _ => true) now h m = m.
Proof.
  split; [|done]. unfold observe, _refreshStats, getAllNamespaceStats. simpl. rewrite Z.sub_diag.
  assert (E : forall l o, fold_left (fun out (_ : string) => out) l o = o :> obj (Z * Z)).
  { induction l as [|x l IH]; intros o; simpl; [done | apply IH]. }
  by rewrite E.
Qed.

(** The metrics start once, under all conditions the documentation lists. *)
Lemma metrics_started collect enable redis register instance otelMetrics provider now m m' calls :
  initMetrics collect enable redis register instance otelMetrics provider now m = (m', calls) ->
  (calls <> [] <->
    m_initialized m = false /\ collect = true /\ enable = true /\ redis = true /\ register = true /\
    (instance = JUndef \/ instance = JNum 0) /\ otelMetrics = true /\ provider = true) /\
  (calls <> [] -> m_initialized m' = true) /\ (calls = [] -> m' = m).
Proof.
  unfold initMetrics, metricsWanted.
  assert (no : (m, []) = (m', calls) -> forall P, ~ P ->
    (calls <> [] <-> P) /\ (calls <> [] -> m_initialized m' = true) /\ (calls = [] -> m' = m)) by by intros [= <- <-].
  destruct (m_initialized m); [intros E; apply no; [exact E | naive_solver]|].
  destruct collect, enable, redis, register, otelMetrics; try (intros E; apply no; [by rewrite ?andb_false_r in E | naive_solver]).
  destruct instance as [| |b|z|n d| |s|t|e s|l|o]; try (intros E; apply no; [exact E | naive_solver]).
  - destruct provider; [intros [= <- <-]; naive_solver | intros E; apply no; [exact E | naive_solver]].
  - destruct z, provider; try (intros E; apply no; [exact E | naive_solver]). intros [= <- <-]; naive_solver.
Qed.

(** Without [CF_INSTANCE_INDEX] the instance is [NaN], which is neither [undefined] nor 0:
    the metrics never start outside of Cloud Foundry. *)
Lemma no_metrics_without_instance collect enable redis register otelMetrics provider now m :
  initMetrics collect enable redis register (applicationInstance None) otelMetrics provider now m = (m, []).
Proof. unfold initMetrics, metricsWanted. simpl. by rewrite andb_false_r, orb_true_r. Qed.
End metrics.

(** ** Performance traces ([PerformanceTracer.js]) *)

(** The instance; times are milliseconds. *)
Record perfTracer := mkPerfTracer { pt_start : Z; pt_name : string; pt_properties : obj jsval }.

(** The options of [endPerformanceTrace], numbers that are missing are [None]. *)
Record perfOptions := mkPerfOptions { po_quantity : option Z; po_threshold : option Z; po_additional : option Z }.

(** What is logged: the name, the time and the quantity. *)
Record perfLog := mkPerfLog { pl_name : string; pl_milliseconds : Z; pl_properties : obj jsval; pl_quantity : option Z }.

(** The constructor: the tracer, and whether the start is logged. *)
Definition newPerformanceTracer (now : Z) (name : string) (properties : option (obj jsval)) (startMessage : bool)
    : perfTracer * bool :=
  (mkPerfTracer now name (default [] properties), startMessage).

(** Whether the first argument is taken as options: [undefined >= 0] is false. *)
Definition isOptions (o : perfOptions) : bool :=
  match po_quantity o with Some q => 0 <=? q | None => false end
  || match po_threshold o with Some t => 0 <? t | None => false end
  || match po_additional o with Some a => 0 <? a | None => false end.

Definition isBelowThreshold (o : perfOptions) (executionTime : Z) : bool :=
  match po_threshold o with
  | None => false
  | Some threshold =>
    negb (threshold =? 0) &&
    (executionTime <? threshold +
      match po_additional o, po_quantity o with
      | Some a, Some q => if (0 <? a) && (0 <? q) then a * q else 0
      | _, _ => 0
      end)
  end.

(** The clock starts again, also when nothing is logged. *)
Definition endPerformanceTrace (arg : option perfOptions) (now : Z) (t : perfTracer) : perfTracer * option perfLog :=
  let options := match arg with
                 | Some o => if isOptions o then o else mkPerfOptions None None None
                 | None => mkPerfOptions None None None
                 end in
  let executionTime := now - pt_start t in
  let t' := mkPerfTracer now (pt_name t) (pt_properties t) in
  (t', if isBelowThreshold options executionTime then None
       else Some (mkPerfLog (pt_name t) executionTime (pt_properties t) (po_quantity options))).

(** With a threshold exactly the steps that take at least as long are logged, with their
    time; without one, or with 0, every step. *)
Lemma slow_steps_logged threshold now t :
  0 <= threshold -> pt_start t <= now ->
  (endPerformanceTrace (Some (mkPerfOptions None (Some threshold) None)) now t).2 =
    if threshold <=? now - pt_start t then Some (mkPerfLog (pt_name t) (now - pt_start t) (pt_properties t) None) else None.
Proof.
  intros H0 H1. unfold endPerformanceTrace, isOptions, isBelowThreshold. simpl.
  destruct (Z.ltb_spec 0 threshold); simpl.
  - rewrite Z.add_0_r. destruct (Z.eqb_spec threshold 0); [lia|]. simpl.
    destruct (Z.ltb_spec (now - pt_start t) threshold), (Z.leb_spec threshold (now - pt_start t)); try lia; done.
  - destruct (Z.leb_spec threshold (now - pt_start t)); [done | lia].
Qed.

(** Consecutive ends of one trace measure consecutive intervals. *)
Lemma consecutive_intervals a1 a2 t1 t2 t :
  let t' := (endPerformanceTrace a1 t1 t).1 in
  pt_start t' = t1 /\ (t1 - pt_start t) + (t2 - pt_start t') = t2 - pt_start t /\
  (endPerformanceTrace a2 t2 t').1 = mkPerfTracer t2 (pt_name t) (pt_properties t).
Proof. unfold endPerformanceTrace. simpl. split_and!; try done. lia. Qed.

(** ** The traces of a processor ([EventQueueProcessorBase.js])

    One per phase of a run; they end with the threshold [thresholdLoggingEventProcessing]
    of the configuration, and nothing happens when they have not been started. *)
Definition tracerOf (name eventType eventSubType : string) (now : Z) : perfTracer :=
  (newPerformanceTracer now name (Some [("type", JStr eventType); ("subType", JStr eventSubType)]) false).1.

Definition startPerformanceTracerEvents := tracerOf "Processing events".
Definition startPerformanceTracerPeriodicEvents := tracerOf "Processing periodic event".
Definition startPerformanceTracerPreprocessing := tracerOf "Preprocessing events".

Definition endPerformanceTracer (threshold now : Z) (t : option perfTracer) : option perfTracer * option perfLog :=
  match t with
  | None => (None, None)
  | Some t =>
    let '(t', log) := endPerformanceTrace (Some (mkPerfOptions None (Some threshold) None)) now t in (Some t', log)
  end.

(** A phase is logged when it takes at least as long as the threshold. *)
Lemma phase_logged threshold eventType eventSubType start now :
  0 <= threshold -> start <= now ->
  (endPerformanceTracer threshold now (Some (startPerformanceTracerEvents eventType eventSubType start))).2 =
    if threshold <=? now - start then
      Some (mkPerfLog "Processing events" (now - start) [("type", JStr eventType); ("subType", JStr eventSubType)] None)
    else None.
Proof.
  intros H0 H1. pose proof (slow_steps_logged threshold now (startPerformanceTracerEvents eventType eventSubType start) H0 H1) as E.
  exact E.
Qed.
