(* ===== verification/Database.v ===== *)
(** * The event table and transactions

    The rows of [sap.eventqueue.Event] ([db/Event.cds]), the statements the code
    issues on them as the class [EventTable] with the laws of the database
    ([EventTableLaws]), an in-memory table that satisfies them, and
    [executeInNewTransaction] of [shared/cdsHelper.js]. *)

From S2P Require Import Prelude Js Errors.
#[local] Open Scope Z_scope.

(** ** Rows *)

(** A row of the table; timestamps in milliseconds.  [payload], [context] and
    [error] are JavaScript values: strings on the database, parsed values once
    [modifyQueueEntry] has run. *)
Record event := mkEvent {
  ev_ID : string;
  ev_type : string;
  ev_subType : string;
  ev_referenceEntity : option string;
  ev_referenceEntityKey : option string;
  ev_status : Z;
  ev_payload : jsval;
  ev_attempts : Z;
  ev_lastAttempt : option Z;
  ev_createdAt : Z;
  ev_startAfter : option Z;
  ev_context : jsval;
  ev_error : jsval;
  ev_namespace : string }.

(** Column assignments. *)
Definition with_status (z : Z) (e : event) : event :=
  mkEvent (ev_ID e) (ev_type e) (ev_subType e) (ev_referenceEntity e) (ev_referenceEntityKey e) z
    (ev_payload e) (ev_attempts e) (ev_lastAttempt e) (ev_createdAt e) (ev_startAfter e)
    (ev_context e) (ev_error e) (ev_namespace e).
Definition with_payload (p : jsval) (e : event) : event :=
  mkEvent (ev_ID e) (ev_type e) (ev_subType e) (ev_referenceEntity e) (ev_referenceEntityKey e)
    (ev_status e) p (ev_attempts e) (ev_lastAttempt e) (ev_createdAt e) (ev_startAfter e)
    (ev_context e) (ev_error e) (ev_namespace e).
Definition with_attempts (z : Z) (e : event) : event :=
  mkEvent (ev_ID e) (ev_type e) (ev_subType e) (ev_referenceEntity e) (ev_referenceEntityKey e)
    (ev_status e) (ev_payload e) z (ev_lastAttempt e) (ev_createdAt e) (ev_startAfter e)
    (ev_context e) (ev_error e) (ev_namespace e).
Definition with_lastAttempt (t : option Z) (e : event) : event :=
  mkEvent (ev_ID e) (ev_type e) (ev_subType e) (ev_referenceEntity e) (ev_referenceEntityKey e)
    (ev_status e) (ev_payload e) (ev_attempts e) t (ev_createdAt e) (ev_startAfter e)
    (ev_context e) (ev_error e) (ev_namespace e).
Definition with_startAfter (t : option Z) (e : event) : event :=
  mkEvent (ev_ID e) (ev_type e) (ev_subType e) (ev_referenceEntity e) (ev_referenceEntityKey e)
    (ev_status e) (ev_payload e) (ev_attempts e) (ev_lastAttempt e) (ev_createdAt e) t
    (ev_context e) (ev_error e) (ev_namespace e).
Definition with_context (c : jsval) (e : event) : event :=
  mkEvent (ev_ID e) (ev_type e) (ev_subType e) (ev_referenceEntity e) (ev_referenceEntityKey e)
    (ev_status e) (ev_payload e) (ev_attempts e) (ev_lastAttempt e) (ev_createdAt e) (ev_startAfter e)
    c (ev_error e) (ev_namespace e).
Definition with_error (v : jsval) (e : event) : event :=
  mkEvent (ev_ID e) (ev_type e) (ev_subType e) (ev_referenceEntity e) (ev_referenceEntityKey e)
    (ev_status e) (ev_payload e) (ev_attempts e) (ev_lastAttempt e) (ev_createdAt e) (ev_startAfter e)
    (ev_context e) v (ev_namespace e).

(** [has_status s e]: the row's status column holds the code of [s]. *)
Definition has_status (s : EventProcessingStatus) (e : event) : bool := ev_status e =? status_code s.

(** [ID IN ids] *)
Definition id_in (ids : list string) (e : event) : bool := bool_decide (ev_ID e ∈ ids).

(** [ORDER BY createdAt, ID] *)
Fixpoint string_leb (a b : string) : bool :=
  match a, b with
  | EmptyString, _ => true
  | String _ _, EmptyString => false
  | String x a', String y b' =>
    match Ascii.compare x y with Lt => true | Gt => false | Eq => string_leb a' b' end
  end.
Definition order_leb (e1 e2 : event) : bool :=
  (ev_createdAt e1 <? ev_createdAt e2) ||
  ((ev_createdAt e1 =? ev_createdAt e2) && string_leb (ev_ID e1) (ev_ID e2)).
Definition row_before (e1 e2 : event) : Prop := order_leb e1 e2 = true.
#[global] Instance row_before_dec : RelDecision row_before.
Proof. intros e1 e2. unfold row_before. apply _. Defined.

(** ** The table *)

Class EventTable (D : Type) := {
  row : string -> D -> option event;
  select_rows : (event -> bool) -> option nat -> D -> list event;
  update_rows : (event -> bool) -> (event -> event) -> D -> D;
  insert_rows : list event -> D -> option D;
  delete_rows : (event -> bool) -> D -> D }.

(** The database: [ID] is the key; [SELECT ... ORDER BY createdAt, ID LIMIT n]
    returns the first [n] rows that match; [UPDATE] and [DELETE] act on the rows
    that match; [INSERT] fails on a key that is taken. *)
Class EventTableLaws (D : Type) `{EventTable D} := {
  row_ID id d e : row id d = Some e -> ev_ID e = id;
  select_sound p n d e : e ∈ select_rows p n d -> row (ev_ID e) d = Some e /\ p e = true;
  select_NoDup p n d : NoDup (ev_ID <$> select_rows p n d);
  select_limit p n d : (length (select_rows p (Some n) d) <= n)%nat;
  select_sorted p n d : Sorted row_before (select_rows p n d);
  select_complete p n d id e :
    row id d = Some e -> p e = true ->
    e ∈ select_rows p n d \/
    exists m, n = Some m /\ length (select_rows p n d) = m /\
      Forall (fun e' => row_before e' e) (select_rows p n d);
  update_row p f d id :
    (forall e, ev_ID (f e) = ev_ID e) ->
    row id (update_rows p f d) = (fun e => if p e then f e else e) <$> row id d;
  insert_row es d :
    NoDup (ev_ID <$> es) -> Forall (fun e => row (ev_ID e) d = None) es ->
    exists d', insert_rows es d = Some d' /\
      forall id, row id d' = match List.find (fun e => bool_decide (ev_ID e = id)) es with
                  | Some e => Some e | None => row id d end;
  delete_row p d id :
    row id (delete_rows p d) =
      match row id d with Some e => if p e then None else Some e | None => None end }.

(** An [UPDATE ... WHERE ID IN ids]. *)
Section table.
Context {D : Type} `{EventTableLaws D}.

Lemma update_ids_row ids f d id :
  (forall e, ev_ID (f e) = ev_ID e) ->
  row id (update_rows (id_in ids) f d) = if decide (id ∈ ids) then f <$> row id d else row id d.
Proof.
  intros Hf. rewrite update_row by done. destruct (row id d) as [e|] eqn:E; simpl; [|by case_decide].
  apply row_ID in E as <-. unfold id_in. case_decide.
  - by rewrite bool_decide_true.
  - by rewrite bool_decide_false.
Qed.

Lemma select_row p n d e : e ∈ select_rows p n d -> row (ev_ID e) d = Some e.
Proof. intros He. by apply select_sound in He as [? _]. Qed.

Lemma select_pred p n d e : e ∈ select_rows p n d -> p e = true.
Proof. intros He. by apply select_sound in He as [_ ?]. Qed.
End table.
#[export] Hint Resolve select_row select_pred select_NoDup : evq.

(** ** An in-memory table *)

Lemma ascii_compare_lt_trans a b c :
  Ascii.compare a b = Lt -> Ascii.compare b c = Lt -> Ascii.compare a c = Lt.
Proof. unfold Ascii.compare. rewrite !N.compare_lt_iff. apply N.lt_trans. Qed.

Lemma string_leb_trans a b c : string_leb a b = true -> string_leb b c = true -> string_leb a c = true.
Proof.
  revert b c. induction a as [|x a IH]; intros [|y b] [|z c]; simpl; try done.
  destruct (Ascii.compare x y) eqn:E1; [apply Ascii.compare_eq_iff in E1 as ->| |done].
  - destruct (Ascii.compare y z); eauto.
  - intros _. destruct (Ascii.compare y z) eqn:E2; [apply Ascii.compare_eq_iff in E2 as <-| |done].
    + by rewrite E1.
    + by rewrite (ascii_compare_lt_trans _ _ _ E1 E2).
Qed.

Lemma string_leb_total a b : string_leb a b = true \/ string_leb b a = true.
Proof.
  revert b. induction a as [|x a IH]; intros [|y b]; simpl; auto.
  rewrite (Ascii.compare_antisym y x). destruct (Ascii.compare x y); simpl; auto.
Qed.

#[global] Instance row_before_trans : Transitive row_before.
Proof.
  intros e1 e2 e3. unfold row_before, order_leb. rewrite !orb_true_iff, !andb_true_iff, !Z.ltb_lt, !Z.eqb_eq.
  intros [?|[? ?]] [?|[? ?]]; try (left; lia). right. split; [lia | by eapply string_leb_trans].
Qed.

#[global] Instance row_before_total : Total row_before.
Proof.
  intros e1 e2. unfold row_before, order_leb. rewrite !orb_true_iff, !andb_true_iff, !Z.ltb_lt, !Z.eqb_eq.
  destruct (Z.lt_trichotomy (ev_createdAt e1) (ev_createdAt e2)) as [?|[?|?]]; auto.
  destruct (string_leb_total (ev_ID e1) (ev_ID e2)); auto.
Qed.

Abbreviation memRows := (gmap string event).

Definition mem_row (id : string) (d : memRows) : option event :=
  match d !! id with Some e => if bool_decide (ev_ID e = id) then Some e else None | None => None end.

Definition mem_list (d : memRows) : list event :=
  (filter (fun kv => ev_ID kv.2 = kv.1) (map_to_list d)).*2.

Definition mem_select (p : event -> bool) (n : option nat) (d : memRows) : list event :=
  let l := merge_sort row_before (filter (fun e => p e = true) (mem_list d)) in
  match n with Some n => take n l | None => l end.

#[global] Instance memEvents : EventTable memRows :=
  {| row := mem_row;
     select_rows := mem_select;
     update_rows p f d := (fun e => if p e then f e else e) <$> d;
     insert_rows es d :=
       if forallb (fun e => bool_decide (mem_row (ev_ID e) d = None)) es
       then Some (foldr (fun e d => <[ev_ID e := e]> d) d es) else None;
     delete_rows p d := filter (fun kv => p kv.2 = false) d |}.

Lemma mem_row_Some id d e : mem_row id d = Some e <-> d !! id = Some e /\ ev_ID e = id.
Proof.
  unfold mem_row. destruct (d !! id) as [e'|]; [|naive_solver].
  case_bool_decide; split; intros; simplify_eq; destruct_and?; simplify_eq; auto.
Qed.

Lemma elem_of_mem_list d e : e ∈ mem_list d <-> mem_row (ev_ID e) d = Some e.
Proof.
  unfold mem_list. rewrite mem_row_Some, list_elem_of_fmap. setoid_rewrite list_elem_of_filter. split.
  - intros ([k e'] & -> & Hk & Hin). simpl in *. subst. apply elem_of_map_to_list in Hin. auto.
  - intros [Hd _]. exists (ev_ID e, e). by rewrite elem_of_map_to_list.
Qed.

Lemma NoDup_mem_list d : NoDup (ev_ID <$> mem_list d).
Proof.
  unfold mem_list. assert (Hn := NoDup_fst_map_to_list d). revert Hn.
  induction (map_to_list d) as [|[k e] l IH]; csimpl; [intros; constructor|].
  intros [Hk Hl]%NoDup_cons. rewrite filter_cons. case_decide as Hd; [|auto]. csimpl.
  apply NoDup_cons. split; [|auto]. simpl in Hd. rewrite Hd. intros Hin.
  apply Hk. apply list_elem_of_fmap in Hin as (e' & -> & Hin).
  apply list_elem_of_fmap in Hin as ([k' e''] & -> & [Hk' Hin]%list_elem_of_filter). simpl in *.
  rewrite Hk'. apply list_elem_of_fmap. by exists (k', e'').
Qed.

Lemma elem_of_mem_sorted p d e :
  e ∈ merge_sort row_before (filter (fun e => p e = true) (mem_list d)) <->
  mem_row (ev_ID e) d = Some e /\ p e = true.
Proof. rewrite merge_sort_Permutation, list_elem_of_filter, elem_of_mem_list. tauto. Qed.

Lemma NoDup_mem_sorted p d :
  NoDup (ev_ID <$> merge_sort row_before (filter (fun e => p e = true) (mem_list d))).
Proof.
  rewrite merge_sort_Permutation. generalize (NoDup_mem_list d).
  induction (mem_list d) as [|e l IH]; csimpl; [intros; constructor|].
  intros [Hk Hl]%NoDup_cons. rewrite filter_cons. case_decide; [|auto]. csimpl.
  apply NoDup_cons. split; [|auto]. intros (e' & He & Hin)%list_elem_of_fmap.
  apply Hk. rewrite He. apply list_elem_of_fmap. exists e'. split; [done|].
  by apply list_elem_of_filter in Hin as [_ ?].
Qed.

Lemma mem_select_prefix p n d :
  exists l2, merge_sort row_before (filter (fun e => p e = true) (mem_list d)) = mem_select p n d ++ l2 /\
    (l2 = [] \/ exists m, n = Some m /\ length (mem_select p n d) = m).
Proof.
  unfold mem_select. set (l := merge_sort _ _). destruct n as [n|]; [|exists []; by rewrite app_nil_r; auto].
  exists (drop n l). rewrite take_drop. split; [done|]. destruct (decide (length l <= n)%nat).
  - left. by apply drop_ge.
  - right. exists n. rewrite length_take. split; [done|lia].
Qed.

Lemma mem_insert_lookup es (d : memRows) id :
  NoDup (ev_ID <$> es) ->
  foldr (fun e d => <[ev_ID e := e]> d) d es !! id =
    match List.find (fun e => bool_decide (ev_ID e = id)) es with Some e => Some e | None => d !! id end.
Proof.
  induction es as [|e es IH]; csimpl; [done|]. intros [_ Hn]%NoDup_cons.
  case_bool_decide; subst; [by rewrite lookup_insert_eq | rewrite lookup_insert_ne by done; auto].
Qed.

#[global] Instance memEvents_laws : EventTableLaws memRows.
Proof.
  split; unfold row, select_rows, update_rows, insert_rows, delete_rows, memEvents.
  - intros id d e [_ He]%mem_row_Some. done.
  - intros p n d e He. apply elem_of_mem_sorted. destruct (mem_select_prefix p n d) as (l2 & -> & _).
    apply elem_of_app. auto.
  - intros p n d. pose proof (NoDup_mem_sorted p d) as Hn.
    destruct (mem_select_prefix p n d) as (l2 & E & _). rewrite E, fmap_app in Hn.
    by apply NoDup_app in Hn as [? _].
  - intros p n d. unfold mem_select. rewrite length_take. lia.
  - intros p n d. pose proof (StronglySorted_merge_sort row_before (filter (fun e => p e = true) (mem_list d))) as Hs.
    destruct (mem_select_prefix p n d) as (l2 & E & _). rewrite E in Hs.
    apply StronglySorted_app_1_l in Hs. by apply StronglySorted_Sorted.
  - intros p n d id e He Hp. assert (Hid : ev_ID e = id) by (by apply mem_row_Some in He as [_ ?]). subst id.
    assert (Hin := proj2 (elem_of_mem_sorted p d e) (conj He Hp)).
    pose proof (StronglySorted_merge_sort row_before (filter (fun e => p e = true) (mem_list d))) as Hs.
    destruct (mem_select_prefix p n d) as (l2 & E & Hl). rewrite E in Hin, Hs.
    apply elem_of_app in Hin as [Hin|Hin]; [by left|right].
    destruct Hl as [->|(m & -> & Hm)]; [by apply not_elem_of_nil in Hin|].
    exists m. split_and!; auto. apply Forall_forall. intros e' He'.
    by eapply StronglySorted_app_1_elem_of.
  - intros p f d id Hf. unfold mem_row. rewrite lookup_fmap. destruct (d !! id) as [e|]; simpl; [|done].
    assert (ev_ID (if p e then f e else e) = ev_ID e) as -> by (case_goal; auto). by case_bool_decide.
  - intros es d Hn Hf. eexists. split.
    + assert (forallb (fun e => bool_decide (mem_row (ev_ID e) d = None)) es = true) as ->; [|done].
      apply forallb_forall. intros e He. apply bool_decide_true.
      rewrite Forall_forall in Hf. apply Hf. by apply list_elem_of_In.
    + intros id. unfold mem_row. rewrite mem_insert_lookup by done.
      destruct (List.find _ es) as [e|] eqn:F; [|done].
      apply List.find_some in F as [_ F]. by rewrite F.
  - intros p d id. unfold mem_row. rewrite map_lookup_filter. destruct (d !! id) as [e|]; simpl; [|done].
    destruct (p e) eqn:Hp; case_guard; simpl in *; try congruence;
      case_bool_decide; by rewrite ?Hp.
Qed.

(** ** executeInNewTransaction *)

(** What a callback does with its transaction: the state it leaves there, whether
    it called [tx.rollback()], and what it returns or throws. *)
Definition tx_body (S A : Type) : Type := S -> S * bool * result jsval A.

(** How the database ends the transaction: the commit may fail, and a
    [succeeded] handler may throw after it. *)
Record tx_end := mkTxEnd { commit_error : option jsval; hook_error : option jsval }.
Definition clean_end : tx_end := mkTxEnd None None.

(** [executeInNewTransaction(context, transactionTag, fn)].

    On HANA a new transaction is opened: it is committed when the callback
    resolves and rolled back when it throws or the commit fails; what a
    [succeeded] handler throws after the commit is logged.  Elsewhere a new
    transaction is opened unless that of [context] is still open
    ([contextOpen]): [transactionRollbackPromise] is then cleared before the
    commit, so that a failing commit is logged and not thrown; an open
    transaction is used as it is, with [rollback] replaced by a no-op. *)
Definition executeInNewTransaction {S A} (hana contextOpen : bool) (fin : tx_end)
    (fn : tx_body S A) (s : S) : S * result jsval unit :=
  let '(s', rolledBack, r) := fn s in
  if hana || negb contextOpen then
    match r with
    | Err err => (s, Err err)
    | Ok _ =>
      if rolledBack then (s, Ok tt)
      else match commit_error fin with
           | Some err => if hana then (s, Err err) else (s, Ok tt)
           | None => (s', Ok tt)
           end
    end
  else
    match r with
    | Err err => (s', Err err)
    | Ok _ => (s', Ok tt)
    end.

(** A transaction of its own on HANA. *)
Definition new_tx {S A} (fin : tx_end) (fn : tx_body S A) (s : S) : S * result jsval unit :=
  executeInNewTransaction true false fin fn s.

(** A callback that does not roll back explicitly. *)
Definition tx_run {S A} (fn : S -> S * result jsval A) : tx_body S A :=
  fun s => let '(s', r) := fn s in (s', false, r).

(** A transaction of its own is all or nothing: its effects are kept exactly
    when the callback resolves, did not roll back and the commit succeeds.  Only on
    HANA does the caller learn of a failed commit; elsewhere it is swallowed, as is
    everywhere what is thrown after the commit. *)
Theorem transaction_atomic {S A} hana fin (fn : tx_body S A) s :
  let kept := is_ok (fn s).2 && negb (fn s).1.2 && bool_decide (commit_error fin = None) in
  (executeInNewTransaction hana false fin fn s).1 = (if kept then (fn s).1.1 else s) /\
  (executeInNewTransaction hana false fin fn s).2 =
    match (fn s).2 with
    | Err err => Err err
    | Ok _ => match commit_error fin with
              | Some err => if hana && negb (fn s).1.2 then Err err else Ok tt
              | None => Ok tt
              end
    end.
Proof.
  unfold executeInNewTransaction. rewrite orb_true_r.
  destruct (fn s) as [[s' rb] [a|err]], (commit_error fin), hana, rb; simpl; auto.
Qed.
