(* ===== verification/Processor.v ===== *)
(** * The event processor ([EventQueueProcessorBase.js]): status maps

    The state of a processor instance, the status maps that collect what handlers
    report, and [persistEventStatus], which writes them to the event table.
    Selection, exceeded events, keep-alive and periodic events are in the files
    that follow. *)

From S2P Require Import Prelude Js Errors Common Scheduling Database.
From stdpp Require pretty.
#[local] Open Scope Z_scope.

(** ** Configuration and state *)

Definition DEFAULT_RETRY_ATTEMPTS : Z := 3.
Definition DEFAULT_PARALLEL_EVENT_PROCESSING : Z := 1.
Definition LIMIT_PARALLEL_EVENT_PROCESSING : Z := 10.
Definition SELECT_LIMIT_EVENTS_PER_TICK : Z := 100.
Definition TRIES_FOR_EXCEEDED_EVENTS : Z := 3.
Definition EVENT_START_AFTER_HEADROOM : Z := 3000.
Definition ALLOWED_FIELDS_FOR_UPDATE : list string := ["status"; "startAfter"; "error"; "nextData"].

(** The settings of the event the processor is created for; optional ones are
    [None] when the configuration leaves them out.  Times are in milliseconds
    except [keepAliveInterval] (seconds); [keepAliveMaxInProgressTime] is a
    fraction of seconds. *)
Record eventConfig := mkEventConfig {
  ec_type : string;
  ec_subType : string;
  ec_namespace : string;
  ec_isPeriodic : bool;
  ec_parallel : option Z;
  ec_multiInstance : bool;
  ec_retryAttempts : option Z;
  ec_selectMaxChunkSize : option Z;
  ec_checkForNextChunk : bool;
  ec_transactionMode : option TransactionMode;
  ec_keepAliveInterval : Z;
  ec_keepAliveMaxInProgressTime : Z * Z;
  ec_retryFailedAfter : Z;
  ec_retryOpenAfter : Z;
  ec_interval : option Z;
  ec_cron : option string;
  ec_tz : option string;
  ec_randomOffset : option Z;
  ec_lastSuccessfulRunTimestamp : bool;
  ec_startTime : Z }.

(** The values the constructor derives from the configuration. *)
Definition parallelEventProcessing (c : eventConfig) : Z :=
  let p := default DEFAULT_PARALLEL_EVENT_PROCESSING (ec_parallel c) in
  if LIMIT_PARALLEL_EVENT_PROCESSING <? p then LIMIT_PARALLEL_EVENT_PROCESSING else p.
Definition retryAttempts (c : eventConfig) : Z :=
  if ec_isPeriodic c then 1 else default DEFAULT_RETRY_ATTEMPTS (ec_retryAttempts c).
Definition selectMaxChunkSize (c : eventConfig) : Z :=
  default SELECT_LIMIT_EVENTS_PER_TICK (ec_selectMaxChunkSize c).
Definition transactionMode (c : eventConfig) : TransactionMode := default isolated (ec_transactionMode c).
Definition commitOnEventLevel (c : eventConfig) : bool := bool_decide (transactionMode c = isolated).

(** [keepAliveMaxInProgressTime * 1000] *)
Definition keepAliveMaxMs (c : eventConfig) : Z * Z :=
  ((ec_keepAliveMaxInProgressTime c).1 * 1000, (ec_keepAliveMaxInProgressTime c).2).

(** The fields of an instance, with the event scheduler and
    [selectedDelayedEventIds], which all instances of a run share. *)
Record pstate := mkPstate {
  statusMap : obj jsval;
  commitedStatusMap : obj jsval;
  notCommitedStatusMap : obj event;
  outdatedEventMap : obj Z;
  queueEntries : list event;
  queueEntriesMap : obj event;
  selectedEventMap : obj event;
  queueEntriesWithPayloadMap : obj (event * jsval);
  eventProcessingMap : obj (list event * jsval);
  eventsWithExceededTries : list event;
  exceededTriesExceeded : list event;
  etagMap : obj (option Z);
  keepAliveViolated : bool;
  emptyChunkSelected : bool;
  txRollback : obj bool;
  nextSagaEvents : list event;
  lastSuccessfulRunTimestamp : option (option Z);
  selectedDelayedEventIds : list string;
  schedulerInstance : scheduler }.

(** Assignments to the fields. *)
Definition set_statusMap v (s : pstate) : pstate :=
  mkPstate v (commitedStatusMap s) (notCommitedStatusMap s) (outdatedEventMap s) (queueEntries s)
    (queueEntriesMap s) (selectedEventMap s) (queueEntriesWithPayloadMap s) (eventProcessingMap s)
    (eventsWithExceededTries s) (exceededTriesExceeded s) (etagMap s) (keepAliveViolated s)
    (emptyChunkSelected s) (txRollback s) (nextSagaEvents s) (lastSuccessfulRunTimestamp s)
    (selectedDelayedEventIds s) (schedulerInstance s).
Definition set_commitedStatusMap v (s : pstate) : pstate :=
  mkPstate (statusMap s) v (notCommitedStatusMap s) (outdatedEventMap s) (queueEntries s)
    (queueEntriesMap s) (selectedEventMap s) (queueEntriesWithPayloadMap s) (eventProcessingMap s)
    (eventsWithExceededTries s) (exceededTriesExceeded s) (etagMap s) (keepAliveViolated s)
    (emptyChunkSelected s) (txRollback s) (nextSagaEvents s) (lastSuccessfulRunTimestamp s)
    (selectedDelayedEventIds s) (schedulerInstance s).
Definition set_notCommitedStatusMap v (s : pstate) : pstate :=
  mkPstate (statusMap s) (commitedStatusMap s) v (outdatedEventMap s) (queueEntries s) (queueEntriesMap
    s) (selectedEventMap s) (queueEntriesWithPayloadMap s) (eventProcessingMap s)
    (eventsWithExceededTries s) (exceededTriesExceeded s) (etagMap s) (keepAliveViolated s)
    (emptyChunkSelected s) (txRollback s) (nextSagaEvents s) (lastSuccessfulRunTimestamp s)
    (selectedDelayedEventIds s) (schedulerInstance s).
Definition set_outdatedEventMap v (s : pstate) : pstate :=
  mkPstate (statusMap s) (commitedStatusMap s) (notCommitedStatusMap s) v (queueEntries s)
    (queueEntriesMap s) (selectedEventMap s) (queueEntriesWithPayloadMap s) (eventProcessingMap s)
    (eventsWithExceededTries s) (exceededTriesExceeded s) (etagMap s) (keepAliveViolated s)
    (emptyChunkSelected s) (txRollback s) (nextSagaEvents s) (lastSuccessfulRunTimestamp s)
    (selectedDelayedEventIds s) (schedulerInstance s).
Definition set_queueEntries v (s : pstate) : pstate :=
  mkPstate (statusMap s) (commitedStatusMap s) (notCommitedStatusMap s) (outdatedEventMap s) v
    (queueEntriesMap s) (selectedEventMap s) (queueEntriesWithPayloadMap s) (eventProcessingMap s)
    (eventsWithExceededTries s) (exceededTriesExceeded s) (etagMap s) (keepAliveViolated s)
    (emptyChunkSelected s) (txRollback s) (nextSagaEvents s) (lastSuccessfulRunTimestamp s)
    (selectedDelayedEventIds s) (schedulerInstance s).
Definition set_queueEntriesMap v (s : pstate) : pstate :=
  mkPstate (statusMap s) (commitedStatusMap s) (notCommitedStatusMap s) (outdatedEventMap s)
    (queueEntries s) v (selectedEventMap s) (queueEntriesWithPayloadMap s) (eventProcessingMap s)
    (eventsWithExceededTries s) (exceededTriesExceeded s) (etagMap s) (keepAliveViolated s)
    (emptyChunkSelected s) (txRollback s) (nextSagaEvents s) (lastSuccessfulRunTimestamp s)
    (selectedDelayedEventIds s) (schedulerInstance s).
Definition set_selectedEventMap v (s : pstate) : pstate :=
  mkPstate (statusMap s) (commitedStatusMap s) (notCommitedStatusMap s) (outdatedEventMap s)
    (queueEntries s) (queueEntriesMap s) v (queueEntriesWithPayloadMap s) (eventProcessingMap s)
    (eventsWithExceededTries s) (exceededTriesExceeded s) (etagMap s) (keepAliveViolated s)
    (emptyChunkSelected s) (txRollback s) (nextSagaEvents s) (lastSuccessfulRunTimestamp s)
    (selectedDelayedEventIds s) (schedulerInstance s).
Definition set_queueEntriesWithPayloadMap v (s : pstate) : pstate :=
  mkPstate (statusMap s) (commitedStatusMap s) (notCommitedStatusMap s) (outdatedEventMap s)
    (queueEntries s) (queueEntriesMap s) (selectedEventMap s) v (eventProcessingMap s)
    (eventsWithExceededTries s) (exceededTriesExceeded s) (etagMap s) (keepAliveViolated s)
    (emptyChunkSelected s) (txRollback s) (nextSagaEvents s) (lastSuccessfulRunTimestamp s)
    (selectedDelayedEventIds s) (schedulerInstance s).
Definition set_eventProcessingMap v (s : pstate) : pstate :=
  mkPstate (statusMap s) (commitedStatusMap s) (notCommitedStatusMap s) (outdatedEventMap s)
    (queueEntries s) (queueEntriesMap s) (selectedEventMap s) (queueEntriesWithPayloadMap s) v
    (eventsWithExceededTries s) (exceededTriesExceeded s) (etagMap s) (keepAliveViolated s)
    (emptyChunkSelected s) (txRollback s) (nextSagaEvents s) (lastSuccessfulRunTimestamp s)
    (selectedDelayedEventIds s) (schedulerInstance s).
Definition set_eventsWithExceededTries v (s : pstate) : pstate :=
  mkPstate (statusMap s) (commitedStatusMap s) (notCommitedStatusMap s) (outdatedEventMap s)
    (queueEntries s) (queueEntriesMap s) (selectedEventMap s) (queueEntriesWithPayloadMap s)
    (eventProcessingMap s) v (exceededTriesExceeded s) (etagMap s) (keepAliveViolated s)
    (emptyChunkSelected s) (txRollback s) (nextSagaEvents s) (lastSuccessfulRunTimestamp s)
    (selectedDelayedEventIds s) (schedulerInstance s).
Definition set_exceededTriesExceeded v (s : pstate) : pstate :=
  mkPstate (statusMap s) (commitedStatusMap s) (notCommitedStatusMap s) (outdatedEventMap s)
    (queueEntries s) (queueEntriesMap s) (selectedEventMap s) (queueEntriesWithPayloadMap s)
    (eventProcessingMap s) (eventsWithExceededTries s) v (etagMap s) (keepAliveViolated s)
    (emptyChunkSelected s) (txRollback s) (nextSagaEvents s) (lastSuccessfulRunTimestamp s)
    (selectedDelayedEventIds s) (schedulerInstance s).
Definition set_etagMap v (s : pstate) : pstate :=
  mkPstate (statusMap s) (commitedStatusMap s) (notCommitedStatusMap s) (outdatedEventMap s)
    (queueEntries s) (queueEntriesMap s) (selectedEventMap s) (queueEntriesWithPayloadMap s)
    (eventProcessingMap s) (eventsWithExceededTries s) (exceededTriesExceeded s) v (keepAliveViolated s)
    (emptyChunkSelected s) (txRollback s) (nextSagaEvents s) (lastSuccessfulRunTimestamp s)
    (selectedDelayedEventIds s) (schedulerInstance s).
Definition set_keepAliveViolated v (s : pstate) : pstate :=
  mkPstate (statusMap s) (commitedStatusMap s) (notCommitedStatusMap s) (outdatedEventMap s)
    (queueEntries s) (queueEntriesMap s) (selectedEventMap s) (queueEntriesWithPayloadMap s)
    (eventProcessingMap s) (eventsWithExceededTries s) (exceededTriesExceeded s) (etagMap s) v
    (emptyChunkSelected s) (txRollback s) (nextSagaEvents s) (lastSuccessfulRunTimestamp s)
    (selectedDelayedEventIds s) (schedulerInstance s).
Definition set_emptyChunkSelected v (s : pstate) : pstate :=
  mkPstate (statusMap s) (commitedStatusMap s) (notCommitedStatusMap s) (outdatedEventMap s)
    (queueEntries s) (queueEntriesMap s) (selectedEventMap s) (queueEntriesWithPayloadMap s)
    (eventProcessingMap s) (eventsWithExceededTries s) (exceededTriesExceeded s) (etagMap s)
    (keepAliveViolated s) v (txRollback s) (nextSagaEvents s) (lastSuccessfulRunTimestamp s)
    (selectedDelayedEventIds s) (schedulerInstance s).
Definition set_txRollback v (s : pstate) : pstate :=
  mkPstate (statusMap s) (commitedStatusMap s) (notCommitedStatusMap s) (outdatedEventMap s)
    (queueEntries s) (queueEntriesMap s) (selectedEventMap s) (queueEntriesWithPayloadMap s)
    (eventProcessingMap s) (eventsWithExceededTries s) (exceededTriesExceeded s) (etagMap s)
    (keepAliveViolated s) (emptyChunkSelected s) v (nextSagaEvents s) (lastSuccessfulRunTimestamp s)
    (selectedDelayedEventIds s) (schedulerInstance s).
Definition set_nextSagaEvents v (s : pstate) : pstate :=
  mkPstate (statusMap s) (commitedStatusMap s) (notCommitedStatusMap s) (outdatedEventMap s)
    (queueEntries s) (queueEntriesMap s) (selectedEventMap s) (queueEntriesWithPayloadMap s)
    (eventProcessingMap s) (eventsWithExceededTries s) (exceededTriesExceeded s) (etagMap s)
    (keepAliveViolated s) (emptyChunkSelected s) (txRollback s) v (lastSuccessfulRunTimestamp s)
    (selectedDelayedEventIds s) (schedulerInstance s).
Definition set_lastSuccessfulRunTimestamp v (s : pstate) : pstate :=
  mkPstate (statusMap s) (commitedStatusMap s) (notCommitedStatusMap s) (outdatedEventMap s)
    (queueEntries s) (queueEntriesMap s) (selectedEventMap s) (queueEntriesWithPayloadMap s)
    (eventProcessingMap s) (eventsWithExceededTries s) (exceededTriesExceeded s) (etagMap s)
    (keepAliveViolated s) (emptyChunkSelected s) (txRollback s) (nextSagaEvents s) v
    (selectedDelayedEventIds s) (schedulerInstance s).
Definition set_selectedDelayedEventIds v (s : pstate) : pstate :=
  mkPstate (statusMap s) (commitedStatusMap s) (notCommitedStatusMap s) (outdatedEventMap s)
    (queueEntries s) (queueEntriesMap s) (selectedEventMap s) (queueEntriesWithPayloadMap s)
    (eventProcessingMap s) (eventsWithExceededTries s) (exceededTriesExceeded s) (etagMap s)
    (keepAliveViolated s) (emptyChunkSelected s) (txRollback s) (nextSagaEvents s)
    (lastSuccessfulRunTimestamp s) v (schedulerInstance s).
Definition set_schedulerInstance v (s : pstate) : pstate :=
  mkPstate (statusMap s) (commitedStatusMap s) (notCommitedStatusMap s) (outdatedEventMap s)
    (queueEntries s) (queueEntriesMap s) (selectedEventMap s) (queueEntriesWithPayloadMap s)
    (eventProcessingMap s) (eventsWithExceededTries s) (exceededTriesExceeded s) (etagMap s)
    (keepAliveViolated s) (emptyChunkSelected s) (txRollback s) (nextSagaEvents s)
    (lastSuccessfulRunTimestamp s) (selectedDelayedEventIds s) v.

(** A new instance in a run with the given scheduler and excluded ids. *)
Definition newInstance (delayed : list string) (sched : scheduler) : pstate :=
  mkPstate [] [] [] [] [] [] [] [] [] [] [] [] false false [] [] None delayed sched.

(** ** Statuses as values *)

(** [v.status] for a value that is neither [undefined] nor [null] *)
Definition status_of (v : jsval) : jsval :=
  match v with JObj o => prop o "status" | _ => JUndef end.

Definition jcode (s : EventProcessingStatus) : jsval := JNum (status_code s).

(** [[s1, s2, ...].includes(v)] for statuses *)
Definition status_in (l : list EventProcessingStatus) (v : jsval) : bool :=
  match v with JNum z => existsb (fun s => status_code s =? z) l | _ => false end.

(** ** Status maps *)

(** [#determineAndAddEventStatusToMap(id, statusOrUpdateData, {statusMap, error})];
    [error] is [undefined] when it is not passed. *)
Definition determineAndAddEventStatusToMap (id : string) (statusOrUpdateData error : jsval)
    (m : obj jsval) : result jsval (obj jsval) :=
  let data := if is_number statusOrUpdateData then JObj [("status", statusOrUpdateData)]
              else statusOrUpdateData in
  rbind (if truthy error then
           match data with
           | JObj o => Ok (JObj (oset "error" error o))
           | JDate _ | JErr _ _ | JArr _ => Ok data
           | _ => Err (TypeError "Cannot set properties")
           end
         else Ok data)
    (fun data =>
       let current := prop m id in
       if negb (truthy current) then Ok (oset id data m)
       else if status_in [Error; Exceeded] (status_of current) then Ok m
       else if nullish data then Err (TypeError "Cannot read properties")
       else if js_ge (status_of current) (status_of data) then Ok (oset id data m)
       else Ok m).

(** A status given as a number always goes through. *)
Definition add_status (id : string) (s : EventProcessingStatus) (error : jsval) (m : obj jsval) : obj jsval :=
  match determineAndAddEventStatusToMap id (jcode s) error m with Ok m' => m' | Err _ => m end.

Lemma add_status_ok id s error m :
  determineAndAddEventStatusToMap id (jcode s) error m = Ok (add_status id s error m).
Proof.
  unfold add_status, determineAndAddEventStatusToMap. simpl.
  destruct (truthy error); simpl; repeat case_goal; done.
Qed.

Section status.
Context (toString : jsval -> string).

(** The destructuring [([id, processingStatus])] of an entry of the status tuple. *)
Definition destructure_entry (v : jsval) : result jsval (jsval * jsval) :=
  match v with
  | JArr l => Ok (default JUndef (l !! 0%nat), default JUndef (l !! 1%nat))
  | JStr (String a (String b _)) => Ok (JStr (String a EmptyString), JStr (String b EmptyString))
  | JStr (String a EmptyString) => Ok (JStr (String a EmptyString), JUndef)
  | JStr EmptyString => Ok (JUndef, JUndef)
  | _ => Err (TypeError "not iterable")
  end.

(** [forEach(([id, status]) => determineAndAdd...)]: the map as far as it got, and
    the exception. *)
Fixpoint add_tuples (l : list jsval) (m : obj jsval) : obj jsval * option jsval :=
  match l with
  | [] => (m, None)
  | v :: r =>
    match rbind (destructure_entry v)
            (fun p => determineAndAddEventStatusToMap (js_string toString p.1) p.2 JUndef m) with
    | Ok m' => add_tuples r m'
    | Err e => (m, Some e)
    end
  end.

Definition add_all (ids : list string) (s : EventProcessingStatus) (error : jsval) (m : obj jsval) : obj jsval :=
  fold_left (fun m id => add_status id s error m) ids m.

(** The body of [setEventStatus] on the map it works on. *)
Definition status_from_tuple (entries : list event) (tuple : jsval) (m : obj jsval) : obj jsval :=
  let errorHandler m := add_all (ev_ID <$> entries) Error JUndef m in
  if negb (truthy tuple) then errorHandler m
  else
    match tuple with
    | JArr l => match add_tuples l m with (m', None) => m' | (m', Some _) => errorHandler m' end
    | _ => errorHandler m
    end.

(** [setEventStatus(queueEntries, queueEntryProcessingStatusTuple, returnMap)] *)
Definition setEventStatus (cfg : eventConfig) (entries : list event) (tuple : jsval) (returnMap : bool)
    (s : pstate) : pstate * obj jsval :=
  if commitOnEventLevel cfg || returnMap then (s, status_from_tuple entries tuple [])
  else let m := status_from_tuple entries tuple (statusMap s) in (set_statusMap m s, m).
End status.

(** [setStatusToDone(queueEntry)] *)
Definition setStatusToDone (e : event) (s : pstate) : pstate :=
  set_statusMap (add_status (ev_ID e) Done JUndef (statusMap s)) s.

(** [handleErrorDuringProcessing(error, queueEntries)]: the new state and the map
    it returns *)
Definition handleErrorDuringProcessing (error : jsval) (entries : list event) (s : pstate)
    : pstate * obj jsval :=
  (set_statusMap (add_all (ev_ID <$> entries) Error error (statusMap s)) s,
   fold_left (fun m e => oset (ev_ID e) (JObj [("status", jcode Error); ("error", error)]) m) entries []).

(** [handleErrorDuringClustering(error)] and [handleErrorTx(error)] *)
Definition handleErrorDuringClustering (s : pstate) : pstate :=
  set_statusMap (add_all (ev_ID <$> queueEntries s) Error JUndef (statusMap s)) s.
Definition handleErrorTx (s : pstate) : pstate :=
  set_statusMap (add_all (ev_ID <$> queueEntries s) Error JUndef (statusMap s)) s.

(** [handleInvalidPayloadReturned(queueEntry)] *)
Definition handleInvalidPayloadReturned (e : event) (s : pstate) : pstate :=
  set_statusMap (add_status (ev_ID e) Error JUndef (statusMap s)) s.

(** [addEventWithPayloadForProcessing(queueEntry, payload)] *)
Definition addEventWithPayloadForProcessing (e : event) (payload : jsval) (s : pstate) : pstate :=
  if ohas (ev_ID e) (queueEntriesMap s)
  then set_queueEntriesWithPayloadMap (oset (ev_ID e) (e, payload) (queueEntriesWithPayloadMap s)) s
  else s.

(** [addEntryToProcessingMap(key, queueEntry, payload)] *)
Definition addEntryToProcessingMap (key : string) (e : event) (payload : jsval) (s : pstate) : pstate :=
  let '(entries, p) := default ([], payload) (oget key (eventProcessingMap s)) in
  set_eventProcessingMap (oset key (entries ++ [e], p) (eventProcessingMap s)) s.

(** [clusterQueueEntries(queueEntriesWithPayloadMap)], the default: one cluster per
    event *)
Definition clusterQueueEntries (s : pstate) : pstate :=
  fold_left (fun s kv => addEntryToProcessingMap kv.1 kv.2.1 kv.2.2 s) (queueEntriesWithPayloadMap s) s.

(** The entry [#normalizeStatusMap] builds; [in null] throws. *)
Definition normalize_entry (entry : jsval) : option (obj jsval) :=
  match entry with
  | JNum _ | JFrac _ _ | JNaN => Some [("status", entry)]
  | JNull => None
  | JObj o =>
    Some (fold_left (fun r f => if ohas f o then oset f (prop o f) r else r) ALLOWED_FIELDS_FOR_UPDATE [])
  | _ => Some []
  end.

Fixpoint normalize_loop (entries m : obj jsval) : obj jsval * option jsval :=
  match entries with
  | [] => (m, None)
  | (id, entry) :: r =>
    match normalize_entry entry with
    | Some o => normalize_loop r (oset id (JObj o) m)
    | None => (m, Some (TypeError "Cannot use 'in' operator"))
    end
  end.

(** [#normalizeStatusMap(statusMap)]: the map, and the exception *)
Definition normalizeStatusMap (m : obj jsval) : obj jsval * option jsval := normalize_loop m m.

(** [statusMapContainsError(statusMap)] *)
Definition statusMapContainsError (m : obj jsval) : obj jsval * result jsval bool :=
  let '(m', exn) := normalizeStatusMap m in
  match exn with
  | Some e => (m', Err e)
  | None => (m', Ok (existsb (fun v => status_in [Error] (status_of v)) (ovalues m')))
  end.

(** [#ensureEveryQueueEntryHasStatus()] *)
Definition ensureEveryQueueEntryHasStatus (s : pstate) : pstate :=
  fold_left (fun s e =>
    if ohas (ev_ID e) (statusMap s) || ohas (ev_ID e) (commitedStatusMap s) || ohas (ev_ID e) (outdatedEventMap s)
    then s
    else set_statusMap (add_status (ev_ID e) Done JUndef (statusMap s)) s) (queueEntries s) s.

(** [#ensureEveryStatusIsAllowed(statusMap)] *)
Definition allowed_status (v : jsval) : bool := status_in [Open; Done; Error; Exceeded] (status_of v).
Definition ensureEveryStatusIsAllowed (m : obj jsval) : obj jsval :=
  fold_left (fun m kv => if allowed_status kv.2 then m else odel kv.1 m) m m.

(** [#ensureOnlySelectedQueueEntries(statusMap)] *)
Definition ensureOnlySelectedQueueEntries (selected : obj event) (m : obj jsval) : obj jsval :=
  fold_left (fun m id => if ohas id selected then m else odel id m) (okeys m) m.

(** ** persistEventStatus *)

Section persist.
Context {D : Type} `{EventTable D}.

(** [Date.prototype.toISOString], [String], [JSON.stringify], [Date.parse] and
    the [stack] of an error. *)
Context (toISOString : Z -> string) (toString stringify : jsval -> string)
  (dateParse : string -> option Z) (stackOf : jsval -> string).
Context (cfg : eventConfig) (tenant : option string).

Definition combinationOf (namespace : string) : combination :=
  mkCombination tenant (ec_type cfg) (ec_subType cfg) (Some namespace).

(** [#errorReplacer(value)]; an error of the model has no further enumerable keys *)
Definition errorReplacer (value : jsval) : jsval :=
  match value with
  | JErr name message =>
    JObj [("name", JStr name); ("message", JStr message); ("stack", JStr (stackOf value))]
  | _ => value
  end.

(** The replacer is applied to every value inside [error]. *)
Fixpoint replace_errors (v : jsval) : jsval :=
  match v with
  | JErr _ _ => errorReplacer v
  | JArr l => JArr (map replace_errors l)
  | JObj o => JObj (map (fun kv => (kv.1, replace_errors kv.2)) o)
  | _ => v
  end.

(** [_error2String(error)] *)
Definition error2String (error : jsval) : string := stringify (replace_errors error).

(** [#normalizeDate(value)] *)
Definition normalizeDate (value : jsval) : jsval :=
  match value with
  | JDate _ => value
  | JStr s => match dateParse s with Some t => JDate (Some t) | None => JNull end
  | JNum z => JDate (Some z)
  | JFrac n d => JDate (Some (date_trunc n (Z.pos d)))
  | _ => JNull
  end.

(** The key entries with equal update data are grouped by. *)
Definition group_key (data : obj jsval) : string :=
  join hash2 (List.concat (map (fun name => [name; join_string toString (prop data name)])
                             ALLOWED_FIELDS_FOR_UPDATE)).

Definition fields_of (v : jsval) : obj jsval := match v with JObj o => o | _ => [] end.

(** The [reduce] that builds [updateData]. *)
Definition group_step (groups : obj (obj jsval * list string)) (kv : string * jsval)
    : obj (obj jsval * list string) :=
  let data := fields_of kv.2 in
  let key := group_key data in
  match oget key groups with
  | Some (d0, ids) => oset key (d0, ids ++ [kv.1]) groups
  | None => oset key (data, [kv.1]) groups
  end.
Definition group_updates (m : obj jsval) : obj (obj jsval * list string) := fold_left group_step m [].

(** What happens to [data] before the [UPDATE], at time [now]. *)
Definition prepare_data (now : Z) (data : obj jsval) : obj jsval :=
  let st := prop data "status" in
  let data := if status_in [Open; Error] st then data else odel "startAfter" data in
  let data := if truthy (prop data "startAfter")
              then oset "startAfter" (normalizeDate (prop data "startAfter")) data else data in
  let data := if truthy (prop data "error")
              then oset "error" (JStr (error2String (prop data "error"))) data else data in
  let data := if negb (truthy (prop data "startAfter")) && status_in [Error; Open] st
              then oset "startAfter"
                     (JDate (Some (now + (if status_in [Error] st then ec_retryFailedAfter cfg
                                          else ec_retryOpenAfter cfg)))) data
              else data in
  if status_in [Open] st && negb (ohas "attempts" data)
  then oset "attempts" (JObj [("-=", JNum 1)]) data else data.

(** [UPDATE.set({...data, lastAttemptTimestamp: ts})] on a row; [nextData] is not a
    column. *)
Definition set_status_column (v : jsval) (e : event) : event :=
  match v with JNum z => with_status z e | _ => e end.
Definition set_startAfter_column (v : jsval) (e : event) : event :=
  match v with
  | JDate (Some t) => with_startAfter (Some t) e
  | JNull => with_startAfter None e
  | _ => e
  end.
Definition set_error_column (v : jsval) (e : event) : event :=
  if is_undefined v then e else with_error v e.
Definition set_attempts_column (v : jsval) (e : event) : event :=
  match v with
  | JNum z => with_attempts z e
  | JObj o => match prop o "-=" with JNum n => with_attempts (ev_attempts e - n) e | _ => e end
  | _ => e
  end.
Definition set_columns (data : obj jsval) (ts : Z) (e : event) : event :=
  with_lastAttempt (Some ts)
    (set_attempts_column (prop data "attempts")
      (set_error_column (prop data "error")
        (set_startAfter_column (prop data "startAfter")
          (set_status_column (prop data "status") e)))).

(** Scheduling the retry: an invalid date throws in [toISOString]. *)
Definition schedule_retry (now : Z) (startAfter : jsval) (s : pstate) : result jsval pstate :=
  if negb (truthy startAfter) then Ok s
  else match startAfter with
       | JDate (Some t) =>
         Ok (set_schedulerInstance
               (scheduleEvent toISOString now (combinationOf (ec_namespace cfg)) t (schedulerInstance s)) s)
       | _ => Err (RangeError "Invalid time value")
       end.

(** The statuses of a group are recorded as committed. *)
Definition mark_committed (ids : list string) (status : jsval) (s : pstate) : pstate :=
  set_notCommitedStatusMap (fold_left (fun m id => odel id m) ids (notCommitedStatusMap s))
    (set_commitedStatusMap (fold_left (fun m id => oset id status m) ids (commitedStatusMap s)) s).

(** One group of [updateData]; [ts] is the timestamp of the whole call. *)
Definition persist_group (now ts : Z) (data : obj jsval) (ids : list string) (s : pstate) (d : D)
    : pstate * D * option jsval :=
  if negb (ohas "status" data) then (s, d, None)
  else
    let s := mark_committed ids (prop data "status") s in
    let data := prepare_data now data in
    match schedule_retry now (prop data "startAfter") s with
    | Err e => (s, d, Some e)
    | Ok s => (s, update_rows (id_in ids) (set_columns data ts) d, None)
    end.

Fixpoint persist_groups (now ts : Z) (groups : list (obj jsval * list string)) (s : pstate) (d : D)
    : pstate * D * option jsval :=
  match groups with
  | [] => (s, d, None)
  | (data, ids) :: r =>
    match persist_group now ts data ids s d with
    | (s', d', None) => persist_groups now ts r s' d'
    | failed => failed
    end
  end.

(** [INSERT.into(...).entries(this.#nextSagaEvents)] *)
Definition insert_saga (s : pstate) (d : D) : pstate * D * option jsval :=
  match nextSagaEvents s with
  | [] => (s, d, None)
  | es => match insert_rows es d with
          | Some d' => (set_nextSagaEvents [] s, d', None)
          | None => (s, d, Some (JErr "Error" "unique constraint violated"))
          end
  end.

(** The part after the checks, on the checked map. *)
Definition write_status (now : Z) (m : obj jsval) (s : pstate) (d : D) : pstate * D * option jsval :=
  match group_updates m with
  | [] => (s, d, None)
  | groups =>
    match persist_groups now now (ovalues groups) s d with
    | (s', d', None) => insert_saga s' d'
    | failed => failed
    end
  end.

(** [persistEventStatus(tx, {skipChecks, statusMap})]: with [own = None] the map is
    [this.__statusMap], which the checks change in place. *)
Definition persistEventStatus (now : Z) (skipChecks : bool) (own : option (obj jsval)) (s : pstate) (d : D)
    : pstate * D * option jsval :=
  let '(m1, exn) := normalizeStatusMap (default (statusMap s) own) in
  let keep m s := match own with None => set_statusMap m s | Some _ => s end in
  match exn with
  | Some e => (keep m1 s, d, Some e)
  | None =>
    let m2 := ensureOnlySelectedQueueEntries (selectedEventMap s) m1 in
    let s := keep m2 s in
    let s := if skipChecks then s else ensureEveryQueueEntryHasStatus s in
    let m3 := match own with None => statusMap s | Some _ => m2 end in
    let m4 := ensureEveryStatusIsAllowed m3 in
    write_status now m4 (keep m4 s) d
  end.
End persist.

(** ** Properties of the status maps *)

(** No entry of the map is [null] or holds an invalid [Date]: what a handler that
    keeps to its contract reports. *)
Definition valid_entry (v : jsval) : Prop :=
  match v with
  | JNull => False
  | JObj o => prop o "startAfter" <> JDate None
  | _ => True
  end.
Definition valid_map (m : obj jsval) : Prop := Forall (fun kv => valid_entry kv.2) m.

Definition norm_fields (v : jsval) : obj jsval := default [] (normalize_entry v).

Lemma normalize_entry_valid v : valid_entry v -> normalize_entry v = Some (norm_fields v).
Proof. unfold norm_fields. destruct v; try done. Qed.

Lemma normalize_loop_spec l m :
  NoDup (okeys l) -> valid_map l ->
  (normalize_loop l m).2 = None /\
  forall id, oget id (normalize_loop l m).1 =
    match oget id l with Some v => Some (JObj (norm_fields v)) | None => oget id m end.
Proof.
  revert m. induction l as [|[k v] l IH]; intros m Hn Hv; simpl; [done|].
  apply NoDup_cons in Hn as [Hk Hn]. apply Forall_cons in Hv as [Hv Hl]. simpl in *.
  rewrite normalize_entry_valid by done. destruct (IH (oset k (JObj (norm_fields v)) m) Hn Hl) as [E1 E2].
  split; [done|]. intros id. rewrite E2, oget_oset. repeat case_decide; subst; try congruence.
  apply oget_None_okeys in Hk. by rewrite Hk.
Qed.

Lemma normalizeStatusMap_spec m :
  NoDup (okeys m) -> valid_map m ->
  (normalizeStatusMap m).2 = None /\
  forall id, oget id (normalizeStatusMap m).1 = (fun v => JObj (norm_fields v)) <$> oget id m.
Proof.
  intros Hn Hv. destruct (normalize_loop_spec m m Hn Hv) as [E1 E2]. split; [done|].
  intros id. unfold normalizeStatusMap. rewrite E2. by destruct (oget id m).
Qed.

Lemma normalize_loop_NoDup l m : NoDup (okeys m) -> NoDup (okeys (normalize_loop l m).1).
Proof.
  revert m. induction l as [|[k v] l IH]; intros m Hn; simpl; [done|].
  destruct (normalize_entry v); simpl; auto with evq.
Qed.

Lemma norm_fields_prop o f :
  f ∈ ALLOWED_FIELDS_FOR_UPDATE -> prop (norm_fields (JObj o)) f = prop o f.
Proof.
  unfold norm_fields, ALLOWED_FIELDS_FOR_UPDATE. simpl. unfold ohas, prop.
  intros Hf. repeat (apply elem_of_cons in Hf as [->|Hf]); [..|by apply elem_of_nil in Hf];
    destruct (oget "status" o) eqn:?, (oget "startAfter" o) eqn:?, (oget "error" o) eqn:?,
      (oget "nextData" o) eqn:?; vm_compute; reflexivity.
Qed.

Lemma oget_ensureOnlySelected selected m id :
  oget id (ensureOnlySelectedQueueEntries selected m) = if ohas id selected then oget id m else None.
Proof.
  unfold ensureOnlySelectedQueueEntries. rewrite (oget_fold_odel (fun k => ohas k selected) (fun k => k)).
  destruct (ohas id selected) eqn:Hs.
  - destruct (existsb _ _) eqn:E; [|done].
    apply existsb_exists in E as (x & _ & [H1 H2]%andb_true_iff).
    apply bool_decide_eq_true in H2 as ->. by rewrite Hs in H1.
  - destruct (existsb _ _) eqn:E; [done|]. destruct (oget id m) eqn:G; [|done]. exfalso.
    apply not_true_iff_false in E. apply E. apply existsb_exists. exists id. rewrite Hs, bool_decide_true by done.
    split; [|done]. apply list_elem_of_In, oget_okeys. by eauto.
Qed.

Lemma oget_ensureAllowed m id :
  NoDup (okeys m) ->
  oget id (ensureEveryStatusIsAllowed m) =
    match oget id m with Some v => if allowed_status v then Some v else None | None => None end.
Proof.
  intros Hn. unfold ensureEveryStatusIsAllowed.
  rewrite (oget_fold_odel (fun kv => allowed_status kv.2) fst).
  destruct (existsb _ m) eqn:E.
  - apply existsb_exists in E as ([k v] & Hin & [H1 H2]%andb_true_iff). simpl in *.
    apply bool_decide_eq_true in H2 as ->. apply list_elem_of_In in Hin.
    rewrite (elem_of_oget id v m Hn Hin). by destruct (allowed_status v).
  - destruct (oget id m) as [v|] eqn:G; [|done]. destruct (allowed_status v) eqn:A; [done|]. exfalso.
    apply not_true_iff_false in E. apply E. apply existsb_exists. exists (id, v). simpl.
    rewrite A, bool_decide_true by done. split; [|done]. by apply list_elem_of_In, oget_elem_of.
Qed.

Lemma status_in_code l v : status_in l v = true -> exists st, st ∈ l /\ v = jcode st.
Proof.
  destruct v; try discriminate. simpl. intros (st & Hin & Hz)%existsb_exists.
  apply Z.eqb_eq in Hz. exists st. split; [by apply list_elem_of_In|]. unfold jcode. by rewrite Hz.
Qed.

Lemma status_in_jcode l st : status_in l (jcode st) = bool_decide (st ∈ l).
Proof.
  unfold status_in, jcode. case_bool_decide as B.
  - apply existsb_exists. exists st. split; [by apply list_elem_of_In | by apply Z.eqb_refl].
  - apply not_true_iff_false. intros (st' & Hin & Hz%Z.eqb_eq)%existsb_exists.
    apply status_code_inj in Hz as ->. by apply B, list_elem_of_In.
Qed.

Lemma js_ge_jcode s1 s2 : js_ge (jcode s1) (jcode s2) = (status_code s2 <=? status_code s1).
Proof. unfold js_ge, jcode. simpl. by rewrite !Z.mul_1_r. Qed.

(** What persisting the status [st] at [now] makes of the row [e]: the status and
    the timestamp are set, an event reported as open gets its attempt back, and an
    event that is to run again has a date to run at. *)
Definition same_event (e1 e2 : event) : Prop :=
  ev_ID e1 = ev_ID e2 /\ ev_type e1 = ev_type e2 /\ ev_subType e1 = ev_subType e2 /\
  ev_payload e1 = ev_payload e2 /\ ev_createdAt e1 = ev_createdAt e2 /\
  ev_context e1 = ev_context e2 /\ ev_namespace e1 = ev_namespace e2.
Definition persisted (now : Z) (st : EventProcessingStatus) (e e' : event) : Prop :=
  same_event e' e /\
  ev_status e' = status_code st /\
  ev_lastAttempt e' = Some now /\
  ev_attempts e' = ev_attempts e - (if decide (st = Open) then 1 else 0) /\
  (if decide (st = Open \/ st = Error) then is_Some (ev_startAfter e')
   else ev_startAfter e' = ev_startAfter e).

(** The status a map reports for an id, if it is one of the statuses a handler may
    set and the event was selected. *)
Definition reported_code (v : jsval) : jsval :=
  match v with JNum _ => v | JObj o => prop o "status" | _ => JUndef end.
Definition allowed_code (v : jsval) : option EventProcessingStatus :=
  match v with
  | JNum z => match status_of_code z with
              | Some InProgress | Some Suspended | None => None
              | Some st => Some st
              end
  | _ => None
  end.
Definition reported_status (selected : obj event) (m : obj jsval) (id : string)
    : option EventProcessingStatus :=
  match oget id m with
  | Some v => if ohas id selected then allowed_code (reported_code v) else None
  | None => None
  end.

(** The status the last [persistEventStatus] of an iteration gives an id: the
    reported one, or done for an entry nobody reported on. *)
Definition final_status (s : pstate) (id : string) : option EventProcessingStatus :=
  if ohas id (statusMap s) && ohas id (selectedEventMap s)
  then reported_status (selectedEventMap s) (statusMap s) id
  else if bool_decide (id ∈ ev_ID <$> queueEntries s) &&
          negb (ohas id (commitedStatusMap s)) && negb (ohas id (outdatedEventMap s))
  then Some Done else None.

Section persist_props.
Context {D : Type} {ET : EventTable D} {EL : EventTableLaws D}.
Context (toISOString : Z -> string) (toString stringify : jsval -> string)
  (dateParse : string -> option Z) (stackOf : jsval -> string).
Context (cfg : eventConfig) (tenant : option string).

Abbreviation gkey := (group_key toString).
Abbreviation groups_of := (group_updates toString).
Abbreviation prepare := (prepare_data stringify dateParse stackOf cfg).

Lemma group_key_cons data :
  exists rest, gkey data = "status" +:+ hash2 +:+ join_string toString (prop data "status") +:+ rest.
Proof. eexists. reflexivity. Qed.

(** Entries in one group report one status. *)
Lemma group_key_status data1 data2 :
  allowed_status (JObj data1) = true -> allowed_status (JObj data2) = true ->
  gkey data1 = gkey data2 -> prop data1 "status" = prop data2 "status".
Proof.
  unfold allowed_status. simpl. intros (s1 & H1 & E1)%status_in_code (s2 & H2 & E2)%status_in_code.
  destruct (group_key_cons data1) as [r1 ->], (group_key_cons data2) as [r2 ->]. rewrite E1, E2.
  destruct s1, s2; try reflexivity; intros E; exfalso; vm_compute in E; discriminate E.
Qed.

Lemma group_step_ids G kv :
  concat (snd <$> ovalues (group_step toString G kv)) ≡ₚ concat (snd <$> ovalues G) ++ [kv.1].
Proof.
  unfold group_step. set (key := gkey _). destruct (oget key G) as [[d0 ids]|] eqn:E.
  - revert E. unfold ovalues. induction G as [|[k [d' i']] G IH]; csimpl; [done|].
    case_decide; subst; csimpl.
    + intros [= -> ->]. rewrite <- !app_assoc. apply Permutation_app_head, Permutation_app_comm.
    + intros E. rewrite IH by done. by rewrite app_assoc.
  - revert E. unfold ovalues. induction G as [|[k [d' i']] G IH]; csimpl; [done|].
    case_decide; subst; csimpl; [done|]. intros E. rewrite IH by done. by rewrite app_assoc.
Qed.

Lemma group_updates_ids m : concat (snd <$> ovalues (groups_of m)) ≡ₚ okeys m.
Proof.
  unfold group_updates. enough (forall G, concat (snd <$> ovalues (fold_left (group_step toString) m G))
    ≡ₚ concat (snd <$> ovalues G) ++ okeys m) as Hg by (rewrite Hg; done).
  induction m as [|kv m IH]; intros G; simpl; [by rewrite app_nil_r|].
  rewrite IH, group_step_ids. by rewrite <- app_assoc.
Qed.

(** Every group has the data of one of its members, and its members agree on the
    key. *)
Definition groups_sound (m : obj jsval) (G : obj (obj jsval * list string)) : Prop :=
  forall key d0 ids, oget key G = Some (d0, ids) ->
    gkey d0 = key /\
    (exists id0 v0, (id0, v0) ∈ m /\ fields_of v0 = d0) /\
    forall id, id ∈ ids -> exists v, (id, v) ∈ m /\ gkey (fields_of v) = key.

Lemma group_step_sound m G kv : kv ∈ m -> groups_sound m G -> groups_sound m (group_step toString G kv).
Proof.
  intros Hin HG key d0 ids. unfold group_step. destruct kv as [id v]. simpl in *.
  destruct (oget (gkey (fields_of v)) G) as [[d1 ids1]|] eqn:E; rewrite oget_oset; case_decide as Hk.
  - intros [= <- <-]. destruct (HG _ _ _ E) as (H1 & H2 & H3). subst key. split_and!; auto.
    intros id' [Hi|Hi]%elem_of_app; [auto|]. apply list_elem_of_singleton in Hi as ->. eauto.
  - apply HG.
  - intros [= <- <-]. split_and!; eauto. intros id' Hi. apply list_elem_of_singleton in Hi as ->. eauto.
  - apply HG.
Qed.

Lemma group_updates_sound m : groups_sound m (groups_of m).
Proof.
  unfold group_updates. enough (forall l G, l ⊆ m -> groups_sound m G ->
    groups_sound m (fold_left (group_step toString) l G)) as Hg
    by (apply Hg; [done | intros ? ? ?; discriminate]).
  induction l as [|kv l IH]; intros G Hl HG; simpl; [done|].
  apply IH; [set_solver|]. apply group_step_sound; [set_solver | done].
Qed.

Lemma NoDup_group_updates m : NoDup (okeys (groups_of m)).
Proof.
  unfold group_updates. enough (forall G, NoDup (okeys G) ->
    NoDup (okeys (fold_left (group_step toString) m G))) as Hg by (apply Hg; constructor).
  induction m as [|kv m IH]; intros G HG; simpl; [done|]. apply IH.
  unfold group_step. destruct (oget _ G) as [[d0 ids]|]; by apply NoDup_okeys_oset.
Qed.

(** The group of an id: its data carry the status the map has for the id. *)
Lemma group_data_status m d0 ids id v :
  NoDup (okeys m) -> (forall id v, oget id m = Some v -> allowed_status v = true) ->
  (d0, ids) ∈ ovalues (groups_of m) -> id ∈ ids -> oget id m = Some v ->
  ohas "status" d0 = true /\ prop d0 "status" = status_of v /\
  exists id0 v0, oget id0 m = Some v0 /\ fields_of v0 = d0.
Proof.
  intros Hn Ha Hg Hid Hv. unfold ovalues in Hg.
  apply list_elem_of_fmap in Hg as ([key [d1 ids1]] & E & Hin). simpl in E. injection E as -> ->.
  apply elem_of_oget in Hin; [|apply NoDup_group_updates].
  destruct (group_updates_sound m _ _ _ Hin) as (Hk & (id0 & v0 & H0 & Hf) & Hall).
  destruct (Hall id Hid) as (v' & Hv' & Hk'). apply elem_of_oget in Hv'; [|done].
  rewrite Hv in Hv'. injection Hv' as <-. apply elem_of_oget in H0; [|done].
  assert (A0 := Ha _ _ H0). assert (Av := Ha _ _ Hv).
  destruct v0 as [| | | | | | | | | |o0]; try discriminate A0. destruct v as [| | | | | | | | | |o]; try discriminate Av.
  simpl in *. subst o0. assert (Hs : prop d1 "status" = prop o "status")
    by (apply group_key_status; congruence).
  split_and!; eauto. unfold ohas, prop, allowed_status in *. simpl in A0.
  unfold prop in A0. destruct (oget "status" d1); [done | discriminate A0].
Qed.

Lemma set_columns_same data ts e : same_event (set_columns data ts e) e.
Proof.
  unfold set_columns, set_attempts_column, set_error_column, set_startAfter_column, set_status_column, same_event.
  generalize (prop data "attempts"), (prop data "error"), (prop data "startAfter"), (prop data "status").
  intros a v sa st.
  set (e1 := match st with JNum z => with_status z e | _ => e end).
  assert (E1 : same_event e1 e) by (destruct st; repeat split).
  set (e2 := match sa with JDate (Some t) => _ | JNull => _ | _ => e1 end).
  assert (E2 : same_event e2 e) by (destruct sa as [| | | | | | |[?|]| | |]; apply E1).
  set (e3 := if is_undefined v then e2 else with_error v e2).
  assert (E3 : same_event e3 e) by (unfold e3; destruct (is_undefined v); apply E2).
  destruct a as [| | | | | | | | | |o]; try apply E3. destruct (prop o "-="); apply E3.
Qed.

Lemma set_columns_ID data ts e : ev_ID (set_columns data ts e) = ev_ID e.
Proof. apply set_columns_same. Qed.

Abbreviation prep := (prepare_data stringify dateParse stackOf cfg).

Lemma prepare_status now data : prop (prep now data) "status" = prop data "status".
Proof.
  unfold prepare_data. set (st := prop data "status").
  destruct (status_in [Open; Error] st); repeat case_goal;
    rewrite ?prop_oset, ?prop_odel; reflexivity.
Qed.

(** A retry always has a date to run at; a final status carries none. *)
Lemma prepare_startAfter now data :
  prop data "startAfter" <> JDate None ->
  if status_in [Open; Error] (prop data "status")
  then exists t, prop (prep now data) "startAfter" = JDate (Some t)
  else prop (prep now data) "startAfter" = JUndef.
Proof.
  intros Hsa. unfold prepare_data. set (st := prop data "status").
  assert (Hst : status_in [Error; Open] st = status_in [Open; Error] st)
    by (unfold status_in; destruct st; simpl; try done; by rewrite !orb_false_r, orb_comm).
  rewrite Hst. destruct (status_in [Open; Error] st) eqn:E.
  - assert (Hstrip : forall o, prop (if status_in [Open] st && negb (ohas "attempts" o)
      then oset "attempts" (JObj [("-=", JNum 1)]) o else o) "startAfter" = prop o "startAfter")
      by (intros; case_goal; by rewrite ?prop_oset).
    rewrite Hstrip. set (o1 := if truthy _ then _ else data).
    assert (H1 : prop o1 "startAfter" = JDate None -> False).
    { unfold o1. destruct (truthy _); [rewrite prop_oset, decide_True by done|done].
      destruct (prop data "startAfter") as [| | | | | |x| | | |] eqn:P; simpl; try done.
      by destruct (dateParse x). }
    assert (H2 : truthy (prop o1 "startAfter") = true -> exists t, prop o1 "startAfter" = JDate (Some t)).
    { unfold o1. destruct (truthy (prop data "startAfter")) eqn:T; [|congruence].
      rewrite prop_oset, decide_True by done. unfold o1 in H1. rewrite prop_oset, decide_True in H1 by done.
      destruct (prop data "startAfter") as [| | | | | |x|[t|]| | |]; simpl in *; try done; eauto.
      destruct (dateParse x); [eauto|done]. }
    set (o2 := if truthy (prop o1 "error") then _ else o1).
    assert (H3 : prop o2 "startAfter" = prop o1 "startAfter")
      by (unfold o2; case_goal; by rewrite ?prop_oset).
    rewrite H3. destruct (truthy (prop o1 "startAfter")) eqn:T; simpl.
    + rewrite H3. auto.
    + rewrite prop_oset, decide_True by done. eauto.
  - rewrite prop_odel, decide_True by done. simpl. rewrite andb_false_r.
    repeat case_goal; by rewrite ?prop_oset, ?prop_odel.
Qed.

Lemma prepare_attempts now data :
  oget "attempts" data = None ->
  prop (prep now data) "attempts" =
    if status_in [Open] (prop data "status") then JObj [("-=", JNum 1)] else JUndef.
Proof.
  intros Ha. assert (Hp : prop data "attempts" = JUndef) by (unfold prop; by rewrite Ha).
  unfold prepare_data. set (st := prop data "status").
  match goal with |- prop (if _ && negb (ohas "attempts" ?o) then _ else _) _ = _ =>
    assert (H1 : oget "attempts" o = None) end.
  { repeat case_goal; rewrite ?oget_oset, ?oget_odel; simpl; done. }
  unfold ohas at 1. rewrite H1. simpl. rewrite andb_true_r.
  destruct (status_in [Open] st); [by rewrite prop_oset|]. unfold prop at 1. by rewrite H1.
Qed.

Lemma set_columns_persisted now st data e :
  prop data "status" = jcode st -> prop data "startAfter" <> JDate None -> oget "attempts" data = None ->
  persisted now st e (set_columns (prep now data) now e).
Proof.
  intros Hst Hsa Hat. pose proof (prepare_startAfter now data Hsa) as Psa.
  pose proof (prepare_attempts now data Hat) as Pat. rewrite Hst in Psa, Pat.
  split; [apply set_columns_same|]. unfold set_columns. rewrite prepare_status, Pat, Hst.
  unfold set_error_column, set_attempts_column, set_startAfter_column, set_status_column.
  destruct st; simpl in Psa; try match type of Psa with ex _ => destruct Psa as [t Psa] end;
    rewrite Psa; destruct (is_undefined _); simpl; repeat split; try lia; eauto.
Qed.

(** ** The groups one after the other *)

Abbreviation pgroups := (persist_groups toISOString stringify dateParse stackOf cfg tenant).
Abbreviation pgroup := (persist_group toISOString stringify dateParse stackOf cfg tenant).

Definition valid_group (g : obj jsval * list string) : Prop := prop g.1 "startAfter" <> JDate None.

Definition mark_group (s : pstate) (g : obj jsval * list string) : pstate :=
  if ohas "status" g.1 then mark_committed g.2 (prop g.1 "status") s else s.

Lemma persist_group_ok now ts data ids s (d : D) :
  valid_group (data, ids) ->
  exists sched,
    pgroup now ts data ids s d =
      (set_schedulerInstance sched (mark_group s (data, ids)),
       if ohas "status" data then update_rows (id_in ids) (set_columns (prep now data) ts) d else d, None).
Proof.
  intros Hv. unfold persist_group, mark_group. simpl. destruct (ohas "status" data); simpl.
  - pose proof (prepare_startAfter now data Hv) as Psa. unfold schedule_retry.
    destruct (status_in _ _); [destruct Psa as [t Psa]|]; rewrite Psa; simpl; eexists; reflexivity.
  - exists (schedulerInstance s). by destruct s.
Qed.

Definition group_of (id : string) (gs : list (obj jsval * list string)) : option (obj jsval) :=
  fst <$> List.find (fun g => bool_decide (id ∈ g.2)) gs.

Lemma mark_group_scheduler sched s g :
  mark_group (set_schedulerInstance sched s) g = set_schedulerInstance sched (mark_group s g).
Proof. unfold mark_group. by destruct (ohas _ _). Qed.

Lemma fold_mark_scheduler gs sched s :
  fold_left mark_group gs (set_schedulerInstance sched s) =
    set_schedulerInstance sched (fold_left mark_group gs s).
Proof. revert s. induction gs as [|g gs IH]; intros s; simpl; [done|]. by rewrite mark_group_scheduler, IH. Qed.

Lemma persist_groups_ok now gs s (d : D) :
  Forall valid_group gs -> NoDup (concat (snd <$> gs)) ->
  exists sched d',
    pgroups now now gs s d = (set_schedulerInstance sched (fold_left mark_group gs s), d', None) /\
    forall id, row id d' =
      match group_of id gs with
      | Some data => if ohas "status" data then set_columns (prep now data) now <$> row id d else row id d
      | None => row id d
      end.
Proof.
  intros Hv. revert s d. induction gs as [|[data ids] gs IH]; intros s d Hn; simpl.
  - exists (schedulerInstance s), d. by destruct s.
  - apply Forall_cons in Hv as [Hg Hv]. simpl in Hn. apply NoDup_app in Hn as (_ & Hd & Hn).
    destruct (persist_group_ok now now data ids s d Hg) as [sched1 ->].
    destruct (IH Hv (set_schedulerInstance sched1 (mark_group s (data, ids)))
               (if ohas "status" data then update_rows (id_in ids) (set_columns (prep now data) now) d else d) Hn)
      as (sched & d' & -> & Hr).
    exists sched, d'. rewrite fold_mark_scheduler. split; [done|].
    intros id. rewrite Hr. unfold group_of. simpl. case_bool_decide as Hid.
    + simpl. assert (List.find (fun g => bool_decide (id ∈ g.2)) gs = None) as ->.
      { destruct (List.find _ gs) as [g|] eqn:F; [|done]. apply List.find_some in F as [F1 F2].
        apply bool_decide_eq_true in F2. destruct (Hd id Hid). apply list_elem_of_In, in_concat.
        exists g.2. split; [by apply in_map | by apply list_elem_of_In]. }
      simpl. destruct (ohas "status" data); [|done].
      rewrite update_ids_row by apply set_columns_ID. by rewrite decide_True.
    + assert (Hrow : row id (if ohas "status" data then update_rows (id_in ids) (set_columns (prep now data) now) d
                             else d) = row id d).
      { destruct (ohas "status" data); [|done].
        rewrite update_ids_row by apply set_columns_ID. by rewrite decide_False. }
      by rewrite Hrow.
Qed.

(** ** The checked map *)

(** An entry that passed the checks. *)
Definition clean_entry (v : jsval) : Prop :=
  exists o st, v = JObj o /\ prop o "status" = jcode st /\ allowed_status v = true /\
    prop o "startAfter" <> JDate None /\ oget "attempts" o = None.
Definition clean_map (m : obj jsval) : Prop :=
  NoDup (okeys m) /\ forall id v, oget id m = Some v -> clean_entry v.

Lemma group_of_Some m id v :
  clean_map m -> oget id m = Some v ->
  exists d0, group_of id (ovalues (groups_of m)) = Some d0 /\ ohas "status" d0 = true /\
    prop d0 "status" = status_of v /\ clean_entry (JObj d0).
Proof.
  intros [Hn Hc] Hv. unfold group_of.
  assert (Hall : forall id v, oget id m = Some v -> allowed_status v = true)
    by (intros ? ? Hx; destruct (Hc _ _ Hx) as (? & ? & ? & ? & ? & ?); done).
  destruct (List.find _ _) as [[d0 ids]|] eqn:F.
  - apply List.find_some in F as [F1 F2]. apply bool_decide_eq_true in F2. apply list_elem_of_In in F1.
    destruct (group_data_status m d0 ids id v Hn Hall F1 F2 Hv) as (H1 & H2 & id0 & v0 & H3 & H4).
    exists d0. split_and!; auto. destruct (Hc _ _ H3) as (o & st & -> & ?). simpl in H4. subst o.
    by exists d0, st.
  - exfalso. assert (Hin : id ∈ concat (snd <$> ovalues (groups_of m))).
    { rewrite group_updates_ids. apply oget_okeys. eauto. }
    apply list_elem_of_In, in_concat in Hin as (ids & Hids & Hin).
    apply in_map_iff in Hids as (g & <- & Hg).
    pose proof (List.find_none _ _ F g Hg) as N. simpl in N. apply bool_decide_eq_false in N.
    by apply N, list_elem_of_In.
Qed.

Lemma group_of_None m id : oget id m = None -> group_of id (ovalues (groups_of m)) = None.
Proof.
  intros Hv. unfold group_of. destruct (List.find _ _) as [g|] eqn:F; [exfalso|done].
  apply List.find_some in F as [F1 F2]. apply bool_decide_eq_true in F2.
  apply oget_None_okeys in Hv. apply Hv. rewrite <- group_updates_ids.
  apply list_elem_of_In, in_concat. exists g.2. split; [by apply in_map | by apply list_elem_of_In].
Qed.

Lemma group_valid m : clean_map m -> Forall valid_group (ovalues (groups_of m)).
Proof.
  intros [Hn Hc]. apply Forall_forall. intros [d0 ids] Hin. unfold ovalues in Hin.
  apply list_elem_of_fmap in Hin as ([key [d1 i1]] & E & Hin). simpl in E. injection E as -> ->.
  apply elem_of_oget in Hin; [|apply NoDup_group_updates].
  destruct (group_updates_sound m _ _ _ Hin) as (_ & (id0 & v0 & H0 & Hf) & _).
  apply elem_of_oget in H0; [|done]. destruct (Hc _ _ H0) as (o & st & -> & _ & _ & Hsa & _).
  simpl in Hf. subst o. done.
Qed.

Abbreviation wstatus := (write_status toISOString toString stringify dateParse stackOf cfg tenant).

(** The rows the map names get its statuses, all other rows stay. *)
Definition rows_persisted (now : Z) (m : obj jsval) (d d' : D) : Prop :=
  forall id,
    match oget id m with
    | Some v => exists st, status_of v = jcode st /\
        match row id d with
        | Some e => exists e', row id d' = Some e' /\ persisted now st e e'
        | None => row id d' = None
        end
    | None => row id d' = row id d
    end.

Lemma write_status_ok now m s (d : D) :
  clean_map m -> nextSagaEvents s = [] ->
  exists sched d',
    wstatus now m s d = (set_schedulerInstance sched (fold_left mark_group (ovalues (groups_of m)) s), d', None) /\
    rows_persisted now m d d'.
Proof.
  intros Hc Hs.
  assert (Hn : NoDup (concat (snd <$> ovalues (groups_of m)))) by (rewrite group_updates_ids; apply Hc).
  destruct (persist_groups_ok now (ovalues (groups_of m)) s d (group_valid m Hc) Hn) as (sched & d' & E & Hr).
  exists sched, d'. split.
  - unfold write_status. destruct (groups_of m) as [|g gs] eqn:G.
    + simpl in *. by injection E as <- <-.
    + rewrite E. unfold insert_saga.
      assert (nextSagaEvents (fold_left mark_group (ovalues (g :: gs)) s) = []) as Hns.
      { rewrite <- Hs. generalize (ovalues (g :: gs)). clear. intros l. revert s.
        induction l as [|x l IH]; intros s; simpl; [done|]. rewrite IH. unfold mark_group. by destruct (ohas _ _). }
      simpl in *. by rewrite Hns.
  - intros id. destruct (oget id m) as [v|] eqn:Hv.
    + destruct (group_of_Some m id v Hc Hv) as (d0 & G & Hs0 & Hst & (o & st & [= <-] & Ho & _ & Hsa & Hat)).
      exists st. split; [congruence|]. rewrite Hr, G, Hs0.
      destruct (row id d) as [e|]; simpl; [|done]. eexists. split; [done|]. by apply set_columns_persisted.
    + by rewrite Hr, group_of_None.
Qed.

(** [new id] is the status written for [id]: the row gets it, or stays. *)
Definition rows_updated (now : Z) (new : string -> option EventProcessingStatus) (d d' : D) : Prop :=
  forall id,
    match new id, row id d with
    | Some st, Some e => exists e', row id d' = Some e' /\ persisted now st e e'
    | _, r => row id d' = r
    end.

Lemma allowed_code_spec v st : allowed_code v = Some st <-> v = jcode st /\ status_in [Open; Done; Error; Exceeded] v = true.
Proof.
  split.
  - unfold allowed_code. destruct v as [| | |z| | | | | | |]; try discriminate.
    destruct (status_of_code z) as [x|] eqn:E; [|discriminate]. unfold status_of_code in E.
    apply List.find_some in E as [_ E%Z.eqb_eq]. subst z. destruct x; intros [= <-]; done.
  - intros [-> Hs]. unfold allowed_code, jcode. rewrite status_of_code_code.
    destruct st; (reflexivity || discriminate Hs).
Qed.

Lemma norm_status v : prop (norm_fields v) "status" = reported_code v \/
  (allowed_code (reported_code v) = None /\ allowed_status (JObj (norm_fields v)) = false).
Proof.
  destruct v; try (left; reflexivity); try (right; split; reflexivity).
  left. apply norm_fields_prop. unfold ALLOWED_FIELDS_FOR_UPDATE. set_solver.
Qed.

Lemma norm_allowed v :
  allowed_status (JObj (norm_fields v)) = true <-> is_Some (allowed_code (reported_code v)).
Proof.
  destruct (norm_status v) as [E|[E1 E2]].
  - unfold allowed_status. simpl. rewrite E. split.
    + intros Hs. destruct (status_in_code _ _ Hs) as (st & _ & Hst). exists st. by apply allowed_code_spec.
    + intros [st [_ Hst]%allowed_code_spec]. done.
  - rewrite E1, E2. split; [done|]. intros [? ?]. discriminate.
Qed.

Lemma norm_clean v :
  valid_entry v -> allowed_status (JObj (norm_fields v)) = true -> clean_entry (JObj (norm_fields v)).
Proof.
  intros Hv Ha. assert (Ha' := Ha). unfold allowed_status in Ha'. simpl in Ha'.
  destruct (status_in_code _ _ Ha') as (st & _ & Hst).
  exists (norm_fields v), st. split_and!; auto.
  - destruct v; try done. rewrite norm_fields_prop; [done|]. unfold ALLOWED_FIELDS_FOR_UPDATE. set_solver.
  - destruct v; try done. unfold norm_fields. simpl. repeat (case_goal; rewrite ?oget_oset; simpl); done.
Qed.

(** What the checks make of a map. *)
Definition checked_map (selected : obj event) (m : obj jsval) : obj jsval :=
  ensureEveryStatusIsAllowed (ensureOnlySelectedQueueEntries selected (normalizeStatusMap m).1).

Lemma NoDup_selected selected m :
  NoDup (okeys m) -> NoDup (okeys (ensureOnlySelectedQueueEntries selected m)).
Proof. intros. by apply (NoDup_fold_odel (fun k => ohas k selected) (fun k => k)). Qed.

Lemma NoDup_allowed m : NoDup (okeys m) -> NoDup (okeys (ensureEveryStatusIsAllowed m)).
Proof. intros. by apply (NoDup_fold_odel (fun kv => allowed_status kv.2) fst). Qed.

Lemma oget_checked selected m id :
  NoDup (okeys m) -> valid_map m ->
  oget id (checked_map selected m) =
    match oget id m with
    | Some v => if ohas id selected && allowed_status (JObj (norm_fields v))
                then Some (JObj (norm_fields v)) else None
    | None => None
    end.
Proof.
  intros Hn Hv. unfold checked_map. destruct (normalizeStatusMap_spec m Hn Hv) as [_ E].
  rewrite oget_ensureAllowed by (apply NoDup_selected, normalize_loop_NoDup, Hn).
  rewrite oget_ensureOnlySelected, E. destruct (ohas id selected), (oget id m); simpl; done.
Qed.

Lemma valid_map_oget m id v : valid_map m -> oget id m = Some v -> valid_entry v.
Proof. intros Hv E. apply oget_elem_of in E. unfold valid_map in Hv. rewrite Forall_forall in Hv. by apply (Hv (id, v)). Qed.

Lemma checked_clean selected m : NoDup (okeys m) -> valid_map m -> clean_map (checked_map selected m).
Proof.
  intros Hn Hv. split; [apply NoDup_allowed, NoDup_selected, normalize_loop_NoDup, Hn|].
  intros id v. rewrite oget_checked by done. destruct (oget id m) as [w|] eqn:E; [|done].
  destruct (ohas id selected && _) eqn:G; [|done]. apply andb_true_iff in G as [_ G].
  intros [= <-]. apply norm_clean; [by eapply valid_map_oget | done].
Qed.

Lemma checked_reported selected m id :
  NoDup (okeys m) -> valid_map m ->
  (fun v => status_of v) <$> oget id (checked_map selected m) = jcode <$> reported_status selected m id.
Proof.
  intros Hn Hv. rewrite oget_checked by done. unfold reported_status.
  destruct (oget id m) as [v|]; [|done]. destruct (ohas id selected); simpl; [|done].
  destruct (allowed_status (JObj (norm_fields v))) eqn:A.
  - destruct (proj1 (norm_allowed v) A) as [st Hst]. rewrite Hst. simpl.
    destruct (norm_status v) as [->|[E _]]; [|congruence]. by apply allowed_code_spec in Hst as [-> _].
  - destruct (allowed_code (reported_code v)) eqn:C; [|done].
    enough (allowed_status (JObj (norm_fields v)) = true) by congruence. apply norm_allowed. eauto.
Qed.

Lemma rows_persisted_updated now m new (d d' : D) :
  (forall id, (fun v => status_of v) <$> oget id m = jcode <$> new id) ->
  rows_persisted now m d d' -> rows_updated now new d d'.
Proof.
  intros Hm Hp id. specialize (Hp id). specialize (Hm id). destruct (oget id m) as [v|], (new id) as [st|]; try discriminate Hm.
  - destruct Hp as (st' & E1 & E2). simpl in Hm. injection Hm as E3.
    rewrite E1 in E3. unfold jcode in E3. injection E3 as E3. by apply status_code_inj in E3 as ->.
  - by destruct (row id d).
Qed.

(** ** The commits recorded in the state *)

Lemma fold_mark_committed gs s id :
  NoDup (concat (snd <$> gs)) -> Forall (fun g => ohas "status" g.1 = true) gs ->
  oget id (commitedStatusMap (fold_left mark_group gs s)) =
    match group_of id gs with Some data => Some (prop data "status") | None => oget id (commitedStatusMap s) end.
Proof.
  revert s. induction gs as [|[data ids] gs IH]; intros s Hn Hs; simpl; [done|].
  apply Forall_cons in Hs as [Hd Hs]. simpl in *. apply NoDup_app in Hn as (_ & Hdis & Hn).
  rewrite IH by done. unfold group_of, mark_group. simpl. rewrite Hd. simpl. rewrite oget_fold_set.
  case_bool_decide as Hid; [|by rewrite decide_False].
  rewrite decide_True by done. destruct (List.find _ gs) as [g|] eqn:F; [|done]. exfalso.
  apply List.find_some in F as [F1 F2]. apply bool_decide_eq_true in F2. destruct (Hdis id Hid).
  apply list_elem_of_In, in_concat. exists g.2. split; [by apply in_map | by apply list_elem_of_In].
Qed.

(** The fields [persistEventStatus] leaves as they are. *)
Definition same_selection (s s' : pstate) : Prop :=
  queueEntries s' = queueEntries s /\ selectedEventMap s' = selectedEventMap s /\
  outdatedEventMap s' = outdatedEventMap s /\ nextSagaEvents s' = nextSagaEvents s /\
  eventProcessingMap s' = eventProcessingMap s /\ keepAliveViolated s' = keepAliveViolated s /\
  emptyChunkSelected s' = emptyChunkSelected s /\ queueEntriesMap s' = queueEntriesMap s /\
  etagMap s' = etagMap s /\ selectedDelayedEventIds s' = selectedDelayedEventIds s.

Lemma fold_mark_same gs s :
  same_selection s (fold_left mark_group gs s) /\ statusMap (fold_left mark_group gs s) = statusMap s.
Proof.
  revert s. induction gs as [|g gs IH]; intros s; simpl; [by repeat split|].
  destruct (IH (mark_group s g)) as [IH1 IH2].
  assert (Hg : same_selection s (mark_group s g) /\ statusMap (mark_group s g) = statusMap s)
    by (unfold mark_group; destruct (ohas _ _); repeat split).
  destruct Hg as [(?&?&?&?&?&?&?&?&?&?) Hm]. destruct IH1 as (?&?&?&?&?&?&?&?&?&?).
  split; [|congruence]. repeat split; congruence.
Qed.

Lemma clean_groups_status m :
  clean_map m -> Forall (fun g => ohas "status" g.1 = true) (ovalues (groups_of m)).
Proof.
  intros [Hn Hc]. apply Forall_forall. intros [d0 ids] Hin. unfold ovalues in Hin.
  apply list_elem_of_fmap in Hin as ([key [d1 i1]] & E & Hin). simpl in E. injection E as -> ->.
  apply elem_of_oget in Hin; [|apply NoDup_group_updates].
  destruct (group_updates_sound m _ _ _ Hin) as (_ & (id0 & v0 & H0 & Hf) & _).
  apply elem_of_oget in H0; [|done]. destruct (Hc _ _ H0) as (o & st & -> & Hst & _).
  simpl in Hf. subst o. unfold ohas, prop in *. simpl. by destruct (oget "status" d1).
Qed.

(** The state after [write_status]. *)
Definition commits_recorded (new : string -> option EventProcessingStatus) (s s' : pstate) : Prop :=
  same_selection s s' /\ statusMap s' = statusMap s /\
  forall id, oget id (commitedStatusMap s') =
    match new id with Some st => Some (jcode st) | None => oget id (commitedStatusMap s) end.

Lemma write_status_spec now m new s (d : D) :
  clean_map m -> nextSagaEvents s = [] ->
  (forall id, (fun v => status_of v) <$> oget id m = jcode <$> new id) ->
  exists s' d', wstatus now m s d = (s', d', None) /\ rows_updated now new d d' /\ commits_recorded new s s'.
Proof.
  intros Hc Hs Hnew. destruct (write_status_ok now m s d Hc Hs) as (sched & d' & E & Hr).
  eexists _, d'. split; [exact E|]. split; [by eapply rows_persisted_updated|].
  destruct (fold_mark_same (ovalues (groups_of m)) s) as [H1 H2].
  split; [exact H1|]. split; [exact H2|]. intros id. simpl.
  rewrite fold_mark_committed; [|rewrite group_updates_ids; apply Hc | by apply clean_groups_status].
  specialize (Hnew id). destruct (oget id m) as [v|] eqn:Hv.
  - destruct (group_of_Some m id v Hc Hv) as (d0 & -> & _ & -> & _). destruct (new id); simpl in Hnew; congruence.
  - rewrite group_of_None by done. destruct (new id); [discriminate | done].
Qed.

Abbreviation persist := (persistEventStatus toISOString toString stringify dateParse stackOf cfg tenant).

(** Persisting a map of one's own (an event's map in isolated mode, the maps of
    exceeded events). *)
Lemma persist_own_spec now m s (d : D) :
  NoDup (okeys m) -> valid_map m -> nextSagaEvents s = [] ->
  exists s' d', persist now true (Some m) s d = (s', d', None) /\
    rows_updated now (reported_status (selectedEventMap s) m) d d' /\
    commits_recorded (reported_status (selectedEventMap s) m) s s'.
Proof.
  intros Hn Hv Hs. unfold persistEventStatus. simpl.
  destruct (normalizeStatusMap_spec m Hn Hv) as [E _].
  destruct (normalizeStatusMap m) as [m1 exn] eqn:N. simpl in E. subst exn.
  assert (ensureEveryStatusIsAllowed (ensureOnlySelectedQueueEntries (selectedEventMap s) m1) =
          checked_map (selectedEventMap s) m) as -> by (unfold checked_map; by rewrite N).
  apply write_status_spec; [by apply checked_clean | done |].
  intros id. by apply checked_reported.
Qed.

(** ** Entries without a status *)

Definition done_entry : jsval := JObj [("status", jcode Done)].

Definition ensure_step (s : pstate) (e : event) : pstate :=
  if ohas (ev_ID e) (statusMap s) || ohas (ev_ID e) (commitedStatusMap s) || ohas (ev_ID e) (outdatedEventMap s)
  then s
  else set_statusMap (add_status (ev_ID e) Done JUndef (statusMap s)) s.

Definition unreported (s : pstate) (l : list event) (id : string) : bool :=
  bool_decide (id ∈ ev_ID <$> l) && negb (ohas id (commitedStatusMap s)) && negb (ohas id (outdatedEventMap s)).

Lemma add_done_new id m : oget id m = None -> add_status id Done JUndef m = oset id done_entry m.
Proof. intros E. unfold add_status, determineAndAddEventStatusToMap. simpl. unfold prop. by rewrite E. Qed.

Lemma ensure_fold_spec l s :
  NoDup (okeys (statusMap s)) ->
  exists m, fold_left ensure_step l s = set_statusMap m s /\ NoDup (okeys m) /\
    forall id, oget id m = match oget id (statusMap s) with
                           | Some v => Some v
                           | None => if unreported s l id then Some done_entry else None
                           end.
Proof.
  revert s. induction l as [|e l IH]; intros s Hn; simpl.
  - exists (statusMap s). split; [by destruct s|]. split; [done|]. intros id. by destruct (oget id (statusMap s)).
  - unfold ensure_step at 2.
    destruct (ohas (ev_ID e) (statusMap s) || ohas (ev_ID e) (commitedStatusMap s) ||
              ohas (ev_ID e) (outdatedEventMap s)) eqn:B.
    + destruct (IH s Hn) as (m & -> & Hm & Ho). exists m. split_and!; auto. intros id. rewrite Ho.
      destruct (oget id (statusMap s)) eqn:G; [done|]. unfold unreported. csimpl.
      destruct (decide (id = ev_ID e)) as [->|Hne].
      * assert (ohas (ev_ID e) (statusMap s) = false) as Hf by (by apply ohas_false). rewrite Hf in B. simpl in B.
        apply orb_true_iff in B as [->| ->]; simpl; by rewrite ?andb_false_r.
      * assert (bool_decide (id ∈ ev_ID e :: (ev_ID <$> l)) = bool_decide (id ∈ ev_ID <$> l)) as ->; [|done].
        apply bool_decide_ext. rewrite elem_of_cons. naive_solver.
    + apply orb_false_iff in B as [[B1 B2]%orb_false_iff B3]. apply ohas_false in B1.
      rewrite add_done_new by done.
      destruct (IH (set_statusMap (oset (ev_ID e) done_entry (statusMap s)) s)) as (m & -> & Hm & Ho);
        [by apply NoDup_okeys_oset|].
      exists m. split_and!; auto. intros id. rewrite Ho. simpl. rewrite oget_oset. unfold unreported. csimpl.
      case_decide as Hid.
      * subst id. rewrite B1, B2, B3, bool_decide_true by left. done.
      * destruct (oget id (statusMap s)); [done|].
        assert (bool_decide (id ∈ ev_ID e :: (ev_ID <$> l)) = bool_decide (id ∈ ev_ID <$> l)) as ->; [|done].
        apply bool_decide_ext. rewrite elem_of_cons. naive_solver.
Qed.

Lemma done_entry_clean : clean_entry done_entry.
Proof. exists [("status", jcode Done)], Done. split_and!; try done. Qed.

(** Persisting the instance's own map at the end of an iteration. *)
Lemma persist_final_spec now s (d : D) :
  NoDup (okeys (statusMap s)) -> valid_map (statusMap s) -> nextSagaEvents s = [] ->
  exists s' d', persist now false None s d = (s', d', None) /\ rows_updated now (final_status s) d d' /\
    same_selection s s'.
Proof.
  intros Hn Hv Hs. unfold persistEventStatus. simpl.
  destruct (normalizeStatusMap_spec (statusMap s) Hn Hv) as [E Hm1].
  assert (Hn1 := normalize_loop_NoDup (statusMap s) (statusMap s) Hn). change (normalize_loop _ _) with (normalizeStatusMap (statusMap s)) in Hn1.
  destruct (normalizeStatusMap (statusMap s)) as [m1 exn]. simpl in E, Hm1, Hn1. subst exn.
  set (m2 := ensureOnlySelectedQueueEntries (selectedEventMap s) m1).
  assert (Hm2 := NoDup_selected (selectedEventMap s) m1 Hn1).
  destruct (ensure_fold_spec (queueEntries s) (set_statusMap m2 s) Hm2) as (m3 & Es & Hn3 & Ho3).
  change (ensureEveryQueueEntryHasStatus (set_statusMap m2 s)) with (fold_left ensure_step (queueEntries s) (set_statusMap m2 s)).
  rewrite Es. simpl. simpl in Ho3.
  assert (Hget : forall id, oget id m3 =
    match oget id (statusMap s) with
    | Some v => if ohas id (selectedEventMap s) then Some (JObj (norm_fields v))
                else if unreported s (queueEntries s) id then Some done_entry else None
    | None => if unreported s (queueEntries s) id then Some done_entry else None
    end).
  { intros id. rewrite Ho3. unfold m2. rewrite oget_ensureOnlySelected, Hm1.
    destruct (oget id (statusMap s)), (ohas id (selectedEventMap s)); done. }
  assert (Hclean : clean_map (ensureEveryStatusIsAllowed m3)).
  { split; [by apply NoDup_allowed|]. intros id v. rewrite oget_ensureAllowed, Hget by done.
    destruct (oget id (statusMap s)) as [w|] eqn:G.
    - destruct (ohas id (selectedEventMap s)).
      + destruct (allowed_status _) eqn:A; [|done]. intros [= <-].
        apply norm_clean; [by eapply valid_map_oget | done].
      + destruct (unreported _ _ _); [|done]. simpl. intros [= <-]. apply done_entry_clean.
    - destruct (unreported _ _ _); [|done]. simpl. intros [= <-]. apply done_entry_clean. }
  destruct (write_status_spec now (ensureEveryStatusIsAllowed m3) (final_status s)
              (set_statusMap (ensureEveryStatusIsAllowed m3) (set_statusMap m3 (set_statusMap m2 s))) d Hclean Hs)
    as (s' & d' & E' & Hr & Hsame & _); [|by exists s', d'].
  intros id. rewrite oget_ensureAllowed, Hget by done. unfold final_status.
  fold (unreported s (queueEntries s) id).
  assert (Hh : ohas id (statusMap s) = match oget id (statusMap s) with Some _ => true | None => false end) by done.
  rewrite Hh. pose proof (checked_reported (selectedEventMap s) (statusMap s) id Hn Hv) as C.
  rewrite oget_checked in C by done.
  destruct (oget id (statusMap s)) as [v|] eqn:G; simpl; [|by destruct (unreported _ _ _)].
  destruct (ohas id (selectedEventMap s)) eqn:Hsel; simpl; [done | by destruct (unreported _ _ _)].
Qed.
End persist_props.

(** ** What handlers report *)

(** The smaller status; [Open < InProgress < Done < Error < Exceeded]. *)
Definition min_status (s1 s2 : EventProcessingStatus) : EventProcessingStatus :=
  if status_code s2 <=? status_code s1 then s2 else s1.

Definition report_sequence (id : string) (l : list EventProcessingStatus) : obj jsval :=
  fold_left (fun m st => add_status id st JUndef m) l [].

Lemma add_status_step id cur st o m :
  prop m id = JObj o -> prop o "status" = jcode cur ->
  exists o', prop (add_status id st JUndef m) id = JObj o' /\
    prop o' "status" = jcode (if decide (cur = Error \/ cur = Exceeded) then cur else min_status cur st).
Proof.
  intros Hm Ho. unfold add_status, determineAndAddEventStatusToMap. simpl. rewrite Hm. simpl. rewrite Ho, status_in_jcode.
  assert (Hdec : bool_decide (cur ∈ [Error; Exceeded]) = bool_decide (cur = Error \/ cur = Exceeded))
    by (apply bool_decide_ext; set_solver).
  rewrite Hdec. destruct (decide (cur = Error \/ cur = Exceeded)) as [B|B].
  - rewrite bool_decide_true by done. eauto.
  - rewrite bool_decide_false by done. change (prop [("status", jcode st)] "status") with (jcode st).
    rewrite js_ge_jcode. unfold min_status. destruct (status_code st <=? status_code cur).
    + rewrite prop_oset, decide_True by done. eauto.
    + eauto.
Qed.

(** Several reports for one event are aggregated as follows: a first report of
    error or exceeded is final; otherwise the smallest status wins, so that an
    error reported after done, open or in progress has no effect. *)
Theorem status_aggregation id st l :
  Suspended ∉ st :: l ->
  status_of (prop (report_sequence id (st :: l)) id) =
    jcode (if decide (st = Error \/ st = Exceeded) then st else fold_left min_status l st).
Proof.
  intros Hs. unfold report_sequence. simpl.
  assert (exists o, prop (add_status id st JUndef []) id = JObj o /\ prop o "status" = jcode st) as (o & Ho & Hst).
  { eexists. unfold add_status, determineAndAddEventStatusToMap. simpl. unfold prop. simpl.
    rewrite decide_True by done. done. }
  assert (G : forall l st m o, Suspended ∉ st :: l -> prop m id = JObj o -> prop o "status" = jcode st ->
    status_of (prop (fold_left (fun m st => add_status id st JUndef m) l m) id) =
      jcode (if decide (st = Error \/ st = Exceeded) then st else fold_left min_status l st)).
  { clear. induction l as [|x l IH]; intros st m o Hs Hm Ho; simpl.
    - rewrite Hm. simpl. rewrite Ho. by case_decide.
    - destruct (add_status_step id st x o m Hm Ho) as (o' & Hm' & Ho').
      rewrite !not_elem_of_cons in Hs. destruct Hs as (Hs1 & Hs2 & Hs3). case_decide as Hd.
      + rewrite (IH st _ o'), decide_True; auto. by rewrite not_elem_of_cons.
      + rewrite (IH (min_status st x) _ o'); auto;
          [|unfold min_status; rewrite not_elem_of_cons; split; [by case_goal|done]].
        case_decide as Hd'; [|done]. exfalso. unfold min_status in Hd'.
        destruct (status_code x <=? status_code st) eqn:C; [|done]. apply Z.leb_le in C.
        destruct Hd' as [-> | ->]; destruct st; simpl in C; (lia || tauto). }
  by eapply G.
Qed.

Lemma status_aggregation_witness :
  status_of (prop (report_sequence "e1" [Done; Error; Open]) "e1") = jcode Open.
Proof. apply (status_aggregation "e1" Done [Error; Open]). set_solver. Defined.

(** ** The theorems on persistEventStatus *)

Section persist_theorems.
Context {D : Type} {ET : EventTable D} {EL : EventTableLaws D}.
Context (toISOString : Z -> string) (toString stringify : jsval -> string)
  (dateParse : string -> option Z) (stackOf : jsval -> string).
Context (cfg : eventConfig) (tenant : option string).

Abbreviation persist := (persistEventStatus toISOString toString stringify dateParse stackOf cfg tenant).

(** C9. Persisting a map of reported statuses writes, for every selected event with
    an allowed status, exactly that status, the timestamp, one attempt less if it is
    open and a date to run at if it is open or failed; every other row is left
    alone.  Grouping the entries by their joined fields never mixes up two
    statuses. *)
Theorem persist_reported now m s (d : D) :
  NoDup (okeys m) -> valid_map m -> nextSagaEvents s = [] ->
  exists s' d', persist now true (Some m) s d = (s', d', None) /\
    rows_updated now (reported_status (selectedEventMap s) m) d d' /\
    forall id, oget id (commitedStatusMap s') =
      match reported_status (selectedEventMap s) m id with
      | Some st => Some (jcode st)
      | None => oget id (commitedStatusMap s)
      end.
Proof.
  intros Hn Hv Hs.
  destruct (persist_own_spec toISOString toString stringify dateParse stackOf cfg tenant now m s d Hn Hv Hs)
    as (s' & d' & E & Hr & _ & _ & Hc). eauto.
Qed.

(** C19. At the end of an iteration every selected entry has its reported status
    written, and an entry without any report that is neither committed nor
    outdated is set to done. *)
Theorem persist_at_end now s (d : D) :
  NoDup (okeys (statusMap s)) -> valid_map (statusMap s) -> nextSagaEvents s = [] ->
  exists s' d', persist now false None s d = (s', d', None) /\ rows_updated now (final_status s) d d'.
Proof.
  intros Hn Hv Hs.
  destruct (persist_final_spec toISOString toString stringify dateParse stackOf cfg tenant now s d Hn Hv Hs)
    as (s' & d' & E & Hr & _). eauto.
Qed.

(** The branch for update data without a status is dead: whatever the map,
    the checks leave only groups that have one. *)
Theorem status_always_present m :
  NoDup (okeys m) ->
  Forall (fun g => ohas "status" g.1 = true)
    (ovalues (group_updates toString (ensureEveryStatusIsAllowed m))).
Proof.
  intros Hn. apply Forall_forall. intros [d0 ids] Hin. unfold ovalues in Hin.
  apply list_elem_of_fmap in Hin as ([key [d1 i1]] & E & Hin). simpl in E. injection E as -> ->.
  apply elem_of_oget in Hin; [|apply NoDup_group_updates].
  destruct (group_updates_sound toString _ _ _ _ Hin) as (_ & (id0 & v0 & H0 & Hf) & _).
  apply elem_of_oget in H0; [|by apply NoDup_allowed]. rewrite oget_ensureAllowed in H0 by done.
  destruct (oget id0 m) as [v|]; [|done]. destruct (allowed_status v) eqn:A; [|done].
  injection H0 as ->. destruct v0; try discriminate A. simpl in Hf. subst. simpl.
  unfold allowed_status, status_of, prop in A. unfold ohas. by destruct (oget "status" d1).
Qed.

(** A handler that reports a status it may not set ([InProgress]) to the shared
    map blocks its entry: nothing is written for it at the end, so the row stays
    in progress. *)
Theorem disallowed_status_not_written now s (d : D) id :
  NoDup (okeys (statusMap s)) -> valid_map (statusMap s) -> nextSagaEvents s = [] ->
  ohas id (selectedEventMap s) = true ->
  reported_code (prop (statusMap s) id) = jcode InProgress ->
  exists s' d', persist now false None s d = (s', d', None) /\ row id d' = row id d.
Proof.
  intros Hn Hv Hs Hsel Hrep.
  destruct (persist_final_spec toISOString toString stringify dateParse stackOf cfg tenant now s d Hn Hv Hs)
    as (s' & d' & E & Hr & _). exists s', d'. split; [done|]. specialize (Hr id).
  unfold prop in Hrep. destruct (oget id (statusMap s)) as [v|] eqn:G; [|discriminate].
  assert (final_status s id = None) as F.
  { unfold final_status, reported_status. assert (ohas id (statusMap s) = true) as -> by (apply ohas_true; eauto).
    by rewrite Hsel, G, Hrep. }
  by rewrite F in Hr.
Qed.
End persist_theorems.

(** ** Setting entries to error *)

Lemma add_status_shape id st error m :
  add_status id st error m = m \/
  exists o, add_status id st error m = oset id (JObj o) m /\ prop o "status" = jcode st /\
            oget "startAfter" o = None.
Proof.
  unfold add_status, determineAndAddEventStatusToMap. simpl. destruct (truthy error); simpl;
    destruct (negb _); [right; by eexists| |right; by eexists|];
    (destruct (status_in _ _); [by left|]; destruct (js_ge _ _); [right; by eexists | by left]).
Qed.

Lemma add_status_other id id' st error m : id <> id' -> oget id' (add_status id st error m) = oget id' m.
Proof.
  intros Hne. destruct (add_status_shape id st error m) as [-> | (o & -> & _)]; [done|].
  by rewrite oget_oset_ne.
Qed.

Lemma add_status_NoDup id st error m : NoDup (okeys m) -> NoDup (okeys (add_status id st error m)).
Proof. destruct (add_status_shape id st error m) as [-> | (o & -> & _)]; auto with evq. Qed.

Lemma valid_map_iff m : NoDup (okeys m) -> valid_map m <-> forall id v, oget id m = Some v -> valid_entry v.
Proof.
  intros Hn. unfold valid_map. rewrite Forall_forall. split.
  - intros Hv id v E. apply oget_elem_of in E. by apply (Hv (id, v)).
  - intros Hv [id v] Hin. apply (Hv id). by apply elem_of_oget.
Qed.

Lemma add_status_valid id st error m :
  NoDup (okeys m) -> valid_map m -> valid_map (add_status id st error m).
Proof.
  intros Hn Hv. rewrite valid_map_iff in Hv by done. apply valid_map_iff; [by apply add_status_NoDup|].
  intros id' v. destruct (add_status_shape id st error m) as [-> | (o & -> & _ & Ho)]; [apply Hv|].
  rewrite oget_oset. case_decide; [|apply Hv]. intros [= <-]. simpl. unfold prop. by rewrite Ho.
Qed.

Lemma add_all_valid ids st error m :
  NoDup (okeys m) -> valid_map m ->
  NoDup (okeys (add_all ids st error m)) /\ valid_map (add_all ids st error m).
Proof.
  unfold add_all. revert m. induction ids as [|i ids IH]; intros m Hn Hv; simpl; [done|].
  apply IH; [by apply add_status_NoDup | by apply add_status_valid].
Qed.

(** An entry that is done or failed is not changed by an error. *)
Lemma add_error_keeps id error m o st :
  oget id m = Some (JObj o) -> prop o "status" = jcode st -> st = Done \/ st = Error ->
  add_status id Error error m = m.
Proof.
  intros Hm Ho Hst. unfold add_status, determineAndAddEventStatusToMap, prop. simpl.
  rewrite Hm. unfold prop in Ho. destruct (truthy error); simpl; unfold prop; rewrite Ho, status_in_jcode;
    destruct Hst as [-> | ->]; reflexivity.
Qed.

Lemma add_error_new id error m :
  oget id m = None ->
  exists o, oget id (add_status id Error error m) = Some (JObj o) /\ prop o "status" = jcode Error.
Proof.
  intros Hm. unfold add_status, determineAndAddEventStatusToMap. simpl. unfold prop. rewrite Hm.
  destruct (truthy error); simpl; rewrite oget_oset, decide_True by done; eauto.
Qed.

Lemma add_all_keeps ids error m id o st :
  oget id m = Some (JObj o) -> prop o "status" = jcode st -> st = Done \/ st = Error ->
  oget id (add_all ids Error error m) = Some (JObj o).
Proof.
  intros Hm Ho Hst. unfold add_all. revert m Hm. induction ids as [|i ids IH]; intros m Hm; simpl; [done|].
  apply IH. destruct (decide (i = id)) as [->|]; [by rewrite (add_error_keeps id error m o st)|].
  by rewrite add_status_other.
Qed.

Lemma add_all_new ids error m id :
  id ∈ ids -> oget id m = None ->
  exists o, oget id (add_all ids Error error m) = Some (JObj o) /\ prop o "status" = jcode Error.
Proof.
  unfold add_all. revert m. induction ids as [|i ids IH]; intros m Hin Hm; simpl; [by apply elem_of_nil in Hin|].
  destruct (decide (i = id)) as [->|Hne].
  - destruct (add_error_new id error m Hm) as (o & E & Ho). exists o. split; [|done].
    by eapply add_all_keeps; eauto.
  - apply IH; [by apply elem_of_cons in Hin as [->|]|]. by rewrite add_status_other.
Qed.

Lemma add_all_other ids st error m id : id ∉ ids -> oget id (add_all ids st error m) = oget id m.
Proof.
  unfold add_all. revert m. induction ids as [|i ids IH]; intros m Hin; simpl; [done|].
  apply not_elem_of_cons in Hin as [Hne Hin]. rewrite IH by done. by apply add_status_other.
Qed.

(** In isolated mode a missing status tuple, or one that is not an array, sets
    every entry to error; in a tuple that is malformed further on, an entry already
    reported as done stays done, although all entries are meant to fail. *)
Theorem malformed_tuple_error toString cfg entries s e :
  commitOnEventLevel cfg = true -> e ∈ entries ->
  (forall tuple, truthy tuple = false \/ is_array tuple = false ->
     status_of (prop (setEventStatus toString cfg entries tuple false s).2 (ev_ID e)) = jcode Error) /\
  status_of (prop (setEventStatus toString cfg entries
    (JArr [JArr [JStr (ev_ID e); jcode Done]; JNum 0]) false s).2 (ev_ID e)) = jcode Done.
Proof.
  intros Hc He. assert (Hin : ev_ID e ∈ ev_ID <$> entries) by (apply list_elem_of_fmap; eauto).
  unfold setEventStatus. rewrite Hc. split.
  - intros tuple Ht. assert (status_from_tuple toString entries tuple [] = add_all (ev_ID <$> entries) Error JUndef []) as E.
    { unfold status_from_tuple. destruct (truthy tuple) eqn:T; [|done]. simpl.
      destruct tuple; try done. by destruct Ht. }
    simpl. rewrite E. destruct (add_all_new (ev_ID <$> entries) JUndef [] (ev_ID e) Hin eq_refl) as (o & Ho & Hst).
    unfold prop. by rewrite Ho.
  - unfold status_from_tuple. simpl. unfold prop.
    rewrite (add_all_keeps _ _ _ _ [("status", jcode Done)] Done); auto. simpl. by rewrite decide_True.
Qed.

(** ** Concrete environment for the witnesses *)

Definition demoEventConfig (mode : TransactionMode) : eventConfig :=
  mkEventConfig "Mail" "send" "default" false None false (Some 2) (Some 10) false (Some mode)
    60 (210, 1) 300000 300000 None None None None false 1000.
Definition demoRow (id : string) (status attempts createdAt : Z) : event :=
  mkEvent id "Mail" "send" None None status (JStr "{}") attempts None createdAt None JNull JNull "default".
Definition demoISO : Z -> string := fun t => pretty.pretty t.
Definition demoToString : jsval -> string := fun _ => "[object Object]".
Definition demoStringify : jsval -> string := fun _ => "{}".
Definition demoParse : string -> option Z := fun _ => None.
Definition demoStack : jsval -> string := fun _ => "stack".

(** An instance that selected the two rows [a] and [b]. *)
Definition demoSelected : pstate :=
  let es := [demoRow "a" 1 1 5; demoRow "b" 1 1 6] in
  set_selectedEventMap (arrayToFlatMap ev_ID es) (set_queueEntries es (newInstance [] newScheduler)).
Definition demoDb : memRows := {[ "a" := demoRow "a" 1 1 5; "b" := demoRow "b" 1 1 6 ]}.

Lemma persist_reported_witness :
  exists s' d',
    persistEventStatus demoISO demoToString demoStringify demoParse demoStack (demoEventConfig isolated) None
      2000 true (Some [("a", JNum 3)]) demoSelected demoDb = (s', d', None) /\
    rows_updated 2000 (reported_status (selectedEventMap demoSelected) [("a", JNum 3)]) demoDb d'.
Proof.
  destruct (persist_reported demoISO demoToString demoStringify demoParse demoStack (demoEventConfig isolated) None
              2000 [("a", JNum 3)] demoSelected demoDb) as (s' & d' & E & Hr & _).
  - repeat constructor. intros H%elem_of_nil. exact H.
  - repeat constructor.
  - reflexivity.
  - exists s', d'. split; [exact E | exact Hr].
Defined.

Lemma persist_at_end_witness :
  exists s' d',
    persistEventStatus demoISO demoToString demoStringify demoParse demoStack (demoEventConfig isolated) None
      2000 false None demoSelected demoDb = (s', d', None) /\
    rows_updated 2000 (fun id => if decide (id = "a" \/ id = "b") then Some Done else None) demoDb d'.
Proof.
  destruct (persist_at_end demoISO demoToString demoStringify demoParse demoStack (demoEventConfig isolated) None
              2000 demoSelected demoDb) as (s' & d' & E & Hr).
  - constructor.
  - constructor.
  - reflexivity.
  - exists s', d'. split; [exact E|]. intros id. specialize (Hr id).
    unfold final_status in Hr. simpl in Hr. rewrite !andb_true_r in Hr.
    case_bool_decide as B; case_decide as C; try exact Hr; exfalso.
    + rewrite !elem_of_cons, elem_of_nil in B. tauto.
    + apply B. rewrite !elem_of_cons. tauto.
Defined.

Lemma disallowed_status_not_written_witness :
  exists s' d',
    persistEventStatus demoISO demoToString demoStringify demoParse demoStack (demoEventConfig alwaysCommit) None
      2000 false None (set_statusMap [("a", JObj [("status", JNum 1)])] demoSelected) demoDb = (s', d', None) /\
    row "a" d' = row "a" demoDb.
Proof.
  apply (disallowed_status_not_written demoISO demoToString demoStringify demoParse demoStack
           (demoEventConfig alwaysCommit) None 2000
           (set_statusMap [("a", JObj [("status", JNum 1)])] demoSelected) demoDb "a").
  - repeat constructor. intros H%elem_of_nil. exact H.
  - repeat constructor. discriminate.
  - reflexivity.
  - reflexivity.
  - reflexivity.
Defined.

Lemma malformed_tuple_error_witness :
  status_of (prop (setEventStatus demoToString (demoEventConfig isolated) [demoRow "a" 1 1 5] JUndef false
    demoSelected).2 "a") = jcode Error.
Proof.
  apply (malformed_tuple_error demoToString (demoEventConfig isolated) [demoRow "a" 1 1 5] demoSelected
           (demoRow "a" 1 1 5)); [reflexivity | left | left; reflexivity].
Defined.

Lemma status_always_present_witness :
  Forall (fun g => ohas "status" g.1 = true)
    (ovalues (group_updates demoToString
       (ensureEveryStatusIsAllowed [("a", JObj []); ("b", JObj [("status", JNum 2)])]))).
Proof. apply (status_always_present demoToString). apply (bool_decide_unpack _). vm_compute. exact I. Defined.
