(* ===== verification/Selection.v ===== *)
(** * Selecting events ([EventQueueProcessorBase.js])

    [getQueueEntriesAndSetToInProgress] with its clustering of the selected rows
    into open, delayed and exceeded ones, and the last successful run of a periodic
    event. *)

From S2P Require Import Prelude Js Errors Common Scheduling Database Processor.
#[local] Open Scope Z_scope.

(** The four classes of selected events. *)
Record clusters := mkClusters {
  cl_exceededTries : list event;
  cl_openEvents : list event;
  cl_exceededTriesExceeded : list event;
  cl_delayedEvents : list event }.

Section selection.
Context {D : Type} {ET : EventTable D}.
Context (toISOString : Z -> string) (cfg : eventConfig) (tenant : option string) (runInterval : Z).

(** [new Date(baseDate + runInterval * 1.2)] *)
Definition refDateStartAfter (baseDate : Z) : Z := date_trunc (5 * baseDate + 6 * runInterval) 5.

(** [new Date(baseDate - keepAliveMaxInProgressTime * 1000)] *)
Definition inProgressLimit (baseDate : Z) : Z :=
  let '(n, d) := keepAliveMaxMs cfg in date_trunc (baseDate * d - n) d.

(** [lastAttemptTimestamp <= t]; a comparison with [NULL] is not true. *)
Definition attempted_until (t : Z) (e : event) : bool :=
  match ev_lastAttempt e with Some l => l <=? t | None => false end.

(** The [WHERE] clause of the selection. *)
Definition selectable (baseDate : Z) (delayed : list string) (e : event) : bool :=
  bool_decide (ev_type e = ec_type cfg) && bool_decide (ev_subType e = ec_subType cfg) &&
  bool_decide (ev_namespace e = ec_namespace cfg) &&
  match ev_startAfter e with None => true | Some t => t <=? refDateStartAfter baseDate end &&
  ((has_status Open e &&
    (attempted_until (ec_startTime cfg) e || bool_decide (ev_lastAttempt e = None))) ||
   (negb (ec_isPeriodic cfg) && has_status Error e && attempted_until (ec_startTime cfg) e) ||
   (has_status InProgress e && attempted_until (inProgressLimit baseDate) e)) &&
  negb (id_in delayed e).

(** [#isDelayedEvent(event, refDate)] *)
Definition isDelayedEvent (e : event) (refDate : Z) : bool :=
  match ev_startAfter e with None => false | Some t => negb (t <=? refDate) end.

(** The date up to which an event counts as due. *)
Definition clusterRefDate (refDateStartAfter : Z) : Z :=
  date_trunc (5 * refDateStartAfter - 6 * runInterval + 5 * EVENT_START_AFTER_HEADROOM) 5.

(** [#clusterEvents(events, refDateStartAfter)] *)
Definition cluster_step (refDate : Z) (r : clusters) (e : event) : clusters :=
  if ev_attempts e =? retryAttempts cfg + TRIES_FOR_EXCEEDED_EVENTS then
    mkClusters (cl_exceededTries r) (cl_openEvents r) (cl_exceededTriesExceeded r ++ [e]) (cl_delayedEvents r)
  else if retryAttempts cfg <=? ev_attempts e then
    mkClusters (cl_exceededTries r ++ [e]) (cl_openEvents r) (cl_exceededTriesExceeded r) (cl_delayedEvents r)
  else if isDelayedEvent e refDate then
    mkClusters (cl_exceededTries r) (cl_openEvents r) (cl_exceededTriesExceeded r) (cl_delayedEvents r ++ [e])
  else
    mkClusters (cl_exceededTries r) (cl_openEvents r ++ [e]) (cl_exceededTriesExceeded r) (cl_delayedEvents r).
Definition clusterEvents (events : list event) (refDateStartAfter : Z) : clusters :=
  fold_left (cluster_step (clusterRefDate refDateStartAfter)) events (mkClusters [] [] [] []).

(** [#handleDelayedEvents(delayedEvents, {skipExcludeDelayedEventIds})] *)
Definition handleDelayedEvents (now : Z) (delayedEvents : list event) (skipExclude : bool) (s : pstate) : pstate :=
  fold_left (fun s e =>
    let s := if skipExclude then s
             else set_selectedDelayedEventIds (selectedDelayedEventIds s ++ [ev_ID e]) s in
    match ev_startAfter e with
    | Some t => set_schedulerInstance
                  (scheduleEvent toISOString now
                     (mkCombination tenant (ec_type cfg) (ec_subType cfg) (Some (ev_namespace e))) t
                     (schedulerInstance s)) s
    | None => s
    end) delayedEvents s.

(** [#selectLastSuccessfulPeriodicTimestamp()] *)
Definition selectLastSuccessfulPeriodicTimestamp (d : D) : option Z :=
  fold_left (fun acc e => match ev_lastAttempt e, acc with
                          | Some t, Some a => Some (Z.max a t)
                          | Some t, None => Some t
                          | None, _ => acc
                          end)
    (select_rows (fun e => bool_decide (ev_type e = ec_type cfg) && bool_decide (ev_subType e = ec_subType cfg) &&
                           has_status Done e) None d) None.

(** The entry in memory after the [UPDATE]: the timestamp, and a [null] payload
    becomes the empty string. *)
Definition touch (now : Z) (e : event) : event :=
  let e := with_lastAttempt (Some now) e in
  if is_null (ev_payload e) then with_payload (JStr EmptyString) e else e.

(** The row after the [UPDATE]. *)
Definition set_in_progress (now : Z) (e : event) : event :=
  with_attempts (ev_attempts e + 1) (with_lastAttempt (Some now) (with_status (status_code InProgress) e)).
Definition set_periodic_error (now : Z) (e : event) : event :=
  with_lastAttempt (Some now) (with_status (status_code Error) e).

(** The events of a selection that are set to in progress. *)
Definition eventsForProcessing (cl : clusters) : list event :=
  cl_openEvents cl ++ cl_exceededTriesExceeded cl ++ (if ec_isPeriodic cfg then [] else cl_exceededTries cl).

(** [getQueueEntriesAndSetToInProgress()] within its transaction: [baseDate] is the
    time it starts at, [now] the time of its updates. *)
Definition getQueueEntriesAndSetToInProgress (baseDate now : Z) (s : pstate) (d : D)
    : list event * pstate * D :=
  let ref := refDateStartAfter baseDate in
  let entries := select_rows (selectable baseDate (selectedDelayedEventIds s))
                   (Some (Z.to_nat (selectMaxChunkSize cfg))) d in
  match entries with
  | [] => ([], set_emptyChunkSelected true s, d)
  | _ =>
    let cl := clusterEvents entries ref in
    let forProcessing := eventsForProcessing cl in
    let touched := match forProcessing with [] => fun e => e | _ => touch now end in
    let s := set_selectedEventMap (arrayToFlatMap ev_ID (map touched forProcessing)) s in
    let s := if negb (ec_isPeriodic cfg) && negb (bool_decide (cl_exceededTries cl = []))
             then set_eventsWithExceededTries (map touched (cl_exceededTries cl)) s else s in
    let s := if negb (bool_decide (cl_exceededTriesExceeded cl = []))
             then set_exceededTriesExceeded (map touched (cl_exceededTriesExceeded cl)) s else s in
    let s := handleDelayedEvents now (cl_delayedEvents cl) false s in
    let d := if ec_isPeriodic cfg && negb (bool_decide (cl_exceededTries cl = []))
             then update_rows (id_in (ev_ID <$> cl_exceededTries cl)) (set_periodic_error now) d else d in
    match forProcessing with
    | [] => ([], s, d)
    | _ =>
      let d := update_rows (id_in (ev_ID <$> forProcessing)) (set_in_progress now) d in
      let result := map (touch now) (cl_openEvents cl) in
      let s := set_queueEntries result s in
      let s := set_queueEntriesMap (arrayToFlatMap ev_ID result) s in
      let s := set_notCommitedStatusMap (arrayToFlatMap ev_ID result) s in
      let s := set_etagMap (fromEntries (map (fun e => (ev_ID e, ev_lastAttempt e)) result)) s in
      let s := if ec_isPeriodic cfg && ec_lastSuccessfulRunTimestamp cfg
               then set_lastSuccessfulRunTimestamp (Some (selectLastSuccessfulPeriodicTimestamp d)) s else s in
      (result, s, d)
    end
  end.
End selection.

(** ** Clustering *)

Section cluster_props.
Context (cfg : eventConfig) (runInterval : Z).

Definition is_hook_exceeded (e : event) : bool := ev_attempts e =? retryAttempts cfg + TRIES_FOR_EXCEEDED_EVENTS.
Definition is_exceeded (e : event) : bool := negb (is_hook_exceeded e) && (retryAttempts cfg <=? ev_attempts e).

Lemma cluster_fold refDate l r :
  let is_delayed e := negb (is_hook_exceeded e) && negb (is_exceeded e) && isDelayedEvent e refDate in
  let is_open e := negb (is_hook_exceeded e) && negb (is_exceeded e) && negb (isDelayedEvent e refDate) in
  let r' := fold_left (cluster_step cfg refDate) l r in
  cl_exceededTries r' = cl_exceededTries r ++ filter (fun e => is_exceeded e = true) l /\
  cl_openEvents r' = cl_openEvents r ++ filter (fun e => is_open e = true) l /\
  cl_exceededTriesExceeded r' = cl_exceededTriesExceeded r ++ filter (fun e => is_hook_exceeded e = true) l /\
  cl_delayedEvents r' = cl_delayedEvents r ++ filter (fun e => is_delayed e = true) l.
Proof.
  intros is_delayed is_open. revert r. induction l as [|e l IH]; intros r; simpl.
  - by rewrite !app_nil_r.
  - destruct (IH (cluster_step cfg refDate r e)) as (-> & -> & -> & ->).
    rewrite !filter_cons. unfold is_delayed, is_open, is_exceeded, cluster_step, is_hook_exceeded.
    destruct (ev_attempts e =? _); simpl; [rewrite <- app_assoc; auto|].
    destruct (retryAttempts cfg <=? ev_attempts e); simpl; [rewrite <- app_assoc; auto|].
    destruct (isDelayedEvent e refDate); simpl; rewrite <- app_assoc; auto.
Qed.

Lemma clusterEvents_open l ref e :
  e ∈ cl_openEvents (clusterEvents cfg runInterval l ref) <->
  e ∈ l /\ ev_attempts e < retryAttempts cfg /\ isDelayedEvent e (clusterRefDate runInterval ref) = false.
Proof.
  unfold clusterEvents. destruct (cluster_fold (clusterRefDate runInterval ref) l (mkClusters [] [] [] [])) as (_ & -> & _).
  simpl. rewrite list_elem_of_filter. unfold is_exceeded, is_hook_exceeded, TRIES_FOR_EXCEEDED_EVENTS.
  destruct (isDelayedEvent e _); simpl; rewrite ?andb_false_r, ?andb_true_r; [naive_solver|].
  destruct (Z.eqb_spec (ev_attempts e) (retryAttempts cfg + 3)), (Z.leb_spec (retryAttempts cfg) (ev_attempts e));
    simpl; naive_solver lia.
Qed.

Lemma clusterEvents_sub l ref e :
  let cl := clusterEvents cfg runInterval l ref in
  e ∈ cl_openEvents cl \/ e ∈ cl_exceededTriesExceeded cl \/ e ∈ cl_exceededTries cl \/ e ∈ cl_delayedEvents cl
  <-> e ∈ l.
Proof.
  simpl. unfold clusterEvents.
  destruct (cluster_fold (clusterRefDate runInterval ref) l (mkClusters [] [] [] [])) as (-> & -> & -> & ->).
  simpl. rewrite !list_elem_of_filter.
  destruct (is_hook_exceeded e), (is_exceeded e), (isDelayedEvent e (clusterRefDate runInterval ref)); simpl; naive_solver.
Qed.

Lemma clusterEvents_exceeded l ref e :
  e ∈ cl_exceededTries (clusterEvents cfg runInterval l ref) <-> e ∈ l /\ is_exceeded e = true.
Proof.
  unfold clusterEvents. destruct (cluster_fold (clusterRefDate runInterval ref) l (mkClusters [] [] [] [])) as (-> & _).
  simpl. rewrite list_elem_of_filter. naive_solver.
Qed.
End cluster_props.

(** ** The selection *)

Section selection_props.
Context {D : Type} {ET : EventTable D} {EL : EventTableLaws D}.
Context (toISOString : Z -> string) (cfg : eventConfig) (tenant : option string) (runInterval : Z).

Abbreviation select := (getQueueEntriesAndSetToInProgress toISOString cfg tenant runInterval).

(** The rows a selection looks at, and their clusters. *)
Definition chunk (baseDate : Z) (s : pstate) (d : D) : list event :=
  select_rows (selectable cfg runInterval baseDate (selectedDelayedEventIds s))
    (Some (Z.to_nat (selectMaxChunkSize cfg))) d.
Definition chunk_clusters (baseDate : Z) (s : pstate) (d : D) : clusters :=
  clusterEvents cfg runInterval (chunk baseDate s d) (refDateStartAfter runInterval baseDate).
Definition chunk_processed (baseDate : Z) (s : pstate) (d : D) : list event :=
  eventsForProcessing cfg (chunk_clusters baseDate s d).

(** The effect on a row: failed if its retries are exceeded and it is periodic, in
    progress if it is taken. *)
Definition selected_row (now : Z) (processed failed : list event) (e : event) : event :=
  let e := if bool_decide (ev_ID e ∈ ev_ID <$> failed) then set_periodic_error now e else e in
  if bool_decide (ev_ID e ∈ ev_ID <$> processed) then set_in_progress now e else e.

Lemma selected_row_taken now processed failed e :
  ev_ID e ∉ ev_ID <$> failed -> ev_ID e ∈ ev_ID <$> processed ->
  selected_row now processed failed e = set_in_progress now e.
Proof. intros Hf Hp. unfold selected_row. by rewrite (bool_decide_false _ Hf), bool_decide_true. Qed.

Lemma selected_row_other now processed failed e :
  ev_ID e ∉ ev_ID <$> failed -> ev_ID e ∉ ev_ID <$> processed -> selected_row now processed failed e = e.
Proof. intros Hf Hp. unfold selected_row. by rewrite (bool_decide_false _ Hf), (bool_decide_false _ Hp). Qed.

Lemma update_ids_fmap ids f (d : D) id :
  (forall e, ev_ID (f e) = ev_ID e) ->
  row id (update_rows (id_in ids) f d) = (fun e => if bool_decide (ev_ID e ∈ ids) then f e else e) <$> row id d.
Proof. intros Hf. by apply update_row. Qed.

Lemma selection_rows baseDate now s (d : D) id :
  let cl := chunk_clusters baseDate s d in
  row id (select baseDate now s d).2 =
    selected_row now (eventsForProcessing cfg cl) (if ec_isPeriodic cfg then cl_exceededTries cl else []) <$> row id d.
Proof.
  simpl. unfold getQueueEntriesAndSetToInProgress, chunk_clusters.
  fold (chunk baseDate s d). destruct (chunk baseDate s d) as [|e0 l] eqn:E.
  - simpl. assert (selected_row now (eventsForProcessing cfg (mkClusters [] [] [] []))
      (if ec_isPeriodic cfg then [] else []) = fun e => e) as Hid.
    { unfold selected_row, eventsForProcessing. simpl. destruct (ec_isPeriodic cfg); reflexivity. }
    unfold clusterEvents. simpl. rewrite Hid. by destruct (row id d).
  - rewrite <- E. set (cl := clusterEvents _ _ _ _). clearbody cl. clear E e0 l.
    set (d1 := if ec_isPeriodic cfg && _ then _ else d).
    assert (H1 : row id d1 = (fun e => if bool_decide (ev_ID e ∈ ev_ID <$> (if ec_isPeriodic cfg then cl_exceededTries cl else []))
      then set_periodic_error now e else e) <$> row id d).
    { unfold d1. destruct (ec_isPeriodic cfg); simpl; [|by destruct (row id d)].
      case_bool_decide as B; simpl; [rewrite B; simpl; by destruct (row id d)|]. by apply update_ids_fmap. }
    destruct (eventsForProcessing cfg cl) as [|x fp] eqn:F; cbn [snd].
    + rewrite H1. unfold selected_row. simpl. by destruct (row id d).
    + rewrite update_ids_fmap by done. rewrite H1. by destruct (row id d).
Qed.

Lemma chunk_spec baseDate s (d : D) e :
  e ∈ chunk baseDate s d ->
  row (ev_ID e) d = Some e /\ selectable cfg runInterval baseDate (selectedDelayedEventIds s) e = true.
Proof. apply select_sound. Qed.

Lemma chunk_ID_inj baseDate s (d : D) e1 e2 :
  e1 ∈ chunk baseDate s d -> e2 ∈ chunk baseDate s d -> ev_ID e1 = ev_ID e2 -> e1 = e2.
Proof.
  intros H1%chunk_spec H2%chunk_spec E. destruct H1 as [H1 _], H2 as [H2 _].
  rewrite E in H1. congruence.
Qed.

Lemma processed_chunk baseDate s (d : D) e :
  e ∈ chunk_processed baseDate s d -> e ∈ chunk baseDate s d.
Proof.
  unfold chunk_processed, chunk_clusters, eventsForProcessing. intros He.
  apply (clusterEvents_sub cfg runInterval (chunk baseDate s d) (refDateStartAfter runInterval baseDate)).
  rewrite !elem_of_app in He. destruct (ec_isPeriodic cfg); [|tauto].
  destruct He as [?|[?|He]]; [auto..|]. by apply elem_of_nil in He.
Qed.

Lemma open_processed baseDate s (d : D) e :
  e ∈ cl_openEvents (chunk_clusters baseDate s d) -> e ∈ chunk_processed baseDate s d.
Proof. intros He. unfold chunk_processed, eventsForProcessing. rewrite elem_of_app. auto. Qed.

Lemma handleDelayedEvents_state now l skip s :
  exists sched, handleDelayedEvents toISOString cfg tenant now l skip s =
    set_schedulerInstance sched
      (set_selectedDelayedEventIds (selectedDelayedEventIds s ++ (if skip then [] else ev_ID <$> l)) s).
Proof.
  unfold handleDelayedEvents. revert s. induction l as [|e l IH]; intros s; simpl.
  - exists (schedulerInstance s). destruct skip; rewrite app_nil_r; by destruct s.
  - edestruct IH as [sched ->]. exists sched.
    destruct skip, (ev_startAfter e); csimpl; rewrite <- ?app_assoc, ?app_nil_r; reflexivity.
Qed.

(** The instance after a selection. *)
Definition selection_state (result processed : list event) (s s' : pstate) : Prop :=
  queueEntries s' = result /\
  queueEntriesMap s' = arrayToFlatMap ev_ID result /\
  notCommitedStatusMap s' = arrayToFlatMap ev_ID result /\
  etagMap s' = fromEntries (map (fun e => (ev_ID e, ev_lastAttempt e)) result) /\
  (forall id, ohas id (selectedEventMap s') = true <-> id ∈ ev_ID <$> processed) /\
  statusMap s' = statusMap s /\ commitedStatusMap s' = commitedStatusMap s /\
  outdatedEventMap s' = outdatedEventMap s /\ nextSagaEvents s' = nextSagaEvents s /\
  keepAliveViolated s' = keepAliveViolated s /\
  queueEntriesWithPayloadMap s' = queueEntriesWithPayloadMap s /\
  eventProcessingMap s' = eventProcessingMap s.

Lemma touch_ID now e : ev_ID (touch now e) = ev_ID e.
Proof. unfold touch. by destruct (is_null _). Qed.

Lemma map_touch_ID now l : ev_ID <$> map (touch now) l = ev_ID <$> l.
Proof. induction l as [|e l IH]; csimpl; [done|]. by rewrite touch_ID, <- IH. Qed.

Lemma selection_result baseDate now s (d : D) :
  (select baseDate now s d).1.1 = map (touch now) (cl_openEvents (chunk_clusters baseDate s d)).
Proof.
  unfold getQueueEntriesAndSetToInProgress, chunk_clusters. fold (chunk baseDate s d).
  destruct (chunk baseDate s d) as [|e0 l] eqn:E; [done|].
  rewrite <- E. set (cl := clusterEvents _ _ _ _).
  destruct (eventsForProcessing cfg cl) as [|x fp] eqn:F; cbn [fst]; [|done].
  unfold eventsForProcessing in F. by apply app_eq_nil in F as [-> _].
Qed.

Lemma selection_instance baseDate now s (d : D) :
  chunk_processed baseDate s d <> [] ->
  selection_state (select baseDate now s d).1.1 (chunk_processed baseDate s d) s (select baseDate now s d).1.2.
Proof.
  unfold chunk_processed, getQueueEntriesAndSetToInProgress, chunk_clusters. fold (chunk baseDate s d).
  destruct (chunk baseDate s d) as [|e0 l] eqn:E.
  - intros Hn. destruct Hn. unfold clusterEvents, eventsForProcessing. simpl. by destruct (ec_isPeriodic cfg).
  - rewrite <- E. set (cl := clusterEvents _ _ _ _). clearbody cl. intros Hn.
    destruct (eventsForProcessing cfg cl) as [|x fp] eqn:F; [done|]. cbn [fst snd].
    match goal with |- context [handleDelayedEvents _ _ _ ?n ?l ?b ?s0] =>
      destruct (handleDelayedEvents_state n l b s0) as [sched ->] end.
    unfold selection_state.
    destruct (ec_isPeriodic cfg && ec_lastSuccessfulRunTimestamp cfg),
      (negb (ec_isPeriodic cfg) && negb (bool_decide (cl_exceededTries cl = []))),
      (negb (bool_decide (cl_exceededTriesExceeded cl = [])));
      split_and!; try reflexivity; intros id;
      change (ohas id (arrayToFlatMap ev_ID (map (touch now) (x :: fp))) = true <-> id ∈ ev_ID <$> (x :: fp));
      by rewrite arrayToFlatMap_has, map_touch_ID.
Qed.

(** A selection that takes nothing leaves the status maps alone. *)
Lemma selection_idle baseDate now s (d : D) :
  chunk_processed baseDate s d = [] ->
  let s' := (select baseDate now s d).1.2 in
  (select baseDate now s d).1.1 = [] /\ queueEntries s' = queueEntries s /\
  statusMap s' = statusMap s /\ commitedStatusMap s' = commitedStatusMap s /\
  nextSagaEvents s' = nextSagaEvents s.
Proof.
  unfold chunk_processed, getQueueEntriesAndSetToInProgress, chunk_clusters. fold (chunk baseDate s d).
  destruct (chunk baseDate s d) as [|e0 l] eqn:E; [done|].
  rewrite <- E. set (cl := clusterEvents _ _ _ _). clearbody cl. intros Hn. rewrite Hn. cbn [fst snd].
  match goal with |- context [handleDelayedEvents _ _ _ ?n ?l ?b ?s0] =>
    destruct (handleDelayedEvents_state n l b s0) as [sched ->] end.
  destruct (negb (ec_isPeriodic cfg) && negb (bool_decide (cl_exceededTries cl = []))),
    (negb (bool_decide (cl_exceededTriesExceeded cl = []))); repeat split.
Qed.

(** Every event that is taken is in progress, with one attempt more. *)
Lemma processed_row baseDate now s (d : D) e :
  e ∈ chunk_processed baseDate s d ->
  row (ev_ID e) (select baseDate now s d).2 = Some (set_in_progress now e).
Proof.
  intros He. assert (Hc := processed_chunk _ _ _ _ He). rewrite selection_rows.
  rewrite (proj1 (chunk_spec _ _ _ _ Hc)). simpl. f_equal.
  apply selected_row_taken; [|apply list_elem_of_fmap; eauto].
  destruct (ec_isPeriodic cfg) eqn:P; [|apply not_elem_of_nil].
  intros (e1 & E & H1)%list_elem_of_fmap. apply clusterEvents_exceeded in H1 as [H1 Hx].
  assert (e = e1) as <- by (eapply chunk_ID_inj; eauto).
  unfold chunk_processed, eventsForProcessing in He. rewrite P, app_nil_r in He.
  apply elem_of_app in He as [He|He].
  - apply clusterEvents_open in He as (_ & Ha & _). unfold is_exceeded in Hx. zbool. lia.
  - unfold chunk_clusters, clusterEvents in He.
    match type of He with _ ∈ cl_exceededTriesExceeded (fold_left (cluster_step cfg ?rd) ?l ?r) =>
      destruct (cluster_fold cfg rd l r) as (_ & _ & Eq & _); rewrite Eq in He end.
    simpl in He. apply list_elem_of_filter in He as [He _]. unfold is_exceeded in Hx. by rewrite He in Hx.
Qed.

(** The exceeded events a fresh instance remembers. *)
Lemma selection_exceeded baseDate now s (d : D) :
  chunk_processed baseDate s d <> [] -> eventsWithExceededTries s = [] -> exceededTriesExceeded s = [] ->
  let s' := (select baseDate now s d).1.2 in
  eventsWithExceededTries s' =
    (if ec_isPeriodic cfg then [] else map (touch now) (cl_exceededTries (chunk_clusters baseDate s d))) /\
  exceededTriesExceeded s' = map (touch now) (cl_exceededTriesExceeded (chunk_clusters baseDate s d)).
Proof.
  unfold chunk_processed, getQueueEntriesAndSetToInProgress, chunk_clusters. fold (chunk baseDate s d).
  destruct (chunk baseDate s d) as [|e0 l] eqn:E.
  - intros Hn. destruct Hn. unfold clusterEvents, eventsForProcessing. simpl. by destruct (ec_isPeriodic cfg).
  - rewrite <- E. set (cl := clusterEvents _ _ _ _). clearbody cl. intros Hn H1 H2.
    destruct (eventsForProcessing cfg cl) as [|x fp] eqn:F; [done|]. cbn [fst snd].
    match goal with |- context [handleDelayedEvents _ _ _ ?n ?l ?b ?s0] =>
      destruct (handleDelayedEvents_state n l b s0) as [sched ->] end.
    destruct (ec_isPeriodic cfg && ec_lastSuccessfulRunTimestamp cfg), (ec_isPeriodic cfg);
      destruct (cl_exceededTries cl), (cl_exceededTriesExceeded cl); auto.
Qed.

(** ** Theorems *)

(** The selected rows fall into exactly one of the four classes. *)
Lemma clusters_partition l ref :
  let cl := clusterEvents cfg runInterval l ref in
  cl_openEvents cl ++ cl_delayedEvents cl ++ cl_exceededTries cl ++ cl_exceededTriesExceeded cl ≡ₚ l.
Proof.
  unfold clusterEvents. set (rd := clusterRefDate runInterval ref).
  destruct (cluster_fold cfg rd l (mkClusters [] [] [] [])) as (-> & -> & -> & ->). simpl.
  induction l as [|e l IH]; [done|]. rewrite !filter_cons.
  unfold is_exceeded in *. destruct (is_hook_exceeded cfg e); simpl.
  - rewrite <- !Permutation_middle. by constructor.
  - destruct (retryAttempts cfg <=? ev_attempts e); simpl.
    + rewrite <- !Permutation_middle. by constructor.
    + destruct (isDelayedEvent e rd); simpl; rewrite <- ?Permutation_middle; by constructor.
Qed.

(** C7. Selecting events: what is returned for processing are at most
    [selectMaxChunkSize] distinct rows that match the selection, have attempts left
    and are due; each of them is now in progress with one attempt more.  A row the
    selection does not match (another type, namespace or tenant's exclusion list, a
    final status, not due within the next run, recently attempted) is left as it is. *)
Theorem selection_correct baseDate now s (d : D) :
  let result := (select baseDate now s d).1.1 in
  let d' := (select baseDate now s d).2 in
  (forall e, e ∈ result -> exists e0,
     row (ev_ID e) d = Some e0 /\ e = touch now e0 /\
     selectable cfg runInterval baseDate (selectedDelayedEventIds s) e0 = true /\
     ev_attempts e0 < retryAttempts cfg /\
     isDelayedEvent e0 (clusterRefDate runInterval (refDateStartAfter runInterval baseDate)) = false /\
     row (ev_ID e) d' = Some (set_in_progress now e0)) /\
  (forall id e0, row id d = Some e0 ->
     selectable cfg runInterval baseDate (selectedDelayedEventIds s) e0 = false -> row id d' = Some e0) /\
  NoDup (ev_ID <$> result) /\
  (length result <= Z.to_nat (selectMaxChunkSize cfg))%nat.
Proof.
  intros result d'. unfold result, d'. rewrite selection_result.
  assert (Hsub : cl_openEvents (chunk_clusters baseDate s d) ⊆ chunk baseDate s d)
    by (intros e He; by apply processed_chunk, open_processed).
  pose proof (clusters_partition (chunk baseDate s d) (refDateStartAfter runInterval baseDate)) as Hp.
  fold (chunk_clusters baseDate s d) in Hp. split_and!.
  - intros e (e0 & -> & He)%list_elem_of_fmap. rewrite touch_ID.
    destruct (chunk_spec _ _ _ _ (Hsub _ He)) as [Hrow Hsel].
    pose proof (proj1 (clusterEvents_open cfg runInterval _ _ e0) He) as (_ & Ha & Hd).
    exists e0. split_and!; auto. by apply processed_row, open_processed.
  - intros id e0 Hrow Hsel. rewrite selection_rows, Hrow. simpl. f_equal.
    assert (Hno : forall l, l ⊆ chunk baseDate s d -> ev_ID e0 ∉ ev_ID <$> l).
    { intros l Hl (e1 & E & H1)%list_elem_of_fmap. destruct (chunk_spec _ _ _ _ (Hl _ H1)) as [R1 S1].
      assert (ev_ID e0 = id) by (by eapply row_ID). subst id. rewrite E in Hrow. congruence. }
    apply selected_row_other; apply Hno; [|intros e; apply processed_chunk].
    destruct (ec_isPeriodic cfg); [|apply list_subseteq_nil]. intros e He.
    by apply clusterEvents_exceeded in He as [? _].
  - rewrite map_touch_ID. pose proof (select_NoDup (selectable cfg runInterval baseDate (selectedDelayedEventIds s))
      (Some (Z.to_nat (selectMaxChunkSize cfg))) d) as Hn. fold (chunk baseDate s d) in Hn.
    rewrite <- Hp, fmap_app in Hn. by apply NoDup_app in Hn as [? _].
  - rewrite length_map. pose proof (select_limit (selectable cfg runInterval baseDate (selectedDelayedEventIds s))
      (Z.to_nat (selectMaxChunkSize cfg)) d) as Hn. fold (chunk baseDate s d) in Hn.
    apply Permutation_length in Hp. rewrite length_app in Hp. lia.
Qed.

(** A row touched after the start of the run is not selected by it again, unless
    it has been in progress for longer than the keep-alive limit. *)
Lemma touched_not_selectable baseDate delayed e t :
  ev_lastAttempt e = Some t -> ec_startTime cfg < t -> inProgressLimit cfg baseDate < t ->
  selectable cfg runInterval baseDate delayed e = false.
Proof.
  intros Hl Hs Hi. unfold selectable, attempted_until. rewrite Hl.
  assert (t <=? ec_startTime cfg = false) as -> by (apply Z.leb_gt; lia).
  assert (t <=? inProgressLimit cfg baseDate = false) as -> by (apply Z.leb_gt; lia).
  simpl. by rewrite !andb_false_r.
Qed.

(** One run never processes an event twice: once selected after the start of
    the run, an event is not selected by a later iteration, whatever the iterations
    in between did to its row, as long as they only moved its timestamp forward. *)
Theorem selected_once_per_run baseDate1 now1 s1 (d1 : D) baseDate2 now2 s2 (d2 : D) :
  ec_startTime cfg < now1 -> inProgressLimit cfg baseDate2 < now1 ->
  (forall id e, id ∈ ev_ID <$> (select baseDate1 now1 s1 d1).1.1 -> row id d2 = Some e ->
     exists t, ev_lastAttempt e = Some t /\ now1 <= t) ->
  forall e, e ∈ (select baseDate2 now2 s2 d2).1.1 -> ev_ID e ∉ ev_ID <$> (select baseDate1 now1 s1 d1).1.1.
Proof.
  intros Hs Hi Hts e He Hin. rewrite selection_result in He. apply list_elem_of_fmap in He as (e0 & -> & He).
  rewrite touch_ID in Hin. apply open_processed, processed_chunk, chunk_spec in He as [Hrow Hsel].
  destruct (Hts _ _ Hin Hrow) as (t & Ht & Hle).
  rewrite (touched_not_selectable baseDate2 _ e0 t) in Hsel; [discriminate|done|lia|lia].
Qed.
End selection_props.

(** The last run of a periodic event: rows of other namespaces count as well. *)
Lemma last_run_of_any_namespace {D} `{EventTableLaws D} cfg (d : D) id e t :
  row id d = Some e -> ev_type e = ec_type cfg -> ev_subType e = ec_subType cfg -> has_status Done e = true ->
  ev_lastAttempt e = Some t -> exists t', selectLastSuccessfulPeriodicTimestamp cfg d = Some t' /\ t <= t'.
Proof.
  intros Hr Ht Hs Hd Hl. unfold selectLastSuccessfulPeriodicTimestamp.
  match goal with |- context [select_rows ?p None d] => destruct (select_complete p None d id e Hr) as [Hin|(m & Hm & _)] end;
    [by rewrite Ht, Hs, Hd, !bool_decide_true | | discriminate].
  assert (G : forall l acc, (e ∈ l \/ exists a, acc = Some a /\ t <= a) -> exists t',
    fold_left (fun acc e => match ev_lastAttempt e, acc with
                            | Some t, Some a => Some (Z.max a t) | Some t, None => Some t | None, _ => acc end) l acc = Some t' /\ t <= t').
  { induction l as [|x l IH]; intros acc [Hx|(a & -> & Ha)]; simpl; [by apply elem_of_nil in Hx | eauto | |].
    - apply IH. apply elem_of_cons in Hx as [<-|Hx]; [right | by left]. rewrite Hl. destruct acc; eexists; split; [done|lia|done|lia].
    - apply IH. right. destruct (ev_lastAttempt x); eexists; split; [done|lia|done|lia]. }
  apply G. by left.
Qed.

(** ** Witnesses *)

(** Row [a] is due and open, [b] is done, [c] belongs to another namespace. *)
Definition demoTable : memRows :=
  {[ "a" := demoRow "a" 0 0 5; "b" := demoRow "b" 2 1 6 ]}.
Definition demoSelect (baseDate now : Z) (d : memRows) :=
  getQueueEntriesAndSetToInProgress demoISO (demoEventConfig isolated) None 1500000 baseDate now
    (newInstance [] newScheduler) d.

Lemma selection_correct_witness :
  (forall e, e ∈ (demoSelect 2000 2001 demoTable).1.1 -> exists e0, row (ev_ID e) demoTable = Some e0) /\
  ev_ID <$> (demoSelect 2000 2001 demoTable).1.1 = ["a"] /\
  row "a" (demoSelect 2000 2001 demoTable).2 = Some (set_in_progress 2001 (demoRow "a" 0 0 5)).
Proof.
  destruct (selection_correct demoISO (demoEventConfig isolated) None 1500000 2000 2001
              (newInstance [] newScheduler) demoTable) as (H1 & _).
  split_and!; [|vm_compute; reflexivity|vm_compute; reflexivity].
  intros e He. destruct (H1 e He) as (e0 & Hr & _). exists e0. exact Hr.
Defined.

Lemma selected_once_per_run_witness :
  ev_ID <$> (demoSelect 2000 2001 demoTable).1.1 = ["a"] /\
  forall e, e ∈ (demoSelect 3000 3001 (demoSelect 2000 2001 demoTable).2).1.1 ->
    ev_ID e ∉ ev_ID <$> (demoSelect 2000 2001 demoTable).1.1.
Proof.
  split; [vm_compute; reflexivity|].
  apply (selected_once_per_run demoISO (demoEventConfig isolated) None 1500000 2000 2001
           (newInstance [] newScheduler) demoTable 3000 3001 (newInstance [] newScheduler)
           (demoSelect 2000 2001 demoTable).2).
  - vm_compute. reflexivity.
  - vm_compute. reflexivity.
  - intros id e Hid Hrow. assert (id = "a") as ->.
    { assert (E : ev_ID <$> (demoSelect 2000 2001 demoTable).1.1 = ["a"]) by (vm_compute; reflexivity).
      apply list_elem_of_singleton. rewrite <- E. exact Hid. }
    assert (e = set_in_progress 2001 (demoRow "a" 0 0 5)) as -> by (vm_compute in Hrow; vm_compute; congruence).
    exists 2001. split; [reflexivity | lia].
Defined.

(** The limit on failing exceeded-hooks is tested for equality: an event whose
    attempts are past [retryAttempts + 3] (its process died after the selection that
    reached the limit) is treated as merely exceeded again, and its hook is invoked
    without bound. *)
Theorem hook_limit_can_be_skipped cfg runInterval l ref e :
  e ∈ l -> retryAttempts cfg + TRIES_FOR_EXCEEDED_EVENTS < ev_attempts e ->
  e ∈ cl_exceededTries (clusterEvents cfg runInterval l ref).
Proof.
  intros He Ha. apply clusterEvents_exceeded. split; [done|]. unfold is_exceeded, is_hook_exceeded.
  unfold TRIES_FOR_EXCEEDED_EVENTS in *.
  assert (ev_attempts e =? retryAttempts cfg + 3 = false) as -> by (apply Z.eqb_neq; lia).
  simpl. apply Z.leb_le. lia.
Qed.

Lemma hook_limit_can_be_skipped_witness :
  demoRow "a" 1 6 5 ∈
    cl_exceededTries (clusterEvents (demoEventConfig isolated) 1500000 [demoRow "a" 1 6 5] 2000).
Proof.
  apply (hook_limit_can_be_skipped (demoEventConfig isolated) 1500000 [demoRow "a" 1 6 5] 2000 (demoRow "a" 1 6 5));
    [left | reflexivity].
Defined.
