(* ===== verification/Exceeded.v ===== *)
(** * Events whose retries are exceeded ([EventQueueProcessorBase.js])

    [modifyQueueEntry], [handleExceededEvents] with the application's hook, and the
    fate of an event that keeps failing.  The hook and [JSON.parse] are parameters;
    [W] is the business data the hook works on. *)

From S2P Require Import Prelude Js Errors Common Scheduling Database Processor Selection.
#[local] Open Scope Z_scope.

Section exceeded.
Context {D W : Type} {ET : EventTable D}.
Context (toISOString : Z -> string) (toString stringify : jsval -> string)
  (dateParse : string -> option Z) (stackOf : jsval -> string) (jsonParse : jsval -> option jsval).
Context (cfg : eventConfig) (tenant : option string).
Context (hookForExceededEvents : event -> W -> W * option jsval).

(** [modifyQueueEntry(queueEntry)]: what [JSON.parse] rejects stays as it is. *)
Definition modifyQueueEntry (e : event) : event :=
  let e := match jsonParse (ev_payload e) with Some p => with_payload p e | None => e end in
  match jsonParse (ev_context e) with Some c => with_context c e | None => e end.

(** [#persistEventQueueStatusForExceeded(tx, events, status)] *)
Definition persistEventQueueStatusForExceeded (now : Z) (events : list event) (st : EventProcessingStatus)
    (s : pstate) (d : D) : pstate * D * option jsval :=
  let tuple := JArr (map (fun e => JArr [JStr (ev_ID e); jcode st]) events) in
  let '(s, m) := setEventStatus toString cfg events tuple true s in
  persistEventStatus toISOString toString stringify dateParse stackOf cfg tenant now true (Some m) s d.

(** A transaction whose callback changes the instance as well: the instance keeps
    its changes whatever becomes of the transaction. *)
Definition in_new_tx (fin : tx_end) (fn : pstate -> D * W -> pstate * (D * W) * option jsval)
    (s : pstate) (db : D * W) : pstate * (D * W) * option jsval :=
  let '(s', db', exn) := fn s db in
  match new_tx fin (fun _ => (db', false, match exn with Some e => Err e | None => Ok tt end)) db with
  | (db'', Ok _) => (s', db'', None)
  | (db'', Err e) => (s', db'', Some e)
  end.

Definition persist_exceeded_tx (now : Z) (events : list event) (st : EventProcessingStatus)
    (s : pstate) (db : D * W) : pstate * (D * W) * option jsval :=
  let '(s', d', exn) := persistEventQueueStatusForExceeded now events st s db.1 in
  (s', (d', db.2), exn).

(** [#handleExceededTriesExceeded()] *)
Definition handleExceededTriesExceeded (now : Z) (fin : tx_end) (s : pstate) (db : D * W)
    : pstate * (D * W) * option jsval :=
  match exceededTriesExceeded s with
  | [] => (s, db, None)
  | es => in_new_tx fin (persist_exceeded_tx now es Exceeded) s db
  end.

(** One event of [handleExceededEvents]: hook and status in one transaction; if the
    hook throws, that transaction is rolled back and the event fails in another
    one. *)
Definition handleExceededEvent (now : Z) (fin fin2 : tx_end) (e : event) (s : pstate) (db : D * W)
    : pstate * (D * W) * option jsval :=
  let e := modifyQueueEntry e in
  let '(w', hookError) := hookForExceededEvents e db.2 in
  let '(s1, db1, exn) :=
    match hookError with
    | Some err => (s, (db.1, w'), Some err)
    | None => persist_exceeded_tx now [e] Exceeded s (db.1, w')
    end in
  match exn with
  | None =>
    match new_tx fin (fun _ => (db1, false, Ok tt)) db with
    | (db2, Ok _) => (s1, db2, None)
    | (db2, Err err) => (s1, db2, Some err)
    end
  | Some _ => in_new_tx fin2 (persist_exceeded_tx now [e] Error) s1 db
  end.

Fixpoint handle_exceeded_loop (now : Z) (fins : list (tx_end * tx_end)) (es : list event) (s : pstate)
    (db : D * W) : pstate * (D * W) * option jsval :=
  match es with
  | [] => (s, db, None)
  | e :: r =>
    let '(fin, fin2) := default (clean_end, clean_end) (head fins) in
    match handleExceededEvent now fin fin2 e s db with
    | (s', db', None) => handle_exceeded_loop now (tail fins) r s' db'
    | failed => failed
    end
  end.

(** [handleExceededEvents()]; [fins] says how the transactions of each event end. *)
Definition handleExceededEvents (now : Z) (fin : tx_end) (fins : list (tx_end * tx_end)) (s : pstate)
    (db : D * W) : pstate * (D * W) * option jsval :=
  match handleExceededTriesExceeded now fin s db with
  | (s', db', None) => handle_exceeded_loop now fins (eventsWithExceededTries s') s' db'
  | failed => failed
  end.

Lemma modifyQueueEntry_ID e : ev_ID (modifyQueueEntry e) = ev_ID e.
Proof. unfold modifyQueueEntry. repeat case_goal; reflexivity. Qed.
End exceeded.

(** ** Properties *)

(** The map built for a list of events reports the status for each of them. *)
Lemma exceeded_map toString events st (m : obj jsval) :
  (forall id v, oget id m = Some v -> v = JObj [("status", jcode st)]) ->
  exists m', add_tuples toString (map (fun e => JArr [JStr (ev_ID e); jcode st]) events) m = (m', None) /\
    (forall id v, oget id m' = Some v -> v = JObj [("status", jcode st)]) /\
    (forall id, is_Some (oget id m') <-> is_Some (oget id m) \/ id ∈ ev_ID <$> events) /\
    (NoDup (okeys m) -> NoDup (okeys m')).
Proof.
  revert m. induction events as [|e events IH]; intros m Hm; csimpl.
  - exists m. split_and!; auto. intros id. rewrite elem_of_nil. tauto.
  - assert (Hstep : exists m1, determineAndAddEventStatusToMap (ev_ID e) (jcode st) JUndef m = Ok m1 /\
      (m1 = m /\ is_Some (oget (ev_ID e) m) \/ m1 = oset (ev_ID e) (JObj [("status", jcode st)]) m)).
    { unfold determineAndAddEventStatusToMap. simpl. unfold prop.
      destruct (oget (ev_ID e) m) as [v|] eqn:E; [|simpl; eauto].
      rewrite (Hm _ _ E). simpl. repeat case_goal; eauto 8. }
    destruct Hstep as (m1 & -> & Hm1). destruct (IH m1) as (m' & -> & H1 & H2 & H3).
    { destruct Hm1 as [[-> _]| ->]; [done|]. intros id v. rewrite oget_oset. case_decide; [congruence|eauto]. }
    exists m'. split_and!; auto.
    + intros id. rewrite H2, elem_of_cons. destruct Hm1 as [[-> Hs]| ->]; [naive_solver|].
      rewrite oget_oset. case_decide; naive_solver.
    + intros Hn. apply H3. destruct Hm1 as [[-> _]| ->]; auto with evq.
Qed.

Section exceeded_props.
Context {D W : Type} {ET : EventTable D} {EL : EventTableLaws D}.
Context (toISOString : Z -> string) (toString stringify : jsval -> string)
  (dateParse : string -> option Z) (stackOf : jsval -> string) (jsonParse : jsval -> option jsval).
Context (cfg : eventConfig) (tenant : option string).
Context (hook : event -> W -> W * option jsval).

Abbreviation persist_exceeded :=
  (persistEventQueueStatusForExceeded toISOString toString stringify dateParse stackOf cfg tenant).
Abbreviation handle := (handleExceededEvents toISOString toString stringify dateParse stackOf jsonParse cfg tenant hook).
Abbreviation handle_one := (handleExceededEvent toISOString toString stringify dateParse stackOf jsonParse cfg tenant hook).

(** The status a persist for exceeded events writes. *)
Definition exceeded_status (s : pstate) (events : list event) (st : EventProcessingStatus) (id : string)
    : option EventProcessingStatus :=
  if bool_decide (id ∈ ev_ID <$> events) && ohas id (selectedEventMap s) then Some st else None.

Lemma persist_exceeded_spec now events st s (d : D) :
  nextSagaEvents s = [] -> st = Exceeded \/ st = Error ->
  exists s' d', persist_exceeded now events st s d = (s', d', None) /\
    rows_updated now (exceeded_status s events st) d d' /\
    commits_recorded (exceeded_status s events st) s s'.
Proof.
  intros Hs Hst. unfold persistEventQueueStatusForExceeded, setEventStatus. rewrite orb_true_r.
  unfold status_from_tuple. simpl.
  destruct (exceeded_map toString events st [] ltac:(done)) as (m & -> & H1 & H2 & H3).
  assert (Hn : NoDup (okeys m)) by (apply H3; constructor).
  assert (Hv : valid_map m).
  { apply valid_map_iff; [done|]. intros id v E. rewrite (H1 _ _ E). done. }
  destruct (persist_own_spec toISOString toString stringify dateParse stackOf cfg tenant now m s d Hn Hv Hs)
    as (s' & d' & E & Hr & Hc).
  assert (Heq : forall id, reported_status (selectedEventMap s) m id = exceeded_status s events st id).
  { intros id. unfold reported_status, exceeded_status. destruct (oget id m) as [v|] eqn:G.
    - rewrite (H1 _ _ G), bool_decide_true; [|destruct (H2 id) as [H _]; destruct H as [[? ?]|]; eauto; done].
      simpl. destruct (ohas id (selectedEventMap s)); [|done]. by destruct Hst as [-> | ->].
    - rewrite bool_decide_false; [done|]. intros Hin. destruct (proj2 (H2 id) (or_intror Hin)). congruence. }
  exists s', d'. split; [done|]. split.
  - intros id. specialize (Hr id). by rewrite Heq in Hr.
  - destruct Hc as (C1 & C2 & C3). split; [done|]. split; [done|]. intros id. by rewrite C3, Heq.
Qed.

Lemma exceeded_status_modify s e st :
  exceeded_status s [modifyQueueEntry jsonParse e] st = exceeded_status s [e] st.
Proof.
  unfold exceeded_status. csimpl. by rewrite modifyQueueEntry_ID.
Qed.

(** C33. An exceeded event is handled in one transaction: if the application's hook
    succeeds, its changes are committed together with the status exceeded; if it
    throws, they are rolled back and the event is set to error, to be retried. *)
Theorem exceeded_hook_atomic now e s (d : D) (w : W) :
  nextSagaEvents s = [] ->
  let e' := modifyQueueEntry jsonParse e in
  let st := if (hook e' w).2 then Error else Exceeded in
  exists s' d',
    handle_one now clean_end clean_end e s (d, w) =
      (s', (d', if (hook e' w).2 then w else (hook e' w).1), None) /\
    rows_updated now (exceeded_status s [e] st) d d' /\
    commits_recorded (exceeded_status s [e] st) s s'.
Proof.
  intros Hs. simpl. unfold handleExceededEvent. cbn [snd fst].
  set (e' := modifyQueueEntry jsonParse e). destruct (hook e' w) as [w' [err|]] eqn:E; cbn [snd fst].
  - unfold in_new_tx, persist_exceeded_tx. cbn [fst snd].
    destruct (persist_exceeded_spec now [e'] Error s d Hs) as (s' & d' & -> & Hr & Hc); [auto|].
    exists s', d'. unfold e' in Hr, Hc. rewrite exceeded_status_modify in Hr. rewrite exceeded_status_modify in Hc. done.
  - unfold persist_exceeded_tx. cbn [fst snd].
    destruct (persist_exceeded_spec now [e'] Exceeded s d Hs) as (s' & d' & -> & Hr & Hc); [auto|].
    exists s', d'. unfold e' in Hr, Hc. rewrite exceeded_status_modify in Hr. rewrite exceeded_status_modify in Hc. done.
Qed.

(** An event whose hook failed as often as allowed is given up: a run that
    selects it sets it to exceeded without invoking the hook. *)
Theorem hook_failures_end baseDate now1 now2 runInterval delayed sched (d : D) (w : W) e :
  let s := newInstance delayed sched in
  let sel := getQueueEntriesAndSetToInProgress toISOString cfg tenant runInterval baseDate now1 s d in
  e ∈ chunk cfg runInterval baseDate s d ->
  ev_attempts e = retryAttempts cfg + TRIES_FOR_EXCEEDED_EVENTS ->
  exists s' d' e',
    handleExceededTriesExceeded toISOString toString stringify dateParse stackOf cfg tenant
      now2 clean_end sel.1.2 (sel.2, w) = (s', (d', w), None) /\
    row (ev_ID e) d' = Some e' /\ persisted now2 Exceeded (set_in_progress now1 e) e'.
Proof.
  intros s sel He Ha.
  assert (Hx : e ∈ cl_exceededTriesExceeded (chunk_clusters cfg runInterval baseDate s d)).
  { unfold chunk_clusters, clusterEvents.
    destruct (cluster_fold cfg (clusterRefDate runInterval (refDateStartAfter runInterval baseDate))
                (chunk cfg runInterval baseDate s d) (mkClusters [] [] [] [])) as (_ & _ & -> & _).
    simpl. apply list_elem_of_filter. split; [|done]. by apply Z.eqb_eq. }
  assert (Hp : e ∈ chunk_processed cfg runInterval baseDate s d)
    by (unfold chunk_processed, eventsForProcessing; rewrite !elem_of_app; auto).
  assert (Hne : chunk_processed cfg runInterval baseDate s d <> []) by (intros E; rewrite E in Hp; by apply elem_of_nil in Hp).
  destruct (selection_exceeded toISOString cfg tenant runInterval baseDate now1 s d Hne eq_refl eq_refl) as [_ Hxx].
  destruct (selection_instance toISOString cfg tenant runInterval baseDate now1 s d Hne)
    as (_ & _ & _ & _ & Hsel & _ & _ & _ & Hsaga & _). fold sel in Hxx, Hsel, Hsaga.
  unfold handleExceededTriesExceeded. rewrite Hxx.
  destruct (map _ (cl_exceededTriesExceeded _)) as [|e1 l1] eqn:M.
  { apply map_eq_nil in M. rewrite M in Hx. by apply elem_of_nil in Hx. }
  rewrite <- M. set (events := map (touch now1) _).
  unfold in_new_tx, persist_exceeded_tx. cbn [fst snd].
  destruct (persist_exceeded_spec now2 events Exceeded sel.1.2 sel.2) as (s' & d' & -> & Hr & _); [done|auto|].
  specialize (Hr (ev_ID e)). unfold exceeded_status in Hr.
  rewrite bool_decide_true in Hr; [|unfold events; rewrite map_touch_ID; apply list_elem_of_fmap; eauto].
  rewrite (proj2 (Hsel (ev_ID e))) in Hr by (apply list_elem_of_fmap; eauto). simpl in Hr.
  assert (Hrow : row (ev_ID e) sel.2 = Some (set_in_progress now1 e)) by (by apply processed_row).
  rewrite Hrow in Hr. destruct Hr as (e' & He' & Hpe). exists s', d', e'. done.
Qed.
End exceeded_props.

Lemma exceeded_hook_atomic_witness :
  exists s' d',
    handleExceededEvent demoISO demoToString demoStringify demoParse demoStack (fun _ => None)
      (demoEventConfig isolated) None (fun _ (w : Z) => (w + 1, Some (JErr "Error" "no")))
      2000 clean_end clean_end (demoRow "a" 1 3 5) demoSelected (demoDb, 7) = (s', (d', 7), None) /\
    rows_updated 2000 (exceeded_status demoSelected [demoRow "a" 1 3 5] Error) demoDb d'.
Proof.
  destruct (exceeded_hook_atomic demoISO demoToString demoStringify demoParse demoStack (fun _ => None)
      (demoEventConfig isolated) None (fun _ (w : Z) => (w + 1, Some (JErr "Error" "no")))
      2000 (demoRow "a" 1 3 5) demoSelected demoDb 7 eq_refl) as (s' & d' & E & Hr & _).
  exists s', d'. split; [exact E | exact Hr].
Defined.

Lemma hook_failures_end_witness :
  let d : memRows := {[ "a" := demoRow "a" 0 5 5 ]} in
  let sel := getQueueEntriesAndSetToInProgress demoISO (demoEventConfig isolated) None 1500000 2000 2001
               (newInstance [] newScheduler) d in
  exists s' d' e',
    handleExceededTriesExceeded demoISO demoToString demoStringify demoParse demoStack
      (demoEventConfig isolated) None 2002 clean_end sel.1.2 (sel.2, tt) = (s', (d', tt), None) /\
    row "a" d' = Some e' /\ persisted 2002 Exceeded (set_in_progress 2001 (demoRow "a" 0 5 5)) e'.
Proof.
  apply (hook_failures_end demoISO demoToString demoStringify demoParse demoStack (demoEventConfig isolated) None
           2000 2001 2002 1500000 [] newScheduler {[ "a" := demoRow "a" 0 5 5 ]} tt (demoRow "a" 0 5 5)).
  - assert (E : chunk (demoEventConfig isolated) 1500000 2000 (newInstance [] newScheduler)
                  ({[ "a" := demoRow "a" 0 5 5 ]} : memRows) = [demoRow "a" 0 5 5]) by (vm_compute; reflexivity).
    rewrite E. left.
  - reflexivity.
Defined.
