(* ===== verification/KeepAlive.v ===== *)
(** * Locks and keep-alive of a processor ([EventQueueProcessorBase.js])

    [acquireDistributedLock], [#renewDistributedLock], [handleReleaseLock], and the
    keep-alive that renews the timestamps of the events in progress and detects
    events that were changed by somebody else. *)

From S2P Require Import Prelude Js Errors Common Scheduling DistributedLock Database Processor Selection Exceeded.
#[local] Open Scope Z_scope.

(** ** The processor's lock *)

Section locks.
Context {R T : Type} `{RedisClient R} `{LockTable T}.
Context (lcfg : lockConfig) (cfg : eventConfig) (tenant : option string).

(** The lock service, [__lockAcquired] and [eventConfig.lockAcquiredTime]. *)
Record lockState := mkLockState {
  lk_service : lstate R T;
  lk_acquired : bool;
  lk_time : Z }.

(** [acquireDistributedLock()] *)
Definition acquireDistributedLock (now : Z) (l : lockState) : lockState * bool :=
  if ec_multiInstance cfg then (l, true)
  else
    let '(svc, ok) := acquireLock lcfg now tenant
                        (join hash2 [ec_namespace cfg; ec_type cfg; ec_subType cfg]) true
                        (keepAliveMaxMs cfg) true true (lk_service l) in
    (mkLockState svc (lk_acquired l || ok) (lk_time l), ok).

(** [#renewDistributedLock()] *)
Definition renewDistributedLock (now : Z) (l : lockState) : lockState * bool :=
  if ec_multiInstance cfg then (l, true)
  else
    let '(svc, ok) := renewLock lcfg now tenant (join hash2 [ec_type cfg; ec_subType cfg]) true
                        (keepAliveMaxMs cfg) (lk_service l) in
    (mkLockState svc (lk_acquired l) (if ok then now else lk_time l), ok).

(** [handleReleaseLock()] *)
Definition handleReleaseLock (now : Z) (l : lockState) : lockState :=
  if negb (lk_acquired l) then l
  else mkLockState (releaseLock lcfg now tenant (join hash2 [ec_namespace cfg; ec_type cfg; ec_subType cfg])
                      true true (lk_service l)).1 (lk_acquired l) (lk_time l).

(** The part of [continuesKeepAlive()] before the timer is started. *)
Definition renew_between_iterations (now : Z) (l : lockState) : lockState :=
  if ec_keepAliveInterval cfg * 1000 <=? now - lk_time l then (renewDistributedLock now l).1 else l.
End locks.
Arguments lockState : clear implicits.

(** ** The keep-alive tick *)

Section keepalive.
Context {D : Type} {ET : EventTable D}.

(** [isOutdatedAndKeepAlive()] *)
Definition isOutdatedAndKeepAlive (s : pstate) : bool := keepAliveViolated s.

(** [etag !== event.lastAttemptTimestamp] *)
Definition etag_matches (s : pstate) (e : event) : bool :=
  bool_decide (oget (ev_ID e) (etagMap s) = Some (ev_lastAttempt e)).

(** The loop over the selected events: the ids that are still valid, the outdated
    events, and the instance with the new etags. *)
Fixpoint check_etags (newTs : Z) (events : list event) (s : pstate) : list string * list event * pstate :=
  match events with
  | [] => ([], [], s)
  | e :: r =>
    if etag_matches s e then
      let '(valid, outdated, s') :=
        check_etags newTs r (set_etagMap (oset (ev_ID e) (Some newTs) (etagMap s)) s) in
      (ev_ID e :: valid, outdated, s')
    else
      let '(valid, outdated, s') := check_etags newTs r (set_keepAliveViolated true s) in
      (valid, e :: outdated, s')
  end.

(** Outdated events leave [__queueEntriesMap] and enter [__outdatedEventMap]. *)
Definition drop_outdated (outdated : list event) (s : pstate) : pstate :=
  fold_left (fun s e =>
    set_outdatedEventMap (oset (ev_ID e) 1 (outdatedEventMap s))
      (set_queueEntriesMap (odel (ev_ID e) (queueEntriesMap s)) s)) outdated s.

(** The callback of the keep-alive timer within its transaction, without the
    renewal of the lock: the instance, the table, and the events of the
    [succeeded] handler if one is registered. *)
Definition keepAlive_tick (now : Z) (s : pstate) (d : D) : pstate * D * option (list event) :=
  let ids := ev_ID <$> ovalues (notCommitedStatusMap s) in
  if bool_decide (ids = []) then (s, d, None)
  else if keepAliveViolated s then (s, d, None)
  else
    let events := select_rows (fun e => id_in ids e && has_status InProgress e) None d in
    let '(valid, outdated, s) := check_etags now events s in
    let s := drop_outdated outdated s in
    match valid with
    | [] => (s, d, None)
    | _ => (s, update_rows (id_in valid) (with_lastAttempt (Some now)) d, Some events)
    end.

(** The [succeeded] handler: an etag that still is the old timestamp is replaced. *)
Definition keepAlive_succeeded (newTs : Z) (events : list event) (s : pstate) : pstate :=
  fold_left (fun s e => if etag_matches s e then set_etagMap (oset (ev_ID e) (Some newTs) (etagMap s)) s else s)
    events s.

(** The whole transaction; a failure of the commit is logged by the timer. *)
Definition keepAlive_tx (now : Z) (fin : tx_end) (s : pstate) (d : D) : pstate * D :=
  let '(s', d', handler) := keepAlive_tick now s d in
  match commit_error fin, handler with
  | Some _, _ => (s', d)
  | None, Some events => (keepAlive_succeeded now events s', d')
  | None, None => (s', d')
  end.
End keepalive.

(** The timer callback: the lock is renewed whenever there are events left, then the
    rows are looked at. *)
Definition keepAlive {R T D} `{RedisClient R} `{LockTable T} `{EventTable D} (lcfg : lockConfig)
    (cfg : eventConfig) (tenant : option string) (now : Z) (fin : tx_end)
    (st : lockState R T * pstate * D) : lockState R T * pstate * D :=
  let '(l, s, d) := st in
  let l := if bool_decide (ev_ID <$> ovalues (notCommitedStatusMap s) = []) then l
           else (renewDistributedLock lcfg cfg tenant now l).1 in
  let '(s', d') := keepAlive_tx now fin s d in (l, s', d').

(** ** Properties *)

Section keepalive_props.
Context {D : Type} {ET : EventTable D} {EL : EventTableLaws D}.

(** The events of the instance that are in progress on the database. *)
Definition guarded (s : pstate) (d : D) (e : event) : Prop :=
  row (ev_ID e) d = Some e /\ ev_ID e ∈ ev_ID <$> ovalues (notCommitedStatusMap s) /\
  ev_status e = status_code InProgress.

(** Every guarded row carries the timestamp the instance gave it. *)
Definition synced (s : pstate) (d : D) : Prop :=
  keepAliveViolated s = false /\ forall e, guarded s d e -> oget (ev_ID e) (etagMap s) = Some (ev_lastAttempt e).

Definition tick_events (s : pstate) (d : D) : list event :=
  select_rows (fun e => id_in (ev_ID <$> ovalues (notCommitedStatusMap s)) e && has_status InProgress e) None d.

Lemma tick_events_spec s (d : D) e : e ∈ tick_events s d <-> guarded s d e.
Proof.
  unfold tick_events, guarded. split.
  - intros [Hr Hp]%select_sound. zbool. unfold id_in, has_status in *. zbool.
    repeat split; auto. by eapply bool_decide_eq_true.
  - intros (Hr & Hin & Hst). edestruct (select_complete (D := D)) as [Hs|(m & Hm & _)];
      [exact Hr| |exact Hs|discriminate].
    simpl. unfold id_in, has_status. rewrite bool_decide_true by done. simpl. by apply Z.eqb_eq.
Qed.

Lemma check_etags_valid newTs events s :
  NoDup (ev_ID <$> events) ->
  (forall e, e ∈ events -> oget (ev_ID e) (etagMap s) = Some (ev_lastAttempt e)) ->
  exists m, check_etags newTs events s = (ev_ID <$> events, [], set_etagMap m s) /\
    forall id, oget id m = if decide (id ∈ ev_ID <$> events) then Some (Some newTs) else oget id (etagMap s).
Proof.
  revert s. induction events as [|e events IH]; intros s Hn He; csimpl.
  - exists (etagMap s). split; [by destruct s|done].
  - apply NoDup_cons in Hn as [Hne Hn]. unfold etag_matches.
    rewrite bool_decide_true by (apply He; left).
    destruct (IH (set_etagMap (oset (ev_ID e) (Some newTs) (etagMap s)) s)) as (m & -> & Hm); [done| |].
    { intros e' He'. simpl. rewrite oget_oset_ne; [apply He; by right|]. intros E. apply Hne. rewrite E.
      apply list_elem_of_fmap. eauto. }
    exists m. split; [done|]. intros id. rewrite Hm. simpl. rewrite oget_oset.
    repeat case_decide; rewrite ?elem_of_cons in *; subst; naive_solver.
Qed.

Lemma keepAlive_succeeded_same newTs events s :
  (forall e, e ∈ events -> oget (ev_ID e) (etagMap s) = Some (Some newTs)) ->
  exists m, keepAlive_succeeded newTs events s = set_etagMap m s /\ forall id, oget id m = oget id (etagMap s).
Proof.
  unfold keepAlive_succeeded. revert s. induction events as [|e events IH]; intros s He; simpl.
  - exists (etagMap s). by destruct s.
  - destruct (etag_matches s e); [|apply IH; intros; apply He; by right].
    assert (Hsame : forall id, oget id (oset (ev_ID e) (Some newTs) (etagMap s)) = oget id (etagMap s)).
    { intros id. rewrite oget_oset. case_decide; subst; [|done]. symmetry. apply He. left. }
    destruct (IH (set_etagMap (oset (ev_ID e) (Some newTs) (etagMap s)) s)) as (m & -> & Hm).
    { intros e' He'. simpl. rewrite Hsame. apply He. by right. }
    exists m. split; [done|]. intros id. rewrite Hm. simpl. apply Hsame.
Qed.

Lemma tick_events_NoDup s (d : D) : NoDup (ev_ID <$> tick_events s d).
Proof. apply select_NoDup. Qed.

Lemma no_ids_no_guarded s (d : D) e : ev_ID <$> ovalues (notCommitedStatusMap s) = [] -> guarded s d e -> False.
Proof. intros E (_ & Hin & _). rewrite E in Hin. by apply elem_of_nil in Hin. Qed.

(** What a tick does to a synced instance. *)
Lemma keepAlive_synced_tick now s (d : D) :
  synced s d ->
  exists m, (forall e, guarded s d e -> oget (ev_ID e) m = Some (Some now)) /\
    (forall fin, (keepAlive_tx now fin s d).1 = set_etagMap (etagMap (keepAlive_tx now fin s d).1) s /\
                 forall id, oget id (etagMap (keepAlive_tx now fin s d).1) = oget id m) /\
    forall id, row id (keepAlive_tx now clean_end s d).2 =
      if decide (id ∈ ev_ID <$> tick_events s d) then with_lastAttempt (Some now) <$> row id d else row id d.
Proof.
  intros [Hv Hs]. unfold keepAlive_tx, keepAlive_tick. rewrite Hv. fold (tick_events s d).
  case_bool_decide as Hids.
  - exists (etagMap s). split_and!.
    + intros e He. by destruct (no_ids_no_guarded s d e Hids He).
    + intros fin. destruct (commit_error fin); split; [by destruct s|done|by destruct s|done].
    + intros id. simpl. rewrite decide_False; [done|]. intros (e & _ & He%tick_events_spec)%list_elem_of_fmap.
      by eapply no_ids_no_guarded.
  - destruct (check_etags_valid now (tick_events s d) s) as (m & -> & Hm); [apply tick_events_NoDup| |].
    { intros e He. by apply Hs, tick_events_spec. }
    exists m. split_and!.
    + intros e He. rewrite Hm, decide_True; [done|]. apply list_elem_of_fmap. exists e. by rewrite tick_events_spec.
    + intros fin. destruct (tick_events s d) as [|e0 l] eqn:E.
      { destruct (commit_error fin); done. }
      change (ev_ID <$> e0 :: l) with (ev_ID e0 :: (ev_ID <$> l)). cbv beta iota.
      destruct (commit_error fin); [done|].
      edestruct (keepAlive_succeeded_same now (e0 :: l) (drop_outdated [] (set_etagMap m s))) as (m' & -> & Hm').
      { intros e He. simpl. rewrite Hm, decide_True; [done|]. apply list_elem_of_fmap. eauto. }
      done.
    + intros id. destruct (tick_events s d) as [|e0 l] eqn:E; csimpl; [done|].
      rewrite update_ids_row by done. done.
Qed.

(** C32. While nobody else changes its events, the keep-alive keeps them: a tick
    moves the timestamp of every event of the instance that is in progress to now,
    leaves all other rows alone, records the new timestamps, and reports no
    violation; the instance stays in step with the database. *)
Theorem keepAlive_keeps_events now s (d : D) :
  synced s d ->
  let s' := (keepAlive_tx now clean_end s d).1 in
  let d' := (keepAlive_tx now clean_end s d).2 in
  synced s' d' /\
  (forall e, guarded s d e -> row (ev_ID e) d' = Some (with_lastAttempt (Some now) e)) /\
  (forall id e, row id d = Some e -> ~ guarded s d e -> row id d' = Some e).
Proof.
  intros Hsync. destruct (keepAlive_synced_tick now s d Hsync) as (m & Hm & Hst & Hrow). simpl.
  destruct (Hst clean_end) as [Es Eo]. set (s' := (keepAlive_tx now clean_end s d).1) in *.
  set (d' := (keepAlive_tx now clean_end s d).2) in *.
  assert (Hg : forall e, guarded s d e -> row (ev_ID e) d' = Some (with_lastAttempt (Some now) e)).
  { intros e He. rewrite Hrow, decide_True by (apply list_elem_of_fmap; exists e; by rewrite tick_events_spec).
    by rewrite (proj1 He). }
  assert (Hu : forall id e, row id d = Some e -> ~ guarded s d e -> row id d' = Some e).
  { intros id e He Hn. rewrite Hrow, decide_False; [done|]. intros (e1 & -> & H1%tick_events_spec)%list_elem_of_fmap.
    apply Hn. destruct H1 as (H1 & H2 & H3). rewrite H1 in He. injection He as ->. done. }
  split; [|done]. split; [rewrite Es; apply Hsync|].
  intros e' (Hr & Hin & Hi). rewrite Eo. rewrite Es in Hin.
  destruct (row (ev_ID e') d) as [e|] eqn:R.
  - assert (Hid : ev_ID e = ev_ID e') by (by eapply row_ID).
    destruct (decide (ev_status e = status_code InProgress)) as [Hst1|Hst1].
    + assert (G : guarded s d e) by (split_and!; [congruence | by rewrite Hid | done]).
      rewrite <- Hid, (Hm e G). rewrite <- Hid, (Hg e G) in Hr. injection Hr as <-. done.
    + exfalso. assert (Hn : ~ guarded s d e) by (intros (_ & _ & ?); done).
      rewrite (Hu _ _ R Hn) in Hr. by injection Hr as ->.
  - exfalso. rewrite Hrow, R in Hr. by case_decide.
Qed.

Lemma check_etags_outdated newTs events s e :
  NoDup (ev_ID <$> events) -> e ∈ events -> oget (ev_ID e) (etagMap s) <> Some (ev_lastAttempt e) ->
  e ∈ (check_etags newTs events s).1.2 /\ keepAliveViolated (check_etags newTs events s).2 = true /\
  ev_ID e ∉ (check_etags newTs events s).1.1.
Proof.
  revert s. induction events as [|x events IH]; intros s Hn He Hne; [by apply elem_of_nil in He|].
  apply NoDup_cons in Hn as [Hx Hn]. simpl. unfold etag_matches.
  assert (Hmono : forall l s0, keepAliveViolated s0 = true -> keepAliveViolated (check_etags newTs l s0).2 = true).
  { induction l as [|y l IHl]; intros s0 H0; simpl; [done|].
    destruct (etag_matches s0 y); match goal with |- context [check_etags newTs l ?s1] =>
      specialize (IHl s1); destruct (check_etags newTs l s1) as [[? ?] ?] end; auto. }
  assert (Hvalid : forall l s0 id, id ∈ (check_etags newTs l s0).1.1 -> id ∈ ev_ID <$> l).
  { induction l as [|y l IHl]; intros s0 id; csimpl; [done|].
    destruct (etag_matches s0 y); match goal with |- context [check_etags newTs l ?s1] =>
      specialize (IHl s1 id); destruct (check_etags newTs l s1) as [[? ?] ?] end; simpl in *;
      rewrite ?elem_of_cons; tauto. }
  apply elem_of_cons in He as [<-|He].
  - rewrite bool_decide_false by done.
    pose proof (Hmono events (set_keepAliveViolated true s) eq_refl) as M.
    pose proof (Hvalid events (set_keepAliveViolated true s) (ev_ID e)) as V.
    destruct (check_etags newTs events (set_keepAliveViolated true s)) as [[valid outdated] s'].
    simpl in *. split_and!; auto. left.
  - assert (Hxe : ev_ID x <> ev_ID e) by (intros E; apply Hx; rewrite E; apply list_elem_of_fmap; eauto).
    case_bool_decide; (match goal with |- context [check_etags newTs events ?s1] =>
      specialize (IH s1 Hn He); destruct (check_etags newTs events s1) as [[valid outdated] s'] end);
      simpl in *; rewrite ?oget_oset_ne in IH by done; destruct (IH Hne) as (I1 & I2 & I3);
      rewrite ?not_elem_of_cons, ?elem_of_cons; auto.
Qed.

Lemma drop_outdated_spec outdated s :
  keepAliveViolated (drop_outdated outdated s) = keepAliveViolated s /\
  forall id, ohas id (outdatedEventMap (drop_outdated outdated s)) = true <->
    id ∈ ev_ID <$> outdated \/ ohas id (outdatedEventMap s) = true.
Proof.
  unfold drop_outdated. revert s. induction outdated as [|x l IH]; intros s; csimpl.
  - split; [done|]. intros id. rewrite elem_of_nil. tauto.
  - edestruct IH as [-> IH2]. split; [done|]. intros id. rewrite IH2. simpl.
    rewrite !ohas_true, oget_oset, elem_of_cons. case_decide as Hd; subst; [naive_solver|].
    split; [tauto|]. intros [[->|]|]; tauto.
Qed.

(** A row without the instance's timestamp stops the instance. *)
Lemma keepAlive_stops now fin s (d : D) e :
  keepAliveViolated s = false -> guarded s d e ->
  oget (ev_ID e) (etagMap s) <> Some (ev_lastAttempt e) ->
  let s' := (keepAlive_tx now fin s d).1 in
  let d' := (keepAlive_tx now fin s d).2 in
  isOutdatedAndKeepAlive s' = true /\ ohas (ev_ID e) (outdatedEventMap s') = true /\ row (ev_ID e) d' = Some e.
Proof.
  intros Hv Hg Hne. unfold keepAlive_tx, keepAlive_tick, isOutdatedAndKeepAlive. rewrite Hv.
  fold (tick_events s d). rewrite bool_decide_false by (intros E; by eapply no_ids_no_guarded).
  assert (He := proj2 (tick_events_spec s d e) Hg).
  destruct (check_etags_outdated now (tick_events s d) s e (tick_events_NoDup s d) He Hne) as (H1 & H2 & H3).
  destruct (check_etags now (tick_events s d) s) as [[valid outdated] s1]. simpl in H1, H2, H3.
  destruct (drop_outdated_spec outdated s1) as [D1 D2].
  assert (Ho : ohas (ev_ID e) (outdatedEventMap (drop_outdated outdated s1)) = true)
    by (apply D2; left; apply list_elem_of_fmap; eauto).
  assert (Hk : forall ts es s0, keepAliveViolated (keepAlive_succeeded ts es s0) = keepAliveViolated s0 /\
    outdatedEventMap (keepAlive_succeeded ts es s0) = outdatedEventMap s0).
  { intros ts es. unfold keepAlive_succeeded. induction es as [|x es IH]; intros s0; simpl; [done|].
    destruct (etag_matches s0 x); destruct (IH (if etag_matches s0 x then s0 else s0)); auto.
    destruct (IH (set_etagMap (oset (ev_ID x) (Some ts) (etagMap s0)) s0)) as [-> ->]. done. }
  destruct valid as [|v0 valid].
  - destruct (commit_error fin); simpl; split_and!; auto; try congruence; apply Hg.
  - destruct (commit_error fin); simpl.
    + split_and!; auto; [congruence | apply Hg].
    + destruct (Hk now (tick_events s d) (drop_outdated outdated s1)) as [-> ->].
      split_and!; auto; [congruence|]. rewrite update_ids_row by done.
      rewrite decide_False by done. apply Hg.
Qed.

(** The keep-alive notices events that somebody else changed: if the row of an
    event in progress does not carry the instance's timestamp, the tick stops the
    instance, marks the event as outdated and does not touch the row. *)
Theorem keepAlive_detects_takeover now fin s (d : D) e :
  keepAliveViolated s = false -> guarded s d e ->
  oget (ev_ID e) (etagMap s) <> Some (ev_lastAttempt e) ->
  let s' := (keepAlive_tx now fin s d).1 in
  let d' := (keepAlive_tx now fin s d).2 in
  isOutdatedAndKeepAlive s' = true /\ ohas (ev_ID e) (outdatedEventMap s') = true /\ row (ev_ID e) d' = Some e.
Proof. apply keepAlive_stops. Qed.

(** The new timestamps are recorded before the transaction commits: after a
    tick whose commit fails, the next tick takes the instance's own events for
    changed ones and stops the processing. *)
Theorem keepAlive_failed_commit now1 now2 fin1 fin2 err s (d : D) e :
  synced s d -> guarded s d e -> ev_lastAttempt e <> Some now1 -> commit_error fin1 = Some err ->
  let '(s1, d1) := keepAlive_tx now1 fin1 s d in
  d1 = d /\ isOutdatedAndKeepAlive (keepAlive_tx now2 fin2 s1 d1).1 = true.
Proof.
  intros Hsync Hg Hl Hc. destruct (keepAlive_synced_tick now1 s d Hsync) as (m & Hm & Hst & _).
  destruct (Hst fin1) as [Es Eo].
  assert (Hd : (keepAlive_tx now1 fin1 s d).2 = d).
  { unfold keepAlive_tx. destruct (keepAlive_tick now1 s d) as [[? ?] ?]. by rewrite Hc. }
  destruct (keepAlive_tx now1 fin1 s d) as [s1 d1]. simpl in *. subst d1. split; [done|].
  assert (G1 : guarded s1 d e) by (rewrite Es; exact Hg).
  assert (V1 : keepAliveViolated s1 = false) by (rewrite Es; apply Hsync).
  apply (keepAlive_stops now2 fin2 s1 d e V1 G1). rewrite Eo, (Hm e Hg). congruence.
Qed.

(** ** What a tick leaves alone *)

Definition same_chunk (s s' : pstate) : Prop :=
  queueEntries s' = queueEntries s /\ selectedEventMap s' = selectedEventMap s /\
  nextSagaEvents s' = nextSagaEvents s /\ statusMap s' = statusMap s /\
  commitedStatusMap s' = commitedStatusMap s /\ eventProcessingMap s' = eventProcessingMap s.

Lemma same_chunk_trans s1 s2 s3 : same_chunk s1 s2 -> same_chunk s2 s3 -> same_chunk s1 s3.
Proof. intros (?&?&?&?&?&?) (?&?&?&?&?&?). repeat split; congruence. Qed.

Lemma check_etags_same ts l s : same_chunk s (check_etags ts l s).2.
Proof.
  revert s. induction l as [|e l IH]; intros s; simpl; [by repeat split|].
  destruct (etag_matches s e).
  - specialize (IH (set_etagMap (oset (ev_ID e) (Some ts) (etagMap s)) s)).
    destruct (check_etags ts l _) as [[? ?] ?]. exact IH.
  - specialize (IH (set_keepAliveViolated true s)). destruct (check_etags ts l _) as [[? ?] ?]. exact IH.
Qed.

Lemma drop_outdated_same l s : same_chunk s (drop_outdated l s).
Proof.
  unfold drop_outdated. revert s. induction l as [|e l IH]; intros s; simpl; [by repeat split|].
  eapply same_chunk_trans; [|apply IH]. by repeat split.
Qed.

Lemma succeeded_same ts l s : same_chunk s (keepAlive_succeeded ts l s).
Proof.
  unfold keepAlive_succeeded. revert s. induction l as [|e l IH]; intros s; simpl; [by repeat split|].
  eapply same_chunk_trans; [|apply IH]. destruct (etag_matches s e); by repeat split.
Qed.

Lemma keepAlive_tx_same now fin s (d : D) : same_chunk s (keepAlive_tx now fin s d).1.
Proof.
  unfold keepAlive_tx, keepAlive_tick. assert (Hr : same_chunk s s) by (by repeat split).
  case_bool_decide; [by destruct (commit_error fin)|].
  destruct (keepAliveViolated s); [by destruct (commit_error fin)|].
  fold (tick_events s d). pose proof (check_etags_same now (tick_events s d) s) as H1.
  destruct (check_etags now (tick_events s d) s) as [[valid outdated] s1].
  assert (H2 : same_chunk s (drop_outdated outdated s1)) by (eapply same_chunk_trans; [exact H1|apply drop_outdated_same]).
  destruct valid, (commit_error fin); try exact H2.
  eapply same_chunk_trans; [exact H2|apply succeeded_same].
Qed.

(** A tick changes nothing but timestamps on the database. *)
Lemma keepAlive_tx_rows now fin s (d : D) id :
  (fun e => with_lastAttempt None e) <$> row id (keepAlive_tx now fin s d).2 =
  (fun e => with_lastAttempt None e) <$> row id d.
Proof.
  unfold keepAlive_tx, keepAlive_tick. case_bool_decide; [by destruct (commit_error fin)|].
  destruct (keepAliveViolated s); [by destruct (commit_error fin)|].
  fold (tick_events s d). destruct (check_etags now (tick_events s d) s) as [[valid outdated] s1].
  destruct valid, (commit_error fin); simpl; try done.
  rewrite update_row by done. destruct (row id d) as [e|]; simpl; [|done]. by destruct (id_in _ e).
Qed.
End keepalive_props.

(** ** Witnesses *)

(** The instance holds [a], in progress since 1500. *)
Definition demoHeld (etag : Z) : pstate :=
  set_etagMap [("a", Some etag)]
    (set_notCommitedStatusMap [("a", demoRow "a" 0 0 5)] (newInstance [] newScheduler)).
Definition demoHeldRow : event := with_lastAttempt (Some 1500) (demoRow "a" 1 1 5).
Definition demoHeldDb : memRows := {[ "a" := demoHeldRow ]}.

Lemma demoHeld_guarded etag : guarded (demoHeld etag) demoHeldDb demoHeldRow.
Proof. split_and!; [reflexivity | left | reflexivity]. Qed.

Lemma demoHeld_synced : synced (demoHeld 1500) demoHeldDb.
Proof.
  split; [reflexivity|]. intros e (Hr & Hin & _). apply list_elem_of_singleton in Hin as Hid. simpl in Hid.
  rewrite Hid in *. assert (e = demoHeldRow) as -> by (vm_compute in Hr; vm_compute; congruence). reflexivity.
Qed.

Lemma keepAlive_keeps_events_witness :
  row "a" (keepAlive_tx 2500 clean_end (demoHeld 1500) demoHeldDb).2 =
    Some (with_lastAttempt (Some 2500) demoHeldRow).
Proof.
  destruct (keepAlive_keeps_events 2500 (demoHeld 1500) demoHeldDb demoHeld_synced) as (_ & H & _).
  exact (H demoHeldRow (demoHeld_guarded 1500)).
Defined.

Lemma keepAlive_detects_takeover_witness :
  isOutdatedAndKeepAlive (keepAlive_tx 2500 clean_end (demoHeld 1400) demoHeldDb).1 = true.
Proof.
  apply (keepAlive_detects_takeover 2500 clean_end (demoHeld 1400) demoHeldDb demoHeldRow);
    [reflexivity | exact (demoHeld_guarded 1400) | vm_compute; congruence].
Defined.

Lemma keepAlive_failed_commit_witness :
  let '(s1, d1) := keepAlive_tx 2500 (mkTxEnd (Some (JErr "Error" "lost")) None) (demoHeld 1500) demoHeldDb in
  d1 = demoHeldDb /\ isOutdatedAndKeepAlive (keepAlive_tx 3500 clean_end s1 d1).1 = true.
Proof.
  apply (keepAlive_failed_commit 2500 3500 (mkTxEnd (Some (JErr "Error" "lost")) None) clean_end
           (JErr "Error" "lost") (demoHeld 1500) demoHeldDb demoHeldRow);
    [exact demoHeld_synced | exact (demoHeld_guarded 1500) | vm_compute; congruence | reflexivity].
Defined.
