(* ===== verification/ProcessEventQueue.v ===== *)
(** * Processing the event queue ([processEventQueue.js])

    One iteration of [processEventQueue] (selection, preprocessing, exceeded events,
    the clusters of the chunk, the final status), the loop around it, and periodic
    events.  The application's handlers are parameters that work on the business
    data [W].

    The clusters of a chunk run concurrently, at most [parallelEventProcessing] at a
    time (see [Common.limiter]).  Each works in a transaction of its own or, outside
    the isolated mode, on the shared one; the model runs them as a sequence of
    actions, in every order and with keep-alive ticks anywhere in between. *)

From S2P Require Import Prelude Js Errors Common Scheduling DistributedLock Database Processor Selection Exceeded KeepAlive.
#[local] Open Scope Z_scope.

Section process.
Context {D W : Type} {ET : EventTable D}.
Context (toISOString : Z -> string) (toString stringify : jsval -> string)
  (dateParse : string -> option Z) (stackOf : jsval -> string) (jsonParse : jsval -> option jsval).
Context (cfg : eventConfig) (tenant : option string) (runInterval : Z).

(** The application's handlers.  [processEvent] returns the business data it
    leaves, whether it called [setShouldRollbackTransaction(key)], and what it
    returns or throws. *)
Context (checkEventAndGeneratePayload : event -> W -> result jsval jsval)
  (processEvent : string -> list event -> jsval -> W -> W * bool * result jsval jsval)
  (hookForExceededEvents : event -> W -> W * option jsval)
  (beforeProcessingEvents : W -> option jsval).

Abbreviation persist := (persistEventStatus toISOString toString stringify dateParse stackOf cfg tenant).

(** ** Preprocessing *)

(** The body of the loop over the selected entries. *)
Definition preprocess_entry (w : W) (s : pstate) (e : event) : pstate :=
  let e := modifyQueueEntry jsonParse e in
  match checkEventAndGeneratePayload e w with
  | Err err => (handleErrorDuringProcessing err [e] s).1
  | Ok JNull => setStatusToDone e s
  | Ok JUndef => handleInvalidPayloadReturned e s
  | Ok payload => addEventWithPayloadForProcessing e payload s
  end.

(** The transaction [eventQueue-pre-processing]: the selection commits in a
    transaction of its own, everything else is rolled back. *)
Definition preprocess (baseDate now : Z) (fin : tx_end) (s : pstate) (db : D * W)
    : pstate * (D * W) * option jsval :=
  let '(result, s1, d1) :=
    getQueueEntriesAndSetToInProgress toISOString cfg tenant runInterval baseDate now s db.1 in
  match new_tx fin (fun _ => ((d1, db.2), false, Ok tt)) db with
  | (db', Err err) => (s1, db', Some err)
  | (db', Ok _) => (fold_left (preprocess_entry db'.2) result s1, db', None)
  end.

(** ** One cluster *)

(** [setShouldRollbackTransaction(key)] *)
Definition setShouldRollbackTransaction (key : string) (s : pstate) : pstate :=
  set_txRollback (oset key true (txRollback s)) s.

(** [_processEvent(instance, processContext, key, queueEntries, payload)]: the
    instance, the business data of the transaction and the status map. *)
Definition processEvent_ (key : string) (entries : list event) (payload : jsval) (s : pstate) (w : W)
    : pstate * W * obj jsval :=
  if isOutdatedAndKeepAlive s then (s, w, [])
  else
    let '(w', rollback, r) := processEvent key entries payload w in
    let s := if rollback then setShouldRollbackTransaction key s else s in
    match r with
    | Ok tuple => let '(s', m) := setEventStatus toString cfg entries tuple false s in (s', w', m)
    | Err err => let '(s', m) := handleErrorDuringProcessing err entries s in (s', w', m)
    end.

Definition shouldRollbackTransaction (key : string) (s : pstate) : bool :=
  default false (oget key (txRollback s)).

(** [_commitStatusInNewTx(instance, statusMap)] *)
Definition commitStatusInNewTx (now : Z) (fin : tx_end) (m : obj jsval) (s : pstate) (db : D * W)
    : pstate * (D * W) * option jsval :=
  in_new_tx fin (fun s db => let '(s', d', exn) := persist now true (Some m) s db.1 in (s', (d', db.2), exn)) s db.

(** The iterator of [processEventMap] in isolated mode: [fin] ends the transaction
    of the event, [fin2] the one that only writes the status. *)
Definition process_isolated (now : Z) (fin fin2 : tx_end) (key : string) (entries : list event)
    (payload : jsval) (s : pstate) (db : D * W) : pstate * (D * W) * option jsval :=
  let '(s1, w1, m) := processEvent_ key entries payload s db.2 in
  let '(m1, containsError) := statusMapContainsError m in
  match containsError with
  | Err err => (s1, db, Some err)
  | Ok hasError =>
    if hasError || shouldRollbackTransaction key s1 then commitStatusInNewTx now fin2 m1 s1 db
    else
      let '(s2, d2, exn) := persist now true (Some m1) s1 db.1 in
      match new_tx fin (fun _ => ((d2, w1), false, match exn with Some e => Err e | None => Ok tt end)) db with
      | (db', Ok _) => (s2, db', None)
      | (db', Err err) => (s2, db', Some err)
      end
  end.

(** The iterator in the other modes: the shared transaction. *)
Definition process_shared (key : string) (entries : list event) (payload : jsval) (s : pstate) (db : D * W)
    : pstate * (D * W) * option jsval :=
  let '(s1, w1, _) := processEvent_ key entries payload s db.2 in (s1, (db.1, w1), None).

(** ** The clusters of a chunk *)

Inductive action :=
| RunCluster (now : Z) (fin fin2 : tx_end) (key : string)
| Tick (now : Z) (fin : tx_end).

Definition run_action (a : action) (st : pstate * (D * W) * list jsval) : pstate * (D * W) * list jsval :=
  let '(s, db, rejected) := st in
  match a with
  | Tick now fin => let '(s', d') := keepAlive_tx now fin s db.1 in (s', (d', db.2), rejected)
  | RunCluster now fin fin2 key =>
    match oget key (eventProcessingMap s) with
    | None => st
    | Some (entries, payload) =>
      let '(s', db', exn) :=
        if commitOnEventLevel cfg then process_isolated now fin fin2 key entries payload s db
        else process_shared key entries payload s db in
      (s', db', rejected ++ match exn with Some e => [e] | None => [] end)
    end
  end.

(** [processEventMap(instance)] over the actions in the order they happen; the
    rejections of the clusters reach [handleErrorTx] once all have settled. *)
Definition processEventMap (acts : list action) (s : pstate) (db : D * W)
    : pstate * (D * W) * option jsval :=
  match beforeProcessingEvents db.2 with
  | Some err => (s, db, Some err)
  | None =>
    let '(s', db', rejected) := fold_left (fun st a => run_action a st) acts (s, db, []) in
    ((match rejected with [] => s' | _ => handleErrorTx s' end), db', None)
  end.

(** The transaction [eventQueue-processing]: it is rolled back unless the mode is
    [alwaysCommit] and no cluster asked for a rollback.  In isolated mode the
    clusters' own transactions have already committed. *)
Definition process_chunk (acts : list action) (fin : tx_end) (s : pstate) (db : D * W)
    : pstate * (D * W) * option jsval :=
  match queueEntriesWithPayloadMap s with
  | [] => (s, db, None)
  | _ =>
    let s := clusterQueueEntries s in
    let '(s1, db1, exn) := processEventMap acts s db in
    let s1 := match exn with Some _ => handleErrorDuringClustering s1 | None => s1 end in
    let rollback := negb (bool_decide (transactionMode cfg = alwaysCommit)) ||
                    existsb (fun key => shouldRollbackTransaction key s1) (okeys (eventProcessingMap s1)) in
    if commitOnEventLevel cfg then (s1, db1, None)
    else
      match new_tx fin (fun _ => (db1, rollback, Ok tt)) db with
      | (db', Ok _) => (s1, (db1.1, db'.2), None)
      | (db', Err err) => (s1, (db1.1, db'.2), Some err)
      end
  end.

(** ** One iteration *)

(** The times and transaction ends of an iteration, and the actions of its chunk. *)
Record iteration := mkIteration {
  it_base : Z; it_select : Z; it_exceeded : Z; it_persist : Z; it_end : Z;
  it_selectEnd : tx_end; it_exceededEnd : tx_end; it_exceededEnds : list (tx_end * tx_end);
  it_acts : list action; it_chunkEnd : tx_end; it_persistEnd : tx_end }.

(** The body of the loop of [processEventQueue] with its transactions, for a processor that
    leaves [nextSagaEvents] unset ([OutboxHandler] has the one that sets it).  An action of
    the chunk is the whole of one cluster, its handler and the persisting of its status. *)
Definition process_iteration (i : iteration) (delayed : list string) (sched : scheduler) (db : D * W)
    : pstate * (D * W) * option jsval :=
  match preprocess (it_base i) (it_select i) (it_selectEnd i) (newInstance delayed sched) db with
  | (s1, db1, None) =>
    match handleExceededEvents toISOString toString stringify dateParse stackOf jsonParse cfg tenant
            hookForExceededEvents (it_exceeded i) (it_exceededEnd i) (it_exceededEnds i) s1 db1 with
    | (s2, db2, None) =>
      match process_chunk (it_acts i) (it_chunkEnd i) s2 db2 with
      | (s3, db3, None) =>
        in_new_tx (it_persistEnd i)
          (fun s db => let '(s', d', exn) := persist (it_persist i) false None s db.1 in (s', (d', db.2), exn))
          s3 db3
      | failed => failed
      end
    | failed => failed
    end
  | failed => failed
  end.

(** [logTimeExceededAndPublishContinue(iterationCounter)] at [now]: the rest of the events
    is scheduled in five seconds. *)
Definition logTimeExceededAndPublishContinue (now : Z) (s : pstate) : pstate :=
  set_schedulerInstance
    (scheduleEvent toISOString now (combinationOf cfg tenant (ec_namespace cfg)) (now + 5000) (schedulerInstance s)) s.

(** [reevaluateShouldContinue(instance, iterationCounter, startTime)] at [now]. *)
Definition reevaluateShouldContinue (now : Z) (s : pstate) : bool * pstate :=
  if negb (ec_checkForNextChunk cfg) then (false, s)
  else if emptyChunkSelected s then (false, s)
  else if now <? ec_startTime cfg + runInterval then (true, s)
  else (false, logTimeExceededAndPublishContinue now s).

(** The [while] loop of [processEventQueue]: the instances of the iterations that ran, the
    state and whether the loop came to its end within the given iterations. *)
Fixpoint process_loop (its : list iteration) (delayed : list string) (sched : scheduler) (db : D * W)
    : list pstate * (D * W) * scheduler * bool :=
  match its with
  | [] => ([], db, sched, false)
  | i :: r =>
    let '(s, db', exn) := process_iteration i delayed sched db in
    match exn with
    | Some _ => ([s], db', schedulerInstance s, true)
    | None =>
      let '(continue, s') := reevaluateShouldContinue (it_end i) s in
      if continue then
        let '(instances, db'', sched', fin) := process_loop r (selectedDelayedEventIds s') (schedulerInstance s') db' in
        (s' :: instances, db'', sched', fin)
      else ([s'], db', schedulerInstance s', true)
    end
  end.
End process.

(** ** processEventQueue *)

(** [_checkEventIsBlocked(baseInstance)]: the application's callback, which may throw,
    then the tenant, then the assignment of the event to this application. *)
Definition checkEventIsBlocked (isEventBlockedCb : option (result jsval bool))
    (isTenantUnsubscribed shouldBeProcessedInThisApplication : bool) : bool :=
  let blocked := match isEventBlockedCb with
                 | None => false
                 | Some (Ok b) => b
                 | Some (Err _) => true
                 end in
  let blocked := if blocked then blocked else isTenantUnsubscribed in
  if blocked then blocked else negb shouldBeProcessedInThisApplication.

(** [eventConfig.startTime = startTime] *)
Definition with_startTime (startTime : Z) (c : eventConfig) : eventConfig :=
  mkEventConfig (ec_type c) (ec_subType c) (ec_namespace c) (ec_isPeriodic c) (ec_parallel c) (ec_multiInstance c)
    (ec_retryAttempts c) (ec_selectMaxChunkSize c) (ec_checkForNextChunk c) (ec_transactionMode c) (ec_keepAliveInterval c)
    (ec_keepAliveMaxInProgressTime c) (ec_retryFailedAfter c) (ec_retryOpenAfter c) (ec_interval c) (ec_cron c) (ec_tz c)
    (ec_randomOffset c) (ec_lastSuccessfulRunTimestamp c) startTime.

Section run.
Context {R T : Type} `{RedisClient R} `{LockTable T}.
Context (lcfg : lockConfig) (cfg : eventConfig) (tenant : option string).

(** The frame of [processEventQueue(context, eventType, eventSubType, namespace)] for
    an event that is not periodic: [implementation] says that the configuration and
    the class were found, [body] is the loop, which starts at [start] and is over at
    [end_]. *)
Definition processEventQueue {A} (implementation blocked : bool) (start end_ : Z) (idle : A) (body : unit -> A)
    (l : lockState R T) : lockState R T * A * bool :=
  if negb implementation then (l, idle, false)
  else if blocked then (handleReleaseLock lcfg cfg tenant end_ l, idle, false)
  else
    let '(l', ok) := acquireDistributedLock lcfg cfg tenant start l in
    if negb ok then (handleReleaseLock lcfg cfg tenant end_ l', idle, false)
    else (handleReleaseLock lcfg cfg tenant end_ (mkLockState (lk_service l') (lk_acquired l') start), body tt, true).
End run.

(** ** No event is left in progress *)

(** The statuses a processed row may have. *)
Definition final_row (e : event) : Prop :=
  exists st, st ∈ [Open; Done; Error; Exceeded] /\ ev_status e = status_code st.

Section invariants.
Context {D W : Type} {ET : EventTable D} {EL : EventTableLaws D}.
Context (toISOString : Z -> string) (toString stringify : jsval -> string)
  (dateParse : string -> option Z) (stackOf : jsval -> string).
Context (cfg : eventConfig) (tenant : option string).

(** Every event recorded as committed has a final status on the database. *)
Definition committed_final (s : pstate) (d : D) : Prop :=
  forall id e, ohas id (commitedStatusMap s) = true -> row id d = Some e -> final_row e.

(** Rows do not disappear. *)
Definition rows_kept (d d' : D) : Prop := forall id, is_Some (row id d) -> is_Some (row id d').

Lemma rows_kept_update p f (d : D) : (forall e, ev_ID (f e) = ev_ID e) -> rows_kept d (update_rows p f d).
Proof. intros Hf id [e He]. rewrite update_row, He by done. simpl. eauto. Qed.

Lemma rows_kept_refl (d : D) : rows_kept d d.
Proof. intros id. done. Qed.

Lemma rows_kept_trans (d1 d2 d3 : D) : rows_kept d1 d2 -> rows_kept d2 d3 -> rows_kept d1 d3.
Proof. intros H1 H2 id Hi. auto. Qed.

Definition allowed_group (g : obj jsval * list string) : Prop := allowed_status (JObj g.1) = true.

Lemma set_columns_final data now ts e :
  allowed_status (JObj data) = true ->
  final_row (set_columns (prepare_data stringify dateParse stackOf cfg now data) ts e).
Proof.
  unfold allowed_status. simpl. intros (st & Hin & Hst)%status_in_code. exists st. split; [done|].
  unfold set_columns. rewrite prepare_status, Hst. unfold set_attempts_column, set_error_column, set_startAfter_column.
  simpl. generalize (prop (prepare_data stringify dateParse stackOf cfg now data) "startAfter").
  intros sa. set (e1 := match sa with JDate (Some t) => _ | JNull => _ | _ => _ end).
  assert (E1 : ev_status e1 = status_code st) by (destruct sa as [| | | | | | |[?|]| | |]; reflexivity).
  clearbody e1. destruct (is_undefined _); repeat case_goal; exact E1.
Qed.

Lemma persist_groups_any now ts gs s (d : D) :
  Forall allowed_group gs ->
  let '(s', d', exn) := persist_groups toISOString stringify dateParse stackOf cfg tenant now ts gs s d in
  same_selection s s' /\ statusMap s' = statusMap s /\ rows_kept d d' /\
  (exn = None -> committed_final s d -> committed_final s' d').
Proof.
  revert s d. induction gs as [|[data ids] gs IH]; intros s d Hg; simpl.
  { split_and!; auto using rows_kept_refl. repeat split. }
  apply Forall_cons in Hg as [Ha Hg]. unfold persist_group.
  assert (Hh : ohas "status" data = true).
  { unfold allowed_group, allowed_status, status_of, prop in Ha. simpl in Ha. unfold ohas.
    by destruct (oget "status" data). }
  rewrite Hh. simpl. unfold schedule_retry.
  set (s1 := mark_committed ids (prop data "status") s).
  set (d1 := update_rows (id_in ids) (set_columns (prepare_data stringify dateParse stackOf cfg now data) ts) d).
  assert (Hc1 : committed_final s d -> committed_final s1 d1).
  { intros Hc id e. unfold s1, d1, mark_committed. simpl. rewrite ohas_true, oget_fold_set.
    rewrite update_ids_row by apply set_columns_ID. case_decide as Hid.
    - intros _. destruct (row id d); [|done]. intros [= <-]. by apply set_columns_final.
    - intros Ho. apply Hc. by apply ohas_true. }
  assert (Hk : rows_kept d d1) by (apply rows_kept_update, set_columns_ID).
  assert (Hgo : forall s2, same_selection s s2 -> statusMap s2 = statusMap s ->
    (committed_final s d -> committed_final s2 d1) ->
    let '(s', d', exn) := persist_groups toISOString stringify dateParse stackOf cfg tenant now ts gs s2 d1 in
    same_selection s s' /\ statusMap s' = statusMap s /\ rows_kept d d' /\
    (exn = None -> committed_final s d -> committed_final s' d')).
  { intros s2 S2 M2 C2. specialize (IH s2 d1 Hg).
    destruct (persist_groups _ _ _ _ _ _ now ts gs s2 d1) as [[s' d'] exn]. destruct IH as (I1 & I2 & I3 & I4).
    split_and!; auto; [|congruence|by eapply rows_kept_trans].
    destruct S2 as (?&?&?&?&?&?&?&?&?&?), I1 as (?&?&?&?&?&?&?&?&?&?). repeat split; congruence. }
  destruct (negb _); [apply (Hgo s1); auto; repeat split|].
  destruct (prop _ "startAfter") as [| | | | | | |[t|]| | |]; try (apply (Hgo _); auto; repeat split);
    split_and!; try done; try (repeat split); apply rows_kept_refl.
Qed.

Lemma allowed_groups m :
  NoDup (okeys m) -> Forall allowed_group (ovalues (group_updates toString (ensureEveryStatusIsAllowed m))).
Proof.
  intros Hn. apply Forall_forall. intros [d0 ids] Hin. unfold ovalues in Hin.
  apply list_elem_of_fmap in Hin as ([key [d1 i1]] & E & Hin). simpl in E. injection E as -> ->.
  apply elem_of_oget in Hin; [|apply NoDup_group_updates].
  destruct (group_updates_sound toString _ _ _ _ Hin) as (_ & (id0 & v0 & H0 & Hf) & _).
  apply elem_of_oget in H0; [|by apply NoDup_allowed]. rewrite oget_ensureAllowed in H0 by done.
  destruct (oget id0 m) as [v|]; [|done]. destruct (allowed_status v) eqn:A; [|done]. injection H0 as ->.
  destruct v0; try discriminate A. simpl in Hf. by subst.
Qed.

(** Persisting an arbitrary map: whatever it holds, the shared map and the
    selection stay, and if nothing is thrown, what is recorded as committed is
    final. *)
Lemma persist_any now m s (d : D) :
  NoDup (okeys m) -> nextSagaEvents s = [] ->
  let '(s', d', exn) := persistEventStatus toISOString toString stringify dateParse stackOf cfg tenant
                          now true (Some m) s d in
  same_selection s s' /\ statusMap s' = statusMap s /\ rows_kept d d' /\
  (exn = None -> committed_final s d -> committed_final s' d').
Proof.
  intros Hn Hs. unfold persistEventStatus. simpl.
  assert (Hn1 := normalize_loop_NoDup m m Hn). fold (normalizeStatusMap m) in Hn1.
  destruct (normalizeStatusMap m) as [m1 [e|]]; simpl in Hn1.
  { split_and!; [by repeat split|done|apply rows_kept_refl|done]. }
  set (m2 := ensureOnlySelectedQueueEntries _ m1). unfold write_status.
  assert (Hg := allowed_groups m2 (NoDup_selected _ _ Hn1)).
  destruct (group_updates toString (ensureEveryStatusIsAllowed m2)) as [|g gs].
  { split_and!; [by repeat split|done|apply rows_kept_refl|done]. }
  pose proof (persist_groups_any now now (ovalues (g :: gs)) s d Hg) as HG.
  destruct (persist_groups _ _ _ _ _ _ now now (ovalues (g :: gs)) s d) as [[s' d'] [e|]]; [done|].
  unfold insert_saga. destruct HG as (G1 & G2 & G3 & G4).
  assert (nextSagaEvents s' = []) as -> by (destruct G1 as (_&_&_&G&_); congruence). done.
Qed.
End invariants.

(** The shared status map of an isolated run only holds what the processor itself
    puts there. *)
Definition internal_entry (v : jsval) : Prop :=
  exists o st, v = JObj o /\ st ∈ [Done; Error] /\ prop o "status" = jcode st /\ oget "startAfter" o = None.
Definition internal_map (m : obj jsval) : Prop :=
  NoDup (okeys m) /\ forall id v, oget id m = Some v -> internal_entry v.

Lemma internal_add_status id st error m :
  st ∈ [Done; Error] -> internal_map m -> internal_map (add_status id st error m).
Proof.
  intros Hst [Hn Hm]. split; [by apply add_status_NoDup|]. intros id' v.
  destruct (add_status_shape id st error m) as [-> | (o & -> & Ho & Hsa)]; [apply Hm|].
  rewrite oget_oset. case_decide; [|apply Hm]. intros [= <-]. by exists o, st.
Qed.

Lemma internal_add_all ids st error m :
  st ∈ [Done; Error] -> internal_map m -> internal_map (add_all ids st error m).
Proof.
  intros Hst. unfold add_all. revert m. induction ids as [|i ids IH]; intros m Hm; simpl; [done|].
  apply IH. by apply internal_add_status.
Qed.

Lemma internal_valid m : internal_map m -> valid_map m.
Proof.
  intros [Hn Hm]. apply valid_map_iff; [done|]. intros id v E.
  destruct (Hm _ _ E) as (o & st & -> & _ & _ & Hsa). simpl. unfold prop. by rewrite Hsa.
Qed.

Lemma add_status_mono id st error m id' : is_Some (oget id' m) -> is_Some (oget id' (add_status id st error m)).
Proof.
  intros H. destruct (add_status_shape id st error m) as [-> | (o & -> & _)]; [done|].
  rewrite oget_oset. case_decide; eauto.
Qed.

Lemma internal_add_has id st error m :
  internal_map m -> is_Some (oget id (add_status id st error m)).
Proof.
  intros [Hn Hm]. destruct (oget id m) as [v|] eqn:E; [apply add_status_mono; eauto|].
  unfold add_status, determineAndAddEventStatusToMap. simpl. unfold prop. rewrite E.
  destruct (truthy error); simpl; rewrite oget_oset, decide_True by done; eauto.
Qed.

Lemma internal_add_all_has ids st error m id :
  st ∈ [Done; Error] -> internal_map m -> id ∈ ids -> is_Some (oget id (add_all ids st error m)).
Proof.
  intros Hst. unfold add_all. revert m. induction ids as [|i ids IH]; intros m Hm Hin; [by apply elem_of_nil in Hin|].
  simpl. apply elem_of_cons in Hin as [->|Hin]; [|apply IH; auto using internal_add_status].
  assert (G : forall l m, is_Some (oget i m) -> is_Some (oget i (fold_left (fun m x => add_status x st error m) l m))).
  { induction l as [|x l IHl]; intros m0 H0; simpl; [done|]. apply IHl. by apply add_status_mono. }
  apply G. by apply internal_add_has.
Qed.

Section iteration_props.
Context {D W : Type} {ET : EventTable D} {EL : EventTableLaws D}.
Context (toISOString : Z -> string) (toString stringify : jsval -> string)
  (dateParse : string -> option Z) (stackOf : jsval -> string) (jsonParse : jsval -> option jsval).
Context (cfg : eventConfig) (tenant : option string) (runInterval : Z).
Context (check : event -> W -> result jsval jsval)
  (processEvent : string -> list event -> jsval -> W -> W * bool * result jsval jsval)
  (hook : event -> W -> W * option jsval) (before : W -> option jsval).

(** What holds while the clusters of a chunk run: the chunk is fixed, the shared map
    is internal, its rows are there, and as long as no cluster was rejected, what
    was committed is final. *)
Definition chunk_inv (qe : list event) (sel : obj event) (s : pstate) (d : D) (rejected : list jsval) : Prop :=
  queueEntries s = qe /\ selectedEventMap s = sel /\ nextSagaEvents s = [] /\ internal_map (statusMap s) /\
  (forall e, e ∈ qe -> is_Some (row (ev_ID e) d)) /\
  (rejected = [] -> committed_final s d).

Lemma chunk_inv_same qe sel s s' d d' rejected rejected' :
  chunk_inv qe sel s d rejected -> same_selection s s' -> internal_map (statusMap s') ->
  rows_kept d d' -> (rejected' = [] -> rejected = [] -> committed_final s' d') -> (rejected' = [] -> rejected = []) ->
  chunk_inv qe sel s' d' rejected'.
Proof.
  intros (I1 & I2 & I3 & I4 & I5 & I6) (S1 & S2 & _ & S4 & _) Hm Hk Hc Hr.
  split_and!; auto; congruence.
Qed.

Lemma add_tuples_NoDup l m : NoDup (okeys m) -> NoDup (okeys (add_tuples toString l m).1).
Proof.
  revert m. induction l as [|v l IH]; intros m Hn; simpl; [done|].
  destruct (destructure_entry v) as [[a b]|e]; simpl; [|done].
  destruct (determineAndAddEventStatusToMap _ b JUndef m) as [m'|e] eqn:E; [|done]. apply IH.
  revert E. unfold determineAndAddEventStatusToMap. simpl. repeat case_goal; intros [= <-]; auto with evq.
Qed.

Lemma add_all_NoDup ids st error m : NoDup (okeys m) -> NoDup (okeys (add_all ids st error m)).
Proof.
  unfold add_all. revert m. induction ids as [|i ids IH]; intros m Hn; simpl; [done|].
  apply IH. by apply add_status_NoDup.
Qed.

Lemma status_from_tuple_NoDup entries tuple m :
  NoDup (okeys m) -> NoDup (okeys (status_from_tuple toString entries tuple m)).
Proof.
  intros Hn. unfold status_from_tuple. destruct (negb (truthy tuple)); [by apply add_all_NoDup|].
  destruct tuple; try (by apply add_all_NoDup). pose proof (add_tuples_NoDup l m Hn) as Ha.
  destruct (add_tuples toString l m) as [m' [e|]]; [by apply add_all_NoDup | done].
Qed.

(** The handler of a cluster in isolated mode: a map of its own, and at most errors
    in the shared map. *)
Lemma processEvent_isolated key entries payload s w :
  commitOnEventLevel cfg = true -> internal_map (statusMap s) ->
  let '(s', w', m) := processEvent_ toString cfg processEvent key entries payload s w in
  same_selection s s' /\ internal_map (statusMap s') /\ NoDup (okeys m) /\
  commitedStatusMap s' = commitedStatusMap s.
Proof.
  intros Hi Hm. unfold processEvent_, isOutdatedAndKeepAlive.
  destruct (keepAliveViolated s); [split_and!; auto; [by repeat split|constructor]|].
  destruct (processEvent key entries payload w) as [[w' rb] [tuple|err]].
  - unfold setEventStatus. rewrite Hi. simpl.
    split_and!; [destruct rb; by repeat split | by destruct rb | | by destruct rb].
    apply status_from_tuple_NoDup. constructor.
  - unfold handleErrorDuringProcessing. split_and!.
    + destruct rb; by repeat split.
    + destruct rb; simpl; (apply internal_add_all; [right; left | done]).
    + assert (G : forall (l : list event) (m : obj jsval), NoDup (okeys m) -> NoDup (okeys
        (fold_left (fun m e => oset (ev_ID e) (JObj [("status", jcode Error); ("error", err)]) m) l m)));
        [|apply G; constructor].
      induction l as [|e l IH]; intros m0 H0; simpl; auto with evq.
    + by destruct rb.
Qed.

Lemma same_selection_trans s1 s2 s3 : same_selection s1 s2 -> same_selection s2 s3 -> same_selection s1 s3.
Proof. intros (?&?&?&?&?&?&?&?&?&?) (?&?&?&?&?&?&?&?&?&?). repeat split; congruence. Qed.

Abbreviation isolated_step :=
  (process_isolated toISOString toString stringify dateParse stackOf cfg tenant processEvent).

Lemma commitStatus_inv now fin m s (db : D * W) :
  NoDup (okeys m) -> nextSagaEvents s = [] ->
  let '(s', db', exn) := commitStatusInNewTx toISOString toString stringify dateParse stackOf cfg tenant now fin m s db in
  same_selection s s' /\ statusMap s' = statusMap s /\ rows_kept db.1 db'.1 /\
  (exn = None -> committed_final s db.1 -> committed_final s' db'.1).
Proof.
  intros Hn Hs. unfold commitStatusInNewTx, in_new_tx.
  pose proof (persist_any toISOString toString stringify dateParse stackOf cfg tenant now m s db.1 Hn Hs) as P.
  destruct (persistEventStatus _ _ _ _ _ _ _ now true (Some m) s db.1) as [[s' d'] [e|]];
    destruct P as (P1 & P2 & P3 & P4); unfold new_tx, executeInNewTransaction; simpl.
  - split_and!; auto using rows_kept_refl. done.
  - destruct (commit_error fin); simpl; split_and!; auto using rows_kept_refl. done.
Qed.

Lemma process_isolated_inv qe sel now fin fin2 key entries payload s (db : D * W) rejected :
  commitOnEventLevel cfg = true -> chunk_inv qe sel s db.1 rejected ->
  let '(s', db', exn) := isolated_step now fin fin2 key entries payload s db in
  chunk_inv qe sel s' db'.1 (rejected ++ match exn with Some e => [e] | None => [] end).
Proof.
  intros Hi Hinv. assert (Hinv' := Hinv). destruct Hinv' as (I1 & I2 & I3 & I4 & I5 & I6).
  unfold process_isolated.
  pose proof (processEvent_isolated key entries payload s db.2 Hi I4) as P.
  destruct (processEvent_ toString cfg processEvent key entries payload s db.2) as [[s1 w1] m].
  destruct P as (P1 & P2 & P3 & P4).
  assert (Hs1 : nextSagaEvents s1 = []) by (destruct P1 as (_&_&_&?&_); congruence).
  assert (Hc1 : committed_final s db.1 -> committed_final s1 db.1)
    by (intros Hc id e; rewrite P4; apply Hc).
  assert (Hn1 := normalize_loop_NoDup m m P3). unfold statusMapContainsError. fold (normalizeStatusMap m) in Hn1.
  destruct (normalizeStatusMap m) as [m1 [err|]]; simpl in Hn1.
  { eapply chunk_inv_same; eauto using rows_kept_refl; intros E; by destruct rejected. }
  destruct (existsb _ _ || _).
  - pose proof (commitStatus_inv now fin2 m1 s1 db Hn1 Hs1) as C.
    destruct (commitStatusInNewTx _ _ _ _ _ _ _ now fin2 m1 s1 db) as [[s' db'] exn].
    destruct C as (C1 & C2 & C3 & C4).
    eapply chunk_inv_same; [exact Hinv|by eapply same_selection_trans|by rewrite C2|done| |].
    + intros E Hr. apply app_eq_nil in E as [_ E]. destruct exn; [done|]. auto.
    + intros E. by apply app_eq_nil in E as [? _].
  - pose proof (persist_any toISOString toString stringify dateParse stackOf cfg tenant now m1 s1 db.1 Hn1 Hs1) as C.
    destruct (persistEventStatus _ _ _ _ _ _ _ now true (Some m1) s1 db.1) as [[s2 d2] exn].
    destruct C as (C1 & C2 & C3 & C4). unfold new_tx, executeInNewTransaction. simpl.
    destruct exn as [err|]; [|destruct (commit_error fin) as [err|]]; simpl;
      (eapply chunk_inv_same; [exact Hinv|by eapply same_selection_trans|by rewrite C2|auto using rows_kept_refl| |]);
      try (intros E; apply app_eq_nil in E as [? E]; try discriminate E; auto).
Qed.


(** ** Any sequence of actions *)

Lemma same_status_rows (d d' : D) :
  (forall id, (fun e => with_lastAttempt None e) <$> row id d' = (fun e => with_lastAttempt None e) <$> row id d) ->
  rows_kept d d' /\ forall id e', row id d' = Some e' -> exists e, row id d = Some e /\ ev_status e' = ev_status e.
Proof.
  intros Hd. split.
  - intros id [e He]. specialize (Hd id). rewrite He in Hd. destruct (row id d'); [eauto|discriminate].
  - intros id e' He'. specialize (Hd id). rewrite He' in Hd. destruct (row id d) as [e|]; [|discriminate].
    exists e. split; [done|]. injection Hd. congruence.
Qed.

Lemma tick_inv qe sel now fin s (d : D) rejected :
  chunk_inv qe sel s d rejected ->
  chunk_inv qe sel (keepAlive_tx now fin s d).1 (keepAlive_tx now fin s d).2 rejected.
Proof.
  intros (I1 & I2 & I3 & I4 & I5 & I6).
  destruct (keepAlive_tx_same now fin s d) as (S1 & S2 & S3 & S4 & S5 & _).
  destruct (same_status_rows d (keepAlive_tx now fin s d).2 (keepAlive_tx_rows now fin s d)) as [Hk Hs].
  split_and!; try congruence; auto.
  intros Hr id e Ho Hrow. destruct (Hs _ _ Hrow) as (e0 & R0 & E0).
  destruct (I6 Hr id e0) as (st & Hst & Ec); [by rewrite <- S5|done|]. exists st. split; [done|congruence].
Qed.

Abbreviation action_step := (run_action toISOString toString stringify dateParse stackOf cfg tenant processEvent).

Lemma run_action_inv qe sel a s (db : D * W) rejected :
  commitOnEventLevel cfg = true -> chunk_inv qe sel s db.1 rejected ->
  let '(s', db', rejected') := action_step a (s, db, rejected) in chunk_inv qe sel s' db'.1 rejected'.
Proof.
  intros Hi Hinv. unfold run_action. destruct a as [now fin fin2 key|now fin].
  - destruct (oget key (eventProcessingMap s)) as [[entries payload]|]; [|done]. rewrite Hi.
    pose proof (process_isolated_inv qe sel now fin fin2 key entries payload s db rejected Hi Hinv) as P.
    destruct (isolated_step now fin fin2 key entries payload s db) as [[s' db'] exn]. exact P.
  - pose proof (tick_inv qe sel now fin s db.1 rejected Hinv) as P.
    by destruct (keepAlive_tx now fin s db.1) as [s' d'].
Qed.

Lemma run_actions_inv qe sel acts s (db : D * W) rejected :
  commitOnEventLevel cfg = true -> chunk_inv qe sel s db.1 rejected ->
  let '(s', db', rejected') := fold_left (fun st a => action_step a st) acts (s, db, rejected) in
  chunk_inv qe sel s' db'.1 rejected'.
Proof.
  intros Hi. revert s db rejected. induction acts as [|a acts IH]; intros s db rejected Hinv; [done|].
  cbn [fold_left]. pose proof (run_action_inv qe sel a s db rejected Hi Hinv) as P.
  destruct (action_step a (s, db, rejected)) as [[s1 db1] r1]. by apply IH.
Qed.

(** What holds when the final statuses are written: every entry has a status in the
    shared map, or what was committed is final. *)
Definition end_inv (qe : list event) (sel : obj event) (s : pstate) (d : D) : Prop :=
  queueEntries s = qe /\ selectedEventMap s = sel /\ nextSagaEvents s = [] /\ internal_map (statusMap s) /\
  (forall e, e ∈ qe -> is_Some (row (ev_ID e) d)) /\
  ((forall e, e ∈ qe -> ohas (ev_ID e) (statusMap s) = true) \/ committed_final s d).

Lemma fail_all_inv qe sel s (d : D) rejected :
  chunk_inv qe sel s d rejected ->
  end_inv qe sel (set_statusMap (add_all (ev_ID <$> queueEntries s) Error JUndef (statusMap s)) s) d.
Proof.
  intros (I1 & I2 & I3 & I4 & I5 & I6). split_and!; auto; simpl.
  - apply internal_add_all; [right; left|done].
  - left. intros e He. apply ohas_true. apply internal_add_all_has; [right; left|done|].
    rewrite I1. apply list_elem_of_fmap. eauto.
Qed.

Lemma chunk_end_inv qe sel s (d : D) : chunk_inv qe sel s d [] -> end_inv qe sel s d.
Proof. intros (I1 & I2 & I3 & I4 & I5 & I6). split_and!; auto. Qed.

Lemma process_chunk_inv qe sel acts fin s (db : D * W) :
  commitOnEventLevel cfg = true -> chunk_inv qe sel s db.1 [] ->
  exists s' db', process_chunk toISOString toString stringify dateParse stackOf cfg tenant processEvent before
      acts fin s db = (s', db', None) /\ end_inv qe sel s' db'.1.
Proof.
  intros Hi Hinv. unfold process_chunk.
  destruct (queueEntriesWithPayloadMap s) as [|kv kvs] eqn:Q; [eexists _, _; split; [done|by apply chunk_end_inv]|].
  assert (Hc : chunk_inv qe sel (clusterQueueEntries s) db.1 []).
  { assert (G : forall l s, exists m, fold_left (fun s kv => addEntryToProcessingMap kv.1 kv.2.1 kv.2.2 s) l s =
      set_eventProcessingMap m s).
    { induction l as [|x l IH]; intros s0; simpl; [exists (eventProcessingMap s0); by destruct s0|].
      destruct (IH (addEntryToProcessingMap x.1 x.2.1 x.2.2 s0)) as [m ->]. exists m.
      unfold addEntryToProcessingMap. by destruct (default _ _). }
    unfold clusterQueueEntries. destruct (G (queueEntriesWithPayloadMap s) s) as [m ->].
    destruct Hinv as (?&?&?&?&?&?). split_and!; auto. }
  unfold processEventMap. destruct (before db.2) as [err|].
  { rewrite Hi. eexists _, _. split; [done|]. by eapply fail_all_inv. }
  pose proof (run_actions_inv qe sel acts (clusterQueueEntries s) db [] Hi Hc) as P.
  destruct (fold_left _ acts (clusterQueueEntries s, db, [])) as [[s1 db1] rejected]. rewrite Hi.
  eexists _, _. split; [done|]. destruct rejected; [by apply chunk_end_inv | by eapply fail_all_inv].
Qed.

(** ** Before the chunk *)

Lemma preprocess_entry_inv qe sel w s e (d : D) rejected :
  chunk_inv qe sel s d rejected ->
  chunk_inv qe sel (preprocess_entry jsonParse check w s e) d rejected.
Proof.
  intros (I1 & I2 & I3 & I4 & I5 & I6). unfold preprocess_entry. set (e' := modifyQueueEntry jsonParse e).
  assert (Hd : forall st error ids, st ∈ [Done; Error] ->
    chunk_inv qe sel (set_statusMap (add_all ids st error (statusMap s)) s) d rejected).
  { intros st error ids Hst. split_and!; auto. by apply internal_add_all. }
  destruct (check e' w) as [v|err]; [|apply (Hd Error err [ev_ID e']); right; left].
  assert (Hp : chunk_inv qe sel (addEventWithPayloadForProcessing e' v s) d rejected)
    by (unfold addEventWithPayloadForProcessing; case_goal; split_and!; auto).
  destruct v; try exact Hp.
  - apply (Hd Error JUndef [ev_ID e']). right; left.
  - apply (Hd Done JUndef [ev_ID e']). left.
Qed.

Lemma selection_inv baseDate now delayed sched (d : D) :
  let s := newInstance delayed sched in
  let sel := getQueueEntriesAndSetToInProgress toISOString cfg tenant runInterval baseDate now s d in
  chunk_inv sel.1.1 (selectedEventMap sel.1.2) sel.1.2 sel.2 [] /\
  (forall e, e ∈ sel.1.1 -> ohas (ev_ID e) (selectedEventMap sel.1.2) = true).
Proof.
  intros s sel. assert (Hres := selection_result toISOString cfg tenant runInterval baseDate now s d). fold sel in Hres.
  assert (Hint : internal_map []) by (split; [constructor|done]).
  destruct (decide (chunk_processed cfg runInterval baseDate s d = [])) as [E|E].
  - destruct (selection_idle toISOString cfg tenant runInterval baseDate now s d E) as (R & Q1 & Q2 & Q3 & Q4).
    fold sel in R, Q1, Q2, Q3, Q4. rewrite R. split; [|by intros e ?%elem_of_nil].
    split_and!; auto; [by rewrite Q2 | by intros e ?%elem_of_nil |]. intros _ id e. by rewrite Q3.
  - destruct (selection_instance toISOString cfg tenant runInterval baseDate now s d E)
      as (Q1 & _ & _ & _ & Qsel & Q2 & Q3 & _ & Q4 & _). fold sel in Q1, Qsel, Q2, Q3, Q4.
    assert (Hrow : forall e, e ∈ sel.1.1 -> is_Some (row (ev_ID e) sel.2) /\ ohas (ev_ID e) (selectedEventMap sel.1.2) = true).
    { intros e He. rewrite Hres in He. apply list_elem_of_fmap in He as (e0 & -> & He). rewrite touch_ID.
      apply open_processed in He. split.
      - unfold sel. rewrite processed_row by done. eauto.
      - apply Qsel, list_elem_of_fmap. eauto. }
    split; [|intros e He; by apply Hrow]. split_and!; auto; [by rewrite Q2|intros e He; by apply Hrow|].
    intros _ id e. by rewrite Q3.
Qed.

Lemma preprocess_inv baseDate now delayed sched (db : D * W) :
  let s := newInstance delayed sched in
  let sel := getQueueEntriesAndSetToInProgress toISOString cfg tenant runInterval baseDate now s db.1 in
  exists s', preprocess toISOString jsonParse cfg tenant runInterval check baseDate now clean_end s db =
      (s', (sel.2, db.2), None) /\
    chunk_inv sel.1.1 (selectedEventMap sel.1.2) s' sel.2 [].
Proof.
  intros s sel. unfold preprocess. fold sel. destruct (selection_inv baseDate now delayed sched db.1) as [P _].
  fold s sel in P. destruct sel as [[result s1] d1]. simpl in *.
  eexists. split; [reflexivity|].
  assert (G : forall l s0, chunk_inv result (selectedEventMap s1) s0 d1 [] ->
    chunk_inv result (selectedEventMap s1) (fold_left (preprocess_entry jsonParse check db.2) l s0) d1 []).
  { induction l as [|e l IH]; intros s0 H0; simpl; [done|]. apply IH. by apply preprocess_entry_inv. }
  by apply G.
Qed.

(** ** Exceeded events *)

Lemma updated_final now new s s' (d d' : D) qe sel :
  rows_updated now new d d' -> commits_recorded new s s' ->
  (forall id st, new id = Some st -> st ∈ [Open; Done; Error; Exceeded]) ->
  chunk_inv qe sel s d [] -> chunk_inv qe sel s' d' [].
Proof.
  intros Hr (C1 & C2 & C3) Hnew Hinv. assert (Hinv' := Hinv). destruct Hinv' as (I1 & I2 & I3 & I4 & I5 & I6).
  eapply chunk_inv_same; [exact Hinv|exact C1|by rewrite C2| |intros _ _|done].
  - intros id [e He]. specialize (Hr id). rewrite He in Hr.
    destruct (new id); [destruct Hr as (e' & -> & _)|rewrite Hr]; eauto.
  - intros id e Ho He. specialize (Hr id). destruct (new id) as [st|] eqn:N.
    + destruct (row id d) as [e0|]; [|congruence]. destruct Hr as (e1 & E1 & (_ & Hst & _)).
      exists st. split; [by eapply Hnew|]. congruence.
    + apply (I6 eq_refl id); [|congruence]. apply ohas_true. specialize (C3 id). rewrite N in C3.
      rewrite <- C3. by apply ohas_true.
Qed.

Lemma exceeded_status_final s events st :
  st ∈ [Error; Exceeded] ->
  forall id st', exceeded_status s events st id = Some st' -> st' ∈ [Open; Done; Error; Exceeded].
Proof.
  intros Hst id st'. unfold exceeded_status. destruct (_ && _); [|done]. intros [= <-].
  apply elem_of_cons in Hst as [->|Hst]; [by do 2 right; left|].
  apply list_elem_of_singleton in Hst as ->. by do 3 right; left.
Qed.

Abbreviation exc_one :=
  (handleExceededEvent toISOString toString stringify dateParse stackOf jsonParse cfg tenant hook).

Lemma persist_exceeded_inv now events st s (d : D) qe sel :
  st ∈ [Error; Exceeded] -> chunk_inv qe sel s d [] ->
  exists s' d', persistEventQueueStatusForExceeded toISOString toString stringify dateParse stackOf cfg tenant
      now events st s d = (s', d', None) /\ chunk_inv qe sel s' d' [].
Proof.
  intros Hst Hinv. destruct (persist_exceeded_spec toISOString toString stringify dateParse stackOf cfg tenant
    now events st s d) as (s' & d' & E & Hr & Hc); [apply Hinv|set_solver|].
  exists s', d'. split; [done|]. eapply updated_final; eauto. by apply exceeded_status_final.
Qed.

Lemma handleExceededEvent_inv now e s (db : D * W) qe sel :
  chunk_inv qe sel s db.1 [] ->
  exists s' db', exc_one now clean_end clean_end e s db = (s', db', None) /\ chunk_inv qe sel s' db'.1 [].
Proof.
  intros Hinv. unfold handleExceededEvent. destruct (hook _ db.2) as [w' [err|]].
  - unfold in_new_tx, persist_exceeded_tx. cbn [fst snd].
    destruct (persist_exceeded_inv now [modifyQueueEntry jsonParse e] Error s db.1 qe sel) as (s' & d' & -> & Hc);
      [by left|done|]. by eexists _, _.
  - unfold persist_exceeded_tx. cbn [fst snd].
    destruct (persist_exceeded_inv now [modifyQueueEntry jsonParse e] Exceeded s db.1 qe sel) as (s' & d' & -> & Hc);
      [by right; left|done|]. by eexists _, _.
Qed.

Lemma exceeded_inv now s (db : D * W) qe sel :
  chunk_inv qe sel s db.1 [] ->
  exists s' db', handleExceededEvents toISOString toString stringify dateParse stackOf jsonParse cfg tenant hook
      now clean_end [] s db = (s', db', None) /\ chunk_inv qe sel s' db'.1 [].
Proof.
  intros Hinv. unfold handleExceededEvents.
  assert (H1 : exists s' db', handleExceededTriesExceeded toISOString toString stringify dateParse stackOf cfg tenant
    now clean_end s db = (s', db', None) /\ chunk_inv qe sel s' db'.1 []).
  { unfold handleExceededTriesExceeded. destruct (exceededTriesExceeded s) as [|e es]; [by eexists _, _|].
    unfold in_new_tx, persist_exceeded_tx.
    destruct (persist_exceeded_inv now (e :: es) Exceeded s db.1 qe sel) as (s' & d' & -> & Hc); [by right; left|done|].
    by eexists _, _. }
  destruct H1 as (s1 & db1 & -> & H1). generalize (eventsWithExceededTries s1). intros l.
  revert s1 db1 H1. induction l as [|e l IH]; intros s1 db1 H1; cbn; [by eexists _, _|].
  destruct (handleExceededEvent_inv now e s1 db1 qe sel H1) as (s2 & db2 & -> & H2). by apply IH.
Qed.

(** ** The final statuses *)

Lemma internal_reported selected m id v :
  internal_map m -> oget id m = Some v -> ohas id selected = true ->
  exists st, reported_status selected m id = Some st /\ st ∈ [Done; Error].
Proof.
  intros [_ Hm] E Hs. destruct (Hm _ _ E) as (o & st & -> & Hst & Ho & _). exists st. split; [|done].
  unfold reported_status. rewrite E, Hs. simpl. rewrite Ho.
  apply allowed_code_spec. split; [done|]. rewrite status_in_jcode. apply bool_decide_true. set_solver.
Qed.

Lemma persist_end_final qe sel now s (d : D) :
  end_inv qe sel s d -> (forall e, e ∈ qe -> ohas (ev_ID e) sel = true) ->
  exists s' d', persistEventStatus toISOString toString stringify dateParse stackOf cfg tenant now false None s d =
      (s', d', None) /\ outdatedEventMap s' = outdatedEventMap s /\
    forall e, e ∈ qe -> ohas (ev_ID e) (outdatedEventMap s') = true \/
      exists e', row (ev_ID e) d' = Some e' /\ final_row e'.
Proof.
  intros (I1 & I2 & I3 & I4 & I5 & I6) Hsel.
  destruct (persist_final_spec toISOString toString stringify dateParse stackOf cfg tenant now s d)
    as (s' & d' & E & Hr & Hsame); [apply I4|by apply internal_valid|done|].
  assert (Ho : outdatedEventMap s' = outdatedEventMap s) by apply Hsame.
  exists s', d'. split_and!; auto. intros e He. rewrite Ho. specialize (Hr (ev_ID e)).
  destruct (I5 e He) as [e0 R0]. rewrite R0 in Hr. unfold final_status in Hr. rewrite I2, (Hsel e He), andb_true_r in Hr.
  destruct (ohas (ev_ID e) (statusMap s)) eqn:Hs.
  - right. apply ohas_true in Hs as [v Hv].
    destruct (internal_reported sel (statusMap s) (ev_ID e) v I4 Hv (Hsel e He)) as (st & Hst & Hin).
    rewrite Hst in Hr. destruct Hr as (e' & R' & (_ & Hc & _)). exists e'. split; [done|]. exists st.
    split; [set_solver|done].
  - destruct (ohas (ev_ID e) (outdatedEventMap s)) eqn:Hout; [by left|right].
    rewrite I1, bool_decide_true in Hr by (apply list_elem_of_fmap; eauto). simpl in Hr.
    destruct (ohas (ev_ID e) (commitedStatusMap s)) eqn:Hcom; simpl in Hr.
    + exists e0. split; [done|]. destruct I6 as [I6|I6]; [by rewrite I6 in Hs|]. by eapply I6.
    + destruct Hr as (e' & R' & (_ & Hc & _)). exists e'. split; [done|]. exists Done. split; [set_solver|done].
Qed.

(** The effect of an iteration on the events it selects. *)
Lemma iteration_final base selectTime excTime persistTime endTime acts chunkEnd delayed sched (db : D * W) :
  commitOnEventLevel cfg = true ->
  let i := mkIteration base selectTime excTime persistTime endTime clean_end clean_end [] acts chunkEnd clean_end in
  let sel := getQueueEntriesAndSetToInProgress toISOString cfg tenant runInterval base selectTime
               (newInstance delayed sched) db.1 in
  exists s' db',
    process_iteration toISOString toString stringify dateParse stackOf jsonParse cfg tenant runInterval
      check processEvent hook before i delayed sched db = (s', db', None) /\
    forall e, e ∈ sel.1.1 -> ohas (ev_ID e) (outdatedEventMap s') = true \/
      exists e', row (ev_ID e) db'.1 = Some e' /\ final_row e'.
Proof.
  intros Hi i sel. unfold process_iteration. cbn [it_base it_select it_selectEnd it_exceeded it_exceededEnd
    it_exceededEnds it_acts it_chunkEnd it_persistEnd it_persist i].
  destruct (preprocess_inv base selectTime delayed sched db) as (s1 & -> & P1). fold sel in P1 |- *.
  destruct (selection_inv base selectTime delayed sched db.1) as [_ Hsel]. fold sel in Hsel.
  destruct (exceeded_inv excTime s1 (sel.2, db.2) _ _ P1) as (s2 & db2 & -> & P2).
  destruct (process_chunk_inv _ _ acts chunkEnd s2 db2 Hi P2) as (s3 & db3 & -> & P3).
  destruct (persist_end_final _ _ persistTime s3 db3.1 P3 Hsel) as (s4 & d4 & E & _ & Hfin).
  unfold in_new_tx. rewrite E. simpl. eexists _, _. split; [reflexivity|]. exact Hfin.
Qed.

(** C1. In isolated mode an iteration never leaves a selected event in progress:
    whatever the handlers of the clusters return or throw, in whatever order the
    clusters run, whichever of their transactions fail to commit and however many
    keep-alive ticks fall in between, the iteration completes and every event it
    took has a final status (open, done, error or exceeded) on the database, except
    for events the keep-alive found to be taken over by somebody else. *)
Theorem no_event_left_in_progress base selectTime excTime persistTime endTime acts chunkEnd delayed sched (db : D * W) :
  commitOnEventLevel cfg = true ->
  let i := mkIteration base selectTime excTime persistTime endTime clean_end clean_end [] acts chunkEnd clean_end in
  let sel := getQueueEntriesAndSetToInProgress toISOString cfg tenant runInterval base selectTime
               (newInstance delayed sched) db.1 in
  exists s' db',
    process_iteration toISOString toString stringify dateParse stackOf jsonParse cfg tenant runInterval
      check processEvent hook before i delayed sched db = (s', db', None) /\
    forall e, e ∈ sel.1.1 -> ohas (ev_ID e) (outdatedEventMap s') = true \/
      exists e', row (ev_ID e) db'.1 = Some e' /\ final_row e'.
Proof. apply iteration_final. Qed.
End iteration_props.

(** ** One cluster in isolated mode *)

Definition reports_error (m : obj jsval) : bool :=
  existsb (fun v => status_in [Error] (reported_code v)) (ovalues m).

(** A normalised map reports what the original one does. *)
Lemma normalized_map m :
  NoDup (okeys m) -> valid_map m ->
  exists m1, normalizeStatusMap m = (m1, None) /\ NoDup (okeys m1) /\ valid_map m1 /\
    (forall selected id, reported_status selected m1 id = reported_status selected m id) /\
    existsb (fun v => status_in [Error] (status_of v)) (ovalues m1) = reports_error m.
Proof.
  intros Hn Hv. destruct (normalizeStatusMap_spec m Hn Hv) as [E1 E2].
  assert (Hn1 := normalize_loop_NoDup m m Hn). fold (normalizeStatusMap m) in Hn1.
  destruct (normalizeStatusMap m) as [m1 exn]. simpl in *. subst exn. exists m1. split_and!; auto.
  - apply valid_map_iff; [done|]. intros id v. rewrite E2. destruct (oget id m) as [w|] eqn:G; [|done].
    intros [= <-]. assert (Hw := valid_map_oget m id w Hv G). simpl. destruct w; try done.
    rewrite norm_fields_prop; [exact Hw | unfold ALLOWED_FIELDS_FOR_UPDATE; set_solver].
  - intros selected id. unfold reported_status. rewrite E2. destruct (oget id m) as [v|]; [|done].
    change ((fun v => JObj (norm_fields v)) <$> Some v) with (Some (JObj (norm_fields v))). cbv iota.
    destruct (ohas id selected); [|done]. change (reported_code (JObj (norm_fields v))) with (prop (norm_fields v) "status").
    destruct (norm_status v) as [EQ|[HA HB]]; [by rewrite EQ|]. rewrite HA.
    destruct (allowed_code (prop (norm_fields v) "status")) as [st|] eqn:C; [exfalso|reflexivity].
    apply allowed_code_spec in C as [_ C]. unfold allowed_status in HB.
    change (status_of (JObj (norm_fields v))) with (prop (norm_fields v) "status") in HB. congruence.
  - assert (Hst : forall v, status_in [Error] (status_of (JObj (norm_fields v))) = status_in [Error] (reported_code v)).
    { intros v. change (status_of (JObj (norm_fields v))) with (prop (norm_fields v) "status"). destruct (norm_status v) as [EQ|[HA HB]]; [by rewrite EQ|]. unfold allowed_status in HB. simpl in HB.
      assert (forall x, status_in [Open; Done; Error; Exceeded] x = false -> status_in [Error] x = false) as Hx.
      { intros x Hf. apply not_true_iff_false. intros (st & Hst & ->)%status_in_code.
        apply list_elem_of_singleton in Hst as ->. discriminate Hf. }
      rewrite (Hx _ HB). destruct (status_in [Error] (reported_code v)) eqn:F; [|done].
      apply status_in_code in F as (st & Hst & Hc). apply list_elem_of_singleton in Hst as ->.
      by rewrite Hc in HA. }
    unfold reports_error. apply eq_true_iff_eq. rewrite !existsb_exists. split.
    + intros (v & Hin & Hs). apply list_elem_of_In in Hin. unfold ovalues in Hin.
      apply list_elem_of_fmap in Hin as ([id v'] & -> & Hin). simpl in Hs.
      apply elem_of_oget in Hin; [|done]. rewrite E2 in Hin. destruct (oget id m) as [w|] eqn:G; [|done].
      injection Hin as <-. exists w. rewrite <- Hst. split; [|done]. apply list_elem_of_In, list_elem_of_fmap.
      exists (id, w). split; [done|]. by apply oget_elem_of.
    + intros (v & Hin & Hs). apply list_elem_of_In in Hin. unfold ovalues in Hin.
      apply list_elem_of_fmap in Hin as ([id v'] & -> & Hin). simpl in Hs.
      apply elem_of_oget in Hin; [|done]. exists (JObj (norm_fields v')). rewrite Hst. split; [|done].
      apply list_elem_of_In, list_elem_of_fmap. exists (id, JObj (norm_fields v')). split; [done|].
      apply oget_elem_of. by rewrite E2, Hin.
Qed.

Section cluster_theorems.
Context {D W : Type} {ET : EventTable D} {EL : EventTableLaws D}.
Context (toISOString : Z -> string) (toString stringify : jsval -> string)
  (dateParse : string -> option Z) (stackOf : jsval -> string) (jsonParse : jsval -> option jsval).
Context (cfg : eventConfig) (tenant : option string) (runInterval : Z).
Context (processEvent : string -> list event -> jsval -> W -> W * bool * result jsval jsval)
  (before : W -> option jsval).

Abbreviation isolated_step :=
  (process_isolated toISOString toString stringify dateParse stackOf cfg tenant processEvent).

(** C2. In isolated mode the changes a handler makes and the status it reports are
    atomic: if it reports an error for any of its events, throws, or asks for a
    rollback, its changes are rolled back and only the statuses are written;
    otherwise both are committed in one transaction.  If that commit fails, neither
    is written. *)
Theorem isolated_atomic now fin key entries payload s (d : D) w :
  nextSagaEvents s = [] -> internal_map (statusMap s) -> commitOnEventLevel cfg = true ->
  let '(s1, w1, m) := processEvent_ toString cfg processEvent key entries payload s w in
  let fails := reports_error m || shouldRollbackTransaction key s1 in
  valid_map m ->
  exists s' d',
    rows_updated now (reported_status (selectedEventMap s) m) d d' /\
    isolated_step now fin clean_end key entries payload s (d, w) =
      (if fails then (s', (d', w), None)
       else match commit_error fin with
            | None => (s', (d', w1), None)
            | Some err => (s', (d, w), Some err)
            end).
Proof.
  intros Hs Hint Hi.
  pose proof (processEvent_isolated toString cfg processEvent key entries payload s w Hi Hint) as P.
  unfold process_isolated. cbn [fst snd].
  destruct (processEvent_ toString cfg processEvent key entries payload s w) as [[s1 w1] m].
  destruct P as (P1 & _ & P3 & _). intros Hv.
  destruct (normalized_map m P3 Hv) as (m1 & N & Hn1 & Hv1 & Hrep & Herr).
  unfold statusMapContainsError. rewrite N, Herr.
  assert (Hs1 : nextSagaEvents s1 = []) by (destruct P1 as (_&_&_&?&_); congruence).
  assert (Hsel : selectedEventMap s1 = selectedEventMap s) by (destruct P1 as (_&?&_); congruence).
  destruct (persist_own_spec toISOString toString stringify dateParse stackOf cfg tenant now m1 s1 d Hn1 Hv1 Hs1)
    as (s' & d' & E & Hr & _).
  exists s', d'. split.
  { intros id. specialize (Hr id). by rewrite Hrep, Hsel in Hr. }
  destruct (reports_error m || shouldRollbackTransaction key s1).
  - unfold commitStatusInNewTx, in_new_tx. cbn [fst snd]. rewrite E. done.
  - rewrite E. unfold new_tx, executeInNewTransaction. simpl. by destruct (commit_error fin).
Qed.

Lemma persist_nothing now s (d : D) :
  persistEventStatus toISOString toString stringify dateParse stackOf cfg tenant now true (Some []) s d = (s, d, None).
Proof. reflexivity. Qed.

(** C40. After the keep-alive found one event taken over, the remaining clusters are
    not processed any more: their handlers are skipped.  Yet at the end of the
    iteration their events are set to done, and so are lost without ever having
    been handled. *)
Theorem violation_loses_events now now2 key entries payload s (d : D) w e e0 :
  keepAliveViolated s = true -> nextSagaEvents s = [] -> internal_map (statusMap s) ->
  e ∈ queueEntries s -> row (ev_ID e) d = Some e0 ->
  ohas (ev_ID e) (statusMap s) = false -> ohas (ev_ID e) (commitedStatusMap s) = false ->
  ohas (ev_ID e) (outdatedEventMap s) = false ->
  isolated_step now clean_end clean_end key entries payload s (d, w) = (s, (d, w), None) /\
  exists s' d' e',
    persistEventStatus toISOString toString stringify dateParse stackOf cfg tenant now2 false None s d = (s', d', None) /\
    row (ev_ID e) d' = Some e' /\ ev_status e' = status_code Done.
Proof.
  intros Hv Hs Hint He Hrow H1 H2 H3. split.
  - unfold process_isolated, processEvent_, isOutdatedAndKeepAlive. rewrite Hv. cbn [fst snd].
    unfold commitStatusInNewTx, in_new_tx. simpl. destruct (shouldRollbackTransaction key s); reflexivity.
  - destruct (persist_final_spec toISOString toString stringify dateParse stackOf cfg tenant now2 s d)
      as (s' & d' & E & Hr & _); [apply Hint|by apply internal_valid|done|].
    specialize (Hr (ev_ID e)). unfold final_status in Hr. rewrite H1, H2, H3, Hrow in Hr.
    rewrite bool_decide_true in Hr by (apply list_elem_of_fmap; eauto). simpl in Hr.
    destruct Hr as (e' & R & (_ & Hst & _)). by exists s', d', e'.
Qed.

(** If one cluster's transaction fails to commit, the whole chunk is set to
    error: also an event whose own transaction committed it as done is written as
    failed afterwards, and will be processed again. *)
Theorem commit_failure_fails_done_events now s (d : D) e e0 :
  nextSagaEvents s = [] -> internal_map (statusMap s) ->
  e ∈ queueEntries s -> ohas (ev_ID e) (selectedEventMap s) = true -> row (ev_ID e) d = Some e0 ->
  oget (ev_ID e) (statusMap s) = None ->
  oget (ev_ID e) (commitedStatusMap s) = Some (jcode Done) -> ev_status e0 = status_code Done ->
  exists s' d' e',
    persistEventStatus toISOString toString stringify dateParse stackOf cfg tenant now false None (handleErrorTx s) d =
      (s', d', None) /\
    row (ev_ID e) d' = Some e' /\ ev_status e' = status_code Error.
Proof.
  intros Hs Hint He Hsel Hrow Hno _ _.
  assert (Hin : ev_ID e ∈ ev_ID <$> queueEntries s) by (apply list_elem_of_fmap; eauto).
  assert (Hint' : internal_map (statusMap (handleErrorTx s)))
    by (apply internal_add_all; [right; left|done]).
  destruct (persist_final_spec toISOString toString stringify dateParse stackOf cfg tenant now (handleErrorTx s) d)
    as (s' & d' & E & Hr & _); [apply Hint'|by apply internal_valid|done|].
  destruct (add_all_new (ev_ID <$> queueEntries s) JUndef (statusMap s) (ev_ID e) Hin Hno) as (o & Ho & Hst).
  specialize (Hr (ev_ID e)). unfold final_status in Hr. simpl in Hr.
  assert (ohas (ev_ID e) (add_all (ev_ID <$> queueEntries s) Error JUndef (statusMap s)) = true) as Hh
    by (apply ohas_true; eauto).
  rewrite Hh, Hsel in Hr. simpl in Hr. unfold reported_status in Hr. rewrite Ho, Hsel, Hrow in Hr. simpl in Hr.
  rewrite Hst in Hr. simpl in Hr. destruct Hr as (e' & R & (_ & Hc & _)). by exists s', d', e'.
Qed.

(** Outside the isolated mode all clusters share one transaction: with
    [alwaysRollback] the business data never change; with [alwaysCommit] they are
    committed, errors reported by handlers notwithstanding, unless a cluster asked
    for a rollback. *)
Theorem shared_transaction acts s (d : D) w kv kvs :
  queueEntriesWithPayloadMap s = kv :: kvs -> before w = None -> transactionMode cfg <> isolated ->
  let '(s1, db1, _) := fold_left (fun st a => run_action toISOString toString stringify dateParse stackOf cfg tenant
                          processEvent a st) acts (clusterQueueEntries s, (d, w), []) in
  exists s' d' w',
    process_chunk toISOString toString stringify dateParse stackOf cfg tenant processEvent before acts clean_end s (d, w) =
      (s', (d', w'), None) /\
    w' = (if decide (transactionMode cfg = alwaysRollback) then w
          else if existsb (fun key => shouldRollbackTransaction key s1) (okeys (eventProcessingMap s1)) then w
          else db1.2).
Proof.
  intros Hq Hb Hm. unfold process_chunk, processEventMap. rewrite Hq. cbn [snd]. rewrite Hb.
  assert (Hi : commitOnEventLevel cfg = false) by (unfold commitOnEventLevel; by apply bool_decide_false).
  rewrite Hi. destruct (fold_left _ acts _) as [[s1 db1] rejected].
  assert (Hsame : forall key, shouldRollbackTransaction key (match rejected with [] => s1 | _ => handleErrorTx s1 end) =
    shouldRollbackTransaction key s1) by (intros; by destruct rejected).
  assert (Hmap : eventProcessingMap (match rejected with [] => s1 | _ => handleErrorTx s1 end) = eventProcessingMap s1)
    by (by destruct rejected).
  assert (Hex : existsb (fun key => shouldRollbackTransaction key (match rejected with [] => s1 | _ => handleErrorTx s1 end))
      (okeys (eventProcessingMap (match rejected with [] => s1 | _ => handleErrorTx s1 end))) =
    existsb (fun key => shouldRollbackTransaction key s1) (okeys (eventProcessingMap s1))).
  { rewrite Hmap. induction (okeys (eventProcessingMap s1)) as [|k l IH]; simpl; [done|]. by rewrite Hsame, IH. }
  rewrite Hex. clear Hex. destruct (transactionMode cfg) eqn:M; [done| |].
  - rewrite bool_decide_true by done. simpl.
    destruct (existsb (fun key => shouldRollbackTransaction key s1) (okeys (eventProcessingMap s1))); simpl;
      (eexists _, _, _; split; reflexivity).
  - rewrite bool_decide_false by done. simpl. eexists _, _, _. split; reflexivity.
Qed.
End cluster_theorems.

(** ** The loop and its lock *)

Section loop_theorems.
Context {D W : Type} {ET : EventTable D}.
Context (toISOString : Z -> string) (toString stringify : jsval -> string)
  (dateParse : string -> option Z) (stackOf : jsval -> string) (jsonParse : jsval -> option jsval).
Context (cfg : eventConfig) (tenant : option string) (runInterval : Z).
Context (check : event -> W -> result jsval jsval)
  (processEvent : string -> list event -> jsval -> W -> W * bool * result jsval jsval)
  (hook : event -> W -> W * option jsval) (before : W -> option jsval).

(** The loop ends with the first iteration that is over after the time of the run. *)
Lemma loop_terminates_core its i rest delayed sched (db : D * W) :
  ec_startTime cfg + runInterval <= it_end i \/ ec_checkForNextChunk cfg = false ->
  let '(instances, _, _, finished) :=
    process_loop toISOString toString stringify dateParse stackOf jsonParse cfg tenant runInterval
      check processEvent hook before (its ++ i :: rest) delayed sched db in
  finished = true /\ (length instances <= S (length its))%nat /\ (ec_checkForNextChunk cfg = false -> length instances = 1%nat).
Proof.
  intros Hi. revert delayed sched db. induction its as [|i0 its IH]; intros delayed sched db; simpl.
  - destruct (process_iteration _ _ _ _ _ _ _ _ _ _ _ _ _ i delayed sched db) as [[s db'] [e|]]; [repeat split; simpl; lia|].
    unfold reevaluateShouldContinue. destruct (ec_checkForNextChunk cfg); simpl; [|repeat split; simpl; lia].
    destruct (emptyChunkSelected s); [repeat split; simpl; lia|].
    destruct Hi as [Hi|Hi]; [|done]. apply Z.ltb_ge in Hi. rewrite Hi. repeat split; simpl; lia.
  - destruct (process_iteration _ _ _ _ _ _ _ _ _ _ _ _ _ i0 delayed sched db) as [[s db'] [e|]]; [repeat split; simpl; lia|].
    destruct (reevaluateShouldContinue _ _ _ _ (it_end i0) s) as [cont s'] eqn:R.
    destruct cont; [|repeat split; simpl; lia].
    assert (Hc : ec_checkForNextChunk cfg = true).
    { unfold reevaluateShouldContinue in R. by destruct (ec_checkForNextChunk cfg). }
    specialize (IH (selectedDelayedEventIds s') (schedulerInstance s') db').
    destruct (process_loop _ _ _ _ _ _ _ _ _ _ _ _ _ (its ++ i :: rest) _ _ db') as [[[instances d2] sc] fin]. destruct IH as (I1 & I2 & I3).
    split_and!; [done|simpl; lia|congruence].
Qed.

(** C34. The loop of [processEventQueue] terminates: it ends at the latest with the
    first iteration that finishes [runInterval] after the start of the run, and
    without [checkForNextChunk] after one iteration. *)
Theorem loop_terminates its i rest delayed sched (db : D * W) :
  ec_startTime cfg + runInterval <= it_end i \/ ec_checkForNextChunk cfg = false ->
  let '(instances, _, _, finished) :=
    process_loop toISOString toString stringify dateParse stackOf jsonParse cfg tenant runInterval
      check processEvent hook before (its ++ i :: rest) delayed sched db in
  finished = true /\ (length instances <= S (length its))%nat /\ (ec_checkForNextChunk cfg = false -> length instances = 1%nat).
Proof. apply loop_terminates_core. Qed.
End loop_theorems.

Section lock_theorems.
Context {R T : Type} `{RedisLaws R} `{LockTableLaws T}.
Context (lcfg : lockConfig) (cfg : eventConfig) (tenant : option string).

(** The lock of an event is acquired exactly if it is free. *)
Lemma acquire_free start (l : lockState R T) :
  ec_multiInstance cfg = false -> 0 < round_ms (keepAliveMaxMs cfg) ->
  (acquireDistributedLock lcfg cfg tenant start l).2 =
    negb (module_busy lcfg (lk_service l) (processorLockKey lcfg tenant (ec_namespace cfg) (ec_type cfg) (ec_subType cfg))
            (keepAliveMaxMs cfg) start).
Proof.
  intros Hm Hx. unfold acquireDistributedLock. rewrite Hm.
  pose proof (@ls_acquire_free _ _ (lockModule_laws lcfg tenant) start
    (processorLockKey lcfg tenant (ec_namespace cfg) (ec_type cfg) (ec_subType cfg)) (keepAliveMaxMs cfg) (lk_service l) Hx) as E.
  unfold ls_acquire, ls_busy, lockModule in E.
  change (acquireLock lcfg start tenant (join hash2 [ec_namespace cfg; ec_type cfg; ec_subType cfg]) true
            (keepAliveMaxMs cfg) true true (lk_service l)) with (module_acquire lcfg tenant start
            (processorLockKey lcfg tenant (ec_namespace cfg) (ec_type cfg) (ec_subType cfg)) (keepAliveMaxMs cfg) (lk_service l)).
  by destruct (module_acquire lcfg tenant start _ (keepAliveMaxMs cfg) (lk_service l)).
Qed.

(** A run whose lock is free executes its loop. *)
Lemma run_free {A} start end_ (idle : A) body (l : lockState R T) :
  0 < round_ms (keepAliveMaxMs cfg) ->
  ec_multiInstance cfg = true \/
  module_busy lcfg (lk_service l) (processorLockKey lcfg tenant (ec_namespace cfg) (ec_type cfg) (ec_subType cfg))
    (keepAliveMaxMs cfg) start = false ->
  exists l', processEventQueue lcfg cfg tenant true false start end_ idle body l = (l', body tt, true).
Proof.
  intros Hx Hf. unfold processEventQueue. cbn [negb].
  assert (E : (acquireDistributedLock lcfg cfg tenant start l).2 = true).
  { destruct (ec_multiInstance cfg) eqn:M; [unfold acquireDistributedLock; by rewrite M|].
    destruct Hf as [Hf|Hf]; [done|]. by rewrite acquire_free, Hf. }
  destruct (acquireDistributedLock lcfg cfg tenant start l) as [l' ok]. simpl in E. subst ok. cbn [negb]. eauto.
Qed.

(** C21. A run processes events only while it holds the lock of its event: it goes
    ahead exactly if the lock is free, and the lock is free again when it is over;
    a run that is turned away leaves the holder's lock alone. *)
Theorem run_holds_lock {A} start end_ (idle : A) body (l : lockState R T) :
  ec_multiInstance cfg = false -> lk_acquired l = false -> 0 < round_ms (keepAliveMaxMs cfg) -> start <= end_ ->
  let k := processorLockKey lcfg tenant (ec_namespace cfg) (ec_type cfg) (ec_subType cfg) in
  let x := keepAliveMaxMs cfg in
  let '(l', _, ran) := processEventQueue lcfg cfg tenant true false start end_ idle body l in
  ran = negb (module_busy lcfg (lk_service l) k x start) /\
  (if ran then forall t, end_ <= t -> module_busy lcfg (lk_service l') k x t = false
   else forall t, start <= t -> module_busy lcfg (lk_service l') k x t = module_busy lcfg (lk_service l) k x t).
Proof.
  intros Hm Ha Hx Hle k x. unfold processEventQueue, acquireDistributedLock. rewrite Hm. cbn [negb].
  pose proof (@ls_acquire_free _ _ (lockModule_laws lcfg tenant) start k x (lk_service l) Hx) as E1.
  pose proof (fun t Ht => @ls_acquire_busy _ _ (lockModule_laws lcfg tenant) start k x (lk_service l) k x t Hx Ht (fun _ => eq_refl)) as E2.
  unfold ls_acquire, ls_busy, lockModule in E1, E2.
  change (acquireLock lcfg start tenant (join hash2 [ec_namespace cfg; ec_type cfg; ec_subType cfg]) true
            (keepAliveMaxMs cfg) true true (lk_service l)) with (module_acquire lcfg tenant start k x (lk_service l)).
  destruct (module_acquire lcfg tenant start k x (lk_service l)) as [svc ok]. cbn [fst snd] in E1, E2. rewrite <- E1.
  destruct ok; simpl; split; auto.
  - intros t Ht. unfold handleReleaseLock. simpl. rewrite orb_true_r. simpl.
    pose proof (@ls_release_busy _ _ (lockModule_laws lcfg tenant) end_ k svc k x t Ht) as E3.
    rewrite decide_True in E3 by done. exact E3.
  - intros t Ht. unfold handleReleaseLock. simpl. rewrite Ha. simpl. rewrite (E2 t Ht), decide_True by done.
    destruct (module_busy lcfg (lk_service l) k x start) eqn:B; [done|discriminate E1].
Qed.
End lock_theorems.

(** ** Witnesses *)

(** A handler that adds one to the business data and reports every entry as done. *)
Definition demoHandler (key : string) (entries : list event) (payload : jsval) (w : Z)
    : Z * bool * result jsval jsval :=
  (w + 1, false, Ok (JArr (map (fun e => JArr [JStr (ev_ID e); jcode Done]) entries))).
Definition demoCheck (e : event) (w : Z) : result jsval jsval := Ok (ev_payload e).
Definition demoHook (e : event) (w : Z) : Z * option jsval := (w, None).
Definition demoParseJson (v : jsval) : option jsval := None.
Definition demoBefore (w : Z) : option jsval := None.

Lemma no_event_left_in_progress_witness :
  exists s' db',
    process_iteration demoISO demoToString demoStringify demoParse demoStack demoParseJson (demoEventConfig isolated)
      None 1500000 demoCheck demoHandler demoHook demoBefore
      (mkIteration 2000 2001 2002 2004 2005 clean_end clean_end []
         [Tick 2002 clean_end; RunCluster 2003 clean_end clean_end "a"] clean_end clean_end)
      [] newScheduler (demoTable, 0) = (s', db', None) /\
    (ohas "a" (outdatedEventMap s') = true \/ exists e', row "a" db'.1 = Some e' /\ final_row e').
Proof.
  destruct (no_event_left_in_progress demoISO demoToString demoStringify demoParse demoStack demoParseJson
    (demoEventConfig isolated) None 1500000 demoCheck demoHandler demoHook demoBefore 2000 2001 2002 2004 2005
    [Tick 2002 clean_end; RunCluster 2003 clean_end clean_end "a"] clean_end [] newScheduler (demoTable, 0) eq_refl)
    as (s' & db' & E & H).
  exists s', db'. split; [exact E|]. apply (H (touch 2001 (demoRow "a" 0 0 5))).
  assert (Hr : (getQueueEntriesAndSetToInProgress demoISO (demoEventConfig isolated) None 1500000 2000 2001
    (newInstance [] newScheduler) demoTable).1.1 = [touch 2001 (demoRow "a" 0 0 5)]) by (vm_compute; reflexivity).
  cbn [fst]. rewrite Hr. left.
Defined.

Lemma isolated_atomic_witness :
  exists s' d',
    rows_updated 2000 (reported_status (selectedEventMap demoSelected) [("a", JObj [("status", jcode Done)])]) demoDb d' /\
    process_isolated demoISO demoToString demoStringify demoParse demoStack (demoEventConfig isolated) None demoHandler
      2000 clean_end clean_end "a" [demoRow "a" 1 1 5] JNull demoSelected (demoDb, 7) = (s', (d', 8), None).
Proof.
  pose proof (isolated_atomic demoISO demoToString demoStringify demoParse demoStack (demoEventConfig isolated) None
    demoHandler 2000 clean_end "a" [demoRow "a" 1 1 5] JNull demoSelected demoDb 7 eq_refl) as H.
  apply H; [split; [constructor|discriminate] | reflexivity | repeat constructor]. discriminate.
Defined.

Definition demoViolated : pstate := set_keepAliveViolated true demoSelected.

Lemma violation_loses_events_witness :
  exists s' d' e',
    persistEventStatus demoISO demoToString demoStringify demoParse demoStack (demoEventConfig isolated) None
      2000 false None demoViolated demoDb = (s', d', None) /\
    row "b" d' = Some e' /\ ev_status e' = status_code Done.
Proof.
  destruct (violation_loses_events demoISO demoToString demoStringify demoParse demoStack (demoEventConfig isolated) None
    demoHandler 1900 2000 "b" [demoRow "b" 1 1 6] JNull demoViolated demoDb 0 (demoRow "b" 1 1 6) (demoRow "b" 1 1 6))
    as [_ H]; [reflexivity|reflexivity|split; [constructor|discriminate]|right; left|reflexivity..|exact H].
Defined.

Definition demoCommitted : pstate := set_commitedStatusMap [("a", jcode Done)] demoSelected.

Lemma commit_failure_fails_done_events_witness :
  exists s' d' e',
    persistEventStatus demoISO demoToString demoStringify demoParse demoStack (demoEventConfig isolated) None
      2000 false None (handleErrorTx demoCommitted) ({[ "a" := demoRow "a" 2 1 5 ]} : memRows) = (s', d', None) /\
    row "a" d' = Some e' /\ ev_status e' = status_code Error.
Proof.
  apply (commit_failure_fails_done_events demoISO demoToString demoStringify demoParse demoStack
    (demoEventConfig isolated) None 2000 demoCommitted ({[ "a" := demoRow "a" 2 1 5 ]} : memRows)
    (demoRow "a" 1 1 5) (demoRow "a" 2 1 5));
    [reflexivity|split; [constructor|discriminate]|left|reflexivity..].
Defined.

Definition demoPending : pstate :=
  set_queueEntriesWithPayloadMap [("a", (demoRow "a" 1 1 5, JNull))] demoSelected.

Lemma shared_transaction_witness :
  exists s' d' w',
    process_chunk demoISO demoToString demoStringify demoParse demoStack (demoEventConfig alwaysRollback) None
      demoHandler demoBefore [RunCluster 2000 clean_end clean_end "a"] clean_end demoPending (demoDb, 7) =
      (s', (d', w'), None) /\ w' = 7.
Proof.
  apply (shared_transaction demoISO demoToString demoStringify demoParse demoStack (demoEventConfig alwaysRollback) None
    demoHandler demoBefore [RunCluster 2000 clean_end clean_end "a"] demoPending demoDb 7
    ("a", (demoRow "a" 1 1 5, JNull)) []); [reflexivity | reflexivity | discriminate].
Defined.

Lemma loop_terminates_witness :
  let '(instances, _, _, finished) :=
    process_loop demoISO demoToString demoStringify demoParse demoStack demoParseJson (demoEventConfig isolated)
      None 1500000 demoCheck demoHandler demoHook demoBefore
      [mkIteration 2000 2001 2002 2004 2005 clean_end clean_end [] [] clean_end clean_end]
      [] newScheduler (demoTable, 0) in
  finished = true /\ (length instances <= 1)%nat /\ (ec_checkForNextChunk (demoEventConfig isolated) = false -> length instances = 1%nat).
Proof.
  apply (loop_terminates demoISO demoToString demoStringify demoParse demoStack demoParseJson (demoEventConfig isolated)
    None 1500000 demoCheck demoHandler demoHook demoBefore []
    (mkIteration 2000 2001 2002 2004 2005 clean_end clean_end [] [] clean_end clean_end) [] [] newScheduler (demoTable, 0)).
  right. reflexivity.
Defined.

Lemma run_holds_lock_witness :
  let l := mkLockState memInit false 0 in
  let '(l', _, ran) := processEventQueue (demoConfig true) (demoEventConfig isolated) None true false 10 20 0 (fun _ => 1) l in
  ran = true /\
  module_busy (demoConfig true) (lk_service l')
    (processorLockKey (demoConfig true) None "default" "Mail" "send") (keepAliveMaxMs (demoEventConfig isolated)) 20 = false.
Proof.
  pose proof (run_holds_lock (demoConfig true) (demoEventConfig isolated) None 10 20 0 (fun _ => 1)
    (mkLockState memInit false 0) eq_refl eq_refl ltac:(vm_compute; reflexivity) ltac:(lia)) as [H1 H2].
  split; [reflexivity|]. apply H2. lia.
Defined.
