(* ===== verification/Lifecycle.v ===== *)
(** * The life of an event ([processEventQueue.js], [EventQueueProcessorBase.js])

    What an iteration may do to a row: it takes the event (in progress, one attempt more)
    and then writes statuses, or leaves the row as it is.  The abstract machine has these
    two kinds of moves; the iterations of [ProcessEventQueue] refine it, whatever the
    handlers return, however clusters and keep-alives are ordered and however transactions
    end.  How often an event is handed to its handler follows from the machine. *)

From S2P Require Import Prelude Js Errors Common Scheduling Database Processor Selection Exceeded KeepAlive ProcessEventQueue.
#[local] Open Scope Z_scope.

(** ** The abstract machine *)

Definition count_open (l : list EventProcessingStatus) : Z := sumZ (fun st => if decide (st = Open) then 1 else 0) l.

Lemma count_open_app l1 l2 : count_open (l1 ++ l2) = count_open l1 + count_open l2.
Proof. apply sumZ_app. Qed.

Lemma count_open_nonneg l : 0 <= count_open l.
Proof. unfold count_open. induction l as [|st l IH]; simpl; [lia|]. destruct (decide (st = Open)); lia. Qed.

Section machine.
(** The statuses that may be written. *)
Context (ok : EventProcessingStatus -> Prop).

(** The statuses [l] are written in their order: the row has the last of them, open gives
    the attempt back, and the event itself stays. *)
Definition moves (e : event) (l : list EventProcessingStatus) (e' : event) : Prop :=
  same_event e' e /\
  ev_status e' = match last l with Some st => status_code st | None => ev_status e end /\
  ev_attempts e' = ev_attempts e - count_open l /\
  Forall (fun st => ok st /\ st ∈ [Open; Done; Error; Exceeded]) l.

Lemma moves_refl e : moves e [] e.
Proof. split_and!; [by repeat split | done | unfold count_open; simpl; lia | constructor]. Qed.

Lemma moves_trans e1 l1 e2 l2 e3 : moves e1 l1 e2 -> moves e2 l2 e3 -> moves e1 (l1 ++ l2) e3.
Proof.
  intros (S1 & T1 & A1 & F1) (S2 & T2 & A2 & F2). split_and!.
  - destruct S1 as (?&?&?&?&?&?&?), S2 as (?&?&?&?&?&?&?). repeat split; congruence.
  - rewrite T2, T1, last_app. by destruct (last l2).
  - rewrite A2, A1, count_open_app. lia.
  - by apply Forall_app.
Qed.

(** Writes that concern the selected events [sel] only. *)
Definition rows_moved {D} `{EventTable D} (sel : obj event) (d d' : D) : Prop := forall id,
  match row id d with
  | None => row id d' = None
  | Some e => exists e', row id d' = Some e' /\ if ohas id sel then exists l, moves e l e' else e' = e
  end.

Context {D : Type} {ET : EventTable D} {EL : EventTableLaws D}.

Lemma rows_moved_refl sel (d : D) : rows_moved sel d d.
Proof. intros id. destruct (row id d) as [e|]; [|done]. exists e. destruct (ohas id sel); eauto using moves_refl. Qed.

Lemma rows_moved_trans sel (d1 d2 d3 : D) : rows_moved sel d1 d2 -> rows_moved sel d2 d3 -> rows_moved sel d1 d3.
Proof.
  intros H1 H2 id. specialize (H1 id). specialize (H2 id). destruct (row id d1) as [e|].
  - destruct H1 as (e1 & R1 & M1). rewrite R1 in H2. destruct H2 as (e2 & R2 & M2). exists e2. split; [done|].
    destruct (ohas id sel); [|congruence]. destruct M1 as [l1 M1], M2 as [l2 M2]. eauto using moves_trans.
  - by rewrite H1 in H2.
Qed.

(** An [UPDATE] of selected rows, each of which makes a move. *)
Lemma rows_moved_update sel ids f (d : D) :
  (forall e, ev_ID (f e) = ev_ID e) -> (forall id, id ∈ ids -> ohas id sel = true) ->
  (forall e, exists l, moves e l (f e)) -> rows_moved sel d (update_rows (id_in ids) f d).
Proof.
  intros Hf Hs Hm id. rewrite update_ids_row by done. destruct (row id d) as [e|]; simpl; [|by case_decide].
  case_decide as Hid.
  - exists (f e). split; [done|]. by rewrite (Hs id Hid).
  - exists e. split; [done|]. destruct (ohas id sel); eauto using moves_refl.
Qed.
End machine.
#[export] Hint Resolve rows_moved_refl : evq.

(** ** Status maps that report allowed statuses *)

Section maps.
Context (ok : EventProcessingStatus -> Prop).

Definition vok (v : jsval) : Prop := forall st, reported_code v = jcode st -> ok st.

Definition mapok (m : obj jsval) : Prop := NoDup (okeys m) /\ forall id v, oget id m = Some v -> vok v.

(** What a handler returns: none of its tuples reports another status. *)
Definition reports_ok (tuple : jsval) : Prop :=
  forall l v p, tuple = JArr l -> v ∈ l -> destructure_entry v = Ok p -> vok p.2.

Lemma mapok_nil : mapok [].
Proof. split; [constructor | done]. Qed.

Lemma mapok_oset id v m : vok v -> mapok m -> mapok (oset id v m).
Proof.
  intros Hv [Hn Hm]. split; [auto with evq|]. intros id' v'. rewrite oget_oset. case_decide; [|apply Hm]. by intros [= <-].
Qed.

Lemma jcode_inj st st' : jcode st = jcode st' -> st = st'.
Proof. by destruct st, st'. Qed.

Lemma vok_status o st : prop o "status" = jcode st -> ok st -> vok (JObj o).
Proof. intros E H st' E'. simpl in E'. rewrite E in E'. by apply jcode_inj in E' as <-. Qed.

Lemma mapok_add_status id st error m : ok st -> mapok m -> mapok (add_status id st error m).
Proof.
  intros H Hm. destruct (add_status_shape id st error m) as [-> | (o & -> & Ho & _)]; [done|].
  apply mapok_oset; [by eapply vok_status | done].
Qed.

Lemma mapok_add_all ids st error m : ok st -> mapok m -> mapok (add_all ids st error m).
Proof.
  intros H. unfold add_all. revert m. induction ids as [|id ids IH]; intros m Hm; simpl; [done|].
  apply IH. by apply mapok_add_status.
Qed.

Lemma mapok_determine id v m m' :
  determineAndAddEventStatusToMap id v JUndef m = Ok m' -> vok v -> mapok m -> mapok m'.
Proof.
  intros E Hv Hm. unfold determineAndAddEventStatusToMap in E. simpl in E.
  assert (Hd : vok (if is_number v then JObj [("status", v)] else v)).
  { destruct (is_number v) eqn:N; [|done]. intros st Hst. simpl in Hst.
    destruct v; try discriminate N; unfold prop in Hst; simpl in Hst; try discriminate Hst. by apply Hv. }
  set (data := if is_number v then _ else v) in *. clearbody data.
  revert E. repeat case_goal; intros [= <-]; auto using mapok_oset.
Qed.

Lemma mapok_tuple toString entries tuple m :
  ok Error -> reports_ok tuple -> mapok m -> mapok (status_from_tuple toString entries tuple m).
Proof.
  intros HE Ht Hm. unfold status_from_tuple. destruct (negb (truthy tuple)); [by apply mapok_add_all|].
  destruct tuple as [| | | | | | | | |l|]; try (by apply mapok_add_all).
  assert (G : forall l0 m0, (forall v, v ∈ l0 -> v ∈ l) -> mapok m0 -> mapok (add_tuples toString l0 m0).1).
  { induction l0 as [|v l0 IH]; intros m0 Hl H0; simpl; [done|].
    destruct (destructure_entry v) as [p|e] eqn:Dv; simpl; [|done].
    destruct (determineAndAddEventStatusToMap _ p.2 JUndef m0) as [m1|e] eqn:E; [|done].
    apply IH; [intros; apply Hl; by right|]. eapply mapok_determine; [exact E | | done].
    eapply Ht; [done | apply Hl; left | exact Dv]. }
  specialize (G l m (fun v H => H) Hm). destruct (add_tuples toString l m) as [m' [e|]]; [by apply mapok_add_all | done].
Qed.

(** ** The checks of [persistEventStatus] *)

Lemma normalize_loop_entries l m :
  NoDup (okeys l) -> (normalize_loop l m).2 = None -> forall id,
  match oget id l with
  | Some v => exists o, normalize_entry v = Some o /\ oget id (normalize_loop l m).1 = Some (JObj o)
  | None => oget id (normalize_loop l m).1 = oget id m
  end.
Proof.
  revert m. induction l as [|[k v] l IH]; intros m Hn E id; simpl; [done|].
  apply NoDup_cons in Hn as [Hk Hn]. simpl in E. destruct (normalize_entry v) as [o|] eqn:N; [|done].
  specialize (IH (oset k (JObj o) m) Hn E id). case_decide as Hid.
  - subst k. rewrite (proj2 (oget_None_okeys id l) Hk) in IH. exists o. split; [done|]. by rewrite IH, oget_oset_eq.
  - destruct (oget id l); [done|]. rewrite IH. by rewrite oget_oset_ne.
Qed.

(** An entry after the normalisation. *)
Definition normal_entry (v : jsval) : Prop := exists o, v = JObj o /\ oget "attempts" o = None /\ vok v.
Definition normal_map (m : obj jsval) : Prop := NoDup (okeys m) /\ forall id v, oget id m = Some v -> normal_entry v.

Lemma normalize_entry_normal v o : normalize_entry v = Some o -> vok v -> normal_entry (JObj o).
Proof.
  intros N Hv. exists o. split; [done|].
  assert (E : o = norm_fields v) by (unfold norm_fields; by rewrite N). subst o. split.
  - destruct v as [| | | | | | | | | |o]; try reflexivity. unfold norm_fields. simpl.
    repeat case_goal; rewrite ?oget_oset_ne by discriminate; reflexivity.
  - intros st Hst. simpl in Hst. apply Hv. destruct v as [| | | | | | | | | |o]; try discriminate Hst; try exact Hst.
    rewrite norm_fields_prop in Hst; [exact Hst|]. left.
Qed.

Lemma normalize_normal m :
  mapok m -> (normalizeStatusMap m).2 = None -> normal_map (normalizeStatusMap m).1.
Proof.
  intros [Hn Hv] E. split; [by apply normalize_loop_NoDup|]. intros id v Hid.
  pose proof (normalize_loop_entries m m Hn E id) as G. unfold normalizeStatusMap in Hid.
  destruct (oget id m) as [v0|] eqn:E0; [|congruence]. destruct G as (o & N & G).
  assert (v = JObj o) as -> by congruence. eapply normalize_entry_normal; [exact N | by eapply Hv].
Qed.

Lemma normal_submap m m' :
  normal_map m -> NoDup (okeys m') -> (forall id v, oget id m' = Some v -> oget id m = Some v) -> normal_map m'.
Proof. intros [_ H] Hn Hs. split; [done|]. eauto. Qed.

Lemma normal_mapok m : normal_map m -> mapok m.
Proof. intros [Hn H]. split; [done|]. intros id v E. by destruct (H id v E) as (o & -> & _ & ?). Qed.
End maps.

(** ** Writing statuses *)

Section writes.
Context (ok : EventProcessingStatus -> Prop) (okDone : ok Done) (okError : ok Error) (okExceeded : ok Exceeded).
Context {D W : Type} {ET : EventTable D} {EL : EventTableLaws D}.
Context (toISOString : Z -> string) (toString stringify : jsval -> string)
  (dateParse : string -> option Z) (stackOf : jsval -> string) (jsonParse : jsval -> option jsval).
Context (cfg : eventConfig) (tenant : option string).
(** The instance after its selection. *)
Context (chosen : pstate).

Abbreviation sel := (selectedEventMap chosen).
Definition selected_id (id : string) : Prop := ohas id sel = true.

(** What the selection tells the loop, and no later operation changes. *)
Definition chunk_info (s : pstate) : list string * bool := (selectedDelayedEventIds s, emptyChunkSelected s).

(** An instance whose writes concern the selected events. *)
Record confined (s : pstate) : Prop := {
  cf_selected : selectedEventMap s = sel;
  cf_info : chunk_info s = chunk_info chosen;
  cf_saga : nextSagaEvents s = [];
  cf_entries e : e ∈ queueEntries s -> selected_id (ev_ID e);
  cf_notCommitted e : e ∈ ovalues (notCommitedStatusMap s) -> selected_id (ev_ID e);
  cf_statusMap : mapok ok (statusMap s) }.

(** The instance after an operation: what confines it is as before, or the shared map has
    changed. *)
Definition similar (s s' : pstate) : Prop :=
  selectedEventMap s' = selectedEventMap s /\ chunk_info s' = chunk_info s /\
  nextSagaEvents s' = nextSagaEvents s /\ queueEntries s' = queueEntries s /\
  forall e, e ∈ ovalues (notCommitedStatusMap s') -> e ∈ ovalues (notCommitedStatusMap s).

Lemma similar_confined s s' : similar s s' -> mapok ok (statusMap s') -> confined s -> confined s'.
Proof.
  intros (E1 & E2 & E3 & E4 & E5) Hm [H1 H2 H3 H4 H5 _]. split; try congruence; [|by auto].
  intros e. rewrite E4. apply H4.
Qed.

Lemma set_statusMap_confined m s : mapok ok m -> confined s -> confined (set_statusMap m s).
Proof. intros Hm C. by apply (similar_confined s); [repeat split | |]. Qed.

Lemma similar_refl s : similar s s.
Proof. by repeat split. Qed.

Lemma similar_trans s1 s2 s3 : similar s1 s2 -> similar s2 s3 -> similar s1 s3.
Proof. intros (A1 & A2 & A3 & A4 & A5) (B1 & B2 & B3 & B4 & B5). split_and!; try congruence. auto. Qed.

Lemma ovalues_odel {V} k (o : obj V) v : v ∈ ovalues (odel k o) -> v ∈ ovalues o.
Proof.
  unfold ovalues. induction o as [|[k0 v0] o IH]; csimpl; [done|]. case_decide; csimpl; [intros Hv; right; auto|].
  intros [->|Hv]%elem_of_cons; [left | right; auto].
Qed.

Lemma ovalues_oset {V} k (v : V) o v' : v' ∈ ovalues (oset k v o) -> v' = v \/ v' ∈ ovalues o.
Proof.
  unfold ovalues. induction o as [|[k0 v0] o IH]; csimpl.
  - intros ->%list_elem_of_singleton. by left.
  - case_decide; csimpl; rewrite !elem_of_cons; intros [->|Hv]; auto. destruct (IH Hv); auto.
Qed.

Lemma ovalues_flat_map {V} (key : V -> string) l v : v ∈ ovalues (arrayToFlatMap key l) -> v ∈ l.
Proof.
  unfold arrayToFlatMap. assert (G : forall o, v ∈ ovalues (fold_left (fun r e => oset (key e) e r) l o) -> v ∈ l \/ v ∈ ovalues o).
  { induction l as [|e l IH]; intros o; simpl; [auto|]. intros [Hv|Hv]%IH; [left; by right|].
    apply ovalues_oset in Hv as [->|Hv]; [left; left | by right]. }
  intros [Hv|Hv]%G; [done | by apply elem_of_nil in Hv].
Qed.

Lemma mark_committed_similar ids st s : similar s (mark_committed ids st s).
Proof.
  unfold mark_committed. split_and!; try done. intros e. simpl. generalize (notCommitedStatusMap s).
  induction ids as [|id ids IH]; intros m; simpl; [done|]. intros He. apply IH in He. by eapply ovalues_odel.
Qed.

Lemma set_columns_moves now st data e :
  prop data "status" = jcode st -> oget "attempts" data = None -> ok st -> st ∈ [Open; Done; Error; Exceeded] ->
  moves ok e [st] (set_columns (prepare_data stringify dateParse stackOf cfg now data) now e).
Proof.
  intros Hst Hat Hok Hin.
  assert (Pat := prepare_attempts stringify dateParse stackOf cfg now data Hat). rewrite Hst in Pat.
  split; [apply set_columns_same|]. unfold set_columns. rewrite prepare_status, Pat, Hst.
  unfold set_error_column, set_startAfter_column, set_status_column. simpl.
  generalize (prop (prepare_data stringify dateParse stackOf cfg now data) "startAfter"),
    (prop (prepare_data stringify dateParse stackOf cfg now data) "error"). intros sa er.
  set (e1 := match sa with JDate (Some t) => _ | JNull => _ | _ => _ end).
  assert (E1 : ev_status e1 = status_code st /\ ev_attempts e1 = ev_attempts e) by (destruct sa as [| | | | | | |[?|]| | |]; done).
  clearbody e1. destruct E1 as [E1 E2]. unfold set_attempts_column, count_open. simpl.
  split_and!; [| |by constructor]; destruct st, (is_undefined er); simpl in *; lia.
Qed.

(** A group the checks leave. *)
Definition good_group (g : obj jsval * list string) : Prop :=
  (exists st, prop g.1 "status" = jcode st /\ ok st /\ st ∈ [Open; Done; Error; Exceeded]) /\
  oget "attempts" g.1 = None /\ forall id, id ∈ g.2 -> selected_id id.

Lemma persist_groups_move now groups s (d : D) :
  Forall good_group groups ->
  let r := persist_groups toISOString stringify dateParse stackOf cfg tenant now now groups s d in
  similar s r.1.1 /\ statusMap r.1.1 = statusMap s /\ rows_moved ok sel d r.1.2.
Proof.
  revert s d. induction groups as [|[data ids] groups IH]; intros s d Hg; simpl.
  { split_and!; auto using similar_refl, rows_moved_refl. }
  apply Forall_cons in Hg as [((st & Hst & Hok & Hin) & Hat & Hids) Hg]. simpl in Hst, Hat, Hids.
  unfold persist_group. destruct (negb (ohas "status" data)); simpl; [by apply IH|].
  set (s1 := mark_committed ids (prop data "status") s).
  assert (S1 : similar s s1) by apply mark_committed_similar.
  set (data' := prepare_data stringify dateParse stackOf cfg now data).
  destruct (schedule_retry toISOString cfg tenant now (prop data' "startAfter") s1) as [s2|e] eqn:R; simpl;
    [|by auto using rows_moved_refl].
  assert (E : similar s s2 /\ statusMap s2 = statusMap s).
  { unfold schedule_retry in R. destruct (negb _); [by injection R as <-|].
    destruct (prop data' "startAfter") as [| | | | | | |[t|]| | |]; try done. by injection R as <-. }
  destruct E as [S2 M2]. destruct (IH s2 (update_rows (id_in ids) (set_columns data' now) d) Hg) as (I1 & I2 & I3).
  split_and!; [by eapply similar_trans | congruence |]. eapply rows_moved_trans; [|exact I3].
  eapply rows_moved_update; [apply _ | apply set_columns_ID | done |]. intros e. exists [st]. by apply set_columns_moves.
Qed.

(** The groups of a checked map. *)
Lemma checked_groups m :
  normal_map ok m -> (forall id, id ∈ okeys m -> selected_id id) ->
  Forall good_group (ovalues (group_updates toString (ensureEveryStatusIsAllowed m))).
Proof.
  intros Hm Hs. assert (Hn := proj1 Hm). apply Forall_forall. intros [d0 ids] Hin. unfold ovalues in Hin.
  apply list_elem_of_fmap in Hin as ([key [d1 i1]] & E & Hin). simpl in E. injection E as -> ->.
  apply elem_of_oget in Hin; [|apply NoDup_group_updates].
  assert (Hget : forall id v, (id, v) ∈ ensureEveryStatusIsAllowed m ->
    oget id m = Some v /\ allowed_status v = true).
  { intros id v Hv. apply elem_of_oget in Hv; [|by apply NoDup_allowed]. rewrite oget_ensureAllowed in Hv by done.
    destruct (oget id m) as [v0|]; [|done]. destruct (allowed_status v0) eqn:A; [|done]. by injection Hv as ->. }
  destruct (group_updates_sound toString _ _ _ _ Hin) as (_ & (id0 & v0 & H0 & Hf) & Hids).
  destruct (Hget _ _ H0) as [G A]. destruct (proj2 Hm _ _ G) as (o & -> & Hat & Hv). simpl in Hf. subst o.
  split_and!; simpl; [|done|].
  - unfold allowed_status in A. simpl in A. apply status_in_code in A as (st & Hin' & Hst). exists st.
    split_and!; [exact Hst | apply Hv; exact Hst | done].
  - intros id Hid. destruct (Hids id Hid) as (v & Hv' & _). destruct (Hget _ _ Hv') as [G' _].
    apply Hs, oget_okeys. eauto.
Qed.

Lemma write_status_moves now m s (d : D) :
  normal_map ok m -> (forall id, id ∈ okeys m -> selected_id id) -> nextSagaEvents s = [] ->
  let r := write_status toISOString toString stringify dateParse stackOf cfg tenant now (ensureEveryStatusIsAllowed m) s d in
  similar s r.1.1 /\ statusMap r.1.1 = statusMap s /\ rows_moved ok sel d r.1.2.
Proof.
  intros Hm Hs Hn. unfold write_status. assert (G := checked_groups m Hm Hs).
  destruct (group_updates toString _) as [|g gs]; [simpl; auto using similar_refl, rows_moved_refl|].
  pose proof (persist_groups_move now (ovalues (g :: gs)) s d G) as (S & M & Mv).
  destruct (persist_groups _ _ _ _ _ _ now now (ovalues (g :: gs)) s d) as [[s' d'] [e|]]; simpl in *; [auto|].
  unfold insert_saga. assert (nextSagaEvents s' = []) as -> by (destruct S as (_ & _ & -> & _); done). simpl. auto.
Qed.

Lemma ensure_every_spec l s :
  (forall e, e ∈ l -> selected_id (ev_ID e)) -> normal_map ok (statusMap s) ->
  (forall id, id ∈ okeys (statusMap s) -> selected_id id) ->
  let s' := fold_left ensure_step l s in
  normal_map ok (statusMap s') /\ (forall id, id ∈ okeys (statusMap s') -> selected_id id) /\ similar s s'.
Proof.
  revert s. induction l as [|e l IH]; intros s Hl Hm Hs; simpl; [auto using similar_refl|].
  assert (Hl' : forall e0, e0 ∈ l -> selected_id (ev_ID e0)) by (intros; apply Hl; by right).
  assert (C : ensure_step s e = s \/
    ensure_step s e = set_statusMap (oset (ev_ID e) (JObj [("status", jcode Done)]) (statusMap s)) s).
  { unfold ensure_step. destruct (ohas (ev_ID e) (statusMap s)) eqn:O; [by left|]. simpl.
    destruct (_ || _); [by left | right]. apply ohas_false in O.
    unfold add_status, determineAndAddEventStatusToMap, prop. by rewrite O. }
  destruct C as [-> | ->]; [by apply IH|].
  destruct (IH (set_statusMap (oset (ev_ID e) (JObj [("status", jcode Done)]) (statusMap s)) s)) as (I1 & I2 & I3); [done| | |].
  - simpl. split; [apply NoDup_okeys_oset, Hm|]. intros id v. rewrite oget_oset. case_decide; [intros [= <-] | apply Hm].
    exists [("status", jcode Done)]. split_and!; [done | done |]. by eapply vok_status.
  - simpl. intros id [->|Hid]%okeys_oset_elem; [apply Hl; left | auto].
  - split_and!; auto.
Qed.

Lemma mapok_normalize l m : (forall k v, (k, v) ∈ l -> vok ok v) -> mapok ok m -> mapok ok (normalize_loop l m).1.
Proof.
  revert m. induction l as [|[k v] l IH]; intros m Hl Hm; simpl; [done|].
  destruct (normalize_entry v) as [o|] eqn:N; [|done]. apply IH; [intros; eapply Hl; by right|].
  apply mapok_oset; [|done]. destruct (normalize_entry_normal ok v o N) as (o' & [= <-] & _ & Ho); [eapply Hl; left | done].
Qed.

(** The checks leave a normal map of selected events. *)
Lemma only_selected_normal m :
  normal_map ok m ->
  normal_map ok (ensureOnlySelectedQueueEntries sel m) /\
  forall id, id ∈ okeys (ensureOnlySelectedQueueEntries sel m) -> selected_id id.
Proof.
  intros Hm. split.
  - eapply normal_submap; [exact Hm | apply NoDup_selected, Hm |]. intros id v. rewrite oget_ensureOnlySelected.
    by destruct (ohas id sel).
  - intros id Hid. apply oget_okeys in Hid as [v Hv]. rewrite oget_ensureOnlySelected in Hv. unfold selected_id.
    by destruct (ohas id sel).
Qed.

Lemma allowed_mapok m : normal_map ok m -> mapok ok (ensureEveryStatusIsAllowed m).
Proof.
  intros Hm. apply normal_mapok. eapply normal_submap; [exact Hm | apply NoDup_allowed, Hm |]. intros id v.
  rewrite oget_ensureAllowed by apply Hm. destruct (oget id m) as [v0|]; [|done]. by destruct (allowed_status v0).
Qed.

(** Nothing is written. *)
Ltac unmoved := simpl; split; [assumption | apply rows_moved_refl].

Lemma normalized_mapok m : mapok ok m -> mapok ok (normalizeStatusMap m).1.
Proof. intros Hm. apply mapok_normalize; [|done]. intros k v Hin. eapply Hm. by apply elem_of_oget; [apply Hm|]. Qed.

(** [persistEventStatus] on a map of its own. *)
Lemma persist_own_moves now m s (d : D) :
  confined s -> mapok ok m ->
  let r := persistEventStatus toISOString toString stringify dateParse stackOf cfg tenant now true (Some m) s d in
  confined r.1.1 /\ rows_moved ok sel d r.1.2.
Proof.
  intros C Hm. unfold persistEventStatus. cbn [default from_option id]. pose proof (normalize_normal ok m Hm) as N.
  destruct (normalizeStatusMap m) as [m1 [e|]]; simpl in N; [unmoved|].
  rewrite (cf_selected _ C). destruct (only_selected_normal m1 (N eq_refl)) as [N2 S2].
  destruct (write_status_moves now _ s d N2 S2 (cf_saga _ C)) as (W1 & W2 & W3).
  split; [|exact W3]. eapply similar_confined; [exact W1 | rewrite W2; apply C | done].
Qed.

(** [persistEventStatus] at the end of an iteration, on the shared map. *)
Lemma persist_final_moves now s (d : D) :
  confined s ->
  let r := persistEventStatus toISOString toString stringify dateParse stackOf cfg tenant now false None s d in
  confined r.1.1 /\ rows_moved ok sel d r.1.2.
Proof.
  intros C. unfold persistEventStatus. cbn [default from_option id].
  pose proof (normalize_normal ok _ (cf_statusMap _ C)) as N. pose proof (normalized_mapok _ (cf_statusMap _ C)) as M.
  destruct (normalizeStatusMap (statusMap s)) as [m1 [e|]]; simpl in N, M.
  { simpl. split; [|apply rows_moved_refl]. by apply set_statusMap_confined. }
  rewrite (cf_selected _ C). destruct (only_selected_normal m1 (N eq_refl)) as [N2 S2].
  set (s1 := set_statusMap (ensureOnlySelectedQueueEntries sel m1) s).
  destruct (ensure_every_spec (queueEntries s1) s1 (cf_entries _ C) N2 S2) as (N3 & S3 & Sim).
  change (fold_left ensure_step (queueEntries s1) s1) with (ensureEveryQueueEntryHasStatus s1) in N3, S3, Sim.
  set (s2 := ensureEveryQueueEntryHasStatus s1) in *. set (m4 := ensureEveryStatusIsAllowed (statusMap s2)).
  assert (Sm : similar s (set_statusMap m4 s2)) by exact Sim.
  destruct (write_status_moves now (statusMap s2) (set_statusMap m4 s2) d N3 S3) as (W1 & W2 & W3);
    [destruct Sm as (_ & _ & -> & _); apply C|].
  fold m4 in W1, W2, W3. split; [|exact W3].
  eapply similar_confined; [exact (similar_trans _ _ _ Sm W1) | | done]. rewrite W2. by apply allowed_mapok.
Qed.

(** ** The clusters of a chunk *)

Context (processEvent : string -> list event -> jsval -> W -> W * bool * result jsval jsval)
  (hook : event -> W -> W * option jsval) (before : W -> option jsval) (check : event -> W -> result jsval jsval).

(** The handler reports allowed statuses. *)
Context (handler_ok : forall key entries payload w tuple, (processEvent key entries payload w).2 = Ok tuple -> reports_ok ok tuple).

Lemma error_map_ok err (entries : list event) :
  mapok ok (fold_left (fun m e => oset (ev_ID e) (JObj [("status", jcode Error); ("error", err)]) m) entries []).
Proof.
  assert (G : forall m, mapok ok m -> mapok ok (fold_left (fun m e =>
    oset (ev_ID e) (JObj [("status", jcode Error); ("error", err)]) m) entries m)); [|apply G, mapok_nil].
  induction entries as [|e l IH]; intros m Hm; simpl; [done|]. apply IH. apply mapok_oset; [|done]. by eapply vok_status.
Qed.

Lemma processEvent_confined key entries payload s w :
  confined s ->
  let r := processEvent_ toString cfg processEvent key entries payload s w in
  confined r.1.1 /\ mapok ok r.2.
Proof.
  intros C. unfold processEvent_. destruct (isOutdatedAndKeepAlive s); [split; [done | apply mapok_nil]|].
  pose proof (handler_ok key entries payload w) as Hh.
  destruct (processEvent key entries payload w) as [[w' rb] res]. simpl in Hh.
  set (s1 := if rb then setShouldRollbackTransaction key s else s).
  assert (C1 : confined s1) by (unfold s1; destruct rb; [|done]; apply (similar_confined s); [by repeat split | apply C | done]).
  destruct res as [tuple|err].
  - specialize (Hh tuple eq_refl). unfold setEventStatus. destruct (commitOnEventLevel cfg || false).
    + simpl. split; [done|]. apply mapok_tuple; auto using mapok_nil.
    + assert (M : mapok ok (status_from_tuple toString entries tuple (statusMap s1))) by (apply mapok_tuple; auto; apply C1).
      simpl. split; [by apply set_statusMap_confined | done].
  - simpl. split; [|apply error_map_ok]. apply set_statusMap_confined; [|done]. apply mapok_add_all; [done | apply C1].
Qed.

(** A transaction keeps its writes or drops them. *)
Lemma in_new_tx_moves fin fn s (db : D * W) :
  (confined (fn s db).1.1 /\ rows_moved ok sel db.1 (fn s db).1.2.1) ->
  let r := in_new_tx fin fn s db in confined r.1.1 /\ rows_moved ok sel db.1 r.1.2.1.
Proof.
  intros [C M]. unfold in_new_tx. destruct (fn s db) as [[s' db'] exn]. simpl in C, M.
  unfold new_tx, executeInNewTransaction. destruct exn; simpl; [auto using rows_moved_refl|].
  destruct (commit_error fin); first [unmoved | done].
Qed.

Lemma process_isolated_moves now fin fin2 key entries payload s (db : D * W) :
  confined s ->
  let r := process_isolated toISOString toString stringify dateParse stackOf cfg tenant processEvent now fin fin2
             key entries payload s db in
  confined r.1.1 /\ rows_moved ok sel db.1 r.1.2.1.
Proof.
  intros C. unfold process_isolated.
  pose proof (processEvent_confined key entries payload s db.2 C) as [C1 M1].
  destruct (processEvent_ toString cfg processEvent key entries payload s db.2) as [[s1 w1] m]. simpl in C1, M1.
  unfold statusMapContainsError. pose proof (normalized_mapok m M1) as M2.
  destruct (normalizeStatusMap m) as [m1 [err|]]; simpl in M2; [unmoved|].
  destruct (existsb _ _ || _).
  - apply in_new_tx_moves. pose proof (persist_own_moves now m1 s1 db.1 C1 M2) as P.
    by destruct (persistEventStatus _ _ _ _ _ _ _ now true (Some m1) s1 db.1) as [[s' d'] exn].
  - pose proof (persist_own_moves now m1 s1 db.1 C1 M2) as [P1 P2].
    destruct (persistEventStatus _ _ _ _ _ _ _ now true (Some m1) s1 db.1) as [[s2 d2] exn]. simpl in P1, P2.
    unfold new_tx, executeInNewTransaction. destruct exn; simpl; [auto using rows_moved_refl|].
    destruct (commit_error fin); first [unmoved | done].
Qed.

(** The keep-alive touches timestamps of the events of the instance. *)
Lemma check_etags_valid_sub ts events s id :
  id ∈ (check_etags ts events s).1.1 -> id ∈ ev_ID <$> events.
Proof.
  revert s. induction events as [|e events IH]; intros s; csimpl; [done|].
  destruct (etag_matches s e); match goal with |- context [check_etags ts events ?s1] =>
    specialize (IH s1); destruct (check_etags ts events s1) as [[v o] s'] end; simpl in *; rewrite ?elem_of_cons; tauto.
Qed.

Lemma check_etags_similar ts events s : similar s (check_etags ts events s).2.
Proof.
  revert s. induction events as [|e events IH]; intros s; simpl; [apply similar_refl|].
  destruct (etag_matches s e); match goal with |- context [check_etags ts events ?s1] =>
    specialize (IH s1); destruct (check_etags ts events s1) as [[v o] s'] end; exact IH.
Qed.

Lemma drop_outdated_similar l s : similar s (drop_outdated l s).
Proof.
  unfold drop_outdated. revert s. induction l as [|e l IH]; intros s; simpl; [apply similar_refl|].
  eapply similar_trans; [|apply IH]. by repeat split.
Qed.

Lemma succeeded_similar ts l s : similar s (keepAlive_succeeded ts l s).
Proof.
  unfold keepAlive_succeeded. revert s. induction l as [|e l IH]; intros s; simpl; [apply similar_refl|].
  eapply similar_trans; [|apply IH]. destruct (etag_matches s e); by repeat split.
Qed.

Lemma keepAlive_moves now fin s (d : D) :
  confined s -> let r := keepAlive_tx now fin s d in confined r.1 /\ rows_moved ok sel d r.2.
Proof.
  intros C.
  assert (Sm : similar s (keepAlive_tx now fin s d).1).
  { unfold keepAlive_tx, keepAlive_tick. case_bool_decide; [by destruct (commit_error fin); apply similar_refl|].
    destruct (keepAliveViolated s); [by destruct (commit_error fin); apply similar_refl|].
    match goal with |- context [check_etags now ?l s] => pose proof (check_etags_similar now l s) as S1;
      destruct (check_etags now l s) as [[valid outdated] s1] end.
    assert (S2 : similar s (drop_outdated outdated s1)) by (eapply similar_trans; [exact S1 | apply drop_outdated_similar]).
    destruct valid, (commit_error fin); try exact S2. eapply similar_trans; [exact S2 | apply succeeded_similar]. }
  split.
  { eapply similar_confined; [exact Sm | | done]. destruct (keepAlive_tx_same now fin s d) as (_ & _ & _ & -> & _). apply C. }
  unfold keepAlive_tx, keepAlive_tick. case_bool_decide; [by destruct (commit_error fin); apply rows_moved_refl|].
  destruct (keepAliveViolated s); [by destruct (commit_error fin); apply rows_moved_refl|].
  match goal with |- context [check_etags now ?l s] => set (events := l); pose proof (check_etags_valid_sub now events s) as V;
    destruct (check_etags now events s) as [[valid outdated] s1] end.
  simpl in V. destruct valid as [|v0 valid], (commit_error fin); simpl; try apply rows_moved_refl.
  eapply rows_moved_update; [apply _ | done | |].
  - intros id (e & -> & He)%V%list_elem_of_fmap. unfold events in He. apply select_pred in He. zbool.
    unfold id_in in *. match goal with H : bool_decide _ = true |- _ => apply bool_decide_eq_true in H as He' end.
    apply list_elem_of_fmap in He' as (e' & -> & He'). by apply (cf_notCommitted _ C).
  - intros e. exists []. split_and!; [by repeat split | done | unfold count_open; simpl; lia | constructor].
Qed.

Lemma actions_move acts s (db : D * W) rejected :
  confined s ->
  let r := fold_left (fun st a => run_action toISOString toString stringify dateParse stackOf cfg tenant processEvent a st)
             acts (s, db, rejected) in
  confined r.1.1 /\ rows_moved ok sel db.1 r.1.2.1.
Proof.
  revert s db rejected. induction acts as [|a acts IH]; intros s db rejected C; [unmoved|]. cbn [fold_left].
  assert (G : let r := run_action toISOString toString stringify dateParse stackOf cfg tenant processEvent a (s, db, rejected) in
    confined r.1.1 /\ rows_moved ok sel db.1 r.1.2.1).
  { unfold run_action. destruct a as [now fin fin2 key|now fin].
    - destruct (oget key (eventProcessingMap s)) as [[entries payload]|]; [|unmoved].
      destruct (commitOnEventLevel cfg).
      + pose proof (process_isolated_moves now fin fin2 key entries payload s db C) as P.
        by destruct (process_isolated _ _ _ _ _ _ _ _ now fin fin2 key entries payload s db) as [[s' db'] exn].
      + unfold process_shared. pose proof (processEvent_confined key entries payload s db.2 C) as [P _].
        destruct (processEvent_ toString cfg processEvent key entries payload s db.2) as [[s' w'] m]. unmoved.
    - pose proof (keepAlive_moves now fin s db.1 C) as P. by destruct (keepAlive_tx now fin s db.1). }
  destruct (run_action _ _ _ _ _ _ _ _ a (s, db, rejected)) as [[s1 db1] r1]. destruct G as [G1 G2]. simpl in G1, G2.
  destruct (IH s1 db1 r1 G1) as [I1 I2]. split; [exact I1 | by eapply rows_moved_trans].
Qed.

Lemma fail_all_confined s : confined s -> confined (set_statusMap (add_all (ev_ID <$> queueEntries s) Error JUndef (statusMap s)) s).
Proof. intros C. apply set_statusMap_confined; [|done]. apply mapok_add_all; [done | apply C]. Qed.

Lemma clusterQueueEntries_confined s : confined s -> confined (clusterQueueEntries s).
Proof.
  unfold clusterQueueEntries. generalize (queueEntriesWithPayloadMap s). intros l. revert s.
  induction l as [|kv l IH]; intros s C; simpl; [done|]. apply IH. unfold addEntryToProcessingMap.
  destruct (default _ _). apply (similar_confined s); [by repeat split | apply C | done].
Qed.

Lemma process_chunk_moves acts fin s (db : D * W) :
  confined s ->
  let r := process_chunk toISOString toString stringify dateParse stackOf cfg tenant processEvent before acts fin s db in
  confined r.1.1 /\ rows_moved ok sel db.1 r.1.2.1.
Proof.
  intros C. unfold process_chunk. destruct (queueEntriesWithPayloadMap s) as [|kv kvs]; [unmoved|].
  assert (C1 := clusterQueueEntries_confined s C). unfold processEventMap.
  assert (G : forall s1 db1 (rollback : pstate -> bool), confined s1 -> rows_moved ok sel db.1 db1.1 ->
    let r := if commitOnEventLevel cfg then (s1, db1, None)
             else match new_tx fin (fun _ : D * W => (db1, rollback s1, Ok tt)) db with
                  | (db', Ok _) => (s1, (db1.1, db'.2), None)
                  | (db', Err err) => (s1, (db1.1, db'.2), Some err)
                  end in
    confined r.1.1 /\ rows_moved ok sel db.1 r.1.2.1).
  { intros s1 db1 rollback H1 H2. destruct (commitOnEventLevel cfg); [done|].
    by destruct (new_tx fin _ db) as [db' [|]]. }
  destruct (before db.2) as [err|].
  - by apply (G _ db (fun s1 => _ || existsb (fun key => shouldRollbackTransaction key s1) (okeys (eventProcessingMap s1))));
      [apply fail_all_confined | apply rows_moved_refl].
  - pose proof (actions_move acts (clusterQueueEntries s) db [] C1) as [A1 A2].
    destruct (fold_left _ acts (clusterQueueEntries s, db, [])) as [[s1 db1] rejected]. simpl in A1, A2.
    apply (G _ db1 (fun s1 => _ || existsb (fun key => shouldRollbackTransaction key s1) (okeys (eventProcessingMap s1))));
      [|done]. destruct rejected; [done | by apply fail_all_confined].
Qed.

(** ** Exceeded events *)

Lemma persist_exceeded_moves now events st s (db : D * W) :
  ok st -> confined s ->
  let r := persist_exceeded_tx toISOString toString stringify dateParse stackOf cfg tenant now events st s db in
  confined r.1.1 /\ rows_moved ok sel db.1 r.1.2.1.
Proof.
  intros Hst C. unfold persist_exceeded_tx, persistEventQueueStatusForExceeded, setEventStatus. rewrite orb_true_r.
  set (tuple := JArr (map (fun e => JArr [JStr (ev_ID e); jcode st]) events)).
  assert (Ht : reports_ok ok tuple).
  { intros l v p [= <-] Hv Hp. apply list_elem_of_fmap in Hv as (e & -> & _). injection Hp as <-. simpl.
    intros st' E. by apply jcode_inj in E as <-. }
  pose proof (persist_own_moves now (status_from_tuple toString events tuple []) s db.1 C
    (mapok_tuple ok toString events tuple [] okError Ht (mapok_nil ok))) as P.
  by destruct (persistEventStatus _ _ _ _ _ _ _ now true _ s db.1) as [[s' d'] exn].
Qed.

Lemma handleExceededEvent_moves now fin fin2 e s (db : D * W) :
  confined s ->
  let r := handleExceededEvent toISOString toString stringify dateParse stackOf jsonParse cfg tenant hook now fin fin2 e s db in
  confined r.1.1 /\ rows_moved ok sel db.1 r.1.2.1.
Proof.
  intros C. unfold handleExceededEvent. destruct (hook _ db.2) as [w' [err|]].
  - apply in_new_tx_moves. by apply persist_exceeded_moves.
  - pose proof (persist_exceeded_moves now [modifyQueueEntry jsonParse e] Exceeded s (db.1, w') okExceeded C) as [P1 P2].
    destruct (persist_exceeded_tx _ _ _ _ _ _ _ now _ Exceeded s (db.1, w')) as [[s1 db1] [err|]]; simpl in P1, P2.
    + apply in_new_tx_moves. by apply persist_exceeded_moves.
    + unfold new_tx, executeInNewTransaction. simpl. destruct (commit_error fin); first [unmoved | done].
Qed.

Lemma handleExceededEvents_moves now fin fins s (db : D * W) :
  confined s ->
  let r := handleExceededEvents toISOString toString stringify dateParse stackOf jsonParse cfg tenant hook now fin fins s db in
  confined r.1.1 /\ rows_moved ok sel db.1 r.1.2.1.
Proof.
  intros C. unfold handleExceededEvents.
  assert (H1 : let r := handleExceededTriesExceeded toISOString toString stringify dateParse stackOf cfg tenant now fin s db in
    confined r.1.1 /\ rows_moved ok sel db.1 r.1.2.1).
  { unfold handleExceededTriesExceeded. destruct (exceededTriesExceeded s); [unmoved|].
    apply in_new_tx_moves. by apply persist_exceeded_moves. }
  destruct (handleExceededTriesExceeded _ _ _ _ _ _ _ now fin s db) as [[s1 db1] [e|]]; [exact H1|]. destruct H1 as [C1 M1].
  simpl in C1, M1. generalize (eventsWithExceededTries s1). intros es.
  assert (G : forall es fins s0 db0, confined s0 -> rows_moved ok sel db.1 db0.1 ->
    let r := handle_exceeded_loop toISOString toString stringify dateParse stackOf jsonParse cfg tenant hook now fins es s0 db0 in
    confined r.1.1 /\ rows_moved ok sel db.1 r.1.2.1); [|by apply G].
  clear es. induction es as [|e es IH]; intros fins0 s0 db0 C0 M0; simpl; [done|].
  destruct (default _ (head fins0)) as [f1 f2].
  pose proof (handleExceededEvent_moves now f1 f2 e s0 db0 C0) as [P1 P2].
  destruct (handleExceededEvent _ _ _ _ _ _ _ _ _ now f1 f2 e s0 db0) as [[s2 db2] [err|]]; simpl in P1, P2.
  - split; [done | by eapply rows_moved_trans].
  - apply IH; [done | by eapply rows_moved_trans].
Qed.

Lemma preprocess_entry_confined w s e : confined s -> confined (preprocess_entry jsonParse check w s e).
Proof.
  intros C. unfold preprocess_entry. set (e' := modifyQueueEntry jsonParse e).
  assert (S1 : forall st, ok st -> confined (set_statusMap (add_status (ev_ID e') st JUndef (statusMap s)) s)).
  { intros st Hst. apply set_statusMap_confined; [|done]. apply mapok_add_status; [done | apply C]. }
  assert (A : forall v, confined (addEventWithPayloadForProcessing e' v s)).
  { intros v. unfold addEventWithPayloadForProcessing. destruct (ohas _ _); [|done].
    apply (similar_confined s); [by repeat split | apply C | done]. }
  destruct (check e' w) as [v|err].
  - destruct v; try apply A; by apply S1.
  - apply set_statusMap_confined; [|done]. apply mapok_add_all; [done | apply C].
Qed.
End writes.

(** ** An iteration refines the machine *)

(** The event [e] has been worked on at [now]: it was taken, with one attempt more, and
    afterwards at least one status was written for it, the last of which it has. *)
Definition worked_on (now : Z) (e e' : event) : Prop :=
  exists l, l <> [] /\ moves (fun _ => True) (set_in_progress now e) l e'.

Section iterations.
Context {D W : Type} {ET : EventTable D} {EL : EventTableLaws D}.
Context (toISOString : Z -> string) (toString stringify : jsval -> string)
  (dateParse : string -> option Z) (stackOf : jsval -> string) (jsonParse : jsval -> option jsval).
Context (cfg : eventConfig) (tenant : option string) (runInterval : Z).
Context (check : event -> W -> result jsval jsval)
  (processEvent : string -> list event -> jsval -> W -> W * bool * result jsval jsval)
  (hook : event -> W -> W * option jsval) (before : W -> option jsval).

Abbreviation select := (getQueueEntriesAndSetToInProgress toISOString cfg tenant runInterval).
Abbreviation processed base delayed sched := (chunk_processed cfg runInterval base (newInstance delayed sched)).

Lemma selection_confined ok base now delayed sched (d : D) :
  let s' := (select base now (newInstance delayed sched) d).1.2 in
  confined ok s' s' /\
  forall id, ohas id (selectedEventMap s') = true <-> id ∈ ev_ID <$> processed base delayed sched d.
Proof.
  set (s := newInstance delayed sched). cbv zeta.
  destruct (decide (chunk_processed cfg runInterval base s d = [])) as [E|E].
  - rewrite E. assert (K : queueEntries (select base now s d).1.2 = [] /\ notCommitedStatusMap (select base now s d).1.2 = [] /\
      statusMap (select base now s d).1.2 = [] /\ nextSagaEvents (select base now s d).1.2 = [] /\
      selectedEventMap (select base now s d).1.2 = []).
    { unfold chunk_processed, chunk_clusters in E. unfold getQueueEntriesAndSetToInProgress.
      fold (chunk cfg runInterval base s d). destruct (chunk cfg runInterval base s d) as [|e0 l] eqn:C; [done|].
      rewrite <- C in *. rewrite E. cbn [fst snd].
      match goal with |- context [handleDelayedEvents ?a ?b ?c ?n ?l ?k ?s0] =>
        destruct (handleDelayedEvents_state a b c n l k s0) as [sched' ->] end.
      destruct (negb (ec_isPeriodic cfg) && _), (negb (bool_decide (cl_exceededTriesExceeded _ = []))); done. }
    destruct K as (K1 & K2 & K3 & K4 & K5). split.
    + split; [done | done | done | | |]; rewrite ?K1, ?K2, ?K3; [intros e He; by apply elem_of_nil in He .. | apply mapok_nil].
    + intros id. rewrite K5. simpl. split; [done | intros Hn; by apply elem_of_nil in Hn].
  - destruct (selection_instance toISOString cfg tenant runInterval base now s d E)
      as (Q1 & _ & Q3 & _ & Qsel & Q5 & _ & _ & Q8 & _).
    assert (R : forall e, e ∈ (select base now s d).1.1 -> ohas (ev_ID e) (selectedEventMap (select base now s d).1.2) = true).
    { intros e He. apply Qsel. rewrite selection_result in He. apply list_elem_of_fmap in He as (e0 & -> & He).
      rewrite touch_ID. apply list_elem_of_fmap. exists e0. split; [done | by apply open_processed]. }
    split; [|done]. split; [done | done | by rewrite Q8 | by rewrite Q1 | | rewrite Q5; apply mapok_nil].
    rewrite Q3. intros e He. apply R. by eapply ovalues_flat_map.
Qed.

(** The selection of the iteration is committed and takes the event; the event is handed
    on if it has attempts left. *)
Definition taken (i : iteration) (delayed : list string) (sched : scheduler) (d : D) (id : string) : bool :=
  bool_decide (commit_error (it_selectEnd i) = None) &&
  bool_decide (id ∈ ev_ID <$> processed (it_base i) delayed sched d).
Definition handed_on (i : iteration) (delayed : list string) (sched : scheduler) (d : D) (id : string) : bool :=
  bool_decide (commit_error (it_selectEnd i) = None) &&
  bool_decide (id ∈ ev_ID <$> cl_openEvents (chunk_clusters cfg runInterval (it_base i) (newInstance delayed sched) d)).

Abbreviation iterate := (process_iteration toISOString toString stringify dateParse stackOf jsonParse cfg tenant
  runInterval check processEvent hook before).

Lemma preprocess_outcome ok i delayed sched (db : D * W) :
  ok Done -> ok Error ->
  let s := newInstance delayed sched in
  let sel := select (it_base i) (it_select i) s db.1 in
  let r := preprocess toISOString jsonParse cfg tenant runInterval check (it_base i) (it_select i) (it_selectEnd i) s db in
  match commit_error (it_selectEnd i) with
  | None => r.2 = None /\ confined ok sel.1.2 r.1.1 /\ r.1.2.1 = sel.2
  | Some e => r.2 <> None /\ r.1.2 = db
  end.
Proof.
  intros HD HE s sel r. subst r. unfold preprocess. fold s. fold sel.
  destruct (selection_confined ok (it_base i) (it_select i) delayed sched db.1) as [C _]. fold s in C. fold sel in C.
  destruct sel as [[result s1] d1]. simpl in *. unfold new_tx, executeInNewTransaction. simpl.
  destruct (commit_error (it_selectEnd i)); simpl; [done|]. split_and!; [done | | done].
  assert (G : forall l s0, confined ok s1 s0 ->
    confined ok s1 (fold_left (preprocess_entry jsonParse check db.2) l s0)).
  { induction l as [|e l IH]; intros s0 H0; simpl; [done|]. apply IH. by apply preprocess_entry_confined. }
  by apply G.
Qed.

(** What an iteration does after the preprocessing. *)
Lemma rest_moves ok chosen i s1 (db1 : D * W) :
  ok Done -> ok Error -> ok Exceeded ->
  (forall key entries payload w tuple, (processEvent key entries payload w).2 = Ok tuple -> reports_ok ok tuple) ->
  confined ok chosen s1 ->
  let r :=
    match handleExceededEvents toISOString toString stringify dateParse stackOf jsonParse cfg tenant hook
             (it_exceeded i) (it_exceededEnd i) (it_exceededEnds i) s1 db1 with
     | (s2, db2, None) =>
       match process_chunk toISOString toString stringify dateParse stackOf cfg tenant processEvent before
               (it_acts i) (it_chunkEnd i) s2 db2 with
       | (s3, db3, None) =>
         in_new_tx (it_persistEnd i)
           (fun s db => let '(s', d', exn) := persistEventStatus toISOString toString stringify dateParse stackOf cfg tenant
                                                (it_persist i) false None s db.1 in (s', (d', db.2), exn))
           s3 db3
       | failed => failed
       end
     | failed => failed
     end in
  confined ok chosen r.1.1 /\ rows_moved ok (selectedEventMap chosen) db1.1 r.1.2.1.
Proof.
  intros HD HE HX Hh C1.
  pose proof (handleExceededEvents_moves ok HE HX toISOString toString stringify dateParse stackOf jsonParse cfg tenant chosen
    hook (it_exceeded i) (it_exceededEnd i) (it_exceededEnds i) s1 db1 C1) as [C2 M2].
  destruct (handleExceededEvents _ _ _ _ _ _ _ _ _ _ _ _ s1 db1) as [[s2 db2] [e2|]]; [exact (conj C2 M2)|]. simpl in C2, M2.
  pose proof (process_chunk_moves ok HE toISOString toString stringify dateParse stackOf cfg tenant chosen
    processEvent hook before check Hh (it_acts i) (it_chunkEnd i) s2 db2 C2) as [C3 M3].
  destruct (process_chunk _ _ _ _ _ _ _ _ _ (it_acts i) (it_chunkEnd i) s2 db2) as [[s3 db3] [e3|]]; simpl in C3, M3;
    [split; [exact C3 | by eapply rows_moved_trans]|].
  match goal with |- context [in_new_tx ?fin ?fn s3 db3] =>
    assert (P : let r := in_new_tx fin fn s3 db3 in confined ok chosen r.1.1 /\ rows_moved ok (selectedEventMap chosen) db3.1 r.1.2.1) end.
  2: { destruct P as [P1 P2]. split; [exact P1|]. eapply rows_moved_trans; [exact M2 | by eapply rows_moved_trans]. }
  apply in_new_tx_moves.
  pose proof (persist_final_moves ok HD toISOString toString stringify dateParse stackOf cfg tenant chosen
    (it_persist i) s3 db3.1 C3) as F.
  by destruct (persistEventStatus _ _ _ _ _ _ _ (it_persist i) false None s3 db3.1) as [[s' d'] exn].
Qed.

(** After a committed selection the iteration only moves the selected rows. *)
Lemma iteration_moves ok i delayed sched (db : D * W) :
  ok Done -> ok Error -> ok Exceeded -> commit_error (it_selectEnd i) = None ->
  (forall key entries payload w tuple, (processEvent key entries payload w).2 = Ok tuple -> reports_ok ok tuple) ->
  let sel := select (it_base i) (it_select i) (newInstance delayed sched) db.1 in
  let r := iterate i delayed sched db in
  confined ok sel.1.2 r.1.1 /\ rows_moved ok (selectedEventMap sel.1.2) sel.2 r.1.2.1.
Proof.
  intros HD HE HX Hc Hh sel. unfold process_iteration.
  pose proof (preprocess_outcome ok i delayed sched db HD HE) as P. cbv zeta in P. fold sel in P.
  destruct (preprocess _ _ _ _ _ _ (it_base i) (it_select i) (it_selectEnd i) _ db) as [[s1 db1] exn1].
  rewrite Hc in P. destruct P as (P1 & C1 & R1). simpl in P1, C1, R1. subst exn1. rewrite <- R1. by apply rest_moves.
Qed.

(** The effect of an iteration on a row. *)
Lemma iteration_refines_lifecycle_core ok i delayed sched (db : D * W) id e :
  ok Done -> ok Error -> ok Exceeded -> ec_isPeriodic cfg = false ->
  (forall key entries payload w tuple, (processEvent key entries payload w).2 = Ok tuple -> reports_ok ok tuple) ->
  row id db.1 = Some e ->
  exists e', row id (iterate i delayed sched db).1.2.1 = Some e' /\
    if taken i delayed sched db.1 id
    then selectable cfg runInterval (it_base i) delayed e = true /\ exists l, moves ok (set_in_progress (it_select i) e) l e'
    else e' = e.
Proof.
  intros HD HE HX Hp Hh Hrow. unfold taken. destruct (commit_error (it_selectEnd i)) as [err|] eqn:Hc.
  { rewrite bool_decide_false by done. exists e. split; [|done]. unfold process_iteration.
    pose proof (preprocess_outcome ok i delayed sched db HD HE) as P. cbv zeta in P.
    destruct (preprocess _ _ _ _ _ _ (it_base i) (it_select i) (it_selectEnd i) _ db) as [[s1 db1] exn1].
    rewrite Hc in P. destruct P as [P1 P2]. simpl in P1, P2. subst db1. by destruct exn1. }
  pose proof (proj2 (iteration_moves ok i delayed sched db HD HE HX Hc Hh) id) as M.
  destruct (selection_confined ok (it_base i) (it_select i) delayed sched db.1) as [_ Hsel].
  set (sel := selectedEventMap _) in *.
  rewrite selection_rows, Hrow, Hp in M. destruct M as (e' & Re & M). exists e'. split; [exact Re|].
  rewrite (bool_decide_true (_ = None)) by done. simpl.
  assert (Hid : ev_ID e = id) by (by eapply row_ID). subst id.
  case_bool_decide as Hin.
  - rewrite (proj2 (Hsel (ev_ID e)) Hin), selected_row_taken in M by first [exact Hin | apply not_elem_of_nil]. split; [|exact M].
    apply list_elem_of_fmap in Hin as (e0 & E & He0). apply (processed_chunk toISOString), chunk_spec in He0 as [Hr0 Hs0].
    rewrite <- E in Hr0. assert (e0 = e) as -> by congruence. exact Hs0.
  - destruct (ohas (ev_ID e) sel) eqn:O; [by apply Hsel in O|].
    by rewrite selected_row_other in M by first [exact Hin | apply not_elem_of_nil].
Qed.

(** A clean iteration works on every event it hands on, periodic ones included: it takes the
    event and writes a status for it afterwards, unless the keep-alive finds it taken over. *)
Lemma iteration_works base selectTime excTime persistTime endTime acts chunkEnd delayed sched (db : D * W) :
  commitOnEventLevel cfg = true ->
  let i := mkIteration base selectTime excTime persistTime endTime clean_end clean_end [] acts chunkEnd clean_end in
  exists s' db', iterate i delayed sched db = (s', db', None) /\
    forall e, touch selectTime e ∈ (select base selectTime (newInstance delayed sched) db.1).1.1 -> row (ev_ID e) db.1 = Some e ->
      ohas (ev_ID e) (outdatedEventMap s') = true \/
      exists e', row (ev_ID e) db'.1 = Some e' /\ worked_on selectTime e e'.
Proof.
  intros Hi i.
  destruct (iteration_final toISOString toString stringify dateParse stackOf jsonParse cfg tenant runInterval check processEvent hook
    before base selectTime excTime persistTime endTime acts chunkEnd delayed sched db Hi) as (s' & db' & E & F).
  fold i in E. exists s', db'. split; [exact E|]. intros e Hin Hrow.
  destruct (F _ Hin) as [Ho|(e' & Re & Hfin)]; rewrite touch_ID in *; [by left | right]. exists e'. split; [exact Re|].
  pose proof (proj2 (iteration_moves (fun _ => True) i delayed sched db I I I eq_refl ltac:(done)) (ev_ID e)) as M. rewrite E in M.
  cbn [it_base it_select i fst snd] in M.
  assert (Hp : e ∈ processed base delayed sched db.1).
  { rewrite selection_result in Hin. apply list_elem_of_fmap in Hin as (e0 & Et & He0). apply open_processed in He0.
    assert (Hr0 := processed_chunk toISOString cfg runInterval _ _ _ _ He0). apply chunk_spec in Hr0 as [Hr0 _].
    apply (f_equal ev_ID) in Et. rewrite !touch_ID in Et. rewrite <- Et in Hr0. congruence. }
  rewrite (processed_row toISOString cfg tenant runInterval base selectTime _ _ e Hp), Re in M. destruct M as (e1 & [= <-] & M).
  destruct (ohas (ev_ID e) _) eqn:O.
  - destruct M as [l M]. exists l. split; [|exact M]. intros ->. destruct M as (_ & St & _), Hfin as (st & Hst & Hs). simpl in St.
    rewrite St in Hs. rewrite !elem_of_cons in Hst.
    destruct Hst as [->|[->|[->|[->|Hn]]]]; [discriminate Hs..|by apply elem_of_nil in Hn].
  - exfalso. destruct (selection_confined (fun _ => True) base selectTime delayed sched db.1) as [_ Hsel].
    rewrite (proj2 (Hsel (ev_ID e))) in O; [discriminate O|]. apply list_elem_of_fmap. eauto.
Qed.

(** C6. An iteration refines the life cycle of events: whatever the handlers do, in whatever
    order clusters and keep-alives run and however the transactions end, every row is left
    exactly as it is unless the iteration took it; a row it took was matched by the
    selection, has been set to in progress with one attempt more, and afterwards only had
    allowed statuses written, each open giving one attempt back. *)
Theorem iteration_refines_lifecycle ok i delayed sched (db : D * W) id e :
  ok Done -> ok Error -> ok Exceeded -> ec_isPeriodic cfg = false ->
  (forall key entries payload w tuple, (processEvent key entries payload w).2 = Ok tuple -> reports_ok ok tuple) ->
  row id db.1 = Some e ->
  exists e', row id (iterate i delayed sched db).1.2.1 = Some e' /\
    if taken i delayed sched db.1 id
    then selectable cfg runInterval (it_base i) delayed e = true /\ exists l, moves ok (set_in_progress (it_select i) e) l e'
    else e' = e.
Proof. apply iteration_refines_lifecycle_core. Qed.

(** Only events that are taken and have attempts left are handed on. *)
Lemma handed_on_taken i delayed sched (db : D * W) id e :
  row id db.1 = Some e -> handed_on i delayed sched db.1 id = true ->
  taken i delayed sched db.1 id = true /\ ev_attempts e < retryAttempts cfg.
Proof.
  unfold handed_on, taken. intros Hr [Hc Hd]%andb_true_iff. apply bool_decide_eq_true in Hc, Hd.
  apply list_elem_of_fmap in Hd as (e0 & -> & He0).
  assert (Hp := open_processed cfg runInterval _ _ _ _ He0). assert (Hr0 := processed_chunk toISOString cfg runInterval _ _ _ _ Hp).
  apply chunk_spec in Hr0 as [Hr0 _]. assert (e0 = e) as -> by congruence.
  apply clusterEvents_open in He0 as (_ & Ha & _). split; [|done].
  rewrite !bool_decide_true; [done | | done]. apply list_elem_of_fmap. eauto.
Qed.

(** A finished event is not matched by the selection. *)
Lemma finished_not_selectable base delayed e :
  ev_status e ∈ status_code <$> [Done; Exceeded; Suspended] -> selectable cfg runInterval base delayed e = false.
Proof.
  intros (st & E & Hst)%list_elem_of_fmap. unfold selectable, has_status. rewrite E.
  rewrite !elem_of_cons in Hst. destruct Hst as [->|[->|[->|Hn]]]; [..|by apply elem_of_nil in Hn];
    simpl; by rewrite !andb_false_r.
Qed.

(** ** Histories of an event *)

(** A step of others (publications, the housekeeping of other rows, other event types)
    keeps the row's attempts and its status. *)
Definition untouched (id : string) (db db' : D * W) : Prop := forall e, row id db.1 = Some e ->
  exists e', row id db'.1 = Some e' /\ ev_attempts e' = ev_attempts e /\ ev_status e' = ev_status e.

(** [history id db n db']: iterations of any instance and steps of others lead from [db]
    to [db'], and the event [id] is delivered [n] times on the way. *)
Inductive history (id : string) : D * W -> Z -> D * W -> Prop :=
| history_end db : history id db 0 db
| history_iterate i delayed sched db n db' :
    history id (iterate i delayed sched db).1.2 n db' ->
    history id db ((if handed_on i delayed sched db.1 id then 1 else 0) + n) db'
| history_other db db1 n db' : untouched id db db1 -> history id db1 n db' -> history id db n db'.

Lemma no_open_moves e l e' : moves (fun st => st <> Open) e l e' -> ev_attempts e' = ev_attempts e.
Proof.
  intros (_ & _ & A & F). rewrite A. enough (count_open l = 0) by lia. clear A. unfold count_open.
  induction F as [|st l [Hst _] _ IH]; simpl; [done|]. by rewrite decide_False, IH.
Qed.

(** C5. An event whose handlers never report open is handed to them at most as often as it
    has attempts left, however many iterations run, on whichever instances, and even if
    handlers crash, commits fail or clusters are lost: every delivery has used up an
    attempt that was committed before. *)
Theorem deliveries_bounded id (db : D * W) n db' e :
  ec_isPeriodic cfg = false ->
  (forall key entries payload w tuple, (processEvent key entries payload w).2 = Ok tuple ->
    reports_ok (fun st => st <> Open) tuple) ->
  history id db n db' -> row id db.1 = Some e ->
  0 <= n <= Z.max 0 (retryAttempts cfg - ev_attempts e).
Proof.
  intros Hp Hh H. revert e. induction H as [db|i delayed sched db n db' _ IH|db db1 n db' Hu _ IH]; intros e Hr; [lia| |].
  - destruct (iteration_refines_lifecycle_core (fun st => st <> Open) i delayed sched db id e) as (e' & Hr' & M); try done.
    specialize (IH e' Hr'). destruct (handed_on i delayed sched db.1 id) eqn:Dl.
    + apply (handed_on_taken _ _ _ _ _ e) in Dl as [Tk Ha]; [|done]. rewrite Tk in M.
      destruct M as (_ & l & M). apply no_open_moves in M. cbn in M. lia.
    + destruct (taken i delayed sched db.1 id).
      * destruct M as (_ & l & M). apply no_open_moves in M. cbn in M. lia.
      * subst e'. lia.
  - destruct (Hu e Hr) as (e' & Hr' & Ha & _). specialize (IH e' Hr'). lia.
Qed.

(** C38. A finished event stays finished: once its status is done, exceeded or suspended no
    iteration delivers it or changes its status any more. *)
Theorem finished_events_stay id (db : D * W) n db' e :
  ec_isPeriodic cfg = false -> history id db n db' -> row id db.1 = Some e ->
  ev_status e ∈ status_code <$> [Done; Exceeded; Suspended] ->
  n = 0 /\ exists e', row id db'.1 = Some e' /\ ev_status e' = ev_status e.
Proof.
  intros Hp H. revert e. induction H as [db|i delayed sched db n db' _ IH|db db1 n db' Hu _ IH]; intros e Hr Hf; [eauto| |].
  - destruct (iteration_refines_lifecycle_core (fun _ => True) i delayed sched db id e) as (e' & Hr' & M); try done.
    destruct (taken i delayed sched db.1 id) eqn:Tk.
    + destruct M as [Hs _]. exfalso. by apply (finished_not_selectable (it_base i) delayed) in Hf; rewrite Hs in Hf.
    + subst e'. destruct (IH e Hr' Hf) as [-> IH']. split; [|done].
      destruct (handed_on i delayed sched db.1 id) eqn:Dl; [|done]. eapply handed_on_taken in Dl as [? _]; [|done]. congruence.
  - destruct (Hu e Hr) as (e' & Hr' & _ & Hs). rewrite <- Hs in Hf |- *. eauto.
Qed.
End iterations.

(** ** Witnesses *)

Lemma demoHandler_ok (ok : EventProcessingStatus -> Prop) key entries payload w tuple :
  ok Done -> (demoHandler key entries payload w).2 = Ok tuple -> reports_ok ok tuple.
Proof.
  intros HD [= <-] l v p [= <-] Hv Hp. apply list_elem_of_fmap in Hv as (e & -> & _). injection Hp as <-.
  intros st E. by apply jcode_inj in E as <-.
Qed.

Definition demoIteration : iteration :=
  mkIteration 2000 2001 2002 2004 2005 clean_end clean_end []
    [Tick 2002 clean_end; RunCluster 2003 clean_end clean_end "a"] clean_end clean_end.
Abbreviation demoIterate := (process_iteration demoISO demoToString demoStringify demoParse demoStack demoParseJson
  (demoEventConfig isolated) None 1500000 demoCheck demoHandler demoHook demoBefore).
Abbreviation demoHistory := (history demoISO demoToString demoStringify demoParse demoStack demoParseJson
  (demoEventConfig isolated) None 1500000 demoCheck demoHandler demoHook demoBefore).

Lemma iteration_refines_lifecycle_witness :
  exists e', row "a" (demoIterate demoIteration [] newScheduler (demoTable, 0)).1.2.1 = Some e' /\
    exists l, moves (fun st => st <> Open) (set_in_progress 2001 (demoRow "a" 0 0 5)) l e'.
Proof.
  destruct (iteration_refines_lifecycle demoISO demoToString demoStringify demoParse demoStack demoParseJson
    (demoEventConfig isolated) None 1500000 demoCheck demoHandler demoHook demoBefore (fun st => st <> Open)
    demoIteration [] newScheduler (demoTable, 0) "a" (demoRow "a" 0 0 5)) as (e' & R & M);
    [discriminate | discriminate | discriminate | reflexivity | | reflexivity |].
  - intros key entries payload w tuple. by apply demoHandler_ok.
  - exists e'. split; [exact R|].
    assert (E : taken (demoEventConfig isolated) 1500000 demoIteration [] newScheduler demoTable "a" = true)
      by (vm_compute; reflexivity). cbn [fst] in M. rewrite E in M. apply M.
Defined.

(** One iteration on the demo table: [a] is delivered, [b] is not. *)
Lemma demoHistory_one id (n : bool) :
  handed_on (demoEventConfig isolated) 1500000 demoIteration [] newScheduler demoTable id = n ->
  demoHistory id (demoTable, 0) (if n then 1 else 0) (demoIterate demoIteration [] newScheduler (demoTable, 0)).1.2.
Proof.
  intros E. rewrite <- (Z.add_0_r (if n then 1 else 0)), <- E.
  apply (history_iterate demoISO demoToString demoStringify demoParse demoStack demoParseJson (demoEventConfig isolated)
    None 1500000 demoCheck demoHandler demoHook demoBefore id demoIteration [] newScheduler (demoTable, 0)). constructor.
Qed.

Lemma deliveries_bounded_witness :
  exists n db', demoHistory "a" (demoTable, 0) n db' /\ n = 1 /\ 0 <= n <= 2.
Proof.
  assert (H := demoHistory_one "a" true ltac:(vm_compute; reflexivity)). do 2 eexists. split; [exact H|]. split; [reflexivity|].
  pose proof (deliveries_bounded demoISO demoToString demoStringify demoParse demoStack demoParseJson (demoEventConfig isolated)
    None 1500000 demoCheck demoHandler demoHook demoBefore "a" _ _ _ (demoRow "a" 0 0 5) eq_refl
    (fun key entries payload w tuple => demoHandler_ok (fun st => st <> Open) key entries payload w tuple ltac:(discriminate))
    H eq_refl) as B.
  exact B.
Defined.

Lemma finished_events_stay_witness :
  exists n db', demoHistory "b" (demoTable, 0) n db' /\ n = 0 /\
    exists e', row "b" db'.1 = Some e' /\ ev_status e' = status_code Done.
Proof.
  assert (H := demoHistory_one "b" false ltac:(vm_compute; reflexivity)). do 2 eexists. split; [exact H|].
  apply (finished_events_stay demoISO demoToString demoStringify demoParse demoStack demoParseJson (demoEventConfig isolated)
    None 1500000 demoCheck demoHandler demoHook demoBefore "b" _ _ _ (demoRow "b" 2 1 6) eq_refl H eq_refl).
  left.
Defined.
