(* ===== verification/RunLoop.v ===== *)
(** * The loop of a run ([processEventQueue.js])

    What the [while] loop does for an event that is due when the run starts: as long as the
    run has time, one chunk follows the other until the event has had its turn, however many
    events come before it. *)

From S2P Require Import Prelude Js Errors Common Scheduling Database Processor Selection KeepAlive ProcessEventQueue Lifecycle.
#[local] Open Scope Z_scope.

Lemma quot5_ge a : a - 4 <= 5 * Z.quot a 5.
Proof. pose proof (Z.quot_rem' a 5). pose proof (Z.rem_bound_abs a 5 ltac:(lia)). lia. Qed.

(** An event whose start is not in the future is not delayed. *)
Lemma due_not_delayed runInterval base e :
  (forall t, ev_startAfter e = Some t -> t <= base) ->
  isDelayedEvent e (clusterRefDate runInterval (refDateStartAfter runInterval base)) = false.
Proof.
  intros H. unfold isDelayedEvent. destruct (ev_startAfter e) as [t|]; [|done]. specialize (H t eq_refl).
  apply negb_false_iff, Z.leb_le. unfold clusterRefDate, refDateStartAfter, date_trunc, EVENT_START_AFTER_HEADROOM.
  pose proof (quot5_ge (5 * base + 6 * runInterval)).
  pose proof (quot5_ge (5 * Z.quot (5 * base + 6 * runInterval) 5 - 6 * runInterval + 5 * 3000)). lia.
Qed.

Lemma date_trunc_le a b d : a <= b -> 0 < d -> date_trunc a d <= date_trunc b d.
Proof. intros. apply Z.quot_le_mono; lia. Qed.

(** What is due stays due: the selection of a later run matches the event, too. *)
Lemma selectable_later cfg runInterval now base start delayed e :
  0 < (ec_keepAliveMaxInProgressTime cfg).2 -> now <= base -> ec_startTime cfg <= start -> ev_ID e ∉ delayed ->
  selectable cfg runInterval now [] e = true -> selectable (with_startTime start cfg) runInterval base delayed e = true.
Proof.
  intros Hk Hb Hs Hd. unfold selectable, id_in. cbn [ec_type ec_subType ec_namespace ec_isPeriodic ec_startTime with_startTime].
  assert (Ha : attempted_until (ec_startTime cfg) e = true -> attempted_until start e = true).
  { unfold attempted_until. destruct (ev_lastAttempt e); [|done]. rewrite !Z.leb_le. lia. }
  assert (Hr : match ev_startAfter e with None => true | Some t => t <=? refDateStartAfter runInterval now end = true ->
    match ev_startAfter e with None => true | Some t => t <=? refDateStartAfter runInterval base end = true).
  { destruct (ev_startAfter e); [|done]. rewrite !Z.leb_le. unfold refDateStartAfter. intros.
    pose proof (date_trunc_le (5 * now + 6 * runInterval) (5 * base + 6 * runInterval) 5 ltac:(lia) ltac:(lia)). lia. }
  assert (Hp : attempted_until (inProgressLimit cfg now) e = true ->
    attempted_until (inProgressLimit (with_startTime start cfg) base) e = true).
  { unfold attempted_until, inProgressLimit, keepAliveMaxMs. simpl. destruct (ec_keepAliveMaxInProgressTime cfg) as [n d]. simpl in *.
    destruct (ev_lastAttempt e); [|done]. rewrite !Z.leb_le.
    pose proof (date_trunc_le (now * d - n * 1000) (base * d - n * 1000) d ltac:(nia) ltac:(lia)). lia. }
  rewrite (bool_decide_false _ Hd), !andb_true_iff, !orb_true_iff, !andb_true_iff. intros [[[[[S1 S2] S3] S4] S5] S6].
  split_and!; auto. rewrite !orb_true_iff in *. intuition.
Qed.

Section run_loop.
Context {D W : Type} {ET : EventTable D} {EL : EventTableLaws D}.
Context (toISOString : Z -> string) (toString stringify : jsval -> string)
  (dateParse : string -> option Z) (stackOf : jsval -> string) (jsonParse : jsval -> option jsval).
Context (cfg : eventConfig) (tenant : option string) (runInterval : Z).
Context (check : event -> W -> result jsval jsval)
  (processEvent : string -> list event -> jsval -> W -> W * bool * result jsval jsval)
  (hook : event -> W -> W * option jsval) (before : W -> option jsval).

(** The chunk is full of events that come before [e]. *)
Definition chunk_ahead (base : Z) (s : pstate) (d : D) (e : event) : Prop :=
  length (chunk cfg runInterval base s d) = Z.to_nat (selectMaxChunkSize cfg) /\
  Forall (fun e' => row_before e' e) (chunk cfg runInterval base s d).

(** An iteration whose own transactions commit; those of the clusters end in any way. *)
Definition clean_iteration (i : iteration) : Prop :=
  it_selectEnd i = clean_end /\ it_exceededEnd i = clean_end /\ it_exceededEnds i = [] /\ it_persistEnd i = clean_end.

Abbreviation select := (getQueueEntriesAndSetToInProgress toISOString cfg tenant runInterval).
Abbreviation iterate := (process_iteration toISOString toString stringify dateParse stackOf jsonParse cfg tenant
  runInterval check processEvent hook before).
Abbreviation loop := (process_loop toISOString toString stringify dateParse stackOf jsonParse cfg tenant
  runInterval check processEvent hook before).

(** ** One iteration *)

(** A selected event is handed on if it has attempts left and is due. *)
Lemma chunk_handed_on base now s (d : D) e :
  e ∈ chunk cfg runInterval base s d -> ev_attempts e < retryAttempts cfg ->
  isDelayedEvent e (clusterRefDate runInterval (refDateStartAfter runInterval base)) = false ->
  touch now e ∈ (select base now s d).1.1.
Proof. intros He Ha Hd. rewrite selection_result. apply list_elem_of_fmap. exists e. split; [done|]. by apply clusterEvents_open. Qed.

(** What the selection tells the loop. *)
Lemma selection_info base now delayed sched (d : D) :
  let s := newInstance delayed sched in
  chunk_info (select base now s d).1.2 =
    match chunk cfg runInterval base s d with
    | [] => (delayed, true)
    | _ => (delayed ++ (ev_ID <$> cl_delayedEvents (chunk_clusters cfg runInterval base s d)), false)
    end.
Proof.
  intros s. unfold getQueueEntriesAndSetToInProgress, chunk_clusters. fold (chunk cfg runInterval base s d).
  destruct (chunk cfg runInterval base s d) as [|e0 l] eqn:C; [done|]. rewrite <- C. set (cl := clusterEvents _ _ _ _). clearbody cl.
  match goal with |- context [handleDelayedEvents ?a ?b ?c ?n ?l ?k ?s0] =>
    destruct (handleDelayedEvents_state a b c n l k s0) as [sched' ->] end.
  destruct (eventsForProcessing cfg cl), (ec_isPeriodic cfg && ec_lastSuccessfulRunTimestamp cfg),
    (negb (ec_isPeriodic cfg) && negb (bool_decide (cl_exceededTries cl = []))),
    (negb (bool_decide (cl_exceededTriesExceeded cl = []))); reflexivity.
Qed.

(** An event that is not in the chunk is left alone. *)
Lemma not_in_chunk base now delayed sched (d : D) e :
  let s := newInstance delayed sched in
  row (ev_ID e) d = Some e -> e ∉ chunk cfg runInterval base s d ->
  (forall l, l ⊆ chunk cfg runInterval base s d -> ev_ID e ∉ ev_ID <$> l) /\
  row (ev_ID e) (select base now s d).2 = Some e /\ ohas (ev_ID e) (selectedEventMap (select base now s d).1.2) = false /\
  (ev_ID e ∉ delayed -> ev_ID e ∉ selectedDelayedEventIds (select base now s d).1.2).
Proof.
  intros s Hr Hn.
  assert (Hno : forall l, l ⊆ chunk cfg runInterval base s d -> ev_ID e ∉ ev_ID <$> l).
  { intros l Hl (e1 & E & H1)%list_elem_of_fmap. apply Hl in H1. assert (H2 := H1). apply chunk_spec in H2 as [R1 _].
    rewrite <- E, Hr in R1. injection R1 as <-. done. }
  assert (Hp : ev_ID e ∉ ev_ID <$> chunk_processed cfg runInterval base s d)
    by (apply Hno; intros e1; apply (processed_chunk toISOString)).
  assert (Sub : forall l, l = cl_delayedEvents (chunk_clusters cfg runInterval base s d) \/
    l = cl_exceededTries (chunk_clusters cfg runInterval base s d) -> l ⊆ chunk cfg runInterval base s d).
  { intros l Hl e1 He. apply (clusterEvents_sub cfg runInterval _ (refDateStartAfter runInterval base)).
    destruct Hl as [-> | ->]; auto. }
  split; [exact Hno|]. split_and!.
  - rewrite selection_rows, Hr. simpl. f_equal. apply selected_row_other; [|exact Hp].
    destruct (ec_isPeriodic cfg); [|apply not_elem_of_nil]. apply Hno, Sub. by right.
  - destruct (ohas (ev_ID e) _) eqn:O; [|done].
    destruct (selection_confined toISOString cfg tenant runInterval (fun _ => True) base now delayed sched d) as [_ Hsel].
    by apply Hsel in O.
  - intros Hd. pose proof (selection_info base now delayed sched d) as I. fold s in I.
    apply (f_equal fst) in I. simpl in I. rewrite I. destruct (chunk cfg runInterval base s d) eqn:C; [exact Hd|]. simpl.
    rewrite <- C in *. apply not_elem_of_app. split; [exact Hd|]. apply Hno, Sub. by left.
Qed.

Context (isolated_mode : commitOnEventLevel cfg = true).

Lemma clean_result i delayed sched (db : D * W) :
  clean_iteration i ->
  exists s db', iterate i delayed sched db = (s, db', None) /\
    forall e, touch (it_select i) e ∈ (select (it_base i) (it_select i) (newInstance delayed sched) db.1).1.1 ->
      row (ev_ID e) db.1 = Some e ->
      ohas (ev_ID e) (outdatedEventMap s) = true \/
      exists e', row (ev_ID e) db'.1 = Some e' /\ worked_on (it_select i) e e'.
Proof.
  intros Hc. destruct i as [base sel exc per end_ e1 e2 e3 acts e4 e5], Hc as (C1 & C2 & C3 & C4). simpl in *. subst.
  by apply iteration_works.
Qed.

(** The turn of a due event: the iteration works on it, or its chunk is full of earlier
    events; then the event is as it was, and so are its chances in the next iteration. *)
Lemma iteration_turn i delayed sched (db : D * W) e :
  clean_iteration i -> row (ev_ID e) db.1 = Some e ->
  selectable cfg runInterval (it_base i) delayed e = true -> ev_attempts e < retryAttempts cfg ->
  isDelayedEvent e (clusterRefDate runInterval (refDateStartAfter runInterval (it_base i))) = false ->
  exists s db', iterate i delayed sched db = (s, db', None) /\
    (ohas (ev_ID e) (outdatedEventMap s) = true \/
     (exists e', row (ev_ID e) db'.1 = Some e' /\ worked_on (it_select i) e e') \/
     chunk_ahead (it_base i) (newInstance delayed sched) db.1 e /\ row (ev_ID e) db'.1 = Some e /\
     ev_ID e ∉ selectedDelayedEventIds s /\ (0 < selectMaxChunkSize cfg -> emptyChunkSelected s = false)).
Proof.
  intros Hc Hr Hs Ha Hd. destruct (clean_result i delayed sched db Hc) as (s & db' & E & F). exists s, db'. split; [exact E|].
  set (s0 := newInstance delayed sched) in *.
  destruct (decide (ev_ID e ∈ ev_ID <$> chunk cfg runInterval (it_base i) s0 db.1)) as [Hin|Hin].
  { apply list_elem_of_fmap in Hin as (e1 & E1 & He1). assert (H1 := He1). apply chunk_spec in H1 as [R1 _].
    rewrite <- E1, Hr in R1. injection R1 as <-.
    destruct (F e) as [?|?]; [by apply chunk_handed_on | done | by left | by right; left]. }
  right. right.
  assert (Hn : e ∉ chunk cfg runInterval (it_base i) s0 db.1) by (intros He; apply Hin; by apply list_elem_of_fmap_2).
  destruct (select_complete (selectable cfg runInterval (it_base i) (selectedDelayedEventIds s0))
    (Some (Z.to_nat (selectMaxChunkSize cfg))) db.1 _ e Hr Hs) as [He|(m & [= <-] & Hl & Hf)]; [by destruct Hn|].
  destruct (not_in_chunk (it_base i) (it_select i) delayed sched db.1 e Hr Hn) as (_ & N1 & N2 & N3). fold s0 in N1, N2, N3.
  assert (Hcommit : commit_error (it_selectEnd i) = None) by (by rewrite (proj1 Hc)).
  destruct (iteration_moves toISOString toString stringify dateParse stackOf jsonParse cfg tenant runInterval check processEvent hook
    before (fun _ => True) i delayed sched db I I I Hcommit ltac:(done)) as [C M].
  rewrite E in C, M. cbn [fst snd] in C, M. specialize (M (ev_ID e)). fold s0 in C, M. rewrite N1, N2 in M.
  destruct M as (e' & Re & ->). pose proof (cf_info _ _ _ C) as Ci. unfold chunk_info in Ci. injection Ci as Ci1 Ci2.
  split; [by split|]. split; [exact Re|]. split.
  - rewrite Ci1. apply N3. unfold selectable, id_in in Hs. apply andb_true_iff in Hs as [_ Hs].
    by apply negb_true_iff, bool_decide_eq_false in Hs.
  - intros Hpos. rewrite Ci2. pose proof (selection_info (it_base i) (it_select i) delayed sched db.1) as Si. fold s0 in Si.
    apply (f_equal snd) in Si. simpl in Si. rewrite Si. fold (chunk cfg runInterval (it_base i) s0 db.1) in Hl.
    destruct (chunk cfg runInterval (it_base i) s0 db.1); [simpl in Hl; lia | done].
Qed.

(** An event that has had its turn: it was worked on, and afterwards at most taken again. *)
Definition retaken (e e' : event) : Prop := exists now l, moves (fun _ => True) (set_in_progress now e) l e'.
Definition had_turn (e e' : event) : Prop := exists now e1, worked_on now e e1 /\ rtc retaken e1 e'.

Context (adHoc : ec_isPeriodic cfg = false).

Lemma loop_retakes its delayed sched (db : D * W) id e :
  Forall clean_iteration its -> row id db.1 = Some e ->
  exists e', row id (loop its delayed sched db).1.1.2.1 = Some e' /\ rtc retaken e e'.
Proof.
  intros Hc. revert delayed sched db e. induction Hc as [|i its Hi _ IH]; intros delayed sched db e Hr; simpl; [by exists e|].
  destruct (iteration_refines_lifecycle_core toISOString toString stringify dateParse stackOf jsonParse cfg tenant runInterval check
    processEvent hook before (fun _ => True) i delayed sched db id e I I I adHoc ltac:(done) Hr) as (e1 & R1 & M).
  assert (Hm : rtc retaken e e1).
  { destruct (taken _ _ _ _ _ _ _); [|by subst e1]. destruct M as (_ & l & M). apply rtc_once. by exists (it_select i), l. }
  destruct (clean_result i delayed sched db Hi) as (s & db' & E & _). rewrite E in R1 |- *. simpl in R1.
  destruct (reevaluateShouldContinue _ _ _ _ (it_end i) s) as [continue s']. destruct continue; simpl; [|by exists e1].
  destruct (IH (selectedDelayedEventIds s') (schedulerInstance s') db' e1 R1) as (e' & R & M').
  destruct (loop its _ _ db') as [[[insts db2] sc] fin]. simpl in *. exists e'. split; [done | by etrans].
Qed.

(** How a run has dealt with the event [e]: it had its turn, the keep-alive of an instance
    found it taken over by somebody else, or the run ended before, because it asks for no
    next chunk or because the last of its iterations ended after the time of the run, and
    the event is as it was. *)
Definition run_outcome (its : list iteration) (delayed : list string) (sched : scheduler) (d : D)
    (instances : list pstate) (d' : D) (e : event) : Prop :=
  (exists e', row (ev_ID e) d' = Some e' /\ had_turn e e') \/
  Exists (fun s => ohas (ev_ID e) (outdatedEventMap s) = true) instances \/
  row (ev_ID e) d' = Some e /\
  (exists i, head its = Some i /\ chunk_ahead (it_base i) (newInstance delayed sched) d e) /\
  (ec_checkForNextChunk cfg = false \/
   exists i, last (take (length instances) its) = Some i /\ ec_startTime cfg + runInterval <= it_end i).

Lemma reevaluate_spec now s :
  let r := reevaluateShouldContinue toISOString cfg tenant runInterval now s in
  selectedDelayedEventIds r.2 = selectedDelayedEventIds s /\ outdatedEventMap r.2 = outdatedEventMap s /\
  (r.1 = false -> ec_checkForNextChunk cfg = false \/ emptyChunkSelected s = true \/ ec_startTime cfg + runInterval <= now).
Proof.
  unfold reevaluateShouldContinue. destruct (ec_checkForNextChunk cfg); simpl; [|by auto].
  destruct (emptyChunkSelected s); simpl; [by auto|]. destruct (Z.ltb_spec now (ec_startTime cfg + runInterval)); simpl; auto.
Qed.

Lemma loop_turn now its delayed sched (db : D * W) e :
  0 < selectMaxChunkSize cfg -> ev_attempts e < retryAttempts cfg ->
  (forall base ids, now <= base -> ev_ID e ∉ ids -> selectable cfg runInterval base ids e = true) ->
  (forall t, ev_startAfter e = Some t -> t <= now) ->
  Forall clean_iteration its -> Forall (fun i => now <= it_base i) its ->
  row (ev_ID e) db.1 = Some e -> ev_ID e ∉ delayed ->
  let '(instances, db', _, finished) := loop its delayed sched db in
  finished = true -> run_outcome its delayed sched db.1 instances db'.1 e.
Proof.
  intros Hpos Ha Hsel Hst Hc. revert delayed sched db.
  induction Hc as [|i its Hi Hc IH]; intros delayed sched db Hb Hr Hd; [done|]. apply Forall_cons in Hb as [Hb Hbs]. simpl.
  destruct (iteration_turn i delayed sched db e Hi Hr (Hsel _ _ Hb Hd) Ha) as (s & db1 & E & Turn).
  { apply due_not_delayed. intros t Ht. specialize (Hst t Ht). lia. }
  rewrite E. pose proof (reevaluate_spec (it_end i) s) as R. cbv zeta in R.
  destruct (reevaluateShouldContinue _ _ _ _ (it_end i) s) as [continue s']. cbn [fst snd] in R. destruct R as (R1 & R2 & R3).
  rewrite <- R1, <- R2 in *.
  destruct Turn as [O|[(e1 & Re & Hw)|(Hahead & Re & Hd' & Hne)]].
  - destruct continue; [|by intros _; right; left; constructor].
    destruct (loop its _ _ db1) as [[[insts db2] sc] fin]. intros _. right. left. by constructor.
  - destruct continue.
    + destruct (loop_retakes its (selectedDelayedEventIds s') (schedulerInstance s') db1 _ e1 Hc Re) as (e' & Re' & Hm).
      destruct (loop its _ _ db1) as [[[insts db2] sc] fin]. intros _. left. exists e'. split; [exact Re'|]. by exists (it_select i), e1.
    + intros _. left. exists e1. split; [exact Re|]. by exists (it_select i), e1.
  - destruct continue.
    + specialize (IH (selectedDelayedEventIds s') (schedulerInstance s') db1 Hbs Re Hd').
      destruct (loop its _ _ db1) as [[[insts db2] sc] fin]. intros F.
      destruct (IH F) as [?|[?|(I1 & I2 & I3)]]; [by left | right; left; by constructor | right; right].
      split; [exact I1|]. split; [by exists i|]. destruct I3 as [?|(j & I3 & I4)]; [by left | right].
      exists j. split; [|exact I4]. simpl. by rewrite last_cons, I3.
    + intros _. right. right. split; [exact Re|]. split; [by exists i|].
      destruct (R3 eq_refl) as [?|[Em|?]]; [by left | by rewrite Hne in Em | right; by exists i].
Qed.

(** A run that has had time for an iteration that ends [runInterval] after its start is over. *)
Lemma loop_ends its delayed sched (db : D * W) :
  Exists (fun i => ec_startTime cfg + runInterval <= it_end i) its -> (loop its delayed sched db).2 = true.
Proof.
  intros (i & Hi & Hlate)%Exists_exists. apply list_elem_of_split in Hi as (its1 & its2 & ->).
  pose proof (loop_terminates_core toISOString toString stringify dateParse stackOf jsonParse cfg tenant runInterval check
    processEvent hook before its1 i its2 delayed sched db (or_introl Hlate)) as T.
  destruct (loop _ _ _ _) as [[[insts db'] sc] fin]. apply T.
Qed.
End run_loop.
