(* ===== verification/Handlers.v ===== *)
(** * Which events the application's handlers get

    An iteration calls [checkEventAndGeneratePayload] and [processEvent] for the events it
    hands on ([Lifecycle.handed_on]), and [hookForExceededEvents] for those with exceeded
    attempts.  That it calls them for no other event is stated without a log of calls:
    handlers that agree on these events are indistinguishable. *)

From S2P Require Import Prelude Js Errors Common Scheduling Database Processor Selection Exceeded KeepAlive ProcessEventQueue Lifecycle.
#[local] Open Scope Z_scope.

Lemma oget_ovalues {V} k (o : obj V) v : oget k o = Some v -> v ∈ ovalues o.
Proof.
  induction o as [|[k' v'] o IH]; simpl; [done|]. case_decide; csimpl; rewrite elem_of_cons; [intros [= ->]; by left | right; auto].
Qed.

(** ** What the operations leave alone *)

(** The events and payloads that are left to be processed, the clusters and the exceeded
    events of the instance. *)
Definition same_work (s s' : pstate) : Prop :=
  queueEntriesWithPayloadMap s' = queueEntriesWithPayloadMap s /\ eventProcessingMap s' = eventProcessingMap s /\
  eventsWithExceededTries s' = eventsWithExceededTries s.

#[export] Instance same_work_preorder : PreOrder same_work.
Proof.
  split; [by intros s | intros s1 s2 s3 (A1 & A2 & A3) (B1 & B2 & B3); split_and!; congruence].
Qed.

(** A fold of steps that keep the work keeps it. *)
Lemma fold_same_work {A} (f : pstate -> A -> pstate) l s :
  (forall s x, same_work s (f s x)) -> same_work s (fold_left f l s).
Proof. intros Hf. revert s. induction l as [|x l IH]; intros s; simpl; [done|]. by etrans; [apply Hf|]. Qed.

Section work.
Context {D W : Type} {ET : EventTable D}.
Context (toISOString : Z -> string) (toString stringify : jsval -> string)
  (dateParse : string -> option Z) (stackOf : jsval -> string) (jsonParse : jsval -> option jsval).
Context (cfg : eventConfig) (tenant : option string) (runInterval : Z).

Abbreviation persist := (persistEventStatus toISOString toString stringify dateParse stackOf cfg tenant).

Lemma persist_groups_work now ts groups s (d : D) :
  same_work s (persist_groups toISOString stringify dateParse stackOf cfg tenant now ts groups s d).1.1.
Proof.
  revert s d. induction groups as [|[data ids] groups IH]; intros s d; simpl; [done|].
  unfold persist_group. destruct (negb _); [apply IH|]. unfold schedule_retry. destruct (negb (truthy _)); [by etrans; [|apply IH]|].
  destruct (prop _ "startAfter") as [| | | | | | |[t|]| | |]; try done. by etrans; [|apply IH].
Qed.

Lemma write_status_work now m s (d : D) :
  same_work s (write_status toISOString toString stringify dateParse stackOf cfg tenant now m s d).1.1.
Proof.
  unfold write_status. destruct (group_updates _ _) as [|g gs]; [done|].
  pose proof (persist_groups_work now now (ovalues (g :: gs)) s d) as P.
  destruct (persist_groups _ _ _ _ _ _ _ _ _ s d) as [[s' d'] [err|]]; [done|]. simpl in P. etrans; [exact P|].
  unfold insert_saga. destruct (nextSagaEvents s'); [done|]. by destruct (insert_rows _ _).
Qed.

Lemma persist_work now skip own s (d : D) : same_work s (persist now skip own s d).1.1.
Proof.
  unfold persistEventStatus. destruct (normalizeStatusMap _) as [m1 [err|]]; [by destruct own|].
  assert (E : forall s, same_work s (ensureEveryQueueEntryHasStatus s)).
  { intros s0. apply fold_same_work. intros s1 x. by destruct (_ || _). }
  etrans; [|apply write_status_work]. destruct own, skip; try apply E; try done. by apply (E (set_statusMap (ensureOnlySelectedQueueEntries _ m1) s)).
Qed.

Lemma keepAlive_work now fin s (d : D) : same_work s (keepAlive_tx now fin s d).1.
Proof.
  assert (C : forall events s, same_work s (check_etags now events s).2).
  { induction events as [|e events IH]; intros s0; simpl; [done|]. destruct (etag_matches s0 e).
    - pose proof (IH (set_etagMap (oset (ev_ID e) (Some now) (etagMap s0)) s0)) as P. by destruct (check_etags _ _ _) as [[? ?] ?].
    - pose proof (IH (set_keepAliveViolated true s0)) as P. by destruct (check_etags _ _ _) as [[? ?] ?]. }
  assert (T : same_work s (keepAlive_tick now s d).1.1).
  { unfold keepAlive_tick. destruct (bool_decide _); [done|]. destruct (keepAliveViolated s); [done|].
    pose proof (C (select_rows (fun e => id_in (ev_ID <$> ovalues (notCommitedStatusMap s)) e && has_status InProgress e) None d) s) as P.
    destruct (check_etags _ _ _) as [[valid outdated] s1]. simpl in P. etrans; [exact P|].
    assert (O : same_work s1 (drop_outdated outdated s1)) by by apply fold_same_work. by destruct valid. }
  unfold keepAlive_tx. destruct (keepAlive_tick now s d) as [[s' d'] [events|]]; simpl in T; destruct (commit_error fin); try done.
  etrans; [exact T|]. apply fold_same_work. intros s1 x. by destruct (etag_matches s1 x).
Qed.

Lemma in_new_tx_work fin (fn : pstate -> D * W -> pstate * (D * W) * option jsval) s db :
  same_work s (fn s db).1.1 -> same_work s (in_new_tx fin fn s db).1.1.
Proof. unfold in_new_tx. destruct (fn s db) as [[s' db'] exn]. by destruct (new_tx _ _ _) as [? [|]]. Qed.

Lemma persist_exceeded_work now events st s (db : D * W) :
  same_work s (persist_exceeded_tx toISOString toString stringify dateParse stackOf cfg tenant now events st s db).1.1.
Proof.
  unfold persist_exceeded_tx, persistEventQueueStatusForExceeded, setEventStatus. rewrite orb_true_r.
  set (m := status_from_tuple _ _ _ _). pose proof (persist_work now true (Some m) s db.1) as P.
  by destruct (persist now true (Some m) s db.1) as [[s' d'] exn].
Qed.
End work.

(** ** Handlers that agree on some events *)

Section agreement.
Context {D W : Type} {ET : EventTable D}.
Context (toISOString : Z -> string) (toString stringify : jsval -> string)
  (dateParse : string -> option Z) (stackOf : jsval -> string) (jsonParse : jsval -> option jsval).
Context (cfg : eventConfig) (tenant : option string) (runInterval : Z).
Context (check1 check2 : event -> W -> result jsval jsval)
  (processEvent1 processEvent2 : string -> list event -> jsval -> W -> W * bool * result jsval jsval)
  (hook1 hook2 : event -> W -> W * option jsval) (before : W -> option jsval).

(** The events [checkEventAndGeneratePayload] and [processEvent] may get, and those
    [hookForExceededEvents] may get, by their ids. *)
Context (open_id exceeded_id : string -> Prop).
Hypothesis processEvent_agrees : forall key entries payload w,
  (forall e, e ∈ entries -> open_id (ev_ID e)) -> processEvent1 key entries payload w = processEvent2 key entries payload w.
Hypothesis check_agrees : forall e w, open_id (ev_ID e) -> check1 e w = check2 e w.
Hypothesis hook_agrees : forall e w, exceeded_id (ev_ID e) -> hook1 e w = hook2 e w.

(** The instance holds only such events. *)
Definition work_ok (s : pstate) : Prop :=
  (forall x, x ∈ ovalues (queueEntriesWithPayloadMap s) -> open_id (ev_ID x.1)) /\
  (forall x e, x ∈ ovalues (eventProcessingMap s) -> e ∈ x.1 -> open_id (ev_ID e)) /\
  (forall e, e ∈ eventsWithExceededTries s -> exceeded_id (ev_ID e)).

#[local] Instance work_ok_proper : Proper (same_work ==> iff) work_ok.
Proof. intros s s' (E1 & E2 & E3). unfold work_ok. by rewrite E1, E2, E3. Qed.

Abbreviation runAction pe := (run_action toISOString toString stringify dateParse stackOf cfg tenant pe).

(** *** The clusters *)

Lemma processEvent_agree key entries payload s w :
  (forall e, e ∈ entries -> open_id (ev_ID e)) ->
  processEvent_ toString cfg processEvent1 key entries payload s w = processEvent_ toString cfg processEvent2 key entries payload s w /\
  same_work s (processEvent_ toString cfg processEvent2 key entries payload s w).1.1.
Proof.
  intros He. unfold processEvent_. destruct (isOutdatedAndKeepAlive s); [done|]. rewrite processEvent_agrees by done. split; [done|].
  destruct (processEvent2 key entries payload w) as [[w' rollback] [tuple|err]]; unfold setEventStatus; destruct rollback; try done;
    by destruct (_ || _).
Qed.

Lemma run_action_agree a s db rejected :
  work_ok s ->
  runAction processEvent1 a (s, db, rejected) = runAction processEvent2 a (s, db, rejected) /\
  same_work s (runAction processEvent2 a (s, db, rejected)).1.1.
Proof.
  intros (_ & Hw & _). unfold run_action. destruct a as [now fin fin2 key|now fin].
  - destruct (oget key (eventProcessingMap s)) as [[entries payload]|] eqn:E; [|done].
    assert (He : forall e, e ∈ entries -> open_id (ev_ID e)) by (intros e; apply (Hw (entries, payload)); by eapply oget_ovalues).
    destruct (processEvent_agree key entries payload s db.2 He) as [P1 P2].
    unfold process_isolated, process_shared. rewrite P1.
    destruct (processEvent_ toString cfg processEvent2 key entries payload s db.2) as [[s1 w1] m]. simpl in P2.
    destruct (commitOnEventLevel cfg); [|done]. destruct (statusMapContainsError m) as [m1 [b|err]]; [|done]. split; [done|].
    destruct (b || _).
    + unfold commitStatusInNewTx. etrans; [exact P2|].
      match goal with |- context [in_new_tx ?f ?g ?s ?db] => pose proof (in_new_tx_work f g s db) as N end.
      destruct (in_new_tx _ _ s1 db) as [[s' db'] exn]. apply N. pose proof (persist_work toISOString toString stringify dateParse stackOf cfg tenant now true (Some m1) s1 db.1) as P.
      by destruct (persistEventStatus _ _ _ _ _ _ _ now true (Some m1) s1 db.1) as [[? ?] ?].
    + pose proof (persist_work toISOString toString stringify dateParse stackOf cfg tenant now true (Some m1) s1 db.1) as P.
      destruct (persistEventStatus _ _ _ _ _ _ _ now true (Some m1) s1 db.1) as [[s2 d2] exn]. simpl in P.
      destruct (new_tx fin _ db) as [db' [|]]; simpl; by etrans.
  - split; [done|]. pose proof (keepAlive_work now fin s db.1) as P. by destruct (keepAlive_tx now fin s db.1).
Qed.

Lemma actions_agree acts s db rejected :
  work_ok s ->
  fold_left (fun st a => runAction processEvent1 a st) acts (s, db, rejected) =
  fold_left (fun st a => runAction processEvent2 a st) acts (s, db, rejected).
Proof.
  revert s db rejected. induction acts as [|a acts IH]; intros s db rejected Hw; [done|]. cbn [fold_left].
  destruct (run_action_agree a s db rejected Hw) as [-> S].
  destruct (runAction processEvent2 a (s, db, rejected)) as [[s' db'] r']. apply IH. by rewrite <- S.
Qed.

(** The default clustering hands on what is left to be processed. *)
Lemma cluster_work s : work_ok s -> work_ok (clusterQueueEntries s).
Proof.
  unfold clusterQueueEntries. intros Hw.
  assert (G : forall l s, (forall x, x ∈ l.*2 -> open_id (ev_ID x.1)) -> work_ok s ->
    work_ok (fold_left (fun s kv => addEntryToProcessingMap kv.1 kv.2.1 kv.2.2 s) l s)); [|by apply G; [apply Hw|]].
  clear s Hw. induction l as [|[k [e p]] l IH]; intros s Hl Hw; simpl; [done|].
  apply IH; [intros x Hx; apply Hl; csimpl; by right|]. destruct Hw as (W1 & W2 & W3). unfold addEntryToProcessingMap.
  destruct (default ([], p) (oget k (eventProcessingMap s))) as [entries p'] eqn:E. split; [exact W1|]. split; [|exact W3].
  intros x e' [->|Hx]%ovalues_oset He'; [|by eapply W2]. simpl in He'.
  apply elem_of_app in He' as [He'| ->%list_elem_of_singleton]; [|apply (Hl (e, p)); left].
  destruct (oget k (eventProcessingMap s)) as [[en pn]|] eqn:O; simpl in E; injection E as <- <-; [|by apply elem_of_nil in He'].
  apply (W2 (en, pn)); [by eapply oget_ovalues | done].
Qed.

Lemma process_chunk_agree acts fin s db :
  work_ok s ->
  process_chunk toISOString toString stringify dateParse stackOf cfg tenant processEvent1 before acts fin s db =
  process_chunk toISOString toString stringify dateParse stackOf cfg tenant processEvent2 before acts fin s db.
Proof.
  intros Hw. unfold process_chunk, processEventMap. destruct (queueEntriesWithPayloadMap s) eqn:Q; [done|].
  by rewrite actions_agree by by apply cluster_work.
Qed.

(** *** The preparation *)

Lemma preprocess_entry_agree w s e :
  open_id (ev_ID e) -> work_ok s ->
  preprocess_entry jsonParse check1 w s e = preprocess_entry jsonParse check2 w s e /\ work_ok (preprocess_entry jsonParse check2 w s e).
Proof.
  intros He Hw. unfold preprocess_entry. rewrite <- (modifyQueueEntry_ID jsonParse) in He. rewrite check_agrees by done. split; [done|].
  assert (A : forall p, work_ok (addEventWithPayloadForProcessing (modifyQueueEntry jsonParse e) p s)).
  { intros p. unfold addEventWithPayloadForProcessing. destruct (ohas _ _); [|done]. destruct Hw as (W1 & W2 & W3).
    split; [|split; [exact W2 | exact W3]]. intros x [->|Hx]%ovalues_oset; [done | by apply W1]. }
  destruct (check2 _ w) as [[]|]; done || apply A.
Qed.

Lemma preprocess_agree base now fin s db :
  (forall e, e ∈ (getQueueEntriesAndSetToInProgress toISOString cfg tenant runInterval base now s db.1).1.1 -> open_id (ev_ID e)) ->
  work_ok (getQueueEntriesAndSetToInProgress toISOString cfg tenant runInterval base now s db.1).1.2 ->
  let r := preprocess toISOString jsonParse cfg tenant runInterval check2 base now fin s db in
  preprocess toISOString jsonParse cfg tenant runInterval check1 base now fin s db = r /\ work_ok r.1.1.
Proof.
  unfold preprocess. destruct (getQueueEntriesAndSetToInProgress _ _ _ _ _ _ s db.1) as [[result s1] d1]. simpl. intros He Hw.
  destruct (new_tx fin _ db) as [db' [|]]; [|done]. simpl. revert s1 Hw. induction result as [|e l IH]; intros s1 Hw; simpl; [done|].
  destruct (preprocess_entry_agree db'.2 s1 e) as [-> P]; [apply He; left | done |]. apply IH; [|done]. intros e' He'. apply He. by right.
Qed.

(** *** The exceeded events *)

Abbreviation handleExceeded hook :=
  (handleExceededEvents toISOString toString stringify dateParse stackOf jsonParse cfg tenant hook).

Lemma handleExceededEvent_agree now fin fin2 e s db :
  exceeded_id (ev_ID e) ->
  let r := handleExceededEvent toISOString toString stringify dateParse stackOf jsonParse cfg tenant hook2 now fin fin2 e s db in
  handleExceededEvent toISOString toString stringify dateParse stackOf jsonParse cfg tenant hook1 now fin fin2 e s db = r /\
  same_work s r.1.1.
Proof.
  intros He. unfold handleExceededEvent. rewrite <- (modifyQueueEntry_ID jsonParse) in He. rewrite hook_agrees by done. split; [done|].
  destruct (hook2 _ db.2) as [w' [err|]].
  - apply in_new_tx_work. apply persist_exceeded_work.
  - pose proof (persist_exceeded_work toISOString toString stringify dateParse stackOf cfg tenant now [modifyQueueEntry jsonParse e]
      Exceeded s (db.1, w')) as P.
    destruct (persist_exceeded_tx _ _ _ _ _ _ _ now _ Exceeded s (db.1, w')) as [[s1 db1] [err|]]; simpl in P.
    + etrans; [exact P|]. apply in_new_tx_work. apply persist_exceeded_work.
    + by destruct (new_tx fin _ db) as [db2 [|]].
Qed.

Lemma handleExceeded_agree now fin fins s db :
  work_ok s ->
  let r := handleExceeded hook2 now fin fins s db in
  handleExceeded hook1 now fin fins s db = r /\ same_work s r.1.1.
Proof.
  intros Hw. unfold handleExceededEvents.
  assert (S : same_work s (handleExceededTriesExceeded toISOString toString stringify dateParse stackOf cfg tenant now fin s db).1.1).
  { unfold handleExceededTriesExceeded. destruct (exceededTriesExceeded s); [done|]. apply in_new_tx_work. apply persist_exceeded_work. }
  destruct (handleExceededTriesExceeded _ _ _ _ _ _ _ now fin s db) as [[s1 db1] [err|]]; [done|]. simpl in S.
  assert (Hes : forall e, e ∈ eventsWithExceededTries s1 -> exceeded_id (ev_ID e)) by (destruct S as (_ & _ & ->); apply Hw).
  clear Hw. revert fins s1 db1 S Hes.
  assert (G : forall es fins s1 db1, same_work s s1 -> (forall e, e ∈ es -> exceeded_id (ev_ID e)) ->
    let loop hook := handle_exceeded_loop toISOString toString stringify dateParse stackOf jsonParse cfg tenant hook now fins es s1 db1 in
    loop hook1 = loop hook2 /\ same_work s (loop hook2).1.1); [|by intros; apply G].
  induction es as [|e es IH]; intros fins s1 db1 S He; simpl; [done|]. destruct (default _ (head fins)) as [f1 f2].
  destruct (handleExceededEvent_agree now f1 f2 e s1 db1) as [-> S1]; [apply He; left|].
  destruct (handleExceededEvent _ _ _ _ _ _ _ _ hook2 now f1 f2 e s1 db1) as [[s2 db2] [err|]]; simpl in S1; [split; [done | by etrans]|].
  apply IH; [by etrans|]. intros e' He'. apply He. by right.
Qed.

(** *** The iteration *)

Abbreviation iterate check pe hook := (process_iteration toISOString toString stringify dateParse stackOf jsonParse cfg tenant runInterval
  check pe hook before).

Lemma iteration_agree i delayed sched db :
  (forall e, e ∈ (getQueueEntriesAndSetToInProgress toISOString cfg tenant runInterval (it_base i) (it_select i)
                    (newInstance delayed sched) db.1).1.1 -> open_id (ev_ID e)) ->
  work_ok (getQueueEntriesAndSetToInProgress toISOString cfg tenant runInterval (it_base i) (it_select i)
             (newInstance delayed sched) db.1).1.2 ->
  iterate check1 processEvent1 hook1 i delayed sched db = iterate check2 processEvent2 hook2 i delayed sched db.
Proof.
  intros He Hw. unfold process_iteration.
  destruct (preprocess_agree (it_base i) (it_select i) (it_selectEnd i) (newInstance delayed sched) db He Hw) as [-> W1].
  destruct (preprocess _ _ _ _ _ check2 _ _ _ _ db) as [[s1 db1] [err|]]; [done|]. simpl in W1.
  destruct (handleExceeded_agree (it_exceeded i) (it_exceededEnd i) (it_exceededEnds i) s1 db1 W1) as [-> S].
  destruct (handleExceeded hook2 _ _ _ s1 db1) as [[s2 db2] [err|]]; [done|]. simpl in S. rewrite process_chunk_agree; [done|].
  by rewrite <- S.
Qed.
End agreement.

(** ** The handlers of an iteration *)

Section handlers.
Context {D W : Type} {ET : EventTable D} {EL : EventTableLaws D}.
Context (toISOString : Z -> string) (toString stringify : jsval -> string)
  (dateParse : string -> option Z) (stackOf : jsval -> string) (jsonParse : jsval -> option jsval).
Context (cfg : eventConfig) (tenant : option string) (runInterval : Z).

(** The work the selection leaves on a new instance. *)
Lemma selection_work base now s (d : D) :
  let s' := (getQueueEntriesAndSetToInProgress toISOString cfg tenant runInterval base now s d).1.2 in
  queueEntriesWithPayloadMap s' = queueEntriesWithPayloadMap s /\ eventProcessingMap s' = eventProcessingMap s /\
  (eventsWithExceededTries s' = eventsWithExceededTries s \/
   exists f, (forall e, ev_ID (f e) = ev_ID e) /\
     eventsWithExceededTries s' = map f (cl_exceededTries (chunk_clusters cfg runInterval base s d))).
Proof.
  unfold getQueueEntriesAndSetToInProgress, chunk_clusters. fold (chunk cfg runInterval base s d).
  destruct (chunk cfg runInterval base s d) as [|e0 l] eqn:E; [by split_and!; try left|].
  rewrite <- E. set (cl := clusterEvents _ _ _ _). clearbody cl.
  set (touched := match eventsForProcessing cfg cl with [] => fun e => e | _ => touch now end).
  assert (T : forall e, ev_ID (touched e) = ev_ID e) by (intros e; unfold touched; destruct (eventsForProcessing cfg cl); done || apply touch_ID).
  clearbody touched.
  match goal with |- context [handleDelayedEvents _ _ _ ?n ?l ?b ?s0] =>
    destruct (handleDelayedEvents_state toISOString cfg tenant n l b s0) as [sched ->] end.
  destruct (eventsForProcessing cfg cl), (ec_isPeriodic cfg && ec_lastSuccessfulRunTimestamp cfg),
    (negb (ec_isPeriodic cfg) && negb (bool_decide (cl_exceededTries cl = []))), (negb (bool_decide (cl_exceededTriesExceeded cl = [])));
    (split; [done|]; split; [done|]); first [by left | right; by exists touched].
Qed.

(** The events an iteration gives to [hookForExceededEvents]. *)
Definition exceeded_in (i : iteration) (delayed : list string) (sched : scheduler) (d : D) (id : string) : Prop :=
  id ∈ ev_ID <$> cl_exceededTries (chunk_clusters cfg runInterval (it_base i) (newInstance delayed sched) d).

(** C8. An iteration gives the application no other events than it should: handlers that
    agree on the events that are handed on (those with attempts left of a committed
    selection), and hooks that agree on the selected events with exceeded attempts, lead to
    the same instance, the same table and the same business data, however they differ on
    other events. *)
Theorem handlers_get_handed_on before i delayed sched (db : D * W)
    check1 check2 processEvent1 processEvent2 hook1 hook2 :
  let handed e := handed_on cfg runInterval i delayed sched db.1 (ev_ID e) = true in
  (forall e w, handed e -> check1 e w = check2 e w) ->
  (forall key entries payload w, (forall e, e ∈ entries -> handed e) ->
     processEvent1 key entries payload w = processEvent2 key entries payload w) ->
  (forall e w, exceeded_in i delayed sched db.1 (ev_ID e) -> hook1 e w = hook2 e w) ->
  process_iteration toISOString toString stringify dateParse stackOf jsonParse cfg tenant runInterval check1 processEvent1 hook1 before
    i delayed sched db =
  process_iteration toISOString toString stringify dateParse stackOf jsonParse cfg tenant runInterval check2 processEvent2 hook2 before
    i delayed sched db.
Proof.
  intros handed Hc Hp Hh. destruct (commit_error (it_selectEnd i)) as [err|] eqn:Ce.
  - unfold process_iteration, preprocess. destruct (getQueueEntriesAndSetToInProgress _ _ _ _ _ _ _ db.1) as [[result s1] d1].
    unfold new_tx, executeInNewTransaction. simpl. by rewrite Ce.
  - assert (Hopen : forall e, ev_ID e ∈ ev_ID <$> cl_openEvents (chunk_clusters cfg runInterval (it_base i) (newInstance delayed sched) db.1) ->
      handed e) by (intros e He; unfold handed, handed_on; by rewrite Ce, !bool_decide_true).
    apply (iteration_agree toISOString toString stringify dateParse stackOf jsonParse cfg tenant runInterval check1 check2 processEvent1
      processEvent2 hook1 hook2 before (fun id => handed_on cfg runInterval i delayed sched db.1 id = true)
      (exceeded_in i delayed sched db.1)); [exact Hp | exact Hc | exact Hh | |].
    + intros e He. rewrite selection_result in He. apply list_elem_of_fmap in He as (e0 & -> & He). rewrite touch_ID. apply Hopen.
      apply list_elem_of_fmap. eauto.
    + destruct (selection_work (it_base i) (it_select i) (newInstance delayed sched) db.1) as (E1 & E2 & E3). split; [|split].
      * rewrite E1. intros x Hx. by apply elem_of_nil in Hx.
      * rewrite E2. intros x e Hx. by apply elem_of_nil in Hx.
      * destruct E3 as [->|(f & Hf & ->)]; intros e He; [by apply elem_of_nil in He|].
        apply list_elem_of_fmap in He as (e0 & -> & He). unfold exceeded_in. rewrite Hf. apply list_elem_of_fmap. eauto.
Qed.
End handlers.

(** ** The methods of the base class *)

(** [checkEventAndGeneratePayload], [processEvent], [hookForExceededEvents] and
    [beforeProcessingEvents] of a class that does not override them. *)
Section base.
Context {W : Type}.

Definition IMPLEMENT_ERROR_MESSAGE : string := "needs to be reimplemented".
Definition base_checkEventAndGeneratePayload (queueEntry : event) (w : W) : result jsval jsval := Ok (ev_payload queueEntry).
Definition base_processEvent (key : string) (queueEntries : list event) (payload : jsval) (w : W) : W * bool * result jsval jsval :=
  (w, false, Err (JErr "Error" IMPLEMENT_ERROR_MESSAGE)).
Definition base_hookForExceededEvents (exceededEvent : event) (w : W) : W * option jsval := (w, None).
Definition base_beforeProcessingEvents (w : W) : option jsval := None.

(** A class without [processEvent]: each of its events is reported as failed with the
    error, and nothing else happens. *)
Lemma unimplemented_fails toString cfg key entries payload s w e :
  isOutdatedAndKeepAlive s = false -> e ∈ entries ->
  let '(_, w', m) := processEvent_ toString cfg base_processEvent key entries payload s w in
  w' = w /\ oget (ev_ID e) m = Some (JObj [("status", jcode Error); ("error", JErr "Error" IMPLEMENT_ERROR_MESSAGE)]).
Proof.
  intros Ho He. unfold processEvent_. rewrite Ho. simpl. split; [done|].
  set (v := JObj _). assert (G : forall l m, (e ∈ l \/ oget (ev_ID e) m = Some v) ->
    oget (ev_ID e) (fold_left (fun m e => oset (ev_ID e) v m) l m) = Some v); [|by apply G; left].
  clear. induction l as [|x l IH]; intros m Hm; simpl; [destruct Hm as [Hm|Hm]; [by apply elem_of_nil in Hm | done]|].
  apply IH. rewrite oget_oset. case_decide as E; [by right|]. destruct Hm as [[->|Hm]%elem_of_cons|Hm]; [done | by left | by right].
Qed.
End base.

(** ** Witness *)

(** The demo handler, but it fails for every event except [a]. *)
Definition demoPicky (key : string) (entries : list event) (payload : jsval) (w : Z) : Z * bool * result jsval jsval :=
  if bool_decide (Forall (fun e => ev_ID e = "a") entries) then demoHandler key entries payload w
  else (w, true, Err (JErr "Error" "unexpected event")).

Lemma handlers_get_handed_on_witness :
  handed_on (demoEventConfig isolated) 1500000 demoIteration [] newScheduler demoTable "b" = false /\
  process_iteration demoISO demoToString demoStringify demoParse demoStack demoParseJson (demoEventConfig isolated) None 1500000
    demoCheck demoPicky demoHook demoBefore demoIteration [] newScheduler (demoTable, 0) =
  process_iteration demoISO demoToString demoStringify demoParse demoStack demoParseJson (demoEventConfig isolated) None 1500000
    demoCheck demoHandler demoHook demoBefore demoIteration [] newScheduler (demoTable, 0).
Proof.
  split; [vm_compute; reflexivity|].
  apply (handlers_get_handed_on (D := memRows) (W := Z) demoISO demoToString demoStringify demoParse demoStack demoParseJson
    (demoEventConfig isolated) None 1500000 demoBefore demoIteration [] newScheduler (demoTable, 0)).
  - reflexivity.
  - intros key entries payload w He. unfold demoPicky. rewrite bool_decide_true; [reflexivity|]. apply Forall_forall. intros e Hin.
    specialize (He e Hin). cbn [fst] in He.
    unfold handed_on in He. apply andb_true_iff in He as [_ He]. apply bool_decide_eq_true in He.
    match type of He with _ ∈ ?l => assert (E : l = ["a"]) by (vm_compute; reflexivity); rewrite E in He end.
    by apply list_elem_of_singleton in He.
  - reflexivity.
Defined.
