(* ===== verification/Instances.v ===== *)
(** * Several instances on one table

    The processors of all instances of an application share the event table.  Locks may
    expire and events may be taken over; what keeps two instances from working on the same
    event is the timestamp [lastAttemptTimestamp], which every instance remembers for its
    events ([etagMap]) and compares in its keep-alive.  The interleavings of the operations
    of [Processor], [Selection] and [KeepAlive] are the steps of a transition system. *)

From S2P Require Import Prelude Js Errors Scheduling Database Processor Selection KeepAlive.
#[local] Open Scope Z_scope.

Section instances.
Context {D : Type} {ET : EventTable D} {EL : EventTableLaws D}.
Context (toISOString : Z -> string) (toString stringify : jsval -> string)
  (dateParse : string -> option Z) (stackOf : jsval -> string).

(** The processor of every instance, the table, and the time of the last step. *)
Record fleet := mkFleet { fl_processor : nat -> pstate; fl_db : D; fl_clock : Z }.

Definition set_processor (i : nat) (s : pstate) (f : nat -> pstate) : nat -> pstate :=
  fun j => if decide (j = i) then s else f j.

(** A write keeps the timestamp of a row, sets it to the time of the write, or, for a new
    row, leaves it empty. *)
Definition timestamps_written (now : Z) (d d' : D) : Prop :=
  forall id r' t, row id d' = Some r' -> ev_lastAttempt r' = Some t ->
    t = now \/ exists r, row id d = Some r /\ ev_lastAttempt r = Some t.

(** The successors of a processor are new rows without an attempt. *)
Definition new_rows (es : list event) (d : D) : Prop :=
  NoDup (ev_ID <$> es) /\ Forall (fun e => row (ev_ID e) d = None /\ ev_lastAttempt e = None) es.

(** One step of an instance: it starts an iteration with a new processor and selects
    events, its keep-alive timer fires, it writes statuses, it works without the database
    (handlers, status maps); or somebody else writes (publishers, administrators).
    Steps that write happen at different times. *)
Inductive fleet_step : fleet -> fleet -> Prop :=
| step_select i cfg tenant runInterval delayed sched baseDate now result s' d' f :
    fl_clock f < now ->
    getQueueEntriesAndSetToInProgress toISOString cfg tenant runInterval baseDate now (newInstance delayed sched) (fl_db f)
      = (result, s', d') ->
    fleet_step f (mkFleet (set_processor i s' (fl_processor f)) d' now)
| step_keepAlive i now fin s' d' f :
    fl_clock f < now -> keepAlive_tx now fin (fl_processor f i) (fl_db f) = (s', d') ->
    fleet_step f (mkFleet (set_processor i s' (fl_processor f)) d' now)
| step_persist i cfg tenant skipChecks own now s' d' exn (committed : bool) f :
    fl_clock f < now -> new_rows (nextSagaEvents (fl_processor f i)) (fl_db f) ->
    persistEventStatus toISOString toString stringify dateParse stackOf cfg tenant now skipChecks own
      (fl_processor f i) (fl_db f) = (s', d', exn) ->
    fleet_step f (mkFleet (set_processor i s' (fl_processor f)) (if committed then d' else fl_db f) now)
| step_local i s' f :
    etagMap s' = etagMap (fl_processor f i) ->
    fleet_step f (mkFleet (set_processor i s' (fl_processor f)) (fl_db f) (fl_clock f))
| step_other now d' f :
    fl_clock f < now -> timestamps_written now (fl_db f) d' ->
    fleet_step f (mkFleet (fl_processor f) d' now).

(** At the start no instance remembers an event, and the timestamps are in the past. *)
Definition fleet_init (f : fleet) : Prop :=
  (forall i, etagMap (fl_processor f i) = []) /\
  (forall id r t, row id (fl_db f) = Some r -> ev_lastAttempt r = Some t -> t <= fl_clock f).

(** The instance has given the row the timestamp it has. *)
Definition owns (s : pstate) (d : D) (id : string) : Prop :=
  exists r t, row id d = Some r /\ ev_lastAttempt r = Some t /\ oget id (etagMap s) = Some (Some t).

Record fleet_inv (f : fleet) : Prop := {
  inv_etags i id x : oget id (etagMap (fl_processor f i)) = Some x -> exists t, x = Some t /\ t <= fl_clock f;
  inv_rows id r t : row id (fl_db f) = Some r -> ev_lastAttempt r = Some t -> t <= fl_clock f;
  inv_owner i j id : owns (fl_processor f i) (fl_db f) id -> owns (fl_processor f j) (fl_db f) id -> i = j }.

(** The etags of an instance after a step at [now]. *)
Definition etags_written (now : Z) (s s' : pstate) : Prop :=
  forall id x, oget id (etagMap s') = Some x -> x = Some now \/ oget id (etagMap s) = Some x.

(** A step of one instance that writes the present time, and nothing else, into rows and
    etags keeps the invariant. *)
Lemma written_inv i now s' d' f :
  fl_clock f < now -> etags_written now (fl_processor f i) s' -> timestamps_written now (fl_db f) d' ->
  fleet_inv f -> fleet_inv (mkFleet (set_processor i s' (fl_processor f)) d' now).
Proof.
  intros Hnow He Hd [I1 I2 I3].
  assert (Old : forall j id x, oget id (etagMap (set_processor i s' (fl_processor f) j)) = Some x ->
    (j = i /\ x = Some now) \/ oget id (etagMap (fl_processor f j)) = Some x).
  { intros j id x. unfold set_processor. case_decide as Hj; [subst j|auto]. intros [->|E]%He; auto. }
  split; simpl.
  - intros j id x [[_ ->]|E]%Old; [exists now; split; [done | lia]|].
    destruct (I1 j id x E) as (t & -> & ?). exists t. split; [done | lia].
  - intros id r t Hr Ht. destruct (Hd id r t Hr Ht) as [->|(r0 & Hr0 & Ht0)]; [lia|].
    pose proof (I2 _ _ _ Hr0 Ht0). lia.
  - intros j k id (r & t & Hr & Ht & Ej) (r2 & t2 & Hr2 & Ht2 & Ek). simplify_eq.
    apply Old in Ej as [[-> [= ->]]|Ej]; apply Old in Ek as [[-> Et]|Ek]; try done; simplify_eq.
    + destruct (I1 k id _ Ek) as (t & [= <-] & ?). lia.
    + destruct (I1 j id _ Ej) as (t & [= <-] & ?). lia.
    + destruct (Hd id _ _ Hr Ht) as [->|(r0 & Hr0 & Ht0)].
      * destruct (I1 j id _ Ej) as (t & [= <-] & ?). lia.
      * apply (I3 j k id); exists r0; eauto.
Qed.

(** ** What the steps write *)

Lemma keeps_written now (d d' : D) :
  (forall id, (ev_lastAttempt <$> row id d') = (ev_lastAttempt <$> row id d) \/
              exists r', row id d' = Some r' /\ ev_lastAttempt r' = Some now) ->
  timestamps_written now d d'.
Proof.
  intros K id r' t Hr Ht. destruct (K id) as [E|(r & Hr' & Hl)].
  - rewrite Hr in E. simpl in E. destruct (row id d) as [r|] eqn:R; simpl in E; [|done]. right. exists r. split; congruence.
  - left. congruence.
Qed.

Lemma written_refl now (d : D) : timestamps_written now d d.
Proof. intros id r t. eauto. Qed.

Lemma written_trans now (d1 d2 d3 : D) :
  timestamps_written now d1 d2 -> timestamps_written now d2 d3 -> timestamps_written now d1 d3.
Proof. intros H1 H2 id r t Hr Ht. destruct (H2 id r t Hr Ht) as [->|(r2 & Hr2 & Ht2)]; eauto. Qed.

Lemma update_written now p f (d : D) :
  (forall e, ev_ID (f e) = ev_ID e) -> (forall e, ev_lastAttempt (f e) = Some now) ->
  timestamps_written now d (update_rows p f d).
Proof.
  intros Hi Hf. apply keeps_written. intros id. rewrite update_row by done.
  destruct (row id d) as [e|]; simpl; [|by left]. destruct (p e); [right | by left]. eexists. eauto.
Qed.

(** The selection *)
Lemma select_written cfg tenant runInterval delayed sched baseDate now (d : D) :
  let r := getQueueEntriesAndSetToInProgress toISOString cfg tenant runInterval baseDate now (newInstance delayed sched) d in
  etags_written now (newInstance delayed sched) r.1.2 /\ timestamps_written now d r.2.
Proof.
  set (s := newInstance delayed sched). intros r. subst r. split.
  - intros id x Hx. left. destruct (decide (chunk_processed cfg runInterval baseDate s d = [])) as [E|Hne].
    + unfold getQueueEntriesAndSetToInProgress in Hx. fold (chunk cfg runInterval baseDate s d) in Hx.
      unfold chunk_processed, chunk_clusters in E.
      destruct (chunk cfg runInterval baseDate s d) as [|e0 l] eqn:C; [done|]. rewrite <- C in *. rewrite E in Hx. simpl in Hx.
      match type of Hx with context [handleDelayedEvents ?a ?b ?c ?n ?l ?k ?s0] =>
        destruct (handleDelayedEvents_state a b c n l k s0) as [sched' Eq]; rewrite Eq in Hx end.
      destruct (negb (ec_isPeriodic cfg) && _), (negb (bool_decide (cl_exceededTriesExceeded _ = []))); done.
    + destruct (selection_instance toISOString cfg tenant runInterval baseDate now s d Hne) as (_ & _ & _ & E & _).
      rewrite E in Hx. rewrite selection_result in Hx. clear -Hx.
      assert (G : forall l o, (forall id x, oget id o = Some x -> x = Some now) ->
        oget id (fold_left (fun o kv => oset kv.1 kv.2 o) (map (fun e => (ev_ID e, ev_lastAttempt e)) (map (touch now) l)) o) = Some x ->
        x = Some now).
      { induction l as [|e l IH]; intros o Ho; simpl; [apply Ho|]. apply IH. intros id' x'. rewrite oget_oset.
        case_decide; [|apply Ho]. intros [= <-]. unfold touch. by destruct (is_null _). }
      by apply (G _ [] ltac:(done)) in Hx.
  - apply keeps_written. intros id. rewrite selection_rows. destruct (row id d) as [e|]; simpl; [|by left].
    unfold selected_row. destruct (bool_decide (ev_ID e ∈ _)), (bool_decide (_ ∈ _)); simpl; eauto.
Qed.

(** The keep-alive *)
Lemma check_etags_written now events s :
  etags_written now s (check_etags now events s).2.
Proof.
  revert s. induction events as [|e events IH]; intros s id x; simpl; [auto|].
  destruct (etag_matches s e).
  - specialize (IH (set_etagMap (oset (ev_ID e) (Some now) (etagMap s)) s) id x).
    destruct (check_etags now events _) as [[v o] s']. simpl in *. intros Hx. destruct (IH Hx) as [|Hy]; [auto|].
    rewrite oget_oset in Hy. case_decide; [left; congruence | auto].
  - specialize (IH (set_keepAliveViolated true s) id x).
    destruct (check_etags now events _) as [[v o] s']. exact IH.
Qed.

Lemma drop_outdated_etags l s : etagMap (drop_outdated l s) = etagMap s.
Proof. unfold drop_outdated. revert s. induction l as [|e l IH]; intros s; simpl; [done | by rewrite IH]. Qed.

Lemma succeeded_written now events s : etags_written now s (keepAlive_succeeded now events s).
Proof.
  unfold keepAlive_succeeded. revert s. induction events as [|e events IH]; intros s id x; simpl; [auto|].
  intros Hx. destruct (IH _ _ _ Hx) as [|Hy]; [auto|]. destruct (etag_matches s e); [|auto].
  simpl in Hy. rewrite oget_oset in Hy. case_decide; [left; congruence | auto].
Qed.

Lemma keepAlive_written now fin s (d : D) :
  etags_written now s (keepAlive_tx now fin s d).1 /\ timestamps_written now d (keepAlive_tx now fin s d).2.
Proof.
  assert (R : etags_written now s s /\ timestamps_written now d d) by (split; [intros ? ?; auto | apply written_refl]).
  unfold keepAlive_tx, keepAlive_tick. case_bool_decide; [by destruct (commit_error fin)|].
  destruct (keepAliveViolated s); [by destruct (commit_error fin)|].
  match goal with |- context [check_etags now ?l s] => pose proof (check_etags_written now l s) as C;
    destruct (check_etags now l s) as [[valid outdated] s1]; cbn [snd] in C; set (events := l) in * end.
  assert (C' : etags_written now s (drop_outdated outdated s1)) by (intros id x; rewrite drop_outdated_etags; apply C).
  assert (U : timestamps_written now d (update_rows (id_in valid) (with_lastAttempt (Some now)) d)) by by apply update_written.
  pose proof (succeeded_written now events (drop_outdated outdated s1)) as S.
  destruct valid as [|v vs], (commit_error fin); simpl; (split; [|first [exact U | apply written_refl]]); try exact C'.
  intros id x Hx. destruct (S id x Hx); auto.
Qed.

(** Writing statuses *)
Section persist.
Context (cfg : eventConfig) (tenant : option string).

Lemma persist_groups_written now groups s (d : D) :
  let r := persist_groups toISOString stringify dateParse stackOf cfg tenant now now groups s d in
  etagMap r.1.1 = etagMap s /\ nextSagaEvents r.1.1 = nextSagaEvents s /\ timestamps_written now d r.1.2 /\
  forall id, row id d = None -> row id r.1.2 = None.
Proof.
  revert s d. induction groups as [|[data ids] groups IH]; intros s d; simpl; [split_and!; auto using written_refl|].
  unfold persist_group. destruct (negb (ohas "status" data)); simpl; [exact (IH s d)|].
  set (s1 := mark_committed ids (prop data "status") s).
  set (data' := prepare_data stringify dateParse stackOf cfg now data).
  destruct (schedule_retry toISOString cfg tenant now (prop data' "startAfter") s1) as [s2|e] eqn:R; simpl;
    [|split_and!; auto using written_refl].
  assert (E : etagMap s2 = etagMap s /\ nextSagaEvents s2 = nextSagaEvents s).
  { unfold schedule_retry in R. destruct (negb _); [by injection R as <-|].
    destruct (prop data' "startAfter") as [| | | | | | |[t|]| | |]; try done. by injection R as <-. }
  destruct E as [E1 E2]. set (d1 := update_rows (id_in ids) (set_columns data' now) d).
  destruct (IH s2 d1) as (I1 & I2 & I3 & I4). rewrite I1, I2. split_and!; [done | done | |].
  - eapply written_trans; [|exact I3]. apply update_written; [|done].
    intros e. apply set_columns_ID.
  - intros id Hid. apply I4. unfold d1. rewrite update_row by apply set_columns_ID. by rewrite Hid.
Qed.

Lemma insert_saga_written now s (d : D) :
  new_rows (nextSagaEvents s) d ->
  etagMap (insert_saga s d).1.1 = etagMap s /\ timestamps_written now d (insert_saga s d).1.2.
Proof.
  intros [Hn Hf]. unfold insert_saga. destruct (nextSagaEvents s) as [|e0 es] eqn:E; [auto using written_refl|].
  destruct (insert_row (e0 :: es) d) as (d' & -> & Hr); [done | eapply Forall_impl; [exact Hf|]; simpl; naive_solver |].
  split; [done|]. simpl. intros id r t Hid Ht. rewrite Hr in Hid.
  destruct (List.find _ (e0 :: es)) as [e|] eqn:F; [|eauto]. injection Hid as ->.
  apply List.find_some in F as [F _]. apply list_elem_of_In in F. rewrite Forall_forall in Hf.
  destruct (Hf r F) as [_ Hl]. congruence.
Qed.

Lemma ensure_keeps s :
  etagMap (ensureEveryQueueEntryHasStatus s) = etagMap s /\ nextSagaEvents (ensureEveryQueueEntryHasStatus s) = nextSagaEvents s.
Proof.
  unfold ensureEveryQueueEntryHasStatus. generalize (queueEntries s) at 1 2. intros l. revert s.
  induction l as [|e l IH]; intros s; simpl; [done|]. destruct (_ || _); [apply IH|].
  destruct (IH (set_statusMap (add_status (ev_ID e) Done JUndef (statusMap s)) s)) as [-> ->]. done.
Qed.

Lemma write_status_written now m s (d : D) :
  new_rows (nextSagaEvents s) d ->
  let r := write_status toISOString toString stringify dateParse stackOf cfg tenant now m s d in
  etagMap r.1.1 = etagMap s /\ timestamps_written now d r.1.2.
Proof.
  intros Hn. unfold write_status. destruct (group_updates toString m) as [|g gs]; [simpl; auto using written_refl|].
  pose proof (persist_groups_written now (ovalues (g :: gs)) s d) as (E & S & Wr & K).
  destruct (persist_groups _ _ _ _ _ _ now now (ovalues (g :: gs)) s d) as [[s' d'] [e|]]; simpl in *; [auto|].
  destruct (insert_saga_written now s' d') as [E' W'].
  { rewrite S. destruct Hn as [Hn Hf]. split; [done|]. eapply Forall_impl; [exact Hf|]. simpl. intros e [? ?]. auto. }
  split; [congruence | by eapply written_trans].
Qed.

Lemma persist_written now skipChecks own s (d : D) :
  new_rows (nextSagaEvents s) d ->
  let r := persistEventStatus toISOString toString stringify dateParse stackOf cfg tenant now skipChecks own s d in
  etagMap r.1.1 = etagMap s /\ timestamps_written now d r.1.2.
Proof.
  intros Hn.
  assert (Wr : forall m s1, etagMap s1 = etagMap s -> nextSagaEvents s1 = nextSagaEvents s ->
    let r := write_status toISOString toString stringify dateParse stackOf cfg tenant now m s1 d in
    etagMap r.1.1 = etagMap s /\ timestamps_written now d r.1.2).
  { intros m s1 E S. rewrite <- E. apply write_status_written. by rewrite S. }
  assert (En : forall s1 : pstate, let s2 := if skipChecks then s1 else ensureEveryQueueEntryHasStatus s1 in
    etagMap s2 = etagMap s1 /\ nextSagaEvents s2 = nextSagaEvents s1)
    by (intros; destruct skipChecks; [done | apply ensure_keeps]).
  unfold persistEventStatus. destruct own as [m|]; cbn [default]; destruct (normalizeStatusMap _) as [m1 [e|]];
    cbn -[write_status ensureEveryQueueEntryHasStatus]; auto using written_refl.
  - apply Wr; apply (En s).
  - apply Wr; apply (En (set_statusMap _ s)).
Qed.
End persist.

(** ** One owner *)

Lemma fleet_step_inv f f' : fleet_step f f' -> fleet_inv f -> fleet_inv f'.
Proof.
  destruct 1 as [i cfg tenant runInterval delayed sched baseDate now result s' d' f Hc E
    |i now fin s' d' f Hc E|i cfg tenant skip own now s' d' exn committed f Hc Hn E|i s' f E|now d' f Hc Hw]; intros I.
  - destruct (select_written cfg tenant runInterval delayed sched baseDate now (fl_db f)) as [We Wd]. rewrite E in We, Wd.
    apply written_inv; [done | | exact Wd | done]. intros id x Hx. destruct (We id x Hx) as [|Hy]; [auto | done].
  - destruct (keepAlive_written now fin (fl_processor f i) (fl_db f)) as [We Wd]. rewrite E in We, Wd. by apply written_inv.
  - destruct (persist_written cfg tenant now skip own _ _ Hn) as [We Wd]. rewrite E in We, Wd. simpl in We, Wd.
    apply written_inv; [done | | | done].
    + intros id x. rewrite We. auto.
    + destruct committed; [exact Wd | apply written_refl].
  - assert (Old : forall j, etagMap (set_processor i s' (fl_processor f) j) = etagMap (fl_processor f j)).
    { intros j. unfold set_processor. case_decide; by subst. }
    destruct I as [I1 I2 I3]. unfold owns in *. split; simpl.
    + intros j id x. rewrite Old. apply I1.
    + apply I2.
    + intros j k id. unfold owns. simpl. rewrite !Old. apply I3.
  - destruct I as [I1 I2 I3]. split; simpl.
    + intros i id x Hx. destruct (I1 i id x Hx) as (t & -> & ?). exists t. split; [done | lia].
    + intros id r t Hr Ht. destruct (Hw id r t Hr Ht) as [->|(r0 & Hr0 & Ht0)]; [lia|]. pose proof (I2 _ _ _ Hr0 Ht0). lia.
    + intros i j id (r & t & Hr & Ht & Ei) (r2 & t2 & Hr2 & Ht2 & Ej). simplify_eq.
      destruct (Hw id _ _ Hr Ht) as [->|(r0 & Hr0 & Ht0)].
      * destruct (I1 i id _ Ei) as (t & [= <-] & ?). lia.
      * apply (I3 i j id); exists r0; eauto.
Qed.

Lemma fleet_init_inv f : fleet_init f -> fleet_inv f.
Proof.
  intros [E R]. split; [|exact R|].
  - intros i id x. by rewrite E.
  - intros i j id (r & t & _ & _ & Hx). by rewrite E in Hx.
Qed.

Lemma reachable_inv f0 f : fleet_init f0 -> rtc fleet_step f0 f -> fleet_inv f.
Proof. intros H0 R. apply fleet_init_inv in H0. induction R; eauto using fleet_step_inv. Qed.

(** The keep-alive of the instance stops it and leaves the row alone. *)
Definition stopped_by_keepAlive (s : pstate) (d : D) (e : event) : Prop := forall now fin,
  let '(s', d') := keepAlive_tx now fin s d in
  isOutdatedAndKeepAlive s' = true /\ ohas (ev_ID e) (outdatedEventMap s') = true /\ row (ev_ID e) d' = Some e.

(** C4. One owner: whatever instances do on the shared table in whatever order (starting
    iterations, keep-alives whose commits may fail, writing statuses, working locally) and
    whatever others write, if two instances have the same event in progress among their
    own, the next keep-alive of at least one of them stops it, marks the event as outdated
    and does not touch the row.  No lock is needed for this. *)
Theorem one_owner f0 f i j e :
  fleet_init f0 -> rtc fleet_step f0 f -> i <> j ->
  keepAliveViolated (fl_processor f i) = false -> keepAliveViolated (fl_processor f j) = false ->
  guarded (fl_processor f i) (fl_db f) e -> guarded (fl_processor f j) (fl_db f) e ->
  stopped_by_keepAlive (fl_processor f i) (fl_db f) e \/ stopped_by_keepAlive (fl_processor f j) (fl_db f) e.
Proof.
  intros H0 R Hij Vi Vj Gi Gj. destruct (reachable_inv f0 f H0 R) as [I1 _ I3].
  assert (S : forall k, keepAliveViolated (fl_processor f k) = false -> guarded (fl_processor f k) (fl_db f) e ->
    stopped_by_keepAlive (fl_processor f k) (fl_db f) e \/ owns (fl_processor f k) (fl_db f) (ev_ID e)).
  { intros k V G. destruct (decide (oget (ev_ID e) (etagMap (fl_processor f k)) = Some (ev_lastAttempt e))) as [E|Hne].
    - right. destruct (I1 k _ _ E) as (t & El & _). exists e, t. split_and!; [apply G | done | by rewrite E, El].
    - left. intros now fin. pose proof (keepAlive_stops now fin _ _ e V G Hne) as K.
      by destruct (keepAlive_tx now fin (fl_processor f k) (fl_db f)). }
  destruct (S i Vi Gi) as [|Oi]; [by left|]. destruct (S j Vj Gj) as [|Oj]; [by right|].
  by destruct (Hij (I3 i j (ev_ID e) Oi Oj)).
Qed.
End instances.

(** ** A takeover

    Instance 0 selects the event and stops responding; after more than 210 seconds
    instance 1 takes it over. *)
Definition demoFleet : fleet := mkFleet (fun _ => newInstance [] newScheduler) demoTable 1000.

Definition demoStep (i : nat) (baseDate now : Z) (f : fleet) : fleet :=
  let '(_, s', d') := demoSelect baseDate now (fl_db f) in mkFleet (set_processor i s' (fl_processor f)) d' now.

Definition demoTakeover : fleet := demoStep 1 400000 400001 (demoStep 0 2000 2001 demoFleet).
Definition demoTaken : event := set_in_progress 400001 (set_in_progress 2001 (demoRow "a" 0 0 5)).

Lemma demo_step_reaches i baseDate now f :
  fl_clock f < now -> fleet_step demoISO demoToString demoStringify demoParse demoStack f (demoStep i baseDate now f).
Proof.
  intros H. unfold demoStep. destruct (demoSelect baseDate now (fl_db f)) as [[result s'] d'] eqn:E.
  by eapply (step_select demoISO demoToString demoStringify demoParse demoStack i (demoEventConfig isolated) None 1500000
    [] newScheduler baseDate now result s' d').
Qed.

Lemma one_owner_witness :
  guarded (fl_processor demoTakeover 0) (fl_db demoTakeover) demoTaken /\
  guarded (fl_processor demoTakeover 1) (fl_db demoTakeover) demoTaken /\
  (stopped_by_keepAlive (fl_processor demoTakeover 0) (fl_db demoTakeover) demoTaken \/
   stopped_by_keepAlive (fl_processor demoTakeover 1) (fl_db demoTakeover) demoTaken).
Proof.
  assert (G : forall k, k = 0%nat \/ k = 1%nat -> guarded (fl_processor demoTakeover k) (fl_db demoTakeover) demoTaken).
  { intros k [-> | ->]; (split_and!; [vm_compute; reflexivity | left | reflexivity]). }
  split; [auto|]. split; [auto|].
  apply (one_owner demoISO demoToString demoStringify demoParse demoStack demoFleet demoTakeover 0 1 demoTaken);
    [ | | discriminate | vm_compute; reflexivity | vm_compute; reflexivity | auto | auto].
  - split; [done|]. intros id r t Hr Ht. simpl in Hr. apply mem_row_Some in Hr as [Hr _].
    assert (Hl : map_Forall (fun _ e => ev_lastAttempt e = None) demoTable) by (apply (bool_decide_unpack _); vm_compute; exact I).
    specialize (Hl id r Hr). simpl in Hl. congruence.
  - eapply rtc_l; [apply (demo_step_reaches 0 2000 2001); reflexivity|].
    eapply rtc_l; [apply (demo_step_reaches 1 400000 400001); reflexivity | apply rtc_refl].
Defined.

(** Of the two the one that was taken over stops; the other goes on. *)
Example demo_takeover :
  keepAliveViolated (keepAlive_tx 400100 clean_end (fl_processor demoTakeover 0) (fl_db demoTakeover)).1 = true /\
  keepAliveViolated (keepAlive_tx 400100 clean_end (fl_processor demoTakeover 1) (fl_db demoTakeover)).1 = false.
Proof. split; vm_compute; reflexivity. Qed.
