(* ===== verification/Periodic.v ===== *)
(** * Periodic events

    The periodic part of [EventQueueProcessorBase.js] (scheduling of the next tick,
    duplicates, status), [processPeriodicEvent] of [processEventQueue.js], and
    [periodicEvents.js], which plans the configured periodic events.

    The cron parser is the parameter [cronNext expression tz t]: the first execution
    after [t].  [Math.random] and the readings of the clock are inputs. *)

From S2P Require Import Prelude Js Errors Common Scheduling Database Processor Selection.
#[local] Open Scope Z_scope.

Section periodic.
Context {D W : Type} {ET : EventTable D}.
Context (toISOString : Z -> string) (stringify : jsval -> string) (stackOf : jsval -> string)
  (cronNext : string -> option string -> Z -> Z).
Context (cfg : eventConfig) (tenant : option string) (runInterval : Z) (randomOffsetPeriodicEvents : option Z).

(** The application's handler: the business data it leaves, whether it called
    [setShouldRollbackTransaction], and what it throws. *)
Context (processPeriodicEvent_ : event -> W -> W * bool * option jsval).

(** [#calculateRandomOffset()]; [rand] is the fraction [Math.random()] returns. *)
Definition calculateRandomOffset (rand : Z * Z) : Z :=
  let offset := match ec_randomOffset cfg with Some o => Some o | None => randomOffsetPeriodicEvents end in
  match offset with
  | None => 0
  | Some o => if o =? 0 then 0 else (rand.1 * o / rand.2) * 1000
  end.

(** [#calculateCronDates()] at [now] *)
Definition calculateCronDates (now : Z) : option Z :=
  expr ← ec_cron cfg; Some (cronNext expr (ec_tz cfg) now).

(** [intervalInMs]; [null] compares as 0. *)
Definition intervalInMs : Z :=
  match ec_cron cfg with Some _ => 0 | None => default 0 (ec_interval cfg) * 1000 end.

(** The planned start of the next tick; [new Date(null)] is the epoch. *)
Definition plannedStart (now : Z) (rand : Z * Z) (e : event) : Z :=
  match calculateCronDates now with
  | Some next => next + calculateRandomOffset rand
  | None => default 0 (ev_startAfter e) + intervalInMs + calculateRandomOffset rand
  end.

(** The start of the next tick: five seconds from now if the planned one is more than
    an interval behind.  [clock i] is the [i]-th reading of the clock. *)
Definition nextStart (clock : nat -> Z) (rand : Z * Z) (e : event) : Z :=
  let planned := plannedStart (clock 0%nat) rand e in
  let relative := planned - clock 1%nat in
  if (relative <? 0) && (intervalInMs <=? Z.abs relative) then clock 2%nat + 5 * 1000 else planned.

(** The row of the next tick. *)
Definition nextRow (uuid : string) (createdAt startAfter : Z) : event :=
  mkEvent uuid (ec_type cfg) (ec_subType cfg) None None (status_code Open) JNull 0 None createdAt (Some startAfter)
    JNull JNull (ec_namespace cfg).

(** [scheduleNextPeriodEvent(queueEntry)]: whether the next tick is to be processed at
    once, the instance and the table; [None] when the insert fails. *)
Definition scheduleNextPeriodEvent (clock : nat -> Z) (rand : Z * Z) (uuid : string) (e : event) (s : pstate) (d : D)
    : option (bool * pstate * D) :=
  let start := nextStart clock rand e in
  let new := nextRow uuid (clock 3%nat) start in
  match insert_rows [new] d with
  | None => None
  | Some d' =>
    if 2 * intervalInMs <? 3 * runInterval then
      let s' := handleDelayedEvents toISOString cfg tenant (clock 4%nat) [new] true s in
      Some (start - clock 5%nat <=? 0, s', d')
    else Some (false, s, d')
  end.

(** [setPeriodicEventStatus(queueEntryIds, status, error)] *)
Definition setPeriodicEventStatus (ids : list string) (status : EventProcessingStatus) (error : jsval) (d : D) : D :=
  update_rows (id_in ids) (fun e =>
    let e := with_status (status_code status) e in
    if truthy error then with_error (JStr (error2String stringify stackOf error)) e else e) d.

(** [handleDuplicatedPeriodicEventEntry(queueEntries)]: the entry to use and the
    obsolete ones; the comparison reads the property [queueEntry], which is
    [undefined]. *)
Definition duplicate_step (st : option event * list event) (e : event) : option event * list event :=
  match st with
  | (None, obsolete) => (Some e, obsolete)
  | (Some use, obsolete) =>
    if js_le (match ev_startAfter use with Some t => JDate (Some t) | None => JNull end) JUndef
    then (Some e, obsolete ++ [use]) else (Some use, obsolete ++ [e])
  end.

Definition handleDuplicatedPeriodicEventEntry (entries : list event) (d : D) : option event * D :=
  let '(use, obsolete) := fold_left duplicate_step entries (None, []) in
  (use, setPeriodicEventStatus (ev_ID <$> obsolete) Done JUndef d).

(** [getLastSuccessfulRunTimestamp()] *)
Definition getLastSuccessfulRunTimestamp (s : pstate) (d : D) : option Z * pstate :=
  if negb (ec_isPeriodic cfg) then (None, s)
  else
    match lastSuccessfulRunTimestamp s with
    | Some t => (t, s)
    | None => let t := selectLastSuccessfulPeriodicTimestamp cfg d in (t, set_lastSuccessfulRunTimestamp (Some t) s)
    end.

(** ** [processPeriodicEvent(context, eventTypeInstance)] *)

(** The inputs of one round: times, the new id, the random number and the ends of the
    transactions (selection, preparation, processing, status). *)
Record round := mkRound {
  r_base : Z; r_select : Z; r_clock : nat -> Z; r_uuid : string; r_rand : Z * Z;
  r_selectEnd : tx_end; r_prepareEnd : tx_end; r_processEnd : tx_end; r_statusEnd : tx_end }.

(** The transaction [eventQueue-periodic-scheduleNext]; the selection inside it commits
    on its own.  [queueEntry] is the variable of the enclosing function.  The result
    is the new [queueEntry] and [processNext], or what is thrown. *)
Definition periodic_prepare (i : round) (queueEntry : option event) (s : pstate) (db : D * W)
    : pstate * (D * W) * result jsval (option event * bool) :=
  let '(entries, s1, d1) :=
    getQueueEntriesAndSetToInProgress toISOString cfg tenant runInterval (r_base i) (r_select i) s db.1 in
  match new_tx (r_selectEnd i) (fun _ => ((d1, db.2), false, Ok tt)) db with
  | (db1, Err err) => (s1, db1, Err err)
  | (db1, Ok _) =>
    match entries with
    | [] => (s1, db1, Ok (queueEntry, false))
    | e0 :: more =>
      let '(use, d2) := match more with
                        | [] => (Some e0, db1.1)
                        | _ => handleDuplicatedPeriodicEventEntry entries db1.1
                        end in
      let e := default e0 use in
      match scheduleNextPeriodEvent (r_clock i) (r_rand i) (r_uuid i) e s1 d2 with
      | None => (s1, db1, Err (JErr "Error" "unique constraint violated"))
      | Some (next, s2, d3) =>
        match new_tx (r_prepareEnd i) (fun _ => ((d3, db1.2), false, Ok tt)) db1 with
        | (db2, Err err) => (s2, db2, Err err)
        | (db2, Ok _) => (s2, db2, Ok (Some e, next))
        end
      end
    end
  end.

(** The transaction [eventQueue-periodic-process]: the business data is kept unless the
    handler throws, asks for a rollback or the mode is [alwaysRollback]. *)
Definition periodic_process (i : round) (e : event) (db : D * W)
    : (D * W) * result jsval (EventProcessingStatus * jsval) :=
  let '(w', rollback, thrown) := processPeriodicEvent_ e db.2 in
  let rolledBack := match thrown with
                    | Some _ => true
                    | None => bool_decide (transactionMode cfg = alwaysRollback) || rollback
                    end in
  match new_tx (r_processEnd i) (fun _ => ((db.1, w'), rolledBack, Ok tt)) db with
  | (db', Err err) => (db', Err err)
  | (db', Ok _) => (db', Ok (match thrown with Some err => (Error, err) | None => (Done, JUndef) end))
  end.

(** One round of the loop: the variables [queueEntry] and [processNext] after it;
    [None] when the function returns or an error ends it. *)
Definition periodic_round (i : round) (queueEntry : option event) (s : pstate) (db : D * W)
    : pstate * (D * W) * option (option event * bool) :=
  match periodic_prepare i queueEntry s db with
  | (s1, db1, Err _) => (s1, db1, None)
  | (s1, db1, Ok (None, _)) => (s1, db1, None)
  | (s1, db1, Ok (Some e, next)) =>
    match periodic_process i e db1 with
    | (db2, Err _) => (s1, db2, None)
    | (db2, Ok (status, error)) =>
      match new_tx (r_statusEnd i)
              (fun _ => ((setPeriodicEventStatus [ev_ID e] status error db2.1, db2.2), false, Ok tt)) db2 with
      | (db3, Err _) => (s1, db3, None)
      | (db3, Ok _) => (s1, db3, Some (Some e, next))
      end
    end
  end.

(** The [while] loop over the given rounds, and whether it ended within them. *)
Fixpoint processPeriodicEvent (rounds : list round) (queueEntry : option event) (s : pstate) (db : D * W)
    : pstate * (D * W) * bool :=
  match rounds with
  | [] => (s, db, false)
  | i :: r =>
    match periodic_round i queueEntry s db with
    | (s', db', None) => (s', db', true)
    | (s', db', Some (qe, processNext)) => if processNext then processPeriodicEvent r qe s' db' else (s', db', true)
    end
  end.
End periodic.

(** ** The next tick *)

Section periodic_props.
Context {D W : Type} {ET : EventTable D} {EL : EventTableLaws D}.
Context (toISOString : Z -> string) (stringify : jsval -> string) (stackOf : jsval -> string)
  (cronNext : string -> option string -> Z -> Z).
Context (cfg : eventConfig) (tenant : option string) (runInterval : Z) (randomOffsetPeriodicEvents : option Z).
Context (handler : event -> W -> W * bool * option jsval).

Lemma randomOffset_nonneg rand :
  0 <= rand.1 -> 0 < rand.2 ->
  match ec_randomOffset cfg with Some o => 0 <= o | None => 0 <= default 0 randomOffsetPeriodicEvents end ->
  0 <= calculateRandomOffset cfg randomOffsetPeriodicEvents rand.
Proof.
  intros H1 H2 Ho. unfold calculateRandomOffset.
  destruct (match ec_randomOffset cfg with Some o => Some o | None => randomOffsetPeriodicEvents end) as [o|] eqn:E; [|done].
  destruct (o =? 0); [done|]. apply Z.mul_nonneg_nonneg; [|lia]. apply Z.div_pos; [|done].
  apply Z.mul_nonneg_nonneg; [done|]. destruct (ec_randomOffset cfg); [congruence|]. rewrite E in Ho. done.
Qed.

(** The next tick of an interval event: one interval (and the random offset) after
    the current one, unless that is an interval or more in the past; then five seconds
    from now.  A chain of ticks never falls a whole interval behind. *)
Theorem next_tick_keeps_up clock rand e interval :
  ec_cron cfg = None -> ec_interval cfg = Some interval -> 0 < interval -> clock 1%nat <= clock 2%nat ->
  let planned := default 0 (ev_startAfter e) + interval * 1000 + calculateRandomOffset cfg randomOffsetPeriodicEvents rand in
  let next := nextStart cronNext cfg randomOffsetPeriodicEvents clock rand e in
  clock 1%nat - interval * 1000 < next /\
  (clock 1%nat - interval * 1000 < planned -> next = planned) /\
  (planned <= clock 1%nat - interval * 1000 -> next = clock 2%nat + 5000).
Proof.
  intros Hc Hi Hpos Hclock planned next. unfold next, nextStart, plannedStart, calculateCronDates, intervalInMs.
  rewrite Hc, Hi. cbn [mbind option_bind from_option]. fold planned.
  change (id interval) with interval. change (default 0 (ev_startAfter e) + interval * 1000 +
    calculateRandomOffset cfg randomOffsetPeriodicEvents rand) with planned.
  destruct (planned - clock 1%nat <? 0) eqn:E1, (interval * 1000 <=? Z.abs (planned - clock 1%nat)) eqn:E2;
    cbn [andb]; zbool; lia.
Qed.

(** ** Duplicates *)

Lemma duplicate_fold e0 l obsolete :
  fold_left duplicate_step l (Some e0, obsolete) = (Some e0, obsolete ++ l).
Proof.
  revert obsolete. induction l as [|e l IH]; intros obsolete; cbn [fold_left]; [by rewrite app_nil_r|].
  assert (S : duplicate_step (Some e0, obsolete) e = (Some e0, obsolete ++ [e])) by (unfold duplicate_step; by destruct (ev_startAfter e0)).
  rewrite S, IH, <- app_assoc. done.
Qed.

Lemma with_status_error_ID status error e :
  ev_ID (let e := with_status (status_code status) e in
         if truthy error then with_error (JStr (error2String stringify stackOf error)) e else e) = ev_ID e.
Proof. by destruct (truthy error). Qed.

Lemma setPeriodicEventStatus_row ids status error (d : D) id :
  row id (setPeriodicEventStatus stringify stackOf ids status error d) =
    if decide (id ∈ ids) then
      (fun e => let e := with_status (status_code status) e in
        if truthy error then with_error (JStr (error2String stringify stackOf error)) e else e) <$> row id d
    else row id d.
Proof. apply update_ids_row. intros e. apply with_status_error_ID. Qed.

Lemma duplicates_first e0 l (d : D) :
  handleDuplicatedPeriodicEventEntry stringify stackOf (e0 :: l) d =
    (Some e0, setPeriodicEventStatus stringify stackOf (ev_ID <$> l) Done JUndef d).
Proof. unfold handleDuplicatedPeriodicEventEntry. cbn [fold_left duplicate_step]. by rewrite duplicate_fold. Qed.

(** ** A round of the loop *)

Abbreviation select := (getQueueEntriesAndSetToInProgress toISOString cfg tenant runInterval).

(** The row of the tick that follows the entry [e]. *)
Definition follow_up (i : round) (e : event) : event :=
  nextRow cfg (r_uuid i) (r_clock i 3%nat) (nextStart cronNext cfg randomOffsetPeriodicEvents (r_clock i) (r_rand i) e).

Lemma schedule_inserts i e s (d : D) :
  row (r_uuid i) d = None ->
  exists next s' d',
    scheduleNextPeriodEvent toISOString cronNext cfg tenant runInterval randomOffsetPeriodicEvents (r_clock i) (r_rand i)
      (r_uuid i) e s d = Some (next, s', d') /\
    forall id, row id d' = if decide (id = r_uuid i) then Some (follow_up i e) else row id d.
Proof.
  intros Hfree. unfold scheduleNextPeriodEvent. fold (follow_up i e).
  destruct (insert_row [follow_up i e] d) as (d' & E & R).
  - apply NoDup_singleton.
  - by repeat constructor.
  - rewrite E. assert (R' : forall id, row id d' = if decide (id = r_uuid i) then Some (follow_up i e) else row id d).
    { intros id. rewrite R. cbn [List.find]. change (ev_ID (follow_up i e)) with (r_uuid i).
      case_bool_decide; [by rewrite decide_True | by rewrite decide_False by congruence]. }
    destruct (2 * _ <? _); eauto 10.
Qed.

(** The preparation of a round that finds the entries [e0 :: rest]. *)
Lemma prepare_found i qe s (db : D * W) e0 rest :
  (select (r_base i) (r_select i) s db.1).1.1 = e0 :: rest ->
  let d1 := (select (r_base i) (r_select i) s db.1).2 in
  row (r_uuid i) d1 = None -> r_selectEnd i = clean_end -> r_prepareEnd i = clean_end ->
  exists s' d' next,
    periodic_prepare toISOString stringify stackOf cronNext cfg tenant runInterval randomOffsetPeriodicEvents i qe s db =
      (s', (d', db.2), Ok (Some e0, next)) /\
    forall id, row id d' =
      if decide (id = r_uuid i) then Some (follow_up i e0)
      else if decide (id ∈ ev_ID <$> rest) then with_status (status_code Done) <$> row id d1 else row id d1.
Proof.
  unfold periodic_prepare. destruct (select _ _ s db.1) as [[entries s1] d1]. cbn [fst snd]. intros -> Hfree Hs Hp.
  rewrite Hs. cbn.
  set (d2 := setPeriodicEventStatus stringify stackOf (ev_ID <$> rest) Done JUndef d1).
  assert (H2 : forall id, row id d2 = if decide (id ∈ ev_ID <$> rest) then with_status (status_code Done) <$> row id d1 else row id d1)
    by (intros id; unfold d2; apply setPeriodicEventStatus_row).
  assert (Hd : exists d2', (match rest with
     | [] => (Some e0, d1)
     | _ => handleDuplicatedPeriodicEventEntry stringify stackOf (e0 :: rest) d1 end) = (Some e0, d2') /\
     forall id, row id d2' = row id d2).
  { destruct rest as [|e1 l]; [|rewrite duplicates_first; eauto]. exists d1. split; [done|]. intros id. by rewrite H2. }
  destruct Hd as (d2' & -> & Hd). cbn.
  destruct (schedule_inserts i e0 s1 d2') as (next & s' & d' & E & R).
  { rewrite Hd, H2, Hfree. by case_decide. }
  rewrite E, Hp. cbn. exists s', d', next. split; [done|]. intros id. rewrite R. case_decide; [done|]. by rewrite Hd.
Qed.

(** The entry that a selection returns is in progress afterwards. *)
Lemma selected_in_progress baseDate now s (d : D) e :
  e ∈ (select baseDate now s d).1.1 ->
  exists e0, row (ev_ID e) d = Some e0 /\ row (ev_ID e) (select baseDate now s d).2 = Some (set_in_progress now e0).
Proof.
  rewrite selection_result. intros (e0 & -> & He)%list_elem_of_fmap. rewrite touch_ID.
  apply open_processed in He. exists e0. split; [|by apply processed_row].
  by apply processed_chunk, chunk_spec in He as [? _].
Qed.

Lemma selection_NoDup baseDate now s (d : D) : NoDup (ev_ID <$> (select baseDate now s d).1.1).
Proof.
  rewrite selection_result, map_touch_ID. unfold chunk_clusters.
  pose proof (select_NoDup (selectable cfg runInterval baseDate (selectedDelayedEventIds s))
    (Some (Z.to_nat (selectMaxChunkSize cfg))) d) as N.
  rewrite <- (clusters_partition cfg runInterval _ (refDateStartAfter runInterval baseDate)), fmap_app in N.
  by apply NoDup_app in N as [? _].
Qed.

(** The status of the entry and the business data after the handler. *)
Definition tick_status (e : event) (w : W) : EventProcessingStatus :=
  match (handler e w).2 with Some _ => Error | None => Done end.
Definition tick_keeps (e : event) (w : W) : bool :=
  bool_decide ((handler e w).2 = None) && negb (bool_decide (transactionMode cfg = alwaysRollback)) && negb (handler e w).1.2.

(** The processing and the status of an entry, when the transactions commit. *)
Lemma process_and_status i qe s (db : D * W) s1 db1 e next :
  periodic_prepare toISOString stringify stackOf cronNext cfg tenant runInterval randomOffsetPeriodicEvents i qe s db =
    (s1, db1, Ok (Some e, next)) ->
  r_processEnd i = clean_end -> r_statusEnd i = clean_end ->
  exists d', periodic_round toISOString stringify stackOf cronNext cfg tenant runInterval randomOffsetPeriodicEvents handler i qe s db =
      (s1, (d', if tick_keeps e db1.2 then (handler e db1.2).1.1 else db1.2), Some (Some e, next)) /\
    forall id, exists f, (forall x, ev_status (f x) = status_code (tick_status e db1.2) /\ ev_ID (f x) = ev_ID x) /\
      row id d' = if decide (id = ev_ID e) then f <$> row id db1.1 else row id db1.1.
Proof.
  intros P Hp Hs. unfold periodic_round, periodic_process, tick_keeps, tick_status. rewrite P, Hp, Hs.
  destruct (handler e db1.2) as [[w' rb] [err|]] eqn:Hh; cbn.
  - eexists. split; [done|]. intros id. rewrite setPeriodicEventStatus_row. eexists. split.
    2: { rewrite (decide_ext _ (id = ev_ID e)) by apply list_elem_of_singleton. reflexivity. }
    intros x. cbv zeta. by destruct (truthy err).
  - destruct (bool_decide (transactionMode cfg = alwaysRollback)), rb; cbn; eexists; (split; [by destruct db1|]);
      intros id; rewrite setPeriodicEventStatus_row; exists (with_status (status_code Done)); (split; [done|]);
      by rewrite (decide_ext _ (id = ev_ID e)) by apply list_elem_of_singleton.
Qed.

(** C14. A tick of a periodic event whose transactions commit: the first of the selected
    entries is handed to the handler and ends as done, or failed if the handler throws;
    the others are closed; exactly one row for the next tick is added, and no other row
    changes.  The handler's data is kept exactly if it neither throws nor asks for a
    rollback. *)
Theorem periodic_tick i qe s (db : D * W) e rest :
  (select (r_base i) (r_select i) s db.1).1.1 = e :: rest ->
  let d1 := (select (r_base i) (r_select i) s db.1).2 in
  row (r_uuid i) d1 = None ->
  r_selectEnd i = clean_end -> r_prepareEnd i = clean_end -> r_processEnd i = clean_end -> r_statusEnd i = clean_end ->
  exists s' d' next,
    periodic_round toISOString stringify stackOf cronNext cfg tenant runInterval randomOffsetPeriodicEvents handler i qe s db =
      (s', (d', if tick_keeps e db.2 then (handler e db.2).1.1 else db.2), Some (Some e, next)) /\
    row (r_uuid i) d' = Some (follow_up i e) /\
    (exists x, row (ev_ID e) d' = Some x /\ ev_status x = status_code (tick_status e db.2)) /\
    (forall o, o ∈ rest -> exists x, row (ev_ID o) d' = Some x /\ ev_status x = status_code Done) /\
    (forall id, id <> r_uuid i -> id ∉ ev_ID <$> e :: rest -> row id d' = row id d1).
Proof.
  intros Hsel d1 Hfree H1 H2 H3 H4. assert (Hn := selection_NoDup (r_base i) (r_select i) s db.1). rewrite Hsel in Hn.
  assert (Hrow : forall o, o ∈ e :: rest -> exists x, row (ev_ID o) d1 = Some x).
  { intros o Ho. destruct (selected_in_progress (r_base i) (r_select i) s db.1 o) as (x & _ & Hx); [by rewrite Hsel|]. eauto. }
  assert (Hne : forall o, o ∈ e :: rest -> ev_ID o <> r_uuid i).
  { intros o Ho E. destruct (Hrow o Ho) as [x Hx]. rewrite E in Hx. congruence. }
  destruct (prepare_found i qe s db e rest Hsel Hfree H1 H2) as (s' & d2 & next & P & R).
  destruct (process_and_status i qe s db s' (d2, db.2) e next P H3 H4) as (d' & Q & S). cbn [fst snd] in *.
  apply NoDup_cons in Hn as [Hne2 Hn]. exists s', d', next. split_and!; [done| | | |].
  - destruct (S (r_uuid i)) as (f & _ & ->). rewrite decide_False by (intros E; by apply (Hne e); [left|]).
    rewrite R. by rewrite decide_True.
  - destruct (S (ev_ID e)) as (f & Hf & ->). rewrite decide_True, R by done.
    rewrite decide_False by (apply Hne; left). rewrite decide_False by done.
    destruct (Hrow e ltac:(left)) as [x Hx]. fold d1. rewrite Hx. exists (f x). split; [done | apply Hf].
  - intros o Ho. assert (Hio : ev_ID o ∈ ev_ID <$> rest) by (apply list_elem_of_fmap; eauto).
    destruct (S (ev_ID o)) as (f & _ & ->). rewrite decide_False by (intros E; by rewrite E in Hio). rewrite R.
    rewrite decide_False by (apply Hne; by right). rewrite decide_True by done.
    destruct (Hrow o ltac:(by right)) as [x Hx]. fold d1. rewrite Hx. eexists. split; [done|]. done.
  - intros id Hid [He Hr]%not_elem_of_cons. destruct (S id) as (f & _ & ->). rewrite decide_False by done.
    rewrite R, decide_False by done. by rewrite decide_False.
Qed.

(** The variable that holds the entry outlives a round: when a further round finds
    nothing, the handler runs a second time on the entry of the round before. *)
Theorem stale_entry_processed_again i e s (db : D * W) :
  (select (r_base i) (r_select i) s db.1).1.1 = [] ->
  r_selectEnd i = clean_end -> r_processEnd i = clean_end -> r_statusEnd i = clean_end ->
  exists s' d',
    periodic_round toISOString stringify stackOf cronNext cfg tenant runInterval randomOffsetPeriodicEvents handler i (Some e) s db =
      (s', (d', if tick_keeps e db.2 then (handler e db.2).1.1 else db.2), Some (Some e, false)).
Proof.
  intros Hsel H1 H3 H4.
  assert (P : exists s1 d1, periodic_prepare toISOString stringify stackOf cronNext cfg tenant runInterval
    randomOffsetPeriodicEvents i (Some e) s db = (s1, (d1, db.2), Ok (Some e, false))).
  { unfold periodic_prepare. destruct (select _ _ s db.1) as [[entries s1] d1]. cbn [fst snd] in Hsel. subst entries.
    rewrite H1. cbn. eauto. }
  destruct P as (s1 & d1 & P). destruct (process_and_status i (Some e) s db s1 (d1, db.2) e false P H3 H4) as (d' & Q & _).
  eauto.
Qed.
End periodic_props.

(** ** [periodicEvents.js] *)

Definition ALLOWED_PERIODIC_SEC_DIFF : Z := 30.

(** A group of the selection: the columns [type], [subType], [createdAt], [namespace]
    and [max(startAfter)]. *)
Record planned := mkPlanned {
  x_type : string; x_subType : string; x_createdAt : Z; x_namespace : string; x_startAfter : option Z }.

#[export] Instance planned_eq_dec : EqDecision planned.
Proof. solve_decision. Defined.

Section planning.
Context {D : Type} {ET : EventTable D}.
Context (cronNext : string -> option string -> Z -> Z) (randomOffsetPeriodicEvents : option Z).

(** [eventConfig.periodicEvents] *)
Context (periodicEvents : list eventConfig).

(** [_generateKey({ type, subType, namespace })] and [generateKey] of the registry *)
Definition plan_key (namespace type_ subType : string) : string := join hash2 [namespace; type_; subType].
Definition cfg_key (p : eventConfig) : string := plan_key (ec_namespace p) (ec_type p) (ec_subType p).
Definition x_key (x : planned) : string := plan_key (x_namespace x) (x_type x) (x_subType x).
Definition row_key (e : event) : string := plan_key (ev_namespace e) (ev_type e) (ev_subType e).

(** [eventConfig.getEventConfig(type, subType, namespace)] *)
Definition configOf (key : string) : option eventConfig :=
  List.find (fun p => bool_decide (cfg_key p = key)) periodicEvents.

Definition same_event (p : eventConfig) (e : event) : bool :=
  bool_decide (ev_type e = ec_type p) && bool_decide (ev_subType e = ec_subType p) &&
  bool_decide (ev_namespace e = ec_namespace p).

(** The [WHERE] clause: a configured combination that is open or in progress. *)
Definition is_active (e : event) : bool := has_status Open e || has_status InProgress e.
Definition current_row (e : event) : bool := existsb (fun p => same_event p e) periodicEvents && is_active e.

(** [GROUP BY type, subType, createdAt, namespace] with [max(startAfter)] *)
Definition same_group (x : planned) (e : event) : bool :=
  bool_decide (x_type x = ev_type e) && bool_decide (x_subType x = ev_subType e) &&
  (x_createdAt x =? ev_createdAt e) && bool_decide (x_namespace x = ev_namespace e).

Definition max_start (a b : option Z) : option Z :=
  match a, b with Some x, Some y => Some (Z.max x y) | None, _ => b | _, None => a end.

Fixpoint add_to_groups (e : event) (l : list planned) : list planned :=
  match l with
  | [] => [mkPlanned (ev_type e) (ev_subType e) (ev_createdAt e) (ev_namespace e) (ev_startAfter e)]
  | x :: r =>
    if same_group x e
    then mkPlanned (x_type x) (x_subType x) (x_createdAt x) (x_namespace x) (max_start (x_startAfter x) (ev_startAfter e)) :: r
    else x :: add_to_groups e r
  end.

Definition currentPeriodEvents (d : D) : list planned :=
  fold_left (fun l e => add_to_groups e l) (select_rows current_row None d) [].

(** [_determineChangedInterval]: too far in the future for the configured interval. *)
Definition changedInterval (now : Z) (p : eventConfig) (x : planned) : bool :=
  match ec_interval p with
  | Some i => now + i * 1000 <=? default 0 (x_startAfter x)
  | None => false
  end.

(** [_determineChangedCron]: not the execution the cron expression gives, up to the
    tolerance and the random offset. *)
Definition changedCron (p : eventConfig) (x : planned) : bool :=
  match ec_cron p with
  | Some expr =>
    let offset := default 0 (match ec_randomOffset p with Some o => Some o | None => randomOffsetPeriodicEvents end) in
    (ALLOWED_PERIODIC_SEC_DIFF + offset) * 1000 <?
      Z.abs (cronNext expr (ec_tz p) (x_createdAt x) - default 0 (x_startAfter x))
  | None => false
  end.

Definition changed (now : Z) (x : planned) : bool :=
  match configOf (x_key x) with
  | Some p => match ec_cron p with Some _ => changedCron p x | None => changedInterval now p x end
  | None => false
  end.

(** [_addWhere]: the rows the changed groups stand for. *)
Definition matches_planned (e : event) (x : planned) : bool :=
  bool_decide (ev_type e = x_type x) && bool_decide (ev_subType e = x_subType x) &&
  (ev_createdAt e =? x_createdAt x) && bool_decide (ev_startAfter e = x_startAfter x).

(** The row [_insertPeriodEvents] inserts for a combination. *)
Definition plannedRow (now : Z) (uuid : string) (type_ subType namespace : string) : event :=
  let start := match configOf (plan_key namespace type_ subType) with
               | Some p => match ec_cron p with Some expr => cronNext expr (ec_tz p) now | None => now end
               | None => now
               end in
  mkEvent uuid type_ subType None None (status_code Open) JNull 0 None now (Some start) JNull JNull namespace.

(** [_insertPeriodEvents(tx, events, now)]; [uuid i] is the id of the [i]-th new row. *)
Definition insertPeriodEvents (now : Z) (uuid : nat -> string) (events : list (string * string * string)) (d : D) : option D :=
  insert_rows (imap (fun i c => plannedRow now (uuid i) c.1.1 c.1.2 c.2) events) d.

Definition cfg_combination (p : eventConfig) : string * string * string := (ec_type p, ec_subType p, ec_namespace p).
Definition x_combination (x : planned) : string * string * string := (x_type x, x_subType x, x_namespace x).

(** [exitingEventMap], [newEvents] and the existing events that no longer match. *)
Definition existingEventMap (current : list planned) : obj planned :=
  fold_left (fun m x => oset (x_key x) x m) current [].

Definition newEvents (current : list planned) : list eventConfig :=
  List.filter (fun p => negb (ohas (cfg_key p) (existingEventMap current))) periodicEvents.

Definition is_cron (x : planned) : bool :=
  match configOf (x_key x) with Some p => bool_decide (is_Some (ec_cron p)) | None => false end.

Definition notMatching (now : Z) (current : list planned) : list planned :=
  let found := omap (fun p => oget (cfg_key p) (existingEventMap current)) periodicEvents in
  List.filter (changed now) (List.filter (fun x => negb (is_cron x)) found) ++
  List.filter (changed now) (List.filter is_cron found).

(** [checkAndInsertPeriodicEvents(context)] at [now]; [None] when the insert fails. *)
Definition checkAndInsertPeriodicEvents (now : Z) (uuid : nat -> string) (d : D) : option D :=
  match currentPeriodEvents d with
  | [] => insertPeriodEvents now uuid (map cfg_combination periodicEvents) d
  | current =>
    let gone := notMatching now current in
    let d := match gone with [] => d | _ => delete_rows (fun e => existsb (matches_planned e) gone) d end in
    match map cfg_combination (newEvents current) ++ map x_combination gone with
    | [] => Some d
    | newOrChanged => insertPeriodEvents now uuid newOrChanged d
    end
  end.

(** The table at the failing insert: the rows that do not match are deleted already. *)
Definition replanDeleted (now : Z) (d : D) : D :=
  match currentPeriodEvents d with
  | [] => d
  | current =>
    match notMatching now current with [] => d | gone => delete_rows (fun e => existsb (matches_planned e) gone) d end
  end.
End planning.

Section planning_props.
Context {D : Type} {ET : EventTable D} {EL : EventTableLaws D}.
Context (cronNext : string -> option string -> Z -> Z) (randomOffsetPeriodicEvents : option Z).
Context (periodicEvents : list eventConfig).

Definition groups (l : list event) : list planned := fold_left (fun l e => add_to_groups e l) l [].

(** Every group stands for a selected row, and every selected row is in a group. *)
Lemma add_to_groups_sound e l x :
  x ∈ add_to_groups e l -> same_group x e = true \/ exists x', x' ∈ l /\ forall e', same_group x e' = same_group x' e'.
Proof.
  induction l as [|y l IH]; cbn [add_to_groups].
  - intros ->%list_elem_of_singleton. left. unfold same_group. simpl. rewrite !bool_decide_eq_true_2 by done.
    by rewrite Z.eqb_refl.
  - destruct (same_group y e) eqn:G.
    + intros [->|Hx]%elem_of_cons; [by left|]. right. exists x. split; [by right | done].
    + intros [->|Hx]%elem_of_cons; [right; exists y; split; [left | done]|].
      destruct (IH Hx) as [?|(x' & Hx' & Hs)]; [by left|]. right. exists x'. split; [by right | done].
Qed.

Lemma groups_sound l x : x ∈ groups l -> exists e, e ∈ l /\ same_group x e = true.
Proof.
  unfold groups.
  assert (G : forall todo done acc, (forall y, y ∈ acc -> exists e, e ∈ done /\ same_group y e = true) ->
    forall y, y ∈ fold_left (fun l e => add_to_groups e l) todo acc -> exists e, e ∈ done ++ todo /\ same_group y e = true).
  { induction todo as [|e todo IH]; intros dn acc Ha y Hy; cbn [fold_left] in Hy.
    - rewrite app_nil_r. auto.
    - replace (dn ++ e :: todo) with ((dn ++ [e]) ++ todo) by (by rewrite <- app_assoc).
      apply (IH (dn ++ [e]) (add_to_groups e acc)); [|done]. intros z Hz.
      destruct (add_to_groups_sound _ _ _ Hz) as [Hs|(z' & Hz' & Hs)].
      + exists e. split; [apply elem_of_app; right; left | done].
      + destruct (Ha z' Hz') as (e' & He' & Hg). exists e'. rewrite Hs. split; [apply elem_of_app; by left | done]. }
  intros Hx. destruct (G l [] [] ltac:(by intros y ?%elem_of_nil) x Hx) as (e & He & Hg). eauto.
Qed.

Lemma existing_sound l k x :
  oget k (fold_left (fun m x => oset (x_key x) x m) l []) = Some x -> x ∈ l /\ x_key x = k.
Proof.
  assert (G : forall l (m : obj planned), oget k (fold_left (fun m x => oset (x_key x) x m) l m) = Some x ->
    oget k m = Some x \/ x ∈ l /\ x_key x = k).
  { clear l. induction l as [|y l IH]; intros m H; cbn [fold_left] in H; [by left|].
    destruct (IH _ H) as [Hm|[Hl Hk]]; [|right; split; [by right | done]].
    rewrite oget_oset in Hm. case_decide; [|by left]. injection Hm as ->. right. split; [left | done]. }
  intros H. by destruct (G _ _ H) as [?|?].
Qed.

(** The insert of planned rows with fresh ids. *)
Lemma insert_planned now uuid evs (d : D) :
  Inj (=) (=) uuid -> (forall i, row (uuid i) d = None) ->
  exists d', insertPeriodEvents cronNext periodicEvents now uuid evs d = Some d' /\
    (forall id e, row id d = Some e -> row id d' = Some e) /\
    (forall c, c ∈ evs -> exists id, row id d' = Some (plannedRow cronNext periodicEvents now id c.1.1 c.1.2 c.2)).
Proof.
  intros Hinj Hfree. unfold insertPeriodEvents. set (f := fun i c => plannedRow cronNext periodicEvents now (uuid i) c.1.1 c.1.2 c.2).
  assert (Hids : ev_ID <$> imap f evs = uuid <$> seq 0 (length evs)).
  { apply list_eq. intros i. rewrite !list_lookup_fmap, list_lookup_imap.
    destruct (evs !! i) as [c|] eqn:E; simpl.
    - rewrite lookup_seq_lt by (by apply lookup_lt_Some in E). done.
    - rewrite lookup_seq_ge by (by apply lookup_ge_None in E). done. }
  destruct (insert_row (imap f evs) d) as (d' & E & R).
  - rewrite Hids. apply NoDup_fmap_2; [done | apply NoDup_seq].
  - apply Forall_forall. intros e He. assert (Hin : ev_ID e ∈ ev_ID <$> imap f evs) by (apply list_elem_of_fmap; eauto).
    rewrite Hids in Hin. apply list_elem_of_fmap in Hin as (i & -> & _). apply Hfree.
  - exists d'. split; [done|]. split.
    + intros id e Hrow. rewrite R. destruct (List.find _ _) as [e'|] eqn:F; [|done]. exfalso.
      apply List.find_some in F as [Hin Hid%bool_decide_eq_true].
      assert (Hin' : ev_ID e' ∈ ev_ID <$> imap f evs) by (apply list_elem_of_fmap; exists e'; split; [done | by apply list_elem_of_In]).
      rewrite Hids in Hin'. apply list_elem_of_fmap in Hin' as (i & Hi & _). specialize (Hfree i). congruence.
    + intros c (i & Hi)%list_elem_of_lookup. exists (uuid i). rewrite R.
      assert (Hel : imap f evs !! i = Some (f i c)) by (by rewrite list_lookup_imap, Hi).
      destruct (List.find _ _) as [e'|] eqn:F.
      * apply List.find_some in F as [Hin Hid%bool_decide_eq_true].
        apply list_elem_of_In, list_elem_of_lookup in Hin as (j & Hj). rewrite list_lookup_imap in Hj.
        destruct (evs !! j) as [c'|] eqn:Ej; [|discriminate]. injection Hj as <-. simpl in Hid.
        apply Hinj in Hid as ->. rewrite Hi in Ej. by injection Ej as <-.
      * exfalso. assert (Hin : In (f i c) (imap f evs)) by (apply list_elem_of_In, list_elem_of_lookup; eauto).
        pose proof (List.find_none _ _ F _ Hin) as N. cbv beta in N. by rewrite bool_decide_eq_true_2 in N.
Qed.

(** A configured event has an open or running row. *)
Definition is_planned (d : D) (p : eventConfig) : Prop :=
  exists id e, row id d = Some e /\ row_key e = cfg_key p /\ is_active e = true.

Lemma group_planned (d : D) x :
  x ∈ currentPeriodEvents periodicEvents d ->
  exists e p, row (ev_ID e) d = Some e /\ is_active e = true /\ same_group x e = true /\
    p ∈ periodicEvents /\ same_event p e = true.
Proof.
  intros (e & He & Hg)%groups_sound. apply select_sound in He as [Hr Hc]. unfold current_row in Hc.
  apply andb_true_iff in Hc as [(p & Hp & Hs)%existsb_exists Ha]. exists e, p. split_and!; auto. by apply list_elem_of_In.
Qed.

(** Unfold the boolean comparisons of rows, groups and configurations. *)
Ltac combos :=
  unfold same_group, same_event, matches_planned in *;
  repeat match goal with
  | H : (_ && _)%bool = true |- _ => apply andb_true_iff in H as [? ?]
  | H : bool_decide _ = true |- _ => apply bool_decide_eq_true in H
  end.

Lemma inserted_planned now (d' : D) p c :
  (exists id, row id d' = Some (plannedRow cronNext periodicEvents now id c.1.1 c.1.2 c.2)) ->
  plan_key c.2 c.1.1 c.1.2 = cfg_key p -> is_planned d' p.
Proof. intros [id Hid] E. exists id. eexists. split; [exact Hid|]. split; [exact E | done]. Qed.

Lemma NoDup_fmap_elem_inj {A B} (f : A -> B) l a b : NoDup (f <$> l) -> a ∈ l -> b ∈ l -> f a = f b -> a = b.
Proof.
  intros Hn (i & Hi)%list_elem_of_lookup (j & Hj)%list_elem_of_lookup E.
  assert (i = j) as ->; [|congruence].
  apply (NoDup_lookup (f <$> l) i j (f a) Hn); rewrite list_lookup_fmap; [by rewrite Hi | by rewrite Hj, E].
Qed.

Lemma gone_sound now cur y :
  y ∈ notMatching cronNext randomOffsetPeriodicEvents periodicEvents now cur ->
  y ∈ cur /\ oget (x_key y) (existingEventMap cur) = Some y.
Proof.
  unfold notMatching. intros Hy.
  assert (Hf : y ∈ omap (fun p => oget (cfg_key p) (existingEventMap cur)) periodicEvents).
  { apply elem_of_app in Hy as [Hy|Hy]; apply list_elem_of_In, filter_In in Hy as [Hy _]; apply filter_In in Hy as [Hy _];
      by apply list_elem_of_In. }
  apply list_elem_of_omap in Hf as (q & _ & Hq). destruct (existing_sound _ _ _ Hq) as [Hin Hk]. by rewrite Hk.
Qed.

(** An existing plan that still fits is not deleted with those that do not. *)
Lemma kept_planned (d : D) cur x p gone :
  NoDup ((fun p => (ec_type p, ec_subType p)) <$> periodicEvents) ->
  currentPeriodEvents periodicEvents d = cur ->
  oget (cfg_key p) (existingEventMap cur) = Some x ->
  (forall y, y ∈ gone -> y ∈ cur /\ oget (x_key y) (existingEventMap cur) = Some y) -> x ∉ gone ->
  is_planned (match gone with [] => d | _ => delete_rows (fun e => existsb (matches_planned e) gone) d end) p.
Proof.
  intros Hdist Hcur Hx Hgone Hg. assert (Hx' := Hx). apply existing_sound in Hx' as [Hin Hk].
  rewrite <- Hcur in Hin. destruct (group_planned d x Hin) as (e & q & Hrow & Ha & Hgr & Hq & Hs).
  assert (Hkey : row_key e = cfg_key p) by (rewrite <- Hk; unfold row_key, x_key; combos; congruence).
  assert (M : existsb (matches_planned e) gone = false).
  { destruct (existsb _ gone) eqn:M; [|done]. exfalso. apply existsb_exists in M as (y & Hy%list_elem_of_In & My).
    destruct (Hgone y Hy) as [Hyc Hyk]. rewrite <- Hcur in Hyc.
    destruct (group_planned d y Hyc) as (e' & q' & _ & _ & Hgr' & Hq' & Hs').
    assert (q = q') as <- by (eapply (NoDup_fmap_elem_inj (fun p => (ec_type p, ec_subType p))); [done..|]; combos; congruence).
    assert (E : x_key y = cfg_key p) by (rewrite <- Hkey; unfold row_key, x_key; combos; congruence).
    rewrite E, Hx in Hyk. injection Hyk as ->. done. }
  exists (ev_ID e), e. split; [|done]. destruct gone as [|g0 gs]; [done|]. by rewrite delete_row, Hrow, M.
Qed.

(** After [checkAndInsertPeriodicEvents] every configured periodic event is planned:
    it has a row that is open or in progress.  Events that are not planned yet and
    events whose plan does not fit their interval or cron expression any more are
    inserted anew.  (No two configured events may differ in their namespace only.) *)
Lemma checked_planned now uuid (d : D) :
  NoDup ((fun p => (ec_type p, ec_subType p)) <$> periodicEvents) ->
  Inj (=) (=) uuid -> (forall i, row (uuid i) d = None) ->
  exists d', checkAndInsertPeriodicEvents cronNext randomOffsetPeriodicEvents periodicEvents now uuid d = Some d' /\
    forall p, p ∈ periodicEvents -> is_planned d' p.
Proof.
  intros Hdist Hinj Hfree. unfold checkAndInsertPeriodicEvents.
  destruct (currentPeriodEvents periodicEvents d) as [|x0 xs] eqn:Ecur.
  - destruct (insert_planned now uuid (map cfg_combination periodicEvents) d Hinj Hfree) as (d' & -> & _ & Hins).
    exists d'. split; [done|]. intros p Hp. apply (inserted_planned now d' p (cfg_combination p)); [apply Hins|done].
    by apply list_elem_of_fmap_2.
  - set (cur := x0 :: xs) in *. set (gone := notMatching _ _ _ now cur).
    set (d1 := match gone with [] => d | _ => delete_rows _ d end).
    assert (Hfree1 : forall i, row (uuid i) d1 = None)
      by (intros i; unfold d1; destruct gone; [done|]; by rewrite delete_row, Hfree).
    assert (Hkeep : forall p x, p ∈ periodicEvents -> oget (cfg_key p) (existingEventMap cur) = Some x ->
      x ∉ gone -> is_planned d1 p) by (intros p x _ Hx; apply (kept_planned d cur x p gone Hdist Ecur Hx), gone_sound).
    destruct (insert_planned now uuid (map cfg_combination (newEvents periodicEvents cur) ++ map x_combination gone) d1
                Hinj Hfree1) as (d' & Hd' & Hold & Hins).
    assert (Hall : exists d2, match map cfg_combination (newEvents periodicEvents cur) ++ map x_combination gone with
      | [] => Some d1 | l => insertPeriodEvents cronNext periodicEvents now uuid l d1 end = Some d2 /\
      (forall id e, row id d1 = Some e -> row id d2 = Some e) /\
      (forall c, c ∈ map cfg_combination (newEvents periodicEvents cur) ++ map x_combination gone ->
         exists id, row id d2 = Some (plannedRow cronNext periodicEvents now id c.1.1 c.1.2 c.2))).
    { destruct (map cfg_combination _ ++ _); [|eauto]. exists d1. split_and!; auto. by intros c ?%elem_of_nil. }
    destruct Hall as (d2 & -> & Hold2 & Hins2). exists d2. split; [done|]. intros p Hp.
    destruct (oget (cfg_key p) (existingEventMap cur)) as [x|] eqn:Hx.
    + destruct (decide (x ∈ gone)) as [Hg|Hg].
      * apply (inserted_planned now d2 p (x_combination x)); [apply Hins2, elem_of_app; right; by apply list_elem_of_fmap_2|].
        by apply existing_sound in Hx as [_ ?].
      * destruct (Hkeep p x Hp Hx Hg) as (id & e & He & Hk). exists id, e. split; [by apply Hold2 | done].
    + apply (inserted_planned now d2 p (cfg_combination p)); [|done]. apply Hins2, elem_of_app. left. apply list_elem_of_fmap_2.
      apply list_elem_of_In, filter_In. split; [by apply list_elem_of_In|]. unfold ohas. by rewrite Hx.
Qed.
End planning_props.

(** ** Witnesses *)

Definition demoPeriodicConfig (namespace : string) (interval : Z) : eventConfig :=
  mkEventConfig "Clean" "all" namespace true None false None None true None 60 (210, 1) 300000 300000
    (Some interval) None None None false 1000.

Definition demoTickRow (id namespace : string) (createdAt startAfter : Z) : event :=
  mkEvent id "Clean" "all" None None 0 JNull 0 None createdAt (Some startAfter) JNull JNull namespace.

Definition demoTicks : memRows := {[ "t1" := demoTickRow "t1" "default" 500 900; "t2" := demoTickRow "t2" "default" 600 950 ]}.

Definition demoCronAfter : string -> option string -> Z -> Z := fun _ _ t => t + 60000.

Definition demoRound : round :=
  mkRound 2000 2001 (fun i => 2002 + Z.of_nat i) "n1" (0, 1) clean_end clean_end clean_end clean_end.

Definition demoTickHandler (e : event) (w : Z) : Z * bool * option jsval := (w + 1, false, None).

Lemma next_tick_keeps_up_witness :
  let next := nextStart demoCronAfter (demoPeriodicConfig "default" 30) None (fun i => 90000 + Z.of_nat i) (0, 1)
                (demoTickRow "t1" "default" 500 900) in
  90001 - 30000 < next /\ next = 95002.
Proof.
  destruct (next_tick_keeps_up demoCronAfter (demoPeriodicConfig "default" 30) None (fun i => 90000 + Z.of_nat i) (0, 1)
              (demoTickRow "t1" "default" 500 900) 30) as (H1 & _ & H3); [reflexivity | reflexivity | lia | lia |].
  split; [exact H1|]. apply H3. vm_compute. discriminate.
Defined.

Lemma periodic_tick_witness :
  exists s' d' next,
    periodic_round demoISO demoStringify demoStack demoCronAfter (demoPeriodicConfig "default" 30) None 1500000 None
      demoTickHandler demoRound None (newInstance [] newScheduler) (demoTicks, 5) =
      (s', (d', 6), Some (Some (touch 2001 (demoTickRow "t1" "default" 500 900)), next)) /\
    row "n1" d' = Some (nextRow (demoPeriodicConfig "default" 30) "n1" 2005 30900).
Proof.
  destruct (periodic_tick demoISO demoStringify demoStack demoCronAfter (demoPeriodicConfig "default" 30) None 1500000 None
              demoTickHandler demoRound None (newInstance [] newScheduler) (demoTicks, 5)
              (touch 2001 (demoTickRow "t1" "default" 500 900)) [touch 2001 (demoTickRow "t2" "default" 600 950)])
    as (s' & d' & next & H & R & _); try (vm_compute; reflexivity).
  exists s', d', next. split; [exact H | exact R].
Defined.

Lemma stale_entry_processed_again_witness :
  exists s' d',
    periodic_round demoISO demoStringify demoStack demoCronAfter (demoPeriodicConfig "default" 30) None 1500000 None
      demoTickHandler demoRound (Some (demoTickRow "t1" "default" 500 900)) (newInstance [] newScheduler) (∅ : memRows, 6) =
      (s', (d', 7), Some (Some (demoTickRow "t1" "default" 500 900), false)).
Proof.
  apply (stale_entry_processed_again demoISO demoStringify demoStack demoCronAfter (demoPeriodicConfig "default" 30) None
           1500000 None demoTickHandler demoRound (demoTickRow "t1" "default" 500 900) (newInstance [] newScheduler)
           (∅ : memRows, 6)); vm_compute; reflexivity.
Defined.

(** Ids "u", "uu", "uuu" and so on. *)
Fixpoint demoUuid (i : nat) : string := match i with O => "u" | S n => String (Ascii.Ascii true false true false true true true false) (demoUuid n) end.

Lemma demoUuid_inj : Inj (=) (=) demoUuid.
Proof.
  intros i. induction i as [|i IH]; intros [|j]; simpl; intros E; try done; injection E as E.
  - by destruct j.
  - by destruct i.
  - f_equal. auto.
Qed.

Lemma checked_planned_example :
  exists d', checkAndInsertPeriodicEvents demoCronAfter None [demoPeriodicConfig "default" 30] 2000 demoUuid demoTicks = Some d' /\
    is_planned d' (demoPeriodicConfig "default" 30).
Proof.
  destruct (checked_planned (D := memRows) demoCronAfter None [demoPeriodicConfig "default" 30] 2000 demoUuid demoTicks)
    as (d' & H & P).
  - apply NoDup_singleton.
  - apply demoUuid_inj.
  - intros [|i]; [vm_compute; reflexivity|]. destruct i as [|i]; vm_compute; reflexivity.
  - exists d'. split; [exact H|]. apply P. left.
Defined.

(** ** Events that differ in their namespace only *)

Definition demoTwoNamespaces : list eventConfig := [demoPeriodicConfig "a" 30; demoPeriodicConfig "b" 500].
Definition demoTwoRows : memRows :=
  {[ "ra" := demoTickRow "ra" "a" 500 200000; "rb" := demoTickRow "rb" "b" 500 200000 ]}.

(** The rows to delete are not matched by namespace: shortening the interval of an
    event deletes the row of the event of the same type and sub type in another
    namespace that was inserted together with it, and that event is not planned any
    more (until the next check). *)
Theorem replan_deletes_other_namespace :
  is_planned demoTwoRows (demoPeriodicConfig "b" 500) /\
  match checkAndInsertPeriodicEvents demoCronAfter None demoTwoNamespaces 2000 demoUuid demoTwoRows with
  | Some d' =>
    select_rows (fun e => bool_decide (ev_namespace e = "b")) None d' = [] /\
    ev_startAfter <$> select_rows (fun e => bool_decide (ev_namespace e = "a")) None d' = [Some 2000]
  | None => False
  end.
Proof.
  split; [|vm_compute; split; reflexivity].
  exists "rb", (demoTickRow "rb" "b" 500 200000). split_and!; vm_compute; reflexivity.
Qed.
