(* ===== verification/Settings.v ===== *)
(** * The settings of a processor ([EventQueueProcessorBase.js], constructor)

    [processEventQueue] creates a processor with the registered options of its event
    ([config.js]); the constructor and the methods read them.  [eventSettings] is this
    reading: from a registered event to the [eventConfig] of [Processor].  Its theorems
    connect the configuration files with what the processors work with. *)

From S2P Require Import Prelude Js Errors Config DistributedLock Processor.
#[local] Open Scope Z_scope.

(** ** Options *)

(** The values of an option of a documented type: [None] is a value of another type. *)
Definition integer_option (v : jsval) : option (option Z) :=
  match v with JNum z => Some (Some z) | JUndef | JNull => Some None | _ => None end.
Definition text_option (v : jsval) : option (option string) :=
  match v with JStr x => Some (Some x) | JUndef | JNull => Some None | _ => None end.
Definition required_integer (v : jsval) : option Z := match v with JNum z => Some z | _ => None end.
Definition fraction_option (v : jsval) : option (Z * Z) :=
  match v with JNum z => Some (z, 1) | JFrac n d => Some (n, Z.pos d) | _ => None end.
Definition mode_option (v : jsval) : option (option TransactionMode) :=
  match v with
  | JStr x =>
    match List.find (fun m => bool_decide (transaction_mode_name m = x)) [isolated; alwaysCommit; alwaysRollback] with
    | Some m => Some (Some m)
    | None => None
    end
  | JUndef | JNull => Some None
  | _ => None
  end.

(** The options the constructor and the methods of a processor of [eventType] and
    [eventSubType] read; [startTime] is the start of its last run. *)
Definition eventSettings (startTime : Z) (eventType eventSubType : string) (r : regEvent) : option eventConfig :=
  namespace ← text_option (opt r "namespace");
  parallel ← integer_option (opt r "parallelEventProcessing");
  retry ← integer_option (opt r "retryAttempts");
  chunk ← integer_option (opt r "selectMaxChunkSize");
  mode ← mode_option (opt r "transactionMode");
  keepAlive ← required_integer (opt r "keepAliveInterval");
  keepAliveMax ← fraction_option (opt r "keepAliveMaxInProgressTime");
  retryFailed ← required_integer (opt r "retryFailedAfter");
  retryOpen ← required_integer (opt r "retryOpenAfter");
  interval ← integer_option (opt r "interval");
  cron ← text_option (opt r "cron");
  tz ← text_option (opt r "tz");
  offset ← integer_option (opt r "randomOffset");
  Some (mkEventConfig eventType eventSubType (opt_str namespace) (truthy (opt r "isPeriodic")) parallel
          (truthy (opt r "multiInstanceProcessing")) retry chunk (truthy (opt r "checkForNextChunk")) mode
          keepAlive keepAliveMax retryFailed retryOpen interval cron tz offset
          (truthy (opt r "lastSuccessfulRunTimestamp")) startTime).

(** What is read of each option. *)
Record settings_of (startTime : Z) (eventType eventSubType : string) (r : regEvent) (s : eventConfig) : Prop := {
  so_type : ec_type s = eventType;
  so_subType : ec_subType s = eventSubType;
  so_namespace : exists n, text_option (opt r "namespace") = Some n /\ ec_namespace s = opt_str n;
  so_isPeriodic : ec_isPeriodic s = truthy (opt r "isPeriodic");
  so_parallel : integer_option (opt r "parallelEventProcessing") = Some (ec_parallel s);
  so_multiInstance : ec_multiInstance s = truthy (opt r "multiInstanceProcessing");
  so_retryAttempts : integer_option (opt r "retryAttempts") = Some (ec_retryAttempts s);
  so_selectMaxChunkSize : integer_option (opt r "selectMaxChunkSize") = Some (ec_selectMaxChunkSize s);
  so_checkForNextChunk : ec_checkForNextChunk s = truthy (opt r "checkForNextChunk");
  so_transactionMode : mode_option (opt r "transactionMode") = Some (ec_transactionMode s);
  so_keepAliveInterval : required_integer (opt r "keepAliveInterval") = Some (ec_keepAliveInterval s);
  so_keepAliveMax : fraction_option (opt r "keepAliveMaxInProgressTime") = Some (ec_keepAliveMaxInProgressTime s);
  so_retryFailedAfter : required_integer (opt r "retryFailedAfter") = Some (ec_retryFailedAfter s);
  so_retryOpenAfter : required_integer (opt r "retryOpenAfter") = Some (ec_retryOpenAfter s);
  so_interval : integer_option (opt r "interval") = Some (ec_interval s);
  so_cron : text_option (opt r "cron") = Some (ec_cron s);
  so_tz : text_option (opt r "tz") = Some (ec_tz s);
  so_randomOffset : integer_option (opt r "randomOffset") = Some (ec_randomOffset s);
  so_lastSuccessful : ec_lastSuccessfulRunTimestamp s = truthy (opt r "lastSuccessfulRunTimestamp");
  so_startTime : ec_startTime s = startTime }.

Lemma eventSettings_spec startTime eventType eventSubType r s :
  eventSettings startTime eventType eventSubType r = Some s -> settings_of startTime eventType eventSubType r s.
Proof.
  unfold eventSettings. intros H.
  repeat match type of H with _ ≫= _ = Some _ => apply bind_Some in H as (? & ? & H) end. injection H as <-. split; eauto.
Qed.

Lemma required_integer_Some v z : required_integer v = Some z -> v = JNum z.
Proof. destruct v; simpl; congruence. Qed.

(** ** Keep-alive and lock *)

Lemma mul_seven_halves z :
  exists n d, fraction_option (js_mul (JNum z) 7 2) = Some (n, d) /\ 0 < d /\
    round_ms (n * 1000, d) = 3500 * z /\ date_trunc (n * 1000) d = 3500 * z.
Proof.
  unfold js_mul. cbn [js_number]. change (1 * Z.pos 2) with 2. change (Z.to_pos 2) with 2%positive.
  unfold round_ms, math_round_div, date_trunc. destruct (Z.eqb_spec (z * 7 mod 2) 0) as [E|E]; cbn; eexists _, _; (split; [done|]); simpl.
  - split_and!; [lia | |]; Z.to_euclidean_division_equations; lia.
  - split_and!; [lia | |]; Z.to_euclidean_division_equations; lia.
Qed.

Section settings.
Context (toString : jsval -> string) (cronParses : jsval -> bool) (cronNext : jsval -> result jsval (Z * Z))
  (validRegex : string -> string -> bool) (cds : cdsEnv) (c : Config).

(** The lock of a registered event and its events in progress expire after three and a
    half keep-alive intervals, to the millisecond: after a keep-alive that renews them they
    outlive the next two even if both are missed. *)
Lemma lock_expiry startTime eventType eventSubType k r s :
  registered_ok toString cronParses cronNext cds c k r ->
  eventSettings startTime eventType eventSubType r = Some s ->
  round_ms (keepAliveMaxMs s) = 3500 * ec_keepAliveInterval s /\
  date_trunc (keepAliveMaxMs s).1 (keepAliveMaxMs s).2 = 3500 * ec_keepAliveInterval s /\
  (0 < ec_keepAliveInterval s -> 0 < (ec_keepAliveMaxInProgressTime s).2 /\
     3 * (ec_keepAliveInterval s * 1000) < round_ms (keepAliveMaxMs s)).
Proof.
  intros Hr Hs%eventSettings_spec. unfold keepAliveMaxMs. pose proof (so_keepAliveMax _ _ _ _ _ Hs) as F.
  rewrite (ro_keepAlive _ _ _ _ _ _ _ Hr), (required_integer_Some _ _ (so_keepAliveInterval _ _ _ _ _ Hs)) in F.
  destruct (mul_seven_halves (ec_keepAliveInterval s)) as (n & d & F' & D & R1 & R2). rewrite F' in F. injection F as <-.
  cbn [fst snd]. rewrite R1, R2. split_and!; [done..|]. lia.
Qed.

(** ** From the configuration file to the settings *)

(** The value of an option, or its default. *)
Definition integer_or (d : Z) (v : jsval) : Z := match v with JNum z => z | _ => d end.

Lemma sanitized_option event k :
  NoDup (okeys event) -> k ∈ ALLOWED_EVENT_OPTIONS_AD_HOC -> prop (sanitizeParamsAdHocEvent event) k = prop event k.
Proof. intros Hn Hk. unfold prop, sanitizeParamsAdHocEvent. by rewrite oget_sanitize, decide_True. Qed.

(** An option that is registered as it is. *)
Lemma adHoc_option event k :
  NoDup (okeys event) -> k ∈ ALLOWED_EVENT_OPTIONS_AD_HOC ->
  k ∉ ["propagateHeaders"; "propagateContextProperties"; "retryFailedAfter"; "retryOpenAfter"; "inheritTraceContext"; "load";
       "priority"; "increasePriorityOverTime"; "keepAliveInterval"; "keepAliveMaxInProgressTime"; "checkForNextChunk"; "namespace"] ->
  opt (adHocEntry toString validRegex c event) k = prop event k.
Proof.
  intros Hn Hk Hx. rewrite !not_elem_of_cons in Hx. unfold adHocEntry.
  rewrite after_opt, inherit_prop, transformation_prop by (rewrite ?not_elem_of_cons; naive_solver). by apply sanitized_option.
Qed.

(** The options with defaults. *)
Lemma adHoc_keepAliveInterval event :
  NoDup (okeys event) ->
  opt (adHocEntry toString validRegex c event) "keepAliveInterval" = coalesce (prop event "keepAliveInterval") (JNum 60).
Proof.
  intros Hn. unfold adHocEntry. rewrite after_opt, inherit_prop by (elem_lit || discriminate). unfold basicEventTransformation.
  skip_writes ltac:(discriminate). etrans; [apply prop_odefault_eq|]. f_equal. skip_writes ltac:(discriminate).
  apply sanitized_option; [done | elem_lit].
Qed.

Lemma adHoc_checkForNextChunk event :
  NoDup (okeys event) ->
  opt (adHocEntry toString validRegex c event) "checkForNextChunk" = coalesce (prop event "checkForNextChunk") (JBool true).
Proof.
  intros Hn. unfold adHocEntry. rewrite after_opt, inherit_prop by (elem_lit || discriminate). unfold basicEventTransformation.
  skip_writes ltac:(discriminate). etrans; [apply prop_odefault_eq|]. f_equal. skip_writes ltac:(discriminate).
  apply sanitized_option; [done | elem_lit].
Qed.

Lemma adHoc_retryAfter event k :
  NoDup (okeys event) -> k ∈ ["retryFailedAfter"; "retryOpenAfter"] ->
  opt (adHocEntry toString validRegex c event) k = coalesce (prop event k) DEFAULT_RETRY_AFTER.
Proof.
  intros Hn Hk. unfold opt, adHocEntry, basicEventTransformationAfterValidate. cbn [re_opts].
  rewrite !elem_of_cons in Hk. destruct Hk as [->|[->|Hk]]; [..|by apply elem_of_nil in Hk].
  all: skip_writes ltac:(discriminate); etrans; [apply prop_odefault_eq|]; f_equal; skip_writes ltac:(discriminate);
    apply sanitized_option; [done | elem_lit].
Qed.

Lemma integer_option_or d v o : integer_option v = Some o -> default d o = integer_or d v.
Proof. destruct v; simpl; try done; by intros [= <-]. Qed.

Lemma required_or d v z : required_integer (coalesce v (JNum d)) = Some z -> z = integer_or d v.
Proof. destruct v; simpl; congruence. Qed.

Lemma mode_default v o :
  mode_option v = Some o -> mode_option (coalesce v (JStr "isolated")) = Some (Some (default isolated o)).
Proof. destruct v; simpl; try congruence; try (by intros [= <-]). destruct (bool_decide _); [by intros [= <-]|].
  repeat (destruct (bool_decide _); [by intros [= <-]|]). done. Qed.

(** C16. What the configuration file says of an ad-hoc event is what its processors work
    with: the attempts, the chunk size, the parallelism (at most ten), the transaction
    mode, the next chunk, the keep-alive and the times to a retry are those of the file,
    or the documented defaults where it leaves them out. *)
Theorem adHoc_settings startTime eventType eventSubType event s :
  NoDup (okeys event) ->
  eventSettings startTime eventType eventSubType (adHocEntry toString validRegex c event) = Some s ->
  retryAttempts s = integer_or 3 (prop event "retryAttempts") /\
  selectMaxChunkSize s = integer_or 100 (prop event "selectMaxChunkSize") /\
  parallelEventProcessing s = Z.min 10 (integer_or 1 (prop event "parallelEventProcessing")) /\
  mode_option (coalesce (prop event "transactionMode") (JStr "isolated")) = Some (Some (transactionMode s)) /\
  ec_checkForNextChunk s = truthy (coalesce (prop event "checkForNextChunk") (JBool true)) /\
  ec_multiInstance s = truthy (prop event "multiInstanceProcessing") /\
  ec_keepAliveInterval s = integer_or 60 (prop event "keepAliveInterval") /\
  ec_retryFailedAfter s = integer_or 300000 (prop event "retryFailedAfter") /\
  ec_retryOpenAfter s = integer_or 300000 (prop event "retryOpenAfter") /\
  ec_isPeriodic s = false.
Proof.
  intros Hn Hs%eventSettings_spec. destruct Hs as [_ _ _ Hper Hpar Hmulti Hretry Hchunk Hnext Hmode Hka _ Hrf Hro _ _ _ _ _ _].
  rewrite adHoc_option in Hpar, Hmulti, Hretry, Hchunk, Hmode by (done || elem_lit). rewrite adHoc_not_periodic in Hper.
  rewrite adHoc_keepAliveInterval in Hka by done. rewrite adHoc_checkForNextChunk in Hnext by done.
  rewrite adHoc_retryAfter in Hrf, Hro by (done || elem_lit).
  unfold retryAttempts, selectMaxChunkSize, parallelEventProcessing, transactionMode. rewrite Hper. simpl.
  rewrite (integer_option_or _ _ _ Hretry), (integer_option_or _ _ _ Hchunk), (integer_option_or _ _ _ Hpar).
  split_and!; try done; [| by apply mode_default | by apply required_or ..].
  unfold LIMIT_PARALLEL_EVENT_PROCESSING, DEFAULT_PARALLEL_EVENT_PROCESSING. destruct (Z.ltb_spec 10 (integer_or 1 (prop event "parallelEventProcessing"))); lia.
Qed.

(** An option of a periodic event that is registered as it is. *)
Lemma periodic_option event k :
  NoDup (okeys event) ->
  k ∉ ["propagateHeaders"; "propagateContextProperties"; "retryFailedAfter"; "retryOpenAfter"; "utc"; "useCronTimezone"; "tz"; "load";
       "priority"; "increasePriorityOverTime"; "keepAliveInterval"; "keepAliveMaxInProgressTime"; "checkForNextChunk"; "namespace";
       "isPeriodic"; "type"] ->
  opt (periodicEntry toString validRegex c event) k =
    if decide (k ∈ ALLOWED_EVENT_OPTIONS_PERIODIC_EVENT) then prop event k else JUndef.
Proof.
  intros Hn Hx. rewrite !not_elem_of_cons in Hx. unfold periodicEntry. cbv zeta.
  rewrite after_opt, tz_prop, transformation_prop by (rewrite ?not_elem_of_cons; naive_solver). unfold periodicBase.
  rewrite !prop_oset_ne by naive_solver. unfold prop, sanitizeParamsPeriodicEventEvent. rewrite oget_sanitize by done.
  by case_decide.
Qed.

(** A periodic event has one attempt per tick and runs in the interval, or by the cron
    expression, of the file; the option [lastSuccessfulRunTimestamp] does not get
    through. *)
Theorem periodic_settings startTime eventType eventSubType event s :
  NoDup (okeys event) ->
  eventSettings startTime eventType eventSubType (periodicEntry toString validRegex c event) = Some s ->
  ec_isPeriodic s = true /\ retryAttempts s = 1 /\
  integer_option (prop event "interval") = Some (ec_interval s) /\
  text_option (prop event "cron") = Some (ec_cron s) /\
  integer_option (prop event "randomOffset") = Some (ec_randomOffset s) /\
  ec_multiInstance s = false /\ ec_lastSuccessfulRunTimestamp s = false.
Proof.
  intros Hn Hs%eventSettings_spec. destruct Hs as [_ _ _ Hper _ Hmulti _ _ _ _ _ _ _ _ Hint Hcron _ Hoff Hlast _].
  rewrite periodic_periodic in Hper. rewrite periodic_option in Hmulti, Hint, Hcron, Hoff, Hlast by (done || elem_lit).
  rewrite decide_False in Hmulti by elem_lit. rewrite decide_False in Hlast by elem_lit.
  rewrite decide_True in Hint by elem_lit. rewrite decide_True in Hcron by elem_lit. rewrite decide_True in Hoff by elem_lit.
  unfold retryAttempts. by rewrite Hper.
Qed.
End settings.

(** ** Witnesses *)

Definition demoSettings : eventConfig :=
  mkEventConfig "Mail" "send" "default" false None false None None true None 60 (210, 1) 300000 300000 None None None None false 0.

(** An event that is configured with its type, sub type and implementation only. *)
Example default_settings :
  eventSettings 0 "Mail" "send" (adHocEntry demoCfgString demoValidRegex demoCfg demoAdHoc) = Some demoSettings.
Proof. vm_compute. reflexivity. Qed.

Example demo_lock_expiry : round_ms (keepAliveMaxMs demoSettings) = 210000.
Proof. vm_compute. reflexivity. Qed.

Lemma adHoc_settings_witness :
  retryAttempts demoSettings = 3 /\ selectMaxChunkSize demoSettings = 100 /\ ec_retryFailedAfter demoSettings = 300000.
Proof.
  destruct (adHoc_settings demoCfgString demoValidRegex demoCfg 0 "Mail" "send" demoAdHoc demoSettings)
    as (R & C & _ & _ & _ & _ & _ & F & _).
  - elem_lit.
  - vm_compute. reflexivity.
  - split; [exact R | split; [exact C | exact F]].
Defined.
