(* ===== verification/OpenEvents.v ===== *)
(** * Combinations with open events ([runner/openEvents.js])

    The query of a run: the combinations of type, sub type and namespace that have events
    to process, with their number.  The database is the class [EventTable]; connecting to
    a CAP service is a parameter. *)

From S2P Require Import Prelude Js Errors Config Common Scheduling Database Processor Selection.

Local Open Scope Z_scope.

Definition MS_IN_DAYS : Z := 24 * 60 * 60 * 1000.

Record openEntry := mkOpenEntry {
  oe_namespace : string;
  oe_type : string;
  oe_subType : string;
  oe_count : Z }.

(** A row belongs to an entry. *)
Definition of_entry (x : openEntry) (e : event) : bool :=
  bool_decide (ev_type e = oe_type x) && bool_decide (ev_subType e = oe_subType x) &&
  bool_decide (ev_namespace e = oe_namespace x).

(** [count(ID) ... GROUP BY type, subType, namespace], in the order of the first rows. *)
Fixpoint count_row (e : event) (l : list openEntry) : list openEntry :=
  match l with
  | [] => [mkOpenEntry (ev_namespace e) (ev_type e) (ev_subType e) 1]
  | x :: r => if of_entry x e then mkOpenEntry (oe_namespace x) (oe_type x) (oe_subType x) (oe_count x + 1) :: r
              else x :: count_row e r
  end.

Definition group_rows (rows : list event) : list openEntry := fold_left (fun l e => count_row e l) rows [].

Section open.
Context {D : Type} {ET : EventTable D}.
Context (toString : jsval -> string) (cronParses : jsval -> bool) (validRegex : string -> string -> bool)
  (regexTest : string -> string -> Z -> string -> bool * Z) (cds : cdsEnv).
Context (runInterval globalTxTimeout : Z).

(** [column <= t] and [column >= t]; a comparison with [NULL] is not true. *)
Definition until (t : Z) (v : option Z) : bool := match v with Some x => x <=? t | None => false end.
Definition since (t : Z) (v : option Z) : bool := match v with Some x => t <=? x | None => false end.

(** The [WHERE] clause. *)
Definition open_row (namespaces : list string) (startTime : Z) (e : event) : bool :=
  bool_decide (ev_namespace e ∈ namespaces) &&
  (bool_decide (ev_startAfter e = None) || until (refDateStartAfter runInterval startTime) (ev_startAfter e)) &&
  (has_status Open e || has_status Error e ||
   (has_status InProgress e && until (startTime - globalTxTimeout) (ev_lastAttempt e))) &&
  ((startTime - 30 * MS_IN_DAYS <=? ev_createdAt e) || since (startTime - 30 * MS_IN_DAYS) (ev_startAfter e)).

(** [cds.connect.to(srvName)]: the options of the service, [None] when there is none, or
    what is thrown. *)
Context (connect : option string -> result jsval (option jsval)).

(** The body of the [try] for an event of a CAP service: the configuration afterwards and
    whether the entry is taken; what is thrown is ignored. *)
Definition takeCapEntry (x : openEntry) (c : Config) (last : obj Z) : Config * obj Z * bool :=
  let n := normalizeSubType cds (oe_type x) (oe_subType x) in
  let decide_ (c : Config) :=
    match shouldBeProcessedInThisApplication toString cds regexTest c (oe_type x) (oe_subType x) (JStr (oe_namespace x)) last with
    | Ok (b, last) => (c, last, b)
    | Err _ => (c, last, false)
    end in
  match getEventConfig toString c (JStr (oe_type x)) (JStr (oe_subType x)) (JStr (oe_namespace x)) with
  | Some _ => decide_ c
  | None =>
    match connect (n_srvName n) with
    | Err _ => (c, last, false)
    | Ok None => (c, last, false)
    | Ok (Some options) =>
      match n_actionName n with
      | Some (String _ _) => (c, last, false)
      | _ =>
        match addCAPServiceWithoutEnvConfig toString cronParses validRegex cds (oe_subType x) options [] c with
        | (c, None) => decide_ c
        | (c, Some _) => (c, last, false)
        end
      end
    end
  end.

(** One entry of the loop; an exception outside of the [try] ends the function. *)
Definition takeEntry (filterAppSpecificEvents : bool) (x : openEntry) (c : Config) (last : obj Z)
    : throws (Config * obj Z * bool) :=
  if negb filterAppSpecificEvents then Ok (c, last, true)
  else if isCapOutboxEvent (oe_type x) then Ok (takeCapEntry x c last)
  else
    match getEventConfig toString c (JStr (oe_type x)) (JStr (oe_subType x)) (JStr (oe_namespace x)) with
    | None => Ok (c, last, false)
    | Some _ =>
      match shouldBeProcessedInThisApplication toString cds regexTest c (oe_type x) (oe_subType x) (JStr (oe_namespace x)) last with
      | Ok (b, last) => Ok (c, last, b)
      | Err e => Err e
      end
    end.

Fixpoint takeEntries (filterAppSpecificEvents : bool) (l : list openEntry) (c : Config) (last : obj Z)
    : throws (Config * obj Z * list openEntry) :=
  match l with
  | [] => Ok (c, last, [])
  | x :: r =>
    match takeEntry filterAppSpecificEvents x c last with
    | Err e => Err e
    | Ok (c, last, b) =>
      match takeEntries filterAppSpecificEvents r c last with
      | Err e => Err e
      | Ok (c, last, rest) => Ok (c, last, if b then x :: rest else rest)
      end
    end
  end.

(** [getOpenQueueEntries(tx, filterAppSpecificEvents)] *)
Definition getOpenQueueEntries (filterAppSpecificEvents : bool) (startTime : Z) (c : Config) (last : obj Z) (d : D)
    : throws (Config * obj Z * list openEntry) :=
  takeEntries filterAppSpecificEvents
    (group_rows (select_rows (open_row (cfg_processingNamespaces c) startTime) None d)) c last.
End open.

(** ** Grouping *)

Definition same_combination (x y : openEntry) : Prop :=
  oe_namespace x = oe_namespace y /\ oe_type x = oe_type y /\ oe_subType x = oe_subType y.

Definition counted (x : openEntry) (rows : list event) : Z := Z.of_nat (length (List.filter (of_entry x) rows)).

Lemma of_entry_true x e :
  of_entry x e = true <-> ev_type e = oe_type x /\ ev_subType e = oe_subType x /\ ev_namespace e = oe_namespace x.
Proof. unfold of_entry. rewrite !andb_true_iff, !bool_decide_eq_true. tauto. Qed.

Lemma counted_app x l1 l2 : counted x (l1 ++ l2) = counted x l1 + counted x l2.
Proof. unfold counted. rewrite List.filter_app, length_app. lia. Qed.

Lemma counted_same x y rows : same_combination x y -> counted x rows = counted y rows.
Proof. intros (E1 & E2 & E3). unfold counted, of_entry. by rewrite E1, E2, E3. Qed.

Definition combination_of (x : openEntry) : string * string * string := (oe_namespace x, oe_type x, oe_subType x).

(** The groups of a list of rows: distinct combinations, each with its number of rows, and
    every row is in one. *)
Record grouped (rows : list event) (l : list openEntry) : Prop := {
  gr_distinct : NoDup (combination_of <$> l);
  gr_count : Forall (fun x => oe_count x = counted x rows /\ 0 < oe_count x) l;
  gr_complete : forall e, e ∈ rows -> exists x, x ∈ l /\ of_entry x e = true }.

Lemma of_entry_combination x y e : of_entry x e = true -> of_entry y e = true -> combination_of x = combination_of y.
Proof. rewrite !of_entry_true. unfold combination_of. intros (?&?&?) (?&?&?). congruence. Qed.

Lemma of_entry_same x y e : combination_of x = combination_of y -> of_entry x e = of_entry y e.
Proof. unfold combination_of, of_entry. intros [= -> -> ->]. done. Qed.

Lemma counted_one x e rows : counted x (rows ++ [e]) = counted x rows + if of_entry x e then 1 else 0.
Proof. rewrite counted_app. f_equal. unfold counted. simpl. by destruct (of_entry x e). Qed.

Lemma count_row_combinations e l :
  combination_of <$> count_row e l =
    if existsb (fun x => of_entry x e) l then combination_of <$> l
    else (combination_of <$> l) ++ [(ev_namespace e, ev_type e, ev_subType e)].
Proof.
  induction l as [|x l IH]; csimpl; [done|]. destruct (of_entry x e); csimpl; [done|]. rewrite IH.
  by destruct (existsb _ l).
Qed.

Lemma count_row_counts rows e l :
  NoDup (combination_of <$> l) -> Forall (fun x => oe_count x = counted x rows /\ 0 < oe_count x) l ->
  (Forall (fun x => of_entry x e = false) l -> forall y, of_entry y e = true -> counted y rows = 0) ->
  Forall (fun x => oe_count x = counted x (rows ++ [e]) /\ 0 < oe_count x) (count_row e l).
Proof.
  induction l as [|x l IH]; csimpl; intros Hn Hc Hz.
  - repeat constructor; simpl. rewrite counted_one. rewrite (Hz (List.Forall_nil _)); unfold of_entry; simpl;
      by rewrite !bool_decide_eq_true_2.
  - apply NoDup_cons in Hn as [Hx Hn]. apply Forall_cons in Hc as [[C1 C2] Hc].
    destruct (of_entry x e) eqn:E; constructor.
    + set (x' := mkOpenEntry _ _ _ _). simpl. assert (Es : combination_of x' = combination_of x) by done.
      rewrite counted_one, (of_entry_same _ _ e Es), E. unfold counted in *.
      rewrite (filter_ext (of_entry x') (of_entry x)) by (intros ?; by apply of_entry_same). simpl. lia.
    + rewrite Forall_forall in Hc |- *. intros y Hy. destruct (Hc y Hy) as [D1 D2]. rewrite counted_one.
      destruct (of_entry y e) eqn:Ey; [|split; lia]. exfalso. apply Hx. rewrite (of_entry_combination _ _ _ E Ey).
      apply list_elem_of_fmap. by exists y.
    + rewrite counted_one, E. split; lia.
    + apply IH; [done | done |]. intros Hf. apply Hz. by constructor.
Qed.

Lemma count_row_grouped rows e l : grouped rows l -> grouped (rows ++ [e]) (count_row e l).
Proof.
  intros [G1 G2 G3]. split.
  - rewrite count_row_combinations. destruct (existsb _ l) eqn:X; [done|].
    apply NoDup_app. split_and!; [done| |apply NoDup_singleton]. intros k Hk ->%list_elem_of_singleton.
    apply list_elem_of_fmap in Hk as (x & E & Hx). assert (T : existsb (fun x => of_entry x e) l = true); [|congruence].
    apply existsb_exists. exists x. split; [by apply list_elem_of_In|]. apply of_entry_true. injection E as -> -> ->. done.
  - apply count_row_counts; [done | done |]. intros Hf y Hy. unfold counted.
    destruct (List.filter (of_entry y) rows) as [|e' r] eqn:F; [done|]. exfalso.
    assert (He' : e' ∈ List.filter (of_entry y) rows) by (rewrite F; left).
    apply list_elem_of_In, filter_In in He' as [He' Hy']. destruct (G3 e') as (x & Hx & Ex); [by apply list_elem_of_In|].
    rewrite Forall_forall in Hf. specialize (Hf x Hx).
    rewrite (of_entry_same x y e (of_entry_combination _ _ _ Ex Hy')) in Hf. congruence.
  - assert (K : forall x, x ∈ l -> exists y, y ∈ count_row e l /\ combination_of y = combination_of x).
    { intros x Hx. assert (Hin : combination_of x ∈ combination_of <$> count_row e l).
      { rewrite count_row_combinations. assert (combination_of x ∈ combination_of <$> l) by (apply list_elem_of_fmap; eauto).
        destruct (existsb _ l); [done | apply elem_of_app; by left]. }
      apply list_elem_of_fmap in Hin as (y & -> & Hy). by exists y. }
    intros e' [He'|He'%list_elem_of_singleton]%elem_of_app.
    + destruct (G3 e' He') as (x & Hx & Ex). destruct (K x Hx) as (y & Hy & Ey). exists y. split; [done|].
      by rewrite (of_entry_same y x).
    + subst e'. clear -e. induction l as [|x l (y & Hy & Ey)]; simpl.
      * eexists. split; [left|]. by apply of_entry_true.
      * destruct (of_entry x e) eqn:E; [|exists y; split; [by right | done]].
        eexists. split; [left|]. apply of_entry_true in E. by apply of_entry_true.
Qed.

Lemma group_rows_grouped rows : grouped rows (group_rows rows).
Proof.
  unfold group_rows. cut (forall r2 r1 l, grouped r1 l -> grouped (r1 ++ r2) (fold_left (fun l e => count_row e l) r2 l)).
  { intros C. apply (C rows [] []). split; [apply NoDup_nil_2 | constructor | by intros e ?%elem_of_nil]. }
  induction r2 as [|e r2 IH]; intros r1 l G; [by rewrite app_nil_r|]. simpl.
  rewrite cons_middle, app_assoc. by apply IH, count_row_grouped.
Qed.

Section coverage.
Context {D : Type} {ET : EventTable D} {EL : EventTableLaws D}.
Context (toString : jsval -> string) (cronParses : jsval -> bool) (validRegex : string -> string -> bool)
  (regexTest : string -> string -> Z -> string -> bool * Z) (cds : cdsEnv)
  (connect : option string -> result jsval (option jsval)).
Context (runInterval globalTxTimeout : Z).

Abbreviation open_entries :=
  (getOpenQueueEntries toString cronParses validRegex regexTest cds runInterval globalTxTimeout connect).

Lemma takeEntries_all l c last :
  takeEntries toString cronParses validRegex regexTest cds connect false l c last = Ok (c, last, l).
Proof. induction l as [|x l IH]; simpl; [done|]. by rewrite IH. Qed.

(** A row the processor would select now satisfies the query of the run. *)
Lemma selectable_open cfg delayed now namespaces e :
  selectable cfg runInterval now delayed e = true -> ev_namespace e ∈ namespaces ->
  now - 30 * MS_IN_DAYS <= ev_createdAt e \/ since (now - 30 * MS_IN_DAYS) (ev_startAfter e) = true ->
  (has_status InProgress e = true -> until (now - globalTxTimeout) (ev_lastAttempt e) = true) ->
  open_row runInterval globalTxTimeout namespaces now e = true.
Proof.
  intros Hsel Hn Ha Hp. unfold selectable in Hsel. apply andb_true_iff in Hsel as [Hsel _].
  apply andb_true_iff in Hsel as [Hsel Hst]. apply andb_true_iff in Hsel as [_ Hs].
  unfold open_row. rewrite !andb_true_iff. split_and!.
  - by apply bool_decide_eq_true_2.
  - destruct (ev_startAfter e); [exact Hs | done].
  - rewrite !orb_true_iff in Hst |- *. destruct Hst as [[Hst|Hst]|Hst].
    + apply andb_true_iff in Hst as [Hst _]. by do 2 left.
    + rewrite !andb_true_iff in Hst. destruct Hst as [[_ Hst] _]. by left; right.
    + apply andb_true_iff in Hst as [Hst _]. right. by rewrite Hst, Hp.
  - apply orb_true_iff. destruct Ha; [left; by apply Z.leb_le | by right].
Qed.

(** A run misses no due event: every event of a processed namespace that its processor
    would select at the time of the run is in an entry of the query, whose count is the
    number of open events of its combination.  Events that are created and planned more
    than thirty days ago are left out, and events in progress count only when their last
    attempt is older than the transaction timeout. *)
Theorem due_events_reported cfg delayed now c last (d : D) id e :
  row id d = Some e -> selectable cfg runInterval now delayed e = true -> ev_namespace e ∈ cfg_processingNamespaces c ->
  now - 30 * MS_IN_DAYS <= ev_createdAt e \/ since (now - 30 * MS_IN_DAYS) (ev_startAfter e) = true ->
  (has_status InProgress e = true -> until (now - globalTxTimeout) (ev_lastAttempt e) = true) ->
  exists l x, open_entries false now c last d = Ok (c, last, l) /\ x ∈ l /\ of_entry x e = true /\ 0 < oe_count x /\
    oe_count x = counted x (select_rows (open_row runInterval globalTxTimeout (cfg_processingNamespaces c) now) None d).
Proof.
  intros Hr Hsel Hn Ha Hp. unfold getOpenQueueEntries. rewrite takeEntries_all.
  set (rows := select_rows _ None d). destruct (group_rows_grouped rows) as [_ G2 G3].
  assert (He : e ∈ rows).
  { unfold rows. destruct (select_complete (open_row runInterval globalTxTimeout (cfg_processingNamespaces c) now) None d id e Hr)
      as [He|(m & Hm & _)]; [by eapply selectable_open | done | discriminate]. }
  destruct (G3 e He) as (x & Hx & Ex). exists (group_rows rows), x. rewrite Forall_forall in G2.
  destruct (G2 x Hx). done.
Qed.
End coverage.

(** ** Witnesses *)

Definition demoOpenRows : memRows :=
  {[ "a" := demoRow "a" 0 0 5; "b" := demoRow "b" 3 1 6; "c" := demoRow "c" 2 1 7 ]}.

Definition demoConnect (s : option string) : result jsval (option jsval) := Ok None.

Lemma due_events_reported_witness :
  exists l x,
    getOpenQueueEntries demoCfgString demoCronParses demoValidRegex demoRegexTest demoCds 1500000 1800000 demoConnect
      false 2000 demoCfg [] demoOpenRows = Ok (demoCfg, [], l) /\
    x ∈ l /\ of_entry x (demoRow "a" 0 0 5) = true /\ 0 < oe_count x /\
    oe_count x = counted x (select_rows (open_row 1500000 1800000 (cfg_processingNamespaces demoCfg) 2000) None demoOpenRows).
Proof.
  apply (due_events_reported demoCfgString demoCronParses demoValidRegex demoRegexTest demoCds demoConnect 1500000 1800000
    (demoEventConfig isolated) [] 2000 demoCfg [] demoOpenRows "a" (demoRow "a" 0 0 5)).
  - vm_compute. reflexivity.
  - vm_compute. reflexivity.
  - left.
  - left. vm_compute. discriminate.
  - discriminate.
Defined.

(** The entries of the example: one combination with two open events. *)
Lemma open_entries_example :
  getOpenQueueEntries demoCfgString demoCronParses demoValidRegex demoRegexTest demoCds 1500000 1800000 demoConnect
    false 2000 demoCfg [] demoOpenRows = Ok (demoCfg, [], [mkOpenEntry "default" "Mail" "send" 2]).
Proof. vm_compute. reflexivity. Qed.

(** An event in progress whose processor died is selected again by a processor after the
    keep-alive limit, but a run reports it only after the transaction timeout. *)
Lemma stuck_event_reported_late :
  let e := with_lastAttempt (Some 0) (demoRow "a" 1 1 5) in
  selectable (demoEventConfig isolated) 1500000 1000000 [] e = true /\
  open_row 1500000 1800000 ["default"] 1000000 e = false.
Proof. split; vm_compute; reflexivity. Qed.
