(* ===== verification/RunnerStart.v ===== *)
(** * Start of the runner ([runner/runner.js])

    The first half of the runner: the offset of the first run, on which the instances of
    an application agree through Redis, and the function that the interval drives, which
    executes a single run before the periodic ones. *)

From S2P Require Import Prelude Js Scheduling DistributedLock.

Local Open Scope Z_scope.

Definition EVENT_QUEUE_RUN_ID : string := "RUN_ID".
Definition EVENT_QUEUE_RUN_TS : string := "RUN_TS".
Definition EVENT_QUEUE_RUN_REDIS_CHECK : string := "RUN_REDIS_CHECK".
Definition EVENT_QUEUE_UPDATE_PERIODIC_EVENTS : string := "UPDATE_PERIODIC_EVENTS".

Section first_run.
Context {R D : Type} `{RedisClient R} `{LockTable D}.
Context (cfg : lockConfig) (toISOString : Z -> string) (dateParse : string -> option Z).
Context (OFFSET_FIRST_RUN : option Z) (developmentMode : bool) (runInterval : Z).

(** The calls of the lock module that a function awaits, numbered: the time of the call,
    what the other instances did to the shared state before it, and whether it throws. *)
Record calls := mkCalls {
  c_at : nat -> Z;
  c_others : nat -> lstate R D -> lstate R D;
  c_fails : nat -> bool }.

(** [new Date(lastRunTs).getTime() + runInterval - now]; [null] is the time 0, and
    [None] is [NaN]. *)
Definition offsetFrom (lastRunTs : option string) (now : Z) : option Z :=
  (fun t => t + runInterval - now) <$> match lastRunTs with None => Some 0 | Some x => dateParse x end.

(** [_calculateOffsetForFirstRun()] *)
Definition _calculateOffsetForFirstRun (now : Z) (c : calls) (s : lstate R D) : lstate R D * option Z :=
  let offsetDependingOnLastRun := default (if developmentMode then 500 else 10 * 1000) OFFSET_FIRST_RUN in
  if negb (lc_redisEnabled cfg) then (s, Some offsetDependingOnLastRun)
  else
    let s := c_others c 0 s in
    if c_fails c 0 then (s, Some offsetDependingOnLastRun)
    else
      match getValue cfg (c_at c 0) None EVENT_QUEUE_RUN_TS false s with
      | Some (String _ _) as lastRunTs => (s, offsetFrom lastRunTs now)
      | _ =>
        let s := c_others c 1 s in
        if c_fails c 1 then (s, Some offsetDependingOnLastRun)
        else
          let ts := toISOString now in
          let '(s, couldSetValue) :=
            setValueWithExpire cfg (c_at c 1) None EVENT_QUEUE_RUN_TS ts false (runInterval, 1) false false s in
          if couldSetValue then (s, offsetFrom (Some ts) now)
          else
            let s := c_others c 2 s in
            if c_fails c 2 then (s, Some offsetDependingOnLastRun)
            else (s, offsetFrom (getValue cfg (c_at c 2) None EVENT_QUEUE_RUN_TS false s) now)
      end.

(** [_acquireRunId(context)] for the random id [runId]; [t] is the time of the calls,
    [iso] the time that is stored. *)
Definition _acquireRunId (runId : string) (t iso : Z) (tenant : option string) (s : lstate R D)
    : lstate R D * option string :=
  let '(s, couldSetValue) :=
    setValueWithExpire cfg t tenant EVENT_QUEUE_RUN_ID runId false (runInterval * 95, 100) false false s in
  if couldSetValue then
    ((setValueWithExpire cfg t tenant EVENT_QUEUE_RUN_TS (toISOString iso) false (runInterval, 1) true false s).1, Some runId)
  else (s, getValue cfg t tenant EVENT_QUEUE_RUN_ID false s).
End first_run.
Arguments calls : clear implicits.

(** ** The function of the interval *)

(** The module variable [singleRunDone] and what is under way: the pending calls of the
    single run, the pending first calls of the periodic function that are chained to it,
    and how often either function has been called. *)
Record runner := mkRunner {
  singleRunDone : bool;
  singlePending : nat;
  firstPending : nat;
  singleCalls : nat;
  periodicCalls : nat }.

(** [fnWithRunningCheck()] *)
Definition fnWithRunningCheck (isEventQueueActive : bool) (s : runner) : runner :=
  if negb isEventQueueActive then s
  else if negb (singleRunDone s)
  then mkRunner true (S (singlePending s)) (firstPending s) (S (singleCalls s)) (periodicCalls s)
  else mkRunner (singleRunDone s) (singlePending s) (firstPending s) (singleCalls s) (S (periodicCalls s)).

(** The promise of [singleRunFn()] settles: [then(periodicFn)], or the [catch]. *)
Definition singleSettled (fulfilled : bool) (s : runner) : runner :=
  match singlePending s with
  | O => s
  | S n => if fulfilled then mkRunner (singleRunDone s) n (S (firstPending s)) (singleCalls s) (S (periodicCalls s))
           else mkRunner false n (firstPending s) (singleCalls s) (periodicCalls s)
  end.

(** The promise of the chained [periodicFn()] settles; the [catch] covers it too. *)
Definition firstSettled (fulfilled : bool) (s : runner) : runner :=
  match firstPending s with
  | O => s
  | S n => mkRunner (if fulfilled then singleRunDone s else false) (singlePending s) n (singleCalls s) (periodicCalls s)
  end.

Inductive runner_op : Type :=
| Tick (isEventQueueActive : bool)
| SingleSettled (fulfilled : bool)
| FirstSettled (fulfilled : bool).

Definition runner_step (o : runner_op) (s : runner) : runner :=
  match o with
  | Tick a => fnWithRunningCheck a s
  | SingleSettled f => singleSettled f s
  | FirstSettled f => firstSettled f s
  end.

Definition runner_init : runner := mkRunner false 0 0 0 0.

(** What [_scheduleFunction] leaves: nothing, or the delay of the first timer; what it
    throws when the offset is not a number, where [toISOString] of the log entry fails. *)
Definition _scheduleFunction (allEvents : list string) (offsetDependingOnLastRun : option Z) : result jsval (option Z) :=
  match allEvents with
  | [] => Ok None
  | _ =>
    match offsetDependingOnLastRun with
    | None => Err (RangeError "Invalid time value")
    | Some o => Ok (Some (timeout_delay o))
    end
  end.

(** The callback of the first timer: a run, and the interval from then on. *)
Definition firstTimer (now runInterval : Z) (isEventQueueActive : bool) (s : runner) : runner * Drift.t :=
  (fnWithRunningCheck isEventQueueActive s, Drift.run now (Drift.new runInterval)).

(** ** Alignment of the first runs *)

Section alignment.
Context {R D : Type} `{RedisLaws R} `{LockTable D}.
Context (cfg : lockConfig) (toISOString : Z -> string) (dateParse : string -> option Z).
Context (OFFSET_FIRST_RUN : option Z) (developmentMode : bool) (runInterval : Z).

Abbreviation calculate := (_calculateOffsetForFirstRun cfg toISOString dateParse OFFSET_FIRST_RUN developmentMode runInterval).

(** Undisturbed calls at one time. *)
Definition calm (t : Z) : calls R D := mkCalls (fun _ => t) (fun _ s => s) (fun _ => false).

(** Instances start one after the other; the times of their first runs. *)
Fixpoint boot (times : list Z) (s : lstate R D) : list (option Z) :=
  match times with
  | [] => []
  | t :: r => let '(s, o) := calculate t (calm t) s in (Z.add t <$> o) :: boot r s
  end.

Definition runKey : string := generateKey cfg None false EVENT_QUEUE_RUN_TS false.

Context (Hredis : lc_redisEnabled cfg = true) (Hrun : 0 < runInterval).

(** The times [toISOString] is defined on; [new Date] reads back what it writes. *)
Context (valid : Z -> Prop).
Context (Hiso : forall t, valid t -> toISOString t <> EmptyString) (Hparse : forall t, valid t -> dateParse (toISOString t) = Some t).

(** From [c] on, the time stamp of the window that ends at [w] is stored. *)
Definition window (c w : Z) (s : lstate R D) : Prop :=
  (c < w -> valid (w - runInterval)) /\ forall t, c <= t -> r_get t runKey (ls_redis s) = if t <? w then Some (toISOString (w - runInterval)) else None.

Lemma round_interval : round_ms (runInterval, 1) = runInterval.
Proof. unfold round_ms, math_round_div. simpl. Z.to_euclidean_division_equations. lia. Qed.

Lemma offsetFrom_iso T now :
  valid T -> offsetFrom dateParse runInterval (Some (toISOString T)) now = Some (T + runInterval - now).
Proof. intros Hv. unfold offsetFrom. by rewrite Hparse. Qed.

(** An instance that starts within a window joins it; one that starts later opens the
    next. *)
Lemma calculate_window c w t s :
  c <= t -> valid t -> window c w s ->
  let w' := if t <? w then w else t + runInterval in
  (calculate t (calm t) s).2 = Some (w' - t) /\ window t w' (calculate t (calm t) s).1.
Proof.
  intros Hc Hv [Hold Hw] w'. unfold _calculateOffsetForFirstRun, getValue, setValueWithExpire. rewrite Hredis. simpl.
  unfold getLockValueRedis. fold runKey. rewrite Hw by done. subst w'. destruct (t <? w) eqn:E.
  - assert (Hvw : valid (w - runInterval)) by (apply Hold; zbool; lia).
    destruct (toISOString (w - runInterval)) eqn:I; [by apply Hiso in I|]. rewrite <- I, offsetFrom_iso by done. simpl.
    split; [f_equal; lia|]. split; [done|]. intros t' Ht'. rewrite I. apply Hw. lia.
  - unfold acquireLockRedis. rewrite round_interval. fold runKey. simpl.
    pose proof (r_set_ok t runKey (toISOString t) runInterval SetNX (ls_redis s) Hrun) as Hok.
    pose proof (fun t' => r_set_get t runKey (toISOString t) runInterval SetNX (ls_redis s) t' runKey Hrun) as Hget.
    destruct (r_set _ _ _ _ _ _) as [r ok]. simpl in Hok, Hget.
    rewrite Hw, E in Hok, Hget by done. simpl in Hok, Hget. subst ok. cbn [fst snd]. rewrite offsetFrom_iso by done.
    split; [f_equal; lia|]. unfold window. replace (t + runInterval - runInterval) with t by lia.
    split; [done|]. intros t' Ht'. cbn [ls_redis fst]. rewrite Hget, decide_True by (done || lia). done.
Qed.

(** The ends of the windows of successive starts. *)
Fixpoint window_ends (w : Z) (times : list Z) : list Z :=
  match times with
  | [] => []
  | t :: r => let w := if t <? w then w else t + runInterval in w :: window_ends w r
  end.

Lemma boot_windows times c w s :
  Sorted Z.le (c :: times) -> Forall valid times -> window c w s -> boot times s = map Some (window_ends w times).
Proof.
  revert c w s. induction times as [|t r IH]; intros c w s Hs Hv Hw; [done|].
  apply Sorted_inv in Hs as [Hs Hd]. apply HdRel_inv in Hd. apply Forall_cons in Hv as [Ht Hv].
  destruct (calculate_window c w t s Hd Ht Hw) as [E W]. simpl.
  destruct (calculate t (calm t) s) as [s' o]. simpl in E, W. subst o. cbn [map fmap option_fmap option_map].
  rewrite (IH t _ s' Hs Hv W). f_equal. f_equal. lia.
Qed.

Lemma sorted_first t0 r j t : Sorted Z.le (t0 :: r) -> (t0 :: r) !! j = Some t -> t0 <= t.
Proof.
  revert t0 j. induction r as [|t1 r IH]; intros t0 [|j] Hs Ht; simpl in Ht; simplify_eq; try lia.
  apply Sorted_inv in Hs as [Hs Hd]. apply HdRel_inv in Hd. specialize (IH t1 j Hs Ht). lia.
Qed.

Lemma window_ends_later w times j t f :
  Sorted Z.le times -> times !! j = Some t -> window_ends w times !! j = Some f ->
  (f = w <-> t < w) /\ (t < f <= t + runInterval \/ t < w /\ f = w).
Proof.
  revert w j. induction times as [|t0 r IH]; intros w j Hs Ht Hf; [done|].
  destruct j as [|j]; simpl in Ht, Hf.
  - injection Ht as ->. injection Hf as <-. destruct (t <? w) eqn:E; zbool; split; lia.
  - assert (t0 <= t) by (by apply (sorted_first t0 r (S j))). apply Sorted_inv in Hs as [Hs _].
    specialize (IH _ j Hs Ht Hf). destruct (t0 <? w) eqn:E; zbool; [done|]. destruct IH as [IH1 IH2]. split; lia.
Qed.

Lemma window_ends_aligned w times i j t t' f f' :
  Sorted Z.le times -> (i <= j)%nat ->
  times !! i = Some t -> window_ends w times !! i = Some f ->
  times !! j = Some t' -> window_ends w times !! j = Some f' ->
  f' = f <-> t' < f.
Proof.
  revert w i j. induction times as [|t0 r IH]; intros w i j Hs Hij Ht Hf Ht' Hf'; [done|].
  pose proof Hs as [Hs' _]%Sorted_inv.
  destruct i as [|i], j as [|j]; simpl in Ht, Hf, Ht', Hf'; [| |lia|].
  - simplify_eq. destruct (t <? w) eqn:E; zbool; lia.
  - injection Hf as Hf. rewrite Hf in Hf'. apply (window_ends_later f r j t' f' Hs' Ht' Hf').
  - eapply (IH _ i j); eauto. lia.
Qed.

(** With Redis the instances of an application agree on their first run: every one
    runs after its start and within one interval, an instance that starts before the
    first run of another joins it, and one that starts later opens a new window. *)
Theorem first_runs_aligned times s :
  Sorted Z.le times -> Forall valid times ->
  (forall t, r_get t runKey (ls_redis s) = None) ->
  exists runs, boot times s = map Some runs /\
    forall i t f, times !! i = Some t -> runs !! i = Some f ->
      t < f <= t + runInterval /\
      forall j t' f', (i <= j)%nat -> times !! j = Some t' -> runs !! j = Some f' -> f' = f <-> t' < f.
Proof.
  intros Hs Hv Hfree. destruct times as [|t0 r].
  { exists []. done. }
  assert (W : window t0 t0 s).
  { split; [lia|]. intros t Ht. rewrite Hfree. by rewrite (proj2 (Z.ltb_ge t t0)) by lia. }
  exists (window_ends t0 (t0 :: r)). split.
  { apply (boot_windows _ t0 t0 s); [|done|done]. constructor; [done|]. constructor. lia. }
  intros i t f Ht Hf. split.
  - destruct (window_ends_later t0 (t0 :: r) i t f Hs Ht Hf) as [_ [?|[? ?]]]; [done|].
    pose proof (sorted_first t0 r i t Hs Ht). lia.
  - intros j t' f' Hij Ht' Hf'. by apply (window_ends_aligned t0 (t0 :: r) i j t).
Qed.

(** An instance that loses the race for the key takes the winner's time stamp. *)
Lemma lost_race_aligned now c T s :
  valid T ->
  (forall i, c_fails c i = false) ->
  r_get (c_at c 0%nat) runKey (ls_redis (c_others c 0%nat s)) = None ->
  r_get (c_at c 1%nat) runKey (ls_redis (c_others c 1%nat (c_others c 0%nat s))) = Some (toISOString T) ->
  (forall s', r_get (c_at c 1%nat) runKey (ls_redis s') = Some (toISOString T) ->
     r_get (c_at c 2%nat) runKey (ls_redis (c_others c 2%nat s')) = Some (toISOString T)) ->
  (calculate now c s).2 = Some (T + runInterval - now).
Proof.
  intros Hv Hf H2 H3 H4. unfold _calculateOffsetForFirstRun, getValue, setValueWithExpire, getLockValueRedis.
  rewrite Hredis. simpl. fold runKey. rewrite !Hf, H2. unfold acquireLockRedis. rewrite round_interval. simpl. fold runKey.
  set (s1 := c_others c 1%nat _) in *.
  pose proof (r_set_ok (c_at c 1%nat) runKey (toISOString now) runInterval SetNX (ls_redis s1) Hrun) as Hok.
  pose proof (r_set_get (c_at c 1%nat) runKey (toISOString now) runInterval SetNX (ls_redis s1) _ runKey Hrun (Z.le_refl _)) as Hget.
  rewrite H3 in Hok, Hget. simpl in Hok, Hget. destruct (r_set _ _ _ _ _ _) as [r ok]. simpl in Hok, Hget. subst ok.
  simpl. rewrite H4 by done. by apply offsetFrom_iso.
Qed.
End alignment.

(** ** The single run *)

(** At most one chain is under way, only while [singleRunDone] is set; every further call
    of the single run follows a failed chain. *)
Definition runner_inv (s : runner) : Prop :=
  (singlePending s + firstPending s <= 1)%nat /\
  (singleRunDone s = false -> singlePending s + firstPending s = 0)%nat.

Lemma runner_step_inv o s : runner_inv s -> runner_inv (runner_step o s).
Proof.
  intros [I1 I2]. destruct s as [[] sp fp sc pc], o as [[]|[]|[]]; simpl in *; try (specialize (I2 eq_refl));
    unfold runner_inv, fnWithRunningCheck, singleSettled, firstSettled; simpl;
    repeat case_match; simplify_eq/=; split; intros; done || lia.
Qed.

Lemma runner_run_inv ops : runner_inv (run runner_step ops runner_init).
Proof.
  apply (run_invariant runner_step runner_inv (fun _ => True)); [intros; by apply runner_step_inv | | split; simpl; lia].
  by apply List.Forall_forall.
Qed.

(** The failed ends of chains in a sequence of steps. *)
Fixpoint failed_chains (ops : list runner_op) (s : runner) : nat :=
  match ops with
  | [] => 0
  | o :: r =>
    (match o with
     | SingleSettled false => if decide (singlePending s = O) then 0 else 1
     | FirstSettled false => if decide (firstPending s = O) then 0 else 1
     | _ => 0
     end + failed_chains r (runner_step o s))%nat
  end.

Lemma single_calls_count ops s :
  runner_inv s ->
  let s' := run runner_step ops s in
  (singleCalls s' + (if singleRunDone s then 1 else 0) =
   singleCalls s + failed_chains ops s + if singleRunDone s' then 1 else 0)%nat.
Proof.
  revert s. induction ops as [|o ops IH]; intros s I; simpl; [lia|].
  pose proof (runner_step_inv o s I) as I'. specialize (IH _ I'). simpl in IH. unfold run in *. simpl.
  revert IH. generalize (fold_left (fun s i => runner_step i s) ops (runner_step o s)). intros s' IH.
  destruct I as [I1 I2]. destruct s as [d sp fp sc pc], o as [[]|[]|[]]; simpl in *;
    unfold fnWithRunningCheck, singleSettled, firstSettled in *; simpl in *;
    destruct d; simpl in *; repeat case_match; simplify_eq/=; try lia;
    specialize (I2 ltac:(done)); lia.
Qed.

(** However ticks of the interval interleave with the ends of the functions they
    call: the single run and the first periodic run chained to it never overlap with
    another such chain, and the single run is called once more than chains have failed,
    so after a chain without failure never again. *)
Theorem single_run_once ops :
  let s := run runner_step ops runner_init in
  (singlePending s + firstPending s <= 1)%nat /\
  (singleCalls s = failed_chains ops runner_init + if singleRunDone s then 1 else 0)%nat.
Proof.
  simpl. split; [apply runner_run_inv|].
  pose proof (single_calls_count ops runner_init) as E. simpl in E. rewrite <- E; [lia | split; simpl; lia].
Qed.

(** ** Witness *)

(** Three instances start; the third one after the run of the first two. *)
Definition demoIso (t : Z) : string := if t =? 1000 then "t1000" else if t =? 1400 then "t1400" else "t1600".
Definition demoParse (x : string) : option Z :=
  if bool_decide (x = "t1000") then Some 1000 else if bool_decide (x = "t1400") then Some 1400 else Some 1600.

Definition demoValid (t : Z) : Prop := t = 1000 \/ t = 1400 \/ t = 1600.

Lemma first_runs_aligned_witness :
  boot (D := memStore) (demoConfig true) demoIso demoParse None false 500 [1000; 1400; 1600] memInit =
    [Some 1500; Some 1500; Some 2100] /\
  exists runs,
    boot (D := memStore) (demoConfig true) demoIso demoParse None false 500 [1000; 1400; 1600] memInit = map Some runs /\
    forall i t f, [1000; 1400; 1600] !! i = Some t -> runs !! i = Some f ->
      t < f <= t + 500 /\
      forall j t' f', (i <= j)%nat -> [1000; 1400; 1600] !! j = Some t' -> runs !! j = Some f' -> f' = f <-> t' < f.
Proof.
  split; [vm_compute; reflexivity|].
  apply (first_runs_aligned (demoConfig true) demoIso demoParse None false 500 eq_refl ltac:(lia) demoValid).
  - intros t [->|[->| ->]]; discriminate.
  - intros t [->|[->| ->]]; reflexivity.
  - repeat constructor; lia.
  - unfold demoValid. repeat constructor; tauto.
  - intros t. reflexivity.
Defined.
