(* ===== verification/RunnerRedis.v ===== *)
(** * Runs that distribute events over Redis ([runner/runner.js])

    [_executeEventsAllTenantsRedis] and [_singleTenantRedis]: the instance that gets the
    lock of the run counts the open events of all tenants, writes the pending counters
    and broadcasts the combinations. *)

From S2P Require Import Prelude Js Errors Config Common DistributedLock Stats Database Processor Selection OpenEvents RunnerStart.

Local Open Scope Z_scope.

(** [pendingByNamespace[entry.namespace] = (pendingByNamespace[entry.namespace] ?? 0) + entry.count] *)
Definition addPending (pendingByNamespace : obj Z) (entry : openEntry) : obj Z :=
  oset (oe_namespace entry) (default 0 (oget (oe_namespace entry) pendingByNamespace) + oe_count entry) pendingByNamespace.

(** The counts of the entries by namespace; the processed namespaces start with 0. *)
Definition pendingByNamespace (processingNamespaces : list string) (entries : list openEntry) : obj Z :=
  fold_left addPending entries (fromEntries (map (fun name => (name, 0)) processingNamespaces)).

Section redis_runs.
Context {R T D H : Type} `{RedisClient R} `{LockTable T} {ET : EventTable D} {RH : RedisHash H}.
Context (lcfg : lockConfig) (toString : jsval -> string) (cronParses : jsval -> bool)
  (validRegex : string -> string -> bool) (regexTest : string -> string -> Z -> string -> bool * Z) (cds : cdsEnv)
  (connect : option string -> result jsval (option jsval)).
Context (runInterval globalTxTimeout : Z) (collectEventQueueMetrics tenantIdFilter : bool).

Abbreviation openEntries := (getOpenQueueEntries (D := D) toString cronParses validRegex regexTest cds runInterval globalTxTimeout connect).

(** What the body for a tenant meets: whether reading the credentials or the events throws, the time of the
    query, and the namespaces whose counter cannot be written. *)
Record tenantInput := mkTenantInput {
  ti_throws : bool;
  ti_time : Z;
  ti_counterFails : string -> bool }.

(** The registry, the counters in Redis, [tenantCounts] and the calls of
    [broadcastEvent]. *)
Record redisRun := mkRedisRun {
  rr_config : Config;
  rr_last : obj Z;
  rr_counters : H;
  rr_tenantCounts : obj (list openEntry);
  rr_broadcasts : list (option string * list openEntry) }.

(** [for (const [namespace, count] of Object.entries(pendingByNamespace)) ...] *)
Definition writePending (write : string -> Z -> H -> H) (pending : obj Z) (h : H) : H :=
  if collectEventQueueMetrics then fold_left (fun h kv => write kv.1 kv.2 h) pending h else h.

(** The body of the loop over the tenants. *)
Definition redisTenant (tables : string -> D) (input : string -> tenantInput) (s : redisRun) (tenantId : string) : redisRun :=
  let i := input tenantId in
  if ti_throws i then s
  else
    match openEntries false (ti_time i) (rr_config s) (rr_last s) (tables tenantId) with
    | Err _ => s
    | Ok (c, last, entries) =>
      let pending := pendingByNamespace (cfg_processingNamespaces c) entries in
      mkRedisRun c last
        (writePending (fun ns n => setTenantCounter lcfg (ti_counterFails i ns) tenantId ns Pending n) pending (rr_counters s))
        (oset tenantId entries (rr_tenantCounts s))
        (match entries with [] => rr_broadcasts s | _ => rr_broadcasts s ++ [(Some tenantId, entries)] end)
    end.

(** [globalPendingByNamespace] *)
Definition globalPendingByNamespace (processingNamespaces : list string) (tenantCounts : obj (list openEntry)) : obj Z :=
  fold_left (fun m entries => fold_left addPending entries m) (ovalues tenantCounts)
    (fromEntries (map (fun namespace => (namespace, 0)) processingNamespaces)).

(** The lock of the run, at [now]; [throws]: the lock module fails, which is logged and
    does not end the run. *)
Definition acquireMaster (throws : bool) (now : Z) (l : lstate R T) : lstate R T * bool :=
  if throws then (l, true)
  else acquireLock lcfg now None EVENT_QUEUE_RUN_REDIS_CHECK false (runInterval * 95, 100) false false l.

(** [_executeEventsAllTenantsRedis(tenantIds)] *)
Definition _executeEventsAllTenantsRedis (lockThrows : bool) (now : Z) (tables : string -> D) (input : string -> tenantInput)
    (globalFails : string -> bool) (tenantIds : list string) (st : lstate R T * redisRun) : lstate R T * redisRun :=
  let '(l, couldAcquireLock) := if tenantIdFilter then (st.1, true) else acquireMaster lockThrows now st.1 in
  if negb couldAcquireLock then (l, st.2)
  else
    let s0 := st.2 in
    let s := fold_left (redisTenant tables input) tenantIds
               (mkRedisRun (rr_config s0) (rr_last s0) (rr_counters s0) [] (rr_broadcasts s0)) in
    let pending := globalPendingByNamespace (cfg_processingNamespaces (rr_config s)) (rr_tenantCounts s) in
    (l, mkRedisRun (rr_config s) (rr_last s)
          (writePending (fun ns n => setGlobalCounter lcfg (globalFails ns) ns Pending n) pending (rr_counters s))
          (rr_tenantCounts s) (rr_broadcasts s)).

(** [_singleTenantRedis()]: here a failing lock ends the run. *)
Definition _singleTenantRedis (lockThrows : bool) (now : Z) (table : D) (i : tenantInput) (st : lstate R T * redisRun)
    : lstate R T * redisRun :=
  if lockThrows then st
  else
    let '(l, couldAcquireLock) :=
      acquireLock lcfg now None EVENT_QUEUE_RUN_REDIS_CHECK false (runInterval * 95, 100) false false st.1 in
    if negb couldAcquireLock then (l, st.2)
    else if ti_throws i then (l, st.2)
    else
      let s := st.2 in
      match openEntries false (ti_time i) (rr_config s) (rr_last s) table with
      | Err _ => (l, s)
      | Ok (c, last, entries) =>
        let pending := pendingByNamespace (cfg_processingNamespaces c) entries in
        (l, mkRedisRun c last
              (writePending (fun ns n => setGlobalCounter lcfg (ti_counterFails i ns) ns Pending n) pending (rr_counters s))
              (rr_tenantCounts s)
              (match entries with [] => rr_broadcasts s | _ => rr_broadcasts s ++ [(None, entries)] end))
      end.
End redis_runs.
Arguments redisRun : clear implicits.

(** ** Counting *)

(** The count of an entry in a namespace. *)
Definition inNamespace (ns : string) (x : openEntry) : Z := if decide (oe_namespace x = ns) then oe_count x else 0.

(** The number of rows of a namespace. *)
Definition rowsIn (ns : string) (rows : list event) : Z :=
  Z.of_nat (length (List.filter (fun e => bool_decide (ev_namespace e = ns)) rows)).

Lemma count_row_namespace ns e l :
  sumZ (inNamespace ns) (count_row e l) = sumZ (inNamespace ns) l + if decide (ev_namespace e = ns) then 1 else 0.
Proof.
  induction l as [|x l IH]; cbn [count_row].
  - unfold sumZ, inNamespace. simpl. lia.
  - destruct (of_entry x e) eqn:E.
    + apply of_entry_true in E as (_ & _ & E). unfold sumZ, inNamespace. simpl. rewrite E.
      destruct (decide (oe_namespace x = ns)); lia.
    + unfold sumZ in *. simpl. lia.
Qed.

Lemma group_rows_namespace ns rows : sumZ (inNamespace ns) (group_rows rows) = rowsIn ns rows.
Proof.
  unfold group_rows, rowsIn. induction rows as [|e rows IH] using rev_ind; [done|].
  rewrite fold_left_app, List.filter_app, length_app. simpl. rewrite count_row_namespace, IH.
  case_decide; [rewrite bool_decide_true by done | rewrite bool_decide_false by done]; simpl; lia.
Qed.

Lemma addPending_get entries m ns :
  default 0 (oget ns (fold_left addPending entries m)) = default 0 (oget ns m) + sumZ (inNamespace ns) entries.
Proof.
  revert m. induction entries as [|x r IH]; intros m; simpl; [unfold sumZ; simpl; lia|].
  rewrite IH. unfold addPending, sumZ, inNamespace. rewrite oget_oset. simpl.
  destruct (decide (oe_namespace x = ns)) as [->|]; simpl; lia.
Qed.

Lemma addPending_keys entries m ns :
  ns ∈ okeys (fold_left addPending entries m) <-> ns ∈ okeys m \/ ns ∈ (oe_namespace <$> entries).
Proof.
  revert m. induction entries as [|x r IH]; intros m; csimpl; [set_solver|].
  rewrite IH. unfold addPending. rewrite okeys_oset_elem. set_solver.
Qed.

Lemma addPending_NoDup entries m : NoDup (okeys m) -> NoDup (okeys (fold_left addPending entries m)).
Proof. revert m. induction entries as [|x r IH]; intros m Hm; simpl; [done|]. by apply IH, NoDup_okeys_oset. Qed.

(** The zero counters a run starts with. *)
Lemma zeros_spec (names : list string) ns :
  let m := fromEntries (map (fun name => (name, 0)) names) in
  default 0 (oget ns m) = 0 /\ NoDup (okeys m) /\ (ns ∈ okeys m <-> ns ∈ names).
Proof.
  simpl. unfold fromEntries.
  assert (G : forall (m : obj Z), default 0 (oget ns m) = 0 -> NoDup (okeys m) ->
    let m' := fold_left (fun (o : obj Z) kv => oset kv.1 kv.2 o) (map (fun name => (name, 0)) names) m in
    default 0 (oget ns m') = 0 /\ NoDup (okeys m') /\ (ns ∈ okeys m' <-> ns ∈ okeys m \/ ns ∈ names)).
  { induction names as [|n names IH]; intros m H0 Hm; simpl; [set_solver|].
    destruct (IH (oset n 0 m)) as (I1 & I2 & I3); [rewrite oget_oset; by case_decide | by apply NoDup_okeys_oset|].
    split_and!; [done..|]. rewrite I3, okeys_oset_elem. set_solver. }
  destruct (G []) as (G1 & G2 & G3); [done | constructor |]. split_and!; [done..|]. rewrite G3. set_solver.
Qed.

(** ** What a run writes *)

Section run_props.
Context {R T D H : Type} `{RedisClient R} `{LockTable T} {ET : EventTable D} {EL : EventTableLaws D}
  {RH : RedisHash H} {RL : RedisHashLaws H}.
Context (lcfg : lockConfig) (toString : jsval -> string) (cronParses : jsval -> bool)
  (validRegex : string -> string -> bool) (regexTest : string -> string -> Z -> string -> bool * Z) (cds : cdsEnv)
  (connect : option string -> result jsval (option jsval)).
Context (runInterval globalTxTimeout : Z) (tenantIdFilter : bool).

Abbreviation execute := (_executeEventsAllTenantsRedis (D := D) lcfg toString cronParses validRegex regexTest cds connect
  runInterval globalTxTimeout true tenantIdFilter).

Lemma globalKey_inj ns ns' : namespaceGlobalKey lcfg ns = namespaceGlobalKey lcfg ns' -> ns = ns'.
Proof.
  unfold namespaceGlobalKey, _keyPrefix. rewrite !append_assoc_str.
  by intros E%append_inj_str%append_inj_str%append_inj_r_str.
Qed.

Lemma writeGlobal_get pending ns n h :
  NoDup (okeys pending) -> oget ns pending = Some n ->
  hGet (namespaceGlobalKey lcfg ns) (field_name Pending)
    (writePending true (fun ns n => setGlobalCounter lcfg false ns Pending n) pending h) = Some n.
Proof.
  unfold writePending, setGlobalCounter. revert h. induction pending as [|[k v] r IH] using rev_ind; [done|].
  intros h Hn Hg. rewrite fold_left_app. simpl. rewrite hSet_get.
  unfold okeys in Hn. rewrite fmap_app in Hn. apply NoDup_app in Hn as (Hn & Hd & _).
  assert (Hin : (ns, n) ∈ r ++ [(k, v)]) by by apply oget_elem_of.
  apply elem_of_app in Hin as [Hin|Hin%list_elem_of_singleton].
  - assert (ns <> k). { intros ->. apply (Hd k); [|set_solver]. apply list_elem_of_fmap. by exists (k, n). }
    rewrite decide_False by (intros [E%globalKey_inj _]; done). apply IH; [done|]. by apply elem_of_oget.
  - simplify_eq. by rewrite decide_True.
Qed.

(** The open rows of a tenant at the time of its query. *)
Definition openRows (c : Config) (tables : string -> D) (input : string -> tenantInput) (tenantId : string) : list event :=
  select_rows (open_row runInterval globalTxTimeout (cfg_processingNamespaces c) (ti_time (input tenantId))) None (tables tenantId).

Definition broadcastOf (c : Config) (tables : string -> D) (input : string -> tenantInput) (tenantId : string)
    : option (option string * list openEntry) :=
  match group_rows (openRows c tables input tenantId) with
  | [] => None
  | entries => Some (Some tenantId, entries)
  end.

Lemma tenants_loop tables input tenantIds s :
  (forall t, t ∈ tenantIds -> ti_throws (input t) = false) -> NoDup tenantIds ->
  (forall t, t ∈ tenantIds -> oget t (rr_tenantCounts s) = None) ->
  let c := rr_config s in
  let s' := fold_left (redisTenant lcfg toString cronParses validRegex regexTest cds connect runInterval globalTxTimeout true
              tables input) tenantIds s in
  rr_config s' = c /\
  rr_tenantCounts s' = rr_tenantCounts s ++ map (fun t => (t, group_rows (openRows c tables input t))) tenantIds /\
  rr_broadcasts s' = rr_broadcasts s ++ omap (broadcastOf c tables input) tenantIds.
Proof.
  revert s. induction tenantIds as [|t r IH]; intros s Hok Hn Hfresh; simpl; [by rewrite !app_nil_r|].
  apply NoDup_cons in Hn as [Ht Hn].
  set (s1 := redisTenant _ _ _ _ _ _ _ _ _ _ _ _ s t).
  assert (E : s1 = mkRedisRun (rr_config s) (rr_last s) (rr_counters s1)
      (rr_tenantCounts s ++ [(t, group_rows (openRows (rr_config s) tables input t))])
      (rr_broadcasts s ++ option_list (broadcastOf (rr_config s) tables input t))).
  { subst s1. unfold redisTenant. rewrite Hok by set_solver. unfold getOpenQueueEntries. rewrite takeEntries_all. simpl.
    rewrite oset_fresh by (apply Hfresh; set_solver). unfold broadcastOf. fold (openRows (rr_config s) tables input t).
    f_equal. destruct (group_rows _); simpl; by rewrite ?app_nil_r. }
  destruct (IH s1) as (I1 & I2 & I3).
  - set_solver.
  - done.
  - intros t' Ht'. rewrite E. simpl. rewrite <- (oset_fresh t _ (rr_tenantCounts s)) by (apply Hfresh; set_solver).
    rewrite oget_oset_ne by set_solver. apply Hfresh. set_solver.
  - rewrite E in I1, I2, I3. simpl in I1, I2, I3. fold s1 in I1, I2, I3. rewrite <- E in I1, I2, I3. split_and!; [done| |].
    + rewrite I2. by rewrite <- app_assoc.
    + rewrite I3. rewrite <- app_assoc. f_equal. by destruct (broadcastOf _ _ _ t).
Qed.

Lemma globalPending_spec (names : list string) counts ns :
  Forall (fun te => Forall (fun x => oe_namespace x ∈ names) te.2) counts ->
  let m := globalPendingByNamespace names counts in
  default 0 (oget ns m) = sumZ (fun te => sumZ (inNamespace ns) te.2) counts /\ NoDup (okeys m) /\
  (ns ∈ okeys m <-> ns ∈ names).
Proof.
  unfold globalPendingByNamespace, ovalues. destruct (zeros_spec names ns) as (Z1 & Z2 & Z3).
  revert Z1 Z2 Z3. generalize (fromEntries (map (fun namespace => (namespace, 0)) names)). intros m Z1 Z2 Z3 Hc.
  cut (default 0 (oget ns (fold_left (fun m entries => fold_left addPending entries m) counts.*2 m)) =
         default 0 (oget ns m) + sumZ (fun te => sumZ (inNamespace ns) te.2) counts /\
       NoDup (okeys (fold_left (fun m entries => fold_left addPending entries m) counts.*2 m)) /\
       (ns ∈ okeys (fold_left (fun m entries => fold_left addPending entries m) counts.*2 m) <-> ns ∈ names)).
  { rewrite Z1. done. }
  clear Z1. revert m Z2 Z3. induction Hc as [|[t entries] counts He Hc IH]; intros m Z2 Z3; csimpl.
  { split_and!; [unfold sumZ; simpl; lia | done..]. }
  destruct (IH (fold_left addPending entries m)) as (I1 & I2 & I3).
  - by apply addPending_NoDup.
  - rewrite addPending_keys, Z3. split; [|by left]. intros [?|[x [-> Hx]]%list_elem_of_fmap]; [done|].
    rewrite Forall_forall in He. by apply He.
  - split_and!; [|done..]. rewrite I1, addPending_get. unfold sumZ. simpl. lia.
Qed.

Lemma group_rows_namespaces (rows : list event) (names : list string) :
  Forall (fun e => ev_namespace e ∈ names) rows -> Forall (fun x => oe_namespace x ∈ names) (group_rows rows).
Proof.
  unfold group_rows. induction rows as [|e rows IH] using rev_ind; intros Hr; [constructor|].
  apply Forall_app in Hr as [Hr He]. rewrite fold_left_app. simpl. specialize (IH Hr).
  apply Forall_inv in He. induction IH as [|x l Hx Hl IH]; cbn [count_row]; [by repeat constructor|].
  destruct (of_entry x e); constructor; done.
Qed.

Lemma sumZ_map {A B} (f : B -> Z) (g : A -> B) l : sumZ f (map g l) = sumZ (fun a => f (g a)) l.
Proof. induction l as [|a l IH]; [done|]. unfold sumZ in *. simpl. by rewrite IH. Qed.

Lemma sumZ_ext {A} (f g : A -> Z) l : (forall a, a ∈ l -> f a = g a) -> sumZ f l = sumZ g l.
Proof. induction l as [|a l IH]; intros E; [done|]. unfold sumZ in *. simpl. rewrite E, IH; set_solver. Qed.

Lemma openRows_namespaces c tables input t :
  Forall (fun e => ev_namespace e ∈ cfg_processingNamespaces c) (openRows c tables input t).
Proof.
  apply Forall_forall. intros e He%select_pred. unfold open_row in He. rewrite !andb_true_iff in He.
  destruct He as [[[He _] _] _]. by apply bool_decide_eq_true in He.
Qed.

(** C25. The run of the instance that holds the lock of the run: the global counter of each
    processed namespace is set to the number of open events of all tenants in it, and the
    open combinations of every tenant with open events are broadcast once. *)
Theorem run_counts_open_events lockThrows now tables input tenantIds l s ns :
  NoDup tenantIds -> (forall t, t ∈ tenantIds -> ti_throws (input t) = false) ->
  (tenantIdFilter = true \/ (acquireMaster lcfg runInterval lockThrows now l).2 = true) ->
  ns ∈ cfg_processingNamespaces (rr_config s) ->
  let s' := (execute lockThrows now tables input (fun _ => false) tenantIds (l, s)).2 in
  hGet (namespaceGlobalKey lcfg ns) (field_name Pending) (rr_counters s') =
    Some (sumZ (fun t => rowsIn ns (openRows (rr_config s) tables input t)) tenantIds) /\
  rr_broadcasts s' = rr_broadcasts s ++ omap (broadcastOf (rr_config s) tables input) tenantIds.
Proof.
  intros Hn Hok Hlock Hns. unfold _executeEventsAllTenantsRedis. cbn [fst snd].
  assert (Hacq : exists l', (if tenantIdFilter then (l, true) else acquireMaster lcfg runInterval lockThrows now l) = (l', true)).
  { destruct tenantIdFilter; [eauto|]. destruct Hlock as [?|Hlock]; [done|].
    destruct (acquireMaster _ _ _ _ _) as [l' ok]. simpl in Hlock. subst. eauto. }
  destruct Hacq as [l' ->]. cbn [negb snd rr_counters rr_broadcasts].
  set (s0 := mkRedisRun _ _ _ _ _). destruct (tenants_loop tables input tenantIds s0 Hok Hn) as (E1 & E2 & E3).
  { intros. done. }
  cbn zeta in E1, E2, E3. rewrite E1, E2, E3. subst s0. cbn [rr_config rr_tenantCounts rr_broadcasts]. split; [|done].
  rewrite app_nil_l. set (counts := map _ tenantIds).
  destruct (globalPending_spec (cfg_processingNamespaces (rr_config s)) counts ns) as (G1 & G2 & G3).
  { apply Forall_forall. intros te (t & -> & _)%list_elem_of_fmap. apply group_rows_namespaces, openRows_namespaces. }
  apply writeGlobal_get; [done|]. apply G3, oget_okeys in Hns as [n Hget]. rewrite Hget in *. simpl in G1. rewrite G1. f_equal.
  unfold counts. rewrite sumZ_map. apply sumZ_ext. intros t _. simpl. by rewrite group_rows_namespace.
Qed.
End run_props.

(** ** One instance per interval *)

Section master.
Context {R T D H : Type} `{RedisLaws R} `{LockTable T} {ET : EventTable D} {RH : RedisHash H}.
Context (lcfg : lockConfig) (toString : jsval -> string) (cronParses : jsval -> bool)
  (validRegex : string -> string -> bool) (regexTest : string -> string -> Z -> string -> bool * Z) (cds : cdsEnv)
  (connect : option string -> result jsval (option jsval)).
Context (runInterval globalTxTimeout : Z) (metrics : bool).

Abbreviation execute := (_executeEventsAllTenantsRedis (R := R) (T := T) (D := D) (H := H) lcfg toString cronParses validRegex regexTest cds
  connect runInterval globalTxTimeout metrics false).

(** One instance distributes the events of an interval: once the lock of the run is
    taken, runs of other instances within 95 percent of the interval neither write
    counters nor broadcast. *)
Theorem one_instance_distributes now now' tables input fails tenantIds tables' input' fails' tenantIds' l s s2 :
  lc_redisEnabled lcfg = true -> 0 < round_ms (runInterval * 95, 100) ->
  now <= now' < now + round_ms (runInterval * 95, 100) ->
  (acquireMaster lcfg runInterval false now l).2 = true ->
  let l1 := (execute false now tables input fails tenantIds (l, s)).1 in
  (execute false now' tables' input' fails' tenantIds' (l1, s2)).2 = s2.
Proof.
  intros Hr Hpos Hin Hacq. unfold _executeEventsAllTenantsRedis, acquireMaster, acquireLock, acquireLockRedis in *. cbn [fst snd] in *.
  rewrite Hr in *. set (k := generateKey _ _ _ _ _) in *. set (x := round_ms _) in *.
  pose proof (r_set_ok now k (pretty.pretty now) x SetNX (ls_redis l) Hpos) as Hok.
  pose proof (r_set_get now k (pretty.pretty now) x SetNX (ls_redis l) now' k Hpos ltac:(lia)) as Hget.
  cbn [default] in *.
  destruct (r_set now k _ x SetNX (ls_redis l)) as [r ok]. simpl in Hacq, Hok, Hget. subst ok. rewrite <- Hok in Hget.
  rewrite decide_True, (proj2 (Z.ltb_lt now' _)) in Hget by (done || lia). cbn [fst snd negb andb ls_redis].
  pose proof (r_set_ok now' k (pretty.pretty now') x SetNX r Hpos) as Hok'. rewrite Hget in Hok'. simpl in Hok'.
  destruct (r_set now' k _ x SetNX r) as [r' ok']. simpl in Hok'. subst ok'. done.
Qed.
End master.

(** ** Witnesses *)

(** Two tenants, of which the first has two open events. *)
Definition demoTenantTables (t : string) : memRows := if bool_decide (t = "t1") then demoOpenRows else ∅.
Definition demoTenantInput (t : string) : tenantInput := mkTenantInput false 2000 (fun _ => false).
Definition demoRedisRun : redisRun memHash := mkRedisRun demoCfg [] ∅ [] [].

Definition demoExecute (now : Z) (st : lstate memStore memStore * redisRun memHash) : lstate memStore memStore * redisRun memHash :=
  _executeEventsAllTenantsRedis demoStatsCfg demoCfgString demoCronParses demoValidRegex demoRegexTest demoCds demoConnect
    1500000 1800000 true false false now demoTenantTables demoTenantInput (fun _ => false) ["t1"; "t2"] st.

Lemma run_counts_open_events_witness :
  let s' := (demoExecute 2000 (memInit, demoRedisRun)).2 in
  hGet (namespaceGlobalKey demoStatsCfg "default") (field_name Pending) (rr_counters s') = Some 2 /\
  rr_broadcasts s' = [(Some "t1", [mkOpenEntry "default" "Mail" "send" 2])].
Proof.
  pose proof (run_counts_open_events (R := memStore) (T := memStore) (D := memRows) (H := memHash)
    demoStatsCfg demoCfgString demoCronParses demoValidRegex demoRegexTest
    demoCds demoConnect 1500000 1800000 false false 2000 demoTenantTables demoTenantInput ["t1"; "t2"] memInit demoRedisRun "default") as W.
  destruct W as [W1 W2].
  - apply (bool_decide_unpack _). vm_compute. exact I.
  - reflexivity.
  - right. vm_compute. reflexivity.
  - left.
  - split; [etransitivity; [exact W1|] | etransitivity; [exact W2|]]; vm_compute; reflexivity.
Defined.

Lemma one_instance_distributes_witness :
  (demoExecute 1000000 ((demoExecute 2000 (memInit, demoRedisRun)).1, demoRedisRun)).2 = demoRedisRun /\
  rr_broadcasts (demoExecute 2000 (memInit, demoRedisRun)).2 <> [].
Proof.
  split; [|vm_compute; discriminate].
  apply (one_instance_distributes (R := memStore) (T := memStore) (D := memRows) (H := memHash)
    demoStatsCfg demoCfgString demoCronParses demoValidRegex demoRegexTest demoCds demoConnect 1500000 1800000 true 2000 1000000).
  - reflexivity.
  - vm_compute. reflexivity.
  - vm_compute. split; [discriminate | reflexivity].
  - vm_compute. reflexivity.
Defined.
