(* ===== verification/Runner.v ===== *)
(** * Runs of the runner ([runner/runner.js], [getAllTenantIds] of [shared/cdsHelper.js])

    The tenants of a run, the update of their periodic events when the set of tenants has
    changed, and the runs that put the open combinations into the worker queue of this
    instance.  [RunnerRedis] has the runs that distribute them. *)

From S2P Require Import Prelude Js Errors Config WorkerQueue Common DistributedLock Stats Database Processor Selection Periodic OpenEvents RunnerStart RunnerRedis.

Local Open Scope Z_scope.

(** ** The tenants *)

(** [getAllTenantIds()]: [tenants] is the answer of the provisioning service, [None]
    without multi tenancy; [authError t]: the request for the credentials of [t] was
    answered with 404; [valid] is [isTenantIdValidCb]. *)
Definition getAllTenantIds (tenants : option (list (obj jsval))) (disableProcessingOfSuspendedTenants : bool)
    (authError valid : jsval -> bool) : option (list jsval) :=
  response ← tenants;
  let tenantIds := map (fun tenant => coalesce (prop tenant "subscribedTenantId") (prop tenant "tenant")) response in
  let suspended t := disableProcessingOfSuspendedTenants && authError t in
  Some (fold_left (fun result tenantId => if negb (suspended tenantId) && valid tenantId then result ++ [tenantId] else result)
          tenantIds []).

(** ** Periodic events *)

Section periodic.
Context {R T D : Type} `{RedisClient R} `{LockTable T} {ET : EventTable D}.
Context (lcfg : lockConfig) (cronNext : string -> option string -> Z -> Z) (randomOffsetPeriodicEvents : option Z).
Context (periodicEvents : list eventConfig) (updatePeriodicEvents tenantIdFilter : bool) (runInterval : Z).

(** [eventQueueConfig.updatePeriodicEvents && eventQueueConfig.periodicEvents.length] *)
Definition updateEnabled : bool := updatePeriodicEvents && negb (bool_decide (periodicEvents = [])).

(** What the update of one tenant meets: whether reading the credentials throws, the
    lock, the check with its time and ids, whether its query throws, and whether the
    commit fails. *)
Record updateInput := mkUpdateInput {
  u_authThrows : bool;
  u_lockThrows : bool;
  u_lockTime : Z;
  u_now : Z;
  u_uuid : nat -> string;
  u_selectThrows : bool;
  u_commitFails : bool }.

(** [_checkPeriodicEventsSingleTenant(context)]: what the check throws is logged, and
    the statements it has executed stay in the transaction. *)
Definition _checkPeriodicEventsSingleTenant (i : updateInput) (d : D) : D :=
  if negb updateEnabled then d
  else if u_selectThrows i then d
  else
    match checkAndInsertPeriodicEvents cronNext randomOffsetPeriodicEvents periodicEvents (u_now i) (u_uuid i) d with
    | Some d' => d'
    | None => replanDeleted cronNext randomOffsetPeriodicEvents periodicEvents (u_now i) d
    end.

Definition set_table (tenantId : string) (d : D) (tables : string -> D) (t : string) : D :=
  if decide (t = tenantId) then d else tables t.

(** The body of the loop of [_executePeriodicEventsAllTenants]. *)
Definition updateTenant (input : string -> updateInput) (st : lstate R T * (string -> D)) (tenantId : string)
    : lstate R T * (string -> D) :=
  let i := input tenantId in
  if u_authThrows i then st
  else
    let '(l, tables) := st in
    let check l := if u_commitFails i then (l, tables)
                   else (l, set_table tenantId (_checkPeriodicEventsSingleTenant i (tables tenantId)) tables) in
    if negb (lc_redisEnabled lcfg) && negb tenantIdFilter then
      if u_lockThrows i then st
      else
        let '(l, couldAcquireLock) := acquireLock lcfg (u_lockTime i) (Some tenantId) EVENT_QUEUE_UPDATE_PERIODIC_EVENTS true
                                        (runInterval * 95, 100) false false l in
        if negb couldAcquireLock then (l, tables) else check l
    else check l.

Definition _executePeriodicEventsAllTenants (input : string -> updateInput) (tenantIds : list string)
    (st : lstate R T * (string -> D)) : lstate R T * (string -> D) := fold_left (updateTenant input) tenantIds st.

(** [_multiTenancyPeriodicEvents(tenantIds)]: the result is [true], or [undefined] when
    the lock is taken or the lock module throws. *)
Definition _multiTenancyPeriodicEvents (lockThrows : bool) (now : Z) (input : string -> updateInput) (tenantIds : list string)
    (st : lstate R T * (string -> D)) : lstate R T * (string -> D) * bool :=
  if lc_redisEnabled lcfg && negb tenantIdFilter then
    if lockThrows then (st, false)
    else
      let '(l, couldAcquireLock) :=
        acquireLock lcfg now None EVENT_QUEUE_UPDATE_PERIODIC_EVENTS false (60 * 1000, 1) false false st.1 in
      if negb couldAcquireLock then ((l, st.2), false)
      else (_executePeriodicEventsAllTenants input tenantIds (l, st.2), true)
  else (_executePeriodicEventsAllTenants input tenantIds st, true).

(** [_checkPeriodicEventsSingleTenantOneTime()]: what it throws rejects the single run;
    the transaction is rolled back then. *)
Definition _checkPeriodicEventsSingleTenantOneTime (lockThrows : bool) (now : Z) (i : updateInput) (st : lstate R T * D)
    : lstate R T * D * result jsval unit :=
  if negb updateEnabled then (st, Ok tt)
  else if lockThrows then (st, Err (JErr "Error" "lock"))
  else
    let '(l, couldAcquireLock) :=
      acquireLock lcfg now None EVENT_QUEUE_UPDATE_PERIODIC_EVENTS false (60 * 1000, 1) false false st.1 in
    if negb couldAcquireLock then ((l, st.2), Ok tt)
    else if u_selectThrows i || u_commitFails i then ((l, st.2), Err (JErr "Error" "database"))
    else
      match checkAndInsertPeriodicEvents cronNext randomOffsetPeriodicEvents periodicEvents (u_now i) (u_uuid i) st.2 with
      | Some d => ((l, d), Ok tt)
      | None => ((l, st.2), Err (JErr "Error" "database"))
      end.
End periodic.

(** [_checkPeriodicEventUpdate(tenantIds)]: the module variable [tenantIdHash], [hash]
    is [hashStringTo32Bit(JSON.stringify(tenantIds))], [update] is
    [_multiTenancyPeriodicEvents] for the tenants.  The result tells whether the run goes
    on. *)
Definition _checkPeriodicEventUpdate {W} (enabled : bool) (hash : string) (update : W -> W * bool) (st : option string * W)
    : option string * W * bool :=
  if negb enabled then (st, true)
  else
    match st.1 with
    | None | Some EmptyString => let '(w, result) := update st.2 in ((Some hash, w), result)
    | Some tenantIdHash =>
      if negb (bool_decide (tenantIdHash = hash))
      then let '(w, _) := update st.2 in ((Some hash, w), true)
      else (st, true)
    end.

(** ** Runs in this instance *)

Section local_runs.
Context {D : Type} {ET : EventTable D}.
Context (toString : jsval -> string) (cronParses : jsval -> bool) (validRegex : string -> string -> bool)
  (regexTest : string -> string -> Z -> string -> bool * Z) (cds : cdsEnv)
  (connect : option string -> result jsval (option jsval)).
Context (runInterval globalTxTimeout : Z).

(** The arguments of [addToQueue]; loads are integers. *)
Definition loadOf (r : regEvent) : Z := match opt r "load" with JNum z => z | _ => 0 end.
Definition priorityOf (r : regEvent) : option string := match opt r "priority" with JStr p => Some p | _ => None end.
Definition labelOf (namespace : string) (r : regEvent) : string :=
  join hash2 [namespace; join_string toString (opt r "type"); join_string toString (opt r "subType")].

(** A queued task: the id of its promise and what it runs. *)
Record queuedRun := mkQueuedRun {
  qr_id : nat;
  qr_tenant : option string;
  qr_type : jsval;
  qr_subType : jsval;
  qr_namespace : string }.

(** The registry, the worker queue, the tasks and the rejections nobody handles. *)
Record localRun := mkLocalRun {
  lr_config : Config;
  lr_last : obj Z;
  lr_queue : wq;
  lr_tasks : list queuedRun;
  lr_unhandled : nat }.

(** The callback of [events.map] for one combination, up to [addToQueue]. *)
Definition queueEvent (clk : clock) (tenant : option string) (s : localRun) (openEvent : openEntry) : localRun :=
  let failed := mkLocalRun (lr_config s) (lr_last s) (lr_queue s) (lr_tasks s) (S (lr_unhandled s)) in
  match getEventConfig toString (lr_config s) (JStr (oe_type openEvent)) (JStr (oe_subType openEvent)) (JStr (oe_namespace openEvent)) with
  | None => failed
  | Some r =>
    match addToQueue clk (loadOf r) (labelOf (oe_namespace openEvent) r) (priorityOf r)
            (truthy (opt r "increasePriorityOverTime")) (lr_queue s) with
    | Err _ => failed
    | Ok (id, q) =>
      mkLocalRun (lr_config s) (lr_last s) q
        (lr_tasks s ++ [mkQueuedRun id tenant (opt r "type") (opt r "subType") (oe_namespace openEvent)]) (lr_unhandled s)
    end
  end.

(** The body of the loop of [_executeEventsAllTenants]; [input] gives whether reading
    the credentials or the events throws, and the time of the query. *)
Definition localTenant (clk : clock) (tables : string -> D) (input : string -> bool * Z) (s : localRun) (tenantId : string) : localRun :=
  if (input tenantId).1 then s
  else
    match getOpenQueueEntries toString cronParses validRegex regexTest cds runInterval globalTxTimeout connect
            true (input tenantId).2 (lr_config s) (lr_last s) (tables tenantId) with
    | Err _ => s
    | Ok (c, last, events) =>
      fold_left (queueEvent clk (Some tenantId)) events
        (mkLocalRun c last (lr_queue s) (lr_tasks s) (lr_unhandled s))
    end.

(** [_executeEventsAllTenants(tenantIds)]: [promises.concat] leaves [promises] as it is,
    so the settled results are those of an empty list. *)
Definition _executeEventsAllTenants (clk : clock) (tables : string -> D) (input : string -> bool * Z) (tenantIds : list string)
    (s : localRun) : localRun * list (settlement jsval unit) :=
  (fold_left (localTenant clk tables input) tenantIds s, []).

(** [_singleTenantDb()]: each task is awaited before the next one is added; [settle id]
    is what happens in the queue until the task [id] is settled.  What [addToQueue] or
    the query throws ends the run. *)
Fixpoint queueOneByOne (clk : nat -> clock) (settle : nat -> wq -> wq) (n : nat) (events : list openEntry) (s : localRun)
    : localRun * option jsval :=
  match events with
  | [] => (s, None)
  | openEvent :: rest =>
    let s' := queueEvent (clk n) None s openEvent in
    if Nat.eqb (lr_unhandled s') (lr_unhandled s) then
      let id := nextId (lr_queue s) in
      queueOneByOne clk settle (S n) rest
        (mkLocalRun (lr_config s') (lr_last s') (settle id (lr_queue s')) (lr_tasks s') (lr_unhandled s'))
    else (s, Some (JErr "Error" "addToQueue"))
  end.

Definition _singleTenantDb (clk : nat -> clock) (settle : nat -> wq -> wq) (queryThrows : bool) (now : Z) (table : D) (s : localRun)
    : localRun * option jsval :=
  if queryThrows then (s, Some (JErr "Error" "database"))
  else
    match getOpenQueueEntries toString cronParses validRegex regexTest cds runInterval globalTxTimeout connect
            true now (lr_config s) (lr_last s) table with
    | Err (JsError e) => (s, Some e)
    | Err (QueueError e) => (s, Some (JErr "EventQueueError" "query"))
    | Ok (c, last, events) =>
      queueOneByOne clk settle O events (mkLocalRun c last (lr_queue s) (lr_tasks s) (lr_unhandled s))
    end.
End local_runs.

(** ** Composition *)

Section compose.
Context {R T D H : Type} `{RedisClient R} `{LockTable T} {ET : EventTable D} {RH : RedisHash H}.
Context (lcfg : lockConfig) (toString : jsval -> string) (cronParses : jsval -> bool)
  (validRegex : string -> string -> bool) (regexTest : string -> string -> Z -> string -> bool * Z) (cds : cdsEnv)
  (connect : option string -> result jsval (option jsval))
  (cronNext : string -> option string -> Z -> Z) (randomOffsetPeriodicEvents : option Z).
Context (periodicEvents : list eventConfig) (updatePeriodicEvents tenantIdFilter metrics : bool) (runInterval globalTxTimeout : Z).
Context (hashOf : list string -> string).

(** What a run meets: the tenants ([None] when reading them throws), the lock of the
    update and of the run, the inputs of the tenants. *)
Record runInput := mkRunInput {
  ri_tenants : option (list string);
  ri_updateLockThrows : bool;
  ri_update : string -> updateInput;
  ri_lockThrows : bool;
  ri_now : Z;
  ri_redis : string -> tenantInput;
  ri_local : string -> bool * Z;
  ri_counterFails : string -> bool }.

(** The state of an instance and what it shares: [tenantIdHash], the locks and the
    tables of the tenants. *)
Abbreviation shared := (option string * (lstate R T * (string -> D)))%type.

Definition checkUpdate (i : runInput) (tenantIds : list string) (st : shared) : shared * bool :=
  _checkPeriodicEventUpdate (updateEnabled periodicEvents updatePeriodicEvents) (hashOf tenantIds)
    (_multiTenancyPeriodicEvents lcfg cronNext randomOffsetPeriodicEvents periodicEvents updatePeriodicEvents tenantIdFilter runInterval
       (ri_updateLockThrows i) (ri_now i) (ri_update i) tenantIds) st.

(** [_multiTenancyRedis()] *)
Definition _multiTenancyRedis (i : runInput) (st : shared * redisRun H) : shared * redisRun H :=
  match ri_tenants i with
  | None => st
  | Some tenantIds =>
    let '((hash, (l, tables)), shouldContinue) := checkUpdate i tenantIds st.1 in
    if shouldContinue then
      let '(l, run) := _executeEventsAllTenantsRedis lcfg toString cronParses validRegex regexTest cds connect runInterval globalTxTimeout
                         metrics tenantIdFilter (ri_lockThrows i) (ri_now i) tables (ri_redis i) (ri_counterFails i) tenantIds (l, st.2) in
      ((hash, (l, tables)), run)
    else ((hash, (l, tables)), st.2)
  end.

(** [_multiTenancyDb()]: the result of the check is not used. *)
Definition _multiTenancyDb (clk : clock) (i : runInput) (st : shared * localRun) : shared * localRun :=
  match ri_tenants i with
  | None => st
  | Some tenantIds =>
    let '(sh, _) := checkUpdate i tenantIds st.1 in
    (sh, (_executeEventsAllTenants toString cronParses validRegex regexTest cds connect runInterval globalTxTimeout clk
            sh.2.2 (ri_local i) tenantIds st.2).1)
  end.
End compose.

(** ** The tenants of a run *)

(** The tenants of a run are those of the provisioning service, in its order, that are
    neither suspended nor filtered out. *)
Lemma getAllTenantIds_filter response disable authError valid :
  getAllTenantIds (Some response) disable authError valid =
    Some (List.filter (fun t => negb (disable && authError t) && valid t)
            (map (fun tenant => coalesce (prop tenant "subscribedTenantId") (prop tenant "tenant")) response)).
Proof.
  unfold getAllTenantIds. simpl. f_equal. generalize (map (fun tenant => coalesce (prop tenant "subscribedTenantId") (prop tenant "tenant")) response).
  intros l. cut (forall acc, fold_left (fun result tenantId => if negb (disable && authError tenantId) && valid tenantId
    then result ++ [tenantId] else result) l acc = acc ++ List.filter (fun t => negb (disable && authError t) && valid t) l).
  { intros E. apply (E []). }
  induction l as [|t l IH]; intros acc; simpl; [by rewrite app_nil_r|].
  destruct (negb _ && valid t); rewrite IH; [by rewrite <- app_assoc | done].
Qed.

(** ** When periodic events are updated *)

Section update_trace.
Context (hashOf : list string -> string).

(** Runs with their tenants and the result of an update; [log] has the tenants of the
    updates, [goes] whether the runs went on. *)
Fixpoint update_runs (runs : list (list string * bool)) (hash : option string) (log : list (list string)) : list (list string) * list bool :=
  match runs with
  | [] => (log, [])
  | (tenantIds, result) :: rest =>
    let '((hash, log), go) := _checkPeriodicEventUpdate true (hashOf tenantIds) (fun log => (log ++ [tenantIds], result)) (hash, log) in
    let '(log, goes) := update_runs rest hash log in
    (log, go :: goes)
  end.

(** The lists that differ from the one before. *)
Fixpoint changes (prev : list string) (ls : list (list string)) : list (list string) :=
  match ls with
  | [] => []
  | l :: r => if decide (prev = l) then changes prev r else l :: changes l r
  end.

Lemma update_runs_changes runs prev log :
  hashOf prev <> EmptyString -> Forall (fun r => hashOf r.1 <> EmptyString) runs ->
  (forall l l', l ∈ prev :: runs.*1 -> l' ∈ prev :: runs.*1 -> hashOf l = hashOf l' -> l = l') ->
  update_runs runs (Some (hashOf prev)) log = (log ++ changes prev runs.*1, map (fun _ => true) runs).
Proof.
  revert prev log. induction runs as [|[l b] runs IH]; intros prev log Hp Hr Hinj; csimpl; [by rewrite app_nil_r|].
  apply Forall_cons in Hr as [Hl Hr]. simpl in Hl. unfold _checkPeriodicEventUpdate. simpl.
  destruct (hashOf prev) as [|a h] eqn:Eh; [done|]. rewrite <- Eh in *.
  assert (Hsub : forall l0 l', l0 ∈ l :: runs.*1 -> l' ∈ l :: runs.*1 -> hashOf l0 = hashOf l' -> l0 = l').
  { intros l0 l' H0 H1. apply Hinj; right; done. }
  case_decide as E.
  - subst l. rewrite bool_decide_true by done. simpl. rewrite Eh, <- Eh. rewrite IH by done. done.
  - rewrite bool_decide_false by (intros E'; apply E, Hinj; [set_solver.. | done]). simpl.
    rewrite IH by done. by rewrite <- app_assoc.
Qed.

(** Over any sequence of runs the periodic events are updated exactly in the first
    run and in those whose tenants differ from the run before; only the first run may be
    skipped, when its update has no result. *)
Theorem update_on_change runs tenantIds result :
  Forall (fun r => hashOf r.1 <> EmptyString) ((tenantIds, result) :: runs) ->
  (forall l l', l ∈ tenantIds :: runs.*1 -> l' ∈ tenantIds :: runs.*1 -> hashOf l = hashOf l' -> l = l') ->
  update_runs ((tenantIds, result) :: runs) None [] =
    (tenantIds :: changes tenantIds runs.*1, result :: map (fun _ => true) runs).
Proof.
  intros [Hl Hr]%Forall_cons Hinj. cbn -[changes]. unfold _checkPeriodicEventUpdate. simpl.
  rewrite update_runs_changes by done. done.
Qed.
End update_trace.

(** ** What an update leaves *)

Section planned_tenants.
Context {R T D : Type} `{RedisClient R} `{LockTable T} {ET : EventTable D} {EL : EventTableLaws D}.
Context (lcfg : lockConfig) (cronNext : string -> option string -> Z -> Z) (randomOffsetPeriodicEvents : option Z).
Context (periodicEvents : list eventConfig) (tenantIdFilter : bool) (runInterval : Z).

Abbreviation check_tenant := (_checkPeriodicEventsSingleTenant (D := D) cronNext randomOffsetPeriodicEvents periodicEvents true).
Abbreviation update_all := (_executePeriodicEventsAllTenants (R := R) (T := T) lcfg cronNext randomOffsetPeriodicEvents periodicEvents true tenantIdFilter runInterval).

(** Without the locks of tenants, the table of each tenant is what the check leaves. *)
Lemma update_all_tables input tenantIds l tables :
  lc_redisEnabled lcfg = true -> NoDup tenantIds ->
  (forall t, t ∈ tenantIds -> u_authThrows (input t) = false /\ u_commitFails (input t) = false) ->
  forall t, (update_all input tenantIds (l, tables)).2 t =
    if decide (t ∈ tenantIds) then check_tenant (input t) (tables t) else tables t.
Proof.
  intros Hr. revert tables. induction tenantIds as [|t0 r IH]; intros tables Hn Hok t; simpl; [done|].
  apply NoDup_cons in Hn as [Ht0 Hn]. destruct (Hok t0 ltac:(set_solver)) as [Ha Hc].
  assert (E : forall st, updateTenant lcfg cronNext randomOffsetPeriodicEvents periodicEvents true tenantIdFilter runInterval input st t0 =
    (st.1, set_table t0 (check_tenant (input t0) (st.2 t0)) st.2)).
  { intros [l' tables']. unfold updateTenant. by rewrite Ha, Hr, Hc. }
  unfold _executePeriodicEventsAllTenants in *. simpl. rewrite E. cbn [fst snd]. rewrite IH by (done || set_solver). unfold set_table.
  destruct (decide (t = t0)) as [->|Hne].
  - by rewrite decide_False, !decide_True by set_solver.
  - destruct (decide (t ∈ r)); [rewrite decide_True by set_solver | rewrite decide_False by set_solver]; done.
Qed.

(** C18. With Redis, when the update of the periodic events of all tenants goes ahead (its
    instance gets the lock) and nothing fails for its tenants (their authentication, their
    selections, their inserts, which get new ids, and their commits), then afterwards every
    configured periodic event is planned for every tenant: it has a row that is open or in
    progress, whatever was planned before.  Tables of other tenants stay as they are.  No two
    configured events may have the same type and sub type and differ in their namespace
    only. *)
Theorem all_tenants_planned lockThrows now input tenantIds l tables st' :
  lc_redisEnabled lcfg = true -> NoDup tenantIds -> periodicEvents <> [] ->
  NoDup ((fun p => (ec_type p, ec_subType p)) <$> periodicEvents) ->
  (forall t, t ∈ tenantIds -> u_authThrows (input t) = false /\ u_commitFails (input t) = false /\
     u_selectThrows (input t) = false /\ Inj (=) (=) (u_uuid (input t)) /\ forall i, row (u_uuid (input t) i) (tables t) = None) ->
  _multiTenancyPeriodicEvents lcfg cronNext randomOffsetPeriodicEvents periodicEvents true tenantIdFilter runInterval
    lockThrows now input tenantIds (l, tables) = (st', true) ->
  forall t, if decide (t ∈ tenantIds) then forall p, p ∈ periodicEvents -> is_planned (st'.2 t) p
            else st'.2 t = tables t.
Proof.
  intros Hr Hn Hne Hdist Hok Hrun t.
  assert (E : exists l', st' = update_all input tenantIds (l', tables)).
  { unfold _multiTenancyPeriodicEvents in Hrun. repeat case_match; simplify_eq/=; eauto. }
  destruct E as [l' ->]. rewrite update_all_tables; [|done..|intros u Hu; destruct (Hok u Hu) as (? & ? & _); done].
  case_decide as Ht; [|done]. intros p Hp. destruct (Hok t Ht) as (_ & _ & Hs & Hinj & Hfree).
  unfold _checkPeriodicEventsSingleTenant, updateEnabled. rewrite bool_decide_false, Hs by done. simpl.
  destruct (checked_planned cronNext randomOffsetPeriodicEvents periodicEvents (u_now (input t)) (u_uuid (input t)) (tables t) Hdist Hinj Hfree)
    as (d' & -> & P). by apply P.
Qed.
End planned_tenants.

(** ** What a run queues *)

Lemma checkForNext_limits clk q :
  concurrencyLimit (checkForNext clk q) = concurrencyLimit q /\ nextId (checkForNext clk q) = nextId q.
Proof.
  apply (checkForNext_preserves (fun q' => concurrencyLimit q' = concurrencyLimit q /\ nextId q' = nextId q)); [|done].
  intros s s' (e & _ & _ & -> & _ & _ & _ & ->)%next_start_Some ?. done.
Qed.

Section queued.
Context {D : Type} {ET : EventTable D}.
Context (toString : jsval -> string) (cronParses : jsval -> bool) (cronNext : jsval -> result jsval (Z * Z))
  (validRegex : string -> string -> bool)
  (regexTest : string -> string -> Z -> string -> bool * Z) (cds : cdsEnv)
  (connect : option string -> result jsval (option jsval)).
Context (runInterval globalTxTimeout : Z) (clk : clock).

Abbreviation configured c x :=
  (getEventConfig toString c (JStr (oe_type x)) (JStr (oe_subType x)) (JStr (oe_namespace x))).

(** The combination has a valid configuration whose load is an integer. *)
Definition queueable (c : Config) (x : openEntry) : Prop :=
  exists r load k, configured c x = Some r /\ registered_ok toString cronParses cronNext cds c k r /\ opt r "load" = JNum load.

Definition queuedAs (c : Config) (tenant : option string) (x : openEntry) (id : nat) : option queuedRun :=
  (fun r => mkQueuedRun id tenant (opt r "type") (opt r "subType") (oe_namespace x)) <$> configured c x.

(** The tasks of combinations, numbered from [n]. *)
Fixpoint queuedFrom (c : Config) (n : nat) (l : list (option string * openEntry)) : list queuedRun :=
  match l with
  | [] => []
  | (tenant, x) :: r => option_list (queuedAs c tenant x n) ++ queuedFrom c (S n) r
  end.

Lemma queuedFrom_app c n l1 l2 : queuedFrom c n (l1 ++ l2) = queuedFrom c n l1 ++ queuedFrom c (n + length l1) l2.
Proof.
  revert n. induction l1 as [|[t x] r IH]; intros n; simpl; [by rewrite Nat.add_0_r|].
  rewrite IH, <- app_assoc. by replace (S n + length r)%nat with (n + S (length r))%nat by lia.
Qed.

(** The queue of the instance accepts every registered event. *)
Lemma addToQueue_registered c k r load label increase q :
  registered_ok toString cronParses cronNext cds c k r -> opt r "load" = JNum load ->
  cfg_instanceLoadLimit c = JNum (concurrencyLimit q) ->
  exists q', addToQueue clk (loadOf r) label (priorityOf r) increase q = Ok (nextId q, q') /\
    concurrencyLimit q' = concurrencyLimit q /\ nextId q' = S (nextId q).
Proof.
  intros Hok Hl Hlim. destruct (ro_priority _ _ _ _ _ _ _ Hok) as [p Hp]. pose proof (ro_load _ _ _ _ _ _ _ Hok) as Hload.
  unfold loadOf, priorityOf. rewrite Hl, Hlim in Hload. rewrite Hl, Hp. unfold addToQueue.
  assert (concurrencyLimit q <? load = false) as ->.
  { unfold js_gt, js_number in Hload. apply Z.ltb_ge. zbool. lia. }
  change (default (priority_name Medium) (Some (priority_name p))) with (priority_name p). rewrite priority_of_name_name.
  set (q1 := mkWq _ _ _ _ _ _ _ _). destruct (checkForNext_limits clk q1) as [L1 L2]. eexists. split; [reflexivity|]. by rewrite L1, L2.
Qed.

Lemma queueEvent_ok tenant s x :
  queueable (lr_config s) x -> cfg_instanceLoadLimit (lr_config s) = JNum (concurrencyLimit (lr_queue s)) ->
  let s' := queueEvent toString clk tenant s x in
  lr_config s' = lr_config s /\ lr_last s' = lr_last s /\ concurrencyLimit (lr_queue s') = concurrencyLimit (lr_queue s) /\
  nextId (lr_queue s') = S (nextId (lr_queue s)) /\ lr_unhandled s' = lr_unhandled s /\
  lr_tasks s' = lr_tasks s ++ option_list (queuedAs (lr_config s) tenant x (nextId (lr_queue s))).
Proof.
  intros (r & load & k & Hc & Hok & Hl) Hlim. unfold queueEvent, queuedAs. rewrite Hc.
  destruct (addToQueue_registered (lr_config s) k r load (labelOf toString (oe_namespace x) r)
    (truthy (opt r "increasePriorityOverTime")) (lr_queue s) Hok Hl Hlim) as (q' & -> & L1 & L2).
  cbn [lr_config lr_last lr_queue lr_tasks lr_unhandled]. by rewrite L1, L2.
Qed.

Lemma queueEvents_ok tenant events s :
  Forall (queueable (lr_config s)) events -> cfg_instanceLoadLimit (lr_config s) = JNum (concurrencyLimit (lr_queue s)) ->
  let s' := fold_left (queueEvent toString clk tenant) events s in
  lr_config s' = lr_config s /\ lr_last s' = lr_last s /\ concurrencyLimit (lr_queue s') = concurrencyLimit (lr_queue s) /\
  nextId (lr_queue s') = (nextId (lr_queue s) + length events)%nat /\ lr_unhandled s' = lr_unhandled s /\
  lr_tasks s' = lr_tasks s ++ queuedFrom (lr_config s) (nextId (lr_queue s)) (map (pair tenant) events).
Proof.
  revert s. induction events as [|x r IH]; intros s Hq Hl; simpl; [rewrite Nat.add_0_r, app_nil_r; done|].
  apply Forall_cons in Hq as [Hx Hq]. destruct (queueEvent_ok tenant s x Hx Hl) as (E1 & E2 & E3 & E4 & E5 & E6).
  destruct (IH (queueEvent toString clk tenant s x)) as (I1 & I2 & I3 & I4 & I5 & I6); [by rewrite E1 | by rewrite E1, E3|].
  rewrite I1, I2, I3, I4, I5, I6, E1, E2, E3, E4, E5, E6, <- app_assoc. split_and!; [done..| lia | done | done].
Qed.

(** A run over the tenants queues every combination its queries report as a task of
    its tenant with the configured type and sub type, in order, and none is refused: the
    checks of the registry are those of the worker queue.  The run does not wait for the
    tasks. *)
Theorem open_events_queued tables input tenantIds events s :
  let c := lr_config s in
  (forall t last, t ∈ tenantIds -> exists last',
     getOpenQueueEntries toString cronParses validRegex regexTest cds runInterval globalTxTimeout connect
       true (input t).2 c last (tables t) = Ok (c, last', events t)) ->
  (forall t, t ∈ tenantIds -> (input t).1 = false /\ Forall (queueable c) (events t)) ->
  cfg_instanceLoadLimit c = JNum (concurrencyLimit (lr_queue s)) ->
  let '(s', settled) := _executeEventsAllTenants toString cronParses validRegex regexTest cds connect runInterval globalTxTimeout
                          clk tables input tenantIds s in
  settled = [] /\ lr_unhandled s' = lr_unhandled s /\
  lr_tasks s' = lr_tasks s ++
    queuedFrom c (nextId (lr_queue s)) (flat_map (fun t => map (pair (Some t)) (events t)) tenantIds).
Proof.
  simpl. intros Hq Hok Hl. split; [done|].
  revert s Hq Hok Hl. induction tenantIds as [|t r IH]; intros s Hq Hok Hl; simpl; [by rewrite app_nil_r|].
  destruct (Hok t ltac:(set_solver)) as [Hi He]. destruct (Hq t (lr_last s) ltac:(set_solver)) as [last' Ht].
  unfold localTenant at 2 4. rewrite Hi, Ht.
  destruct (queueEvents_ok (Some t) (events t) (mkLocalRun (lr_config s) last' (lr_queue s) (lr_tasks s) (lr_unhandled s)) He Hl)
    as (E1 & E2 & E3 & E4 & E5 & E6). set (s1 := fold_left _ (events t) _) in *. simpl in E1, E2, E3, E4, E5, E6.
  destruct (IH s1) as [I1 I2].
  - rewrite E1. intros t' last Ht'. apply Hq. set_solver.
  - rewrite E1. intros t' Ht'. apply Hok. set_solver.
  - by rewrite E1, E3.
  - rewrite I1, I2, E1, E4, E5, E6. split; [done|]. rewrite <- app_assoc. f_equal. by rewrite queuedFrom_app, length_map.
Qed.
End queued.

(** ** Failed updates *)

(** A check that cannot insert throws away the plans it has deleted: the error is logged
    within the transaction, which commits. *)
Lemma failed_insert_commits_deletions {D} {ET : EventTable D} cronNext offset periodicEvents i (d : D) :
  periodicEvents <> [] -> u_selectThrows i = false ->
  checkAndInsertPeriodicEvents cronNext offset periodicEvents (u_now i) (u_uuid i) d = None ->
  _checkPeriodicEventsSingleTenant cronNext offset periodicEvents true i d =
    replanDeleted cronNext offset periodicEvents (u_now i) d.
Proof.
  intros Hne Hs Hc. unfold _checkPeriodicEventsSingleTenant, updateEnabled. rewrite bool_decide_false, Hs, Hc by done. done.
Qed.

(** An instance whose first update has no result skips that run and does not try the
    update again while the tenants stay the same. *)
Lemma first_update_not_retried hashOf tenantIds :
  hashOf tenantIds <> EmptyString ->
  update_runs hashOf [(tenantIds, false); (tenantIds, true)] None [] = ([tenantIds], [false; true]).
Proof.
  intros Hh. unfold update_runs, _checkPeriodicEventUpdate. simpl. destruct (hashOf tenantIds) eqn:E; [done|]. rewrite <- E.
  rewrite bool_decide_true by done. done.
Qed.

(** ** Witnesses *)

Definition demoHash (l : list string) : string := join hash2 ("h" :: l).

Lemma update_on_change_witness :
  exists log, update_runs demoHash [(["a"], true); (["a"], true); (["a"; "b"], false)] None [] = (log, [true; true; true]) /\
    log = [["a"]; ["a"; "b"]].
Proof.
  eexists. split.
  - apply (update_on_change demoHash [(["a"], true); (["a"; "b"], false)] ["a"] true).
    + repeat constructor; vm_compute; discriminate.
    + intros l l' Hl Hl'. apply list_elem_of_In in Hl, Hl'. simpl in Hl, Hl'.
      repeat (destruct Hl as [<-|Hl]); try (by destruct Hl); repeat (destruct Hl' as [<-|Hl']); try (by destruct Hl'); vm_compute; congruence.
  - vm_compute. reflexivity.
Defined.

Definition demoUpdateInput (t : string) : updateInput := mkUpdateInput false false 2000 2000 demoUuid false false.
Definition demoUpdateTables (t : string) : memRows := if bool_decide (t = "t1") then demoTicks else ∅.
Definition demoUpdateEvents : list eventConfig := [demoPeriodicConfig "default" 30].

Lemma demoUuid_free t i : row (demoUuid i) (demoUpdateTables t) = None.
Proof.
  unfold demoUpdateTables. case_bool_decide; [|destruct i; vm_compute; reflexivity].
  destruct i as [|i]; [vm_compute; reflexivity|]. destruct i as [|i]; vm_compute; reflexivity.
Qed.

Definition demoUpdate : lstate memStore memStore * (string -> memRows) * bool :=
  _multiTenancyPeriodicEvents demoStatsCfg demoCronAfter None demoUpdateEvents true false 1500000
      false 2000 demoUpdateInput ["t1"; "t2"] (memInit, demoUpdateTables).

Lemma all_tenants_planned_witness :
  demoUpdate.2 = true /\
  is_planned (demoUpdate.1.2 "t1") (demoPeriodicConfig "default" 30) /\
  is_planned (demoUpdate.1.2 "t2") (demoPeriodicConfig "default" 30) /\ demoUpdate.1.2 "t3" = ∅.
Proof.
  assert (E : demoUpdate.2 = true) by (vm_compute; reflexivity). split; [exact E|].
  assert (Hrun : demoUpdate = (demoUpdate.1, true)) by (rewrite <- E; apply surjective_pairing).
  assert (W := all_tenants_planned (R := memStore) (T := memStore) (D := memRows) demoStatsCfg demoCronAfter None demoUpdateEvents false 1500000
    false 2000 demoUpdateInput ["t1"; "t2"] memInit demoUpdateTables demoUpdate.1).
  assert (forall t, if decide (t ∈ ["t1"; "t2"]) then forall p, p ∈ demoUpdateEvents -> is_planned (demoUpdate.1.2 t) p
            else demoUpdate.1.2 t = demoUpdateTables t) as P.
  { apply W; [reflexivity | apply (bool_decide_unpack _); vm_compute; exact I | discriminate | apply NoDup_singleton | | exact Hrun].
    intros t _. split_and!; [reflexivity.. | exact demoUuid_inj | intros i; apply demoUuid_free]. }
  pose proof (P "t1" (demoPeriodicConfig "default" 30)) as P1. pose proof (P "t2" (demoPeriodicConfig "default" 30)) as P2.
  split_and!; [apply P1; left | apply P2; left | exact (P "t3")].
Defined.

(** A registry with one event that every instance processes. *)
Definition demoPlain : obj jsval := [("type", JStr "Mail"); ("subType", JStr "send"); ("impl", JStr "./Mail"); ("load", JNum 5)].
Definition demoPlainCfg : Config :=
  (setFileContent demoCfgString demoCronParses demoCronNext demoValidRegex demoCds [demoPlain] [] demoCfg).1.
Definition demoLocalRun : localRun := mkLocalRun demoPlainCfg [] (WorkerQueue.new (Some 100)) [] 0.

Lemma demoPlain_queueable :
  queueable demoCfgString demoCronParses demoCronNext demoCds demoPlainCfg (mkOpenEntry "default" "Mail" "send" 2).
Proof.
  eexists _, 5, "default##Mail##send". split; [vm_compute; reflexivity|]. split; [|vm_compute; reflexivity].
  split; try (vm_compute; reflexivity).
  - exists Medium. vm_compute. reflexivity.
  - vm_compute. discriminate.
  - vm_compute. discriminate.
  - vm_compute. split; discriminate.
Qed.

Definition demoLocal : localRun * list (settlement jsval unit) :=
  _executeEventsAllTenants demoCfgString demoCronParses demoValidRegex demoRegexTest demoCds demoConnect 1500000 1800000
    (mkClock 0 0) demoTenantTables (fun _ => (false, 2000)) ["t1"; "t2"] demoLocalRun.

Lemma open_events_queued_witness :
  demoLocal.2 = [] /\ lr_unhandled demoLocal.1 = 0%nat /\
  lr_tasks demoLocal.1 = [mkQueuedRun 0 (Some "t1") (JStr "Mail") (JStr "send") "default"].
Proof.
  pose proof (open_events_queued demoCfgString demoCronParses demoCronNext demoValidRegex demoRegexTest demoCds demoConnect 1500000 1800000
    (mkClock 0 0) demoTenantTables (fun _ => (false, 2000)) ["t1"; "t2"]
    (fun t => if bool_decide (t = "t1") then [mkOpenEntry "default" "Mail" "send" 2] else []) demoLocalRun) as W.
  destruct W as (W1 & W2 & W3).
  - intros t last Ht. exists last. apply list_elem_of_In in Ht. simpl in Ht. destruct Ht as [<-|[<-|[]]]; vm_compute; reflexivity.
  - intros t _. split; [reflexivity|]. case_bool_decide; [|constructor]. constructor; [apply demoPlain_queueable | constructor].
  - vm_compute. reflexivity.
  - split; [exact W1|]. split; [exact W2|]. etransitivity; [exact W3|]. vm_compute. reflexivity.
Defined.
