(* ===== verification/Pipeline.v ===== *)
(** * From the table to the end of an event

    The composition of the run over the tenants ([runner/runner.js]), its query
    ([runner/openEvents.js]), the tasks of the worker queue and [processEventQueue.js]: a due
    event of a tenant gets a task, and the task brings the event to an end. *)

From S2P Require Import Prelude Js Errors Config WorkerQueue Common Scheduling DistributedLock Database Processor Settings Selection KeepAlive ProcessEventQueue Lifecycle RunLoop OpenEvents RunnerRedis Runner.
#[local] Open Scope Z_scope.

(** ** What a run over the tenants queues *)

Section queueing.
Context {D : Type} {ET : EventTable D} {EL : EventTableLaws D}.
Context (toString : jsval -> string) (cronParses : jsval -> bool) (cronNext : jsval -> result jsval (Z * Z))
  (validRegex : string -> string -> bool)
  (regexTest : string -> string -> Z -> string -> bool * Z) (cds : cdsEnv)
  (connect : option string -> result jsval (option jsval)).
Context (runInterval globalTxTimeout : Z) (clk : clock).

Abbreviation configOf c x :=
  (getEventConfig toString c (JStr (oe_type x)) (JStr (oe_subType x)) (JStr (oe_namespace x))).
Abbreviation inThisApplication c x :=
  (shouldBeProcessedInThisApplication toString cds regexTest c (oe_type x) (oe_subType x) (JStr (oe_namespace x))).

(** The application processes the combination, whatever its regular expressions matched
    before. *)
Definition application_takes (c : Config) (x : openEntry) : Prop :=
  configOf c x <> None /\ forall last, exists last', inThisApplication c x last = Ok (true, last').

(** The services of CAP with open events are registered. *)
Definition known_service (c : Config) (x : openEntry) : Prop := isCapOutboxEvent (oe_type x) = true -> configOf c x <> None.

Lemma takeEntry_known c last x :
  known_service c x -> exists last' b, takeEntry toString cronParses validRegex regexTest cds connect true x c last = Ok (c, last', b) /\
    (b = true -> configOf c x <> None) /\ (application_takes c x -> b = true).
Proof.
  intros Hk. unfold takeEntry. simpl. destruct (isCapOutboxEvent (oe_type x)) eqn:Cap.
  - specialize (Hk Cap). unfold takeCapEntry. destruct (configOf c x) as [r|] eqn:R; [|done].
    destruct (inThisApplication c x last) as [[b last']|e] eqn:P.
    + exists last', b. split_and!; [done | done |]. intros [_ Ha]. destruct (Ha last) as [l' E]. congruence.
    + exists last, false. split_and!; [done | done |]. intros [_ Ha]. destruct (Ha last) as [l' E]. congruence.
  - destruct (configOf c x) as [r|] eqn:R.
    + destruct (inThisApplication c x last) as [[b last']|e] eqn:P.
      * exists last', b. split_and!; [done | done |]. intros [_ Ha]. destruct (Ha last) as [l' E]. congruence.
      * exfalso. revert P. unfold shouldBeProcessedInThisApplication, normalizeSubType. rewrite Cap. simpl. rewrite R.
        destruct (check_app_names _ _ _ _) as [[go result] l']. destruct go; simpl; [|done]. by destruct (re_appInstancesMap r).
    + exists last, false. split_and!; [done | done |]. by intros [? _].
Qed.

Lemma takeEntries_known l c last :
  Forall (known_service c) l ->
  exists last' l', takeEntries toString cronParses validRegex regexTest cds connect true l c last = Ok (c, last', l') /\
    Forall (fun x => configOf c x <> None) l' /\ forall x, x ∈ l -> application_takes c x -> x ∈ l'.
Proof.
  intros H. revert last. induction H as [|x l Hx _ IH]; intros last; simpl.
  { exists last, []. split_and!; [done | constructor | done]. }
  destruct (takeEntry_known c last x Hx) as (last1 & b & -> & Hb & Ha).
  destruct (IH last1) as (last2 & l' & -> & Hl & Hin). eexists _, _. split; [reflexivity|]. split.
  - destruct b; [constructor; auto | done].
  - intros y [->|Hy]%elem_of_cons Hy'; [rewrite (Ha Hy'); left|]. destruct b; [right|]; auto.
Qed.

(** The registry is sound: every registered event is valid and its load is an integer. *)
Definition sound_registry (c : Config) : Prop := forall x r, configOf c x = Some r ->
  exists k load, registered_ok toString cronParses cronNext cds c k r /\ opt r "load" = JNum load.

(** The task of a combination: it runs the registered type and sub type. *)
Definition task_for (c : Config) (tenant : option string) (x : openEntry) (q : queuedRun) : Prop :=
  exists r, configOf c x = Some r /\ qr_tenant q = tenant /\ qr_type q = opt r "type" /\ qr_subType q = opt r "subType" /\
    qr_namespace q = oe_namespace x.

Lemma queuedFrom_task c n tenant l x :
  x ∈ l -> configOf c x <> None ->
  exists q, q ∈ queuedFrom toString c n (map (pair tenant) l) /\ task_for c tenant x q.
Proof.
  revert n. induction l as [|y l IH]; intros n Hx Hc; [by apply elem_of_nil in Hx|]. simpl.
  apply elem_of_cons in Hx as [<-|Hx].
  - unfold queuedAs. destruct (configOf c x) as [r|] eqn:R; [|done]. simpl.
    eexists. split; [left|]. by exists r.
  - destruct (IH (S n) Hx Hc) as (q & Hq & Ht). exists q. split; [|done]. apply elem_of_app. by right.
Qed.

(** The entries of the query for a table. *)
Definition open_groups (c : Config) (now : Z) (d : D) : list openEntry :=
  group_rows (select_rows (open_row runInterval globalTxTimeout (cfg_processingNamespaces c) now) None d).

Section run.
Context (tables : string -> D) (input : string -> bool * Z) (c : Config).

(** A tenant whose credentials are read and whose CAP services are registered. *)
Definition readable (t : string) : Prop :=
  (input t).1 = false /\ Forall (known_service c) (open_groups c (input t).2 (tables t)).

(** A run in progress. *)
Definition queueing_run (s : localRun) : Prop :=
  lr_config s = c /\ cfg_instanceLoadLimit c = JNum (concurrencyLimit (lr_queue s)).

Abbreviation local := (localTenant toString cronParses validRegex regexTest cds connect runInterval globalTxTimeout clk tables input).

Lemma localTenant_tasks s t :
  sound_registry c -> queueing_run s -> readable t ->
  queueing_run (local s t) /\ (forall q, q ∈ lr_tasks s -> q ∈ lr_tasks (local s t)) /\
  lr_unhandled (local s t) = lr_unhandled s /\
  forall x, x ∈ open_groups c (input t).2 (tables t) -> application_takes c x ->
    exists q, q ∈ lr_tasks (local s t) /\ task_for c (Some t) x q.
Proof.
  intros Hs [Hc Hl] [Hi Hk]. unfold localTenant. rewrite Hi, Hc. unfold getOpenQueueEntries. fold (open_groups c (input t).2 (tables t)).
  destruct (takeEntries_known _ c (lr_last s) Hk) as (last' & l & -> & Hconf & Hin).
  assert (Hq : Forall (queueable toString cronParses cronNext cds c) l).
  { eapply Forall_impl; [exact Hconf|]. intros x Hx. unfold queueable. destruct (configOf c x) as [r|] eqn:R; [|done].
    destruct (Hs x r R) as (k & load & ? & ?). by exists r, load, k. }
  destruct (queueEvents_ok toString cronParses cronNext cds clk (Some t) l
    (mkLocalRun c last' (lr_queue s) (lr_tasks s) (lr_unhandled s)) Hq Hl) as (E1 & _ & E3 & _ & E5 & E6).
  simpl in E1, E3, E5, E6. split_and!.
  - split; [exact E1 | by rewrite E3].
  - intros q Hq'. rewrite E6. apply elem_of_app. by left.
  - exact E5.
  - intros x Hx Ha. destruct (queuedFrom_task c (nextId (lr_queue s)) (Some t) l x (Hin x Hx Ha) (proj1 Ha)) as (q & Hq' & Ht).
    exists q. split; [|done]. rewrite E6. apply elem_of_app. by right.
Qed.

Lemma run_tasks tenantIds s t x :
  sound_registry c -> queueing_run s -> Forall readable tenantIds -> t ∈ tenantIds ->
  x ∈ open_groups c (input t).2 (tables t) -> application_takes c x ->
  let s' := (_executeEventsAllTenants toString cronParses validRegex regexTest cds connect runInterval globalTxTimeout
               clk tables input tenantIds s).1 in
  lr_unhandled s' = lr_unhandled s /\ exists q, q ∈ lr_tasks s' /\ task_for c (Some t) x q.
Proof.
  intros Hs Hrun Hr Ht Hx Ha. simpl.
  assert (K : forall l s0, Forall readable l -> queueing_run s0 ->
    (forall q, q ∈ lr_tasks s0 -> q ∈ lr_tasks (fold_left local l s0)) /\
    lr_unhandled (fold_left local l s0) = lr_unhandled s0).
  { induction l as [|u l IH]; intros s0 Hl H0; simpl; [done|]. apply Forall_cons in Hl as [Hu Hl].
    destruct (localTenant_tasks s0 u Hs H0 Hu) as (R1 & R2 & R3 & _). destruct (IH _ Hl R1) as [I1 I2]. split; [auto | congruence]. }
  split; [by apply K|]. revert s Hrun. induction Hr as [|u l Hu Hl IH]; intros s Hrun; [by apply elem_of_nil in Ht|]. simpl.
  destruct (localTenant_tasks s u Hs Hrun Hu) as (R1 & _ & _ & R4).
  apply elem_of_cons in Ht as [<-|Ht]; [|by apply IH].
  destruct (R4 x Hx Ha) as (q & Hq & Htask). exists q. split; [|done]. by apply K.
Qed.
End run.

(** A due event is in an entry of the query. *)
Lemma due_event_group c cfg delayed now (d : D) id e :
  row id d = Some e -> selectable cfg runInterval now delayed e = true -> ev_namespace e ∈ cfg_processingNamespaces c ->
  now - 30 * MS_IN_DAYS <= ev_createdAt e \/ since (now - 30 * MS_IN_DAYS) (ev_startAfter e) = true ->
  (has_status InProgress e = true -> until (now - globalTxTimeout) (ev_lastAttempt e) = true) ->
  exists x, x ∈ open_groups c now d /\ of_entry x e = true.
Proof.
  intros Hr Hsel Hn Ha Hp. apply (gr_complete _ _ (group_rows_grouped _)).
  destruct (select_complete (open_row runInterval globalTxTimeout (cfg_processingNamespaces c) now) None d id e Hr)
    as [He|(m & Hm & _)]; [by eapply selectable_open | done | discriminate].
Qed.
End queueing.

(** ** What the task does *)

Section processing.
Context {D W R T : Type} {ET : EventTable D} {EL : EventTableLaws D} `{RedisLaws R} `{LockTableLaws T}.
Context (toISOString : Z -> string) (toString stringify : jsval -> string)
  (dateParse : string -> option Z) (stackOf : jsval -> string) (jsonParse : jsval -> option jsval).
Context (lcfg : lockConfig) (cfg : eventConfig) (tenant : option string) (runInterval : Z).
Context (check : event -> W -> result jsval jsval)
  (processEvent : string -> list event -> jsval -> W -> W * bool * result jsval jsval)
  (hook : event -> W -> W * option jsval) (before : W -> option jsval).

(** [processEventQueue] with its loop, for an event that is not periodic and not blocked and
    whose class is found, under the settings [c]; the iterations [its] of the run. *)
Definition run_task (c : eventConfig) (start end_ : Z) (its : list iteration) (sched : scheduler) (db : D * W) (l : lockState R T)
    : lockState R T * (list pstate * (D * W) * scheduler * bool) * bool :=
  processEventQueue lcfg c tenant true false start end_ ([], db, sched, true)
    (fun _ => process_loop toISOString toString stringify dateParse stackOf jsonParse c tenant runInterval
                check processEvent hook before its [] sched db) l.

Lemma run_task_over c start end_ its sched (db : D * W) l :
  Exists (fun i => ec_startTime c + runInterval <= it_end i) its -> (run_task c start end_ its sched db l).1.2.2 = true.
Proof.
  intros Hl. unfold run_task, processEventQueue. cbn [negb]. destruct (acquireDistributedLock lcfg c tenant start l) as [l' [|]]; cbn; [|done].
  by apply loop_ends.
Qed.

(** A run of the task whose lock is free and that has the time it takes comes to its end,
    and the event has its turn unless the run ends before. *)
Lemma task_ends_event now start end_ its sched (db : D * W) e l :
  0 < (ec_keepAliveMaxInProgressTime cfg).2 -> 0 < round_ms (keepAliveMaxMs cfg) -> commitOnEventLevel cfg = true ->
  ec_isPeriodic cfg = false -> 0 < selectMaxChunkSize cfg ->
  selectable cfg runInterval now [] e = true -> ev_attempts e < retryAttempts cfg ->
  (forall t, ev_startAfter e = Some t -> t <= now) -> ec_startTime cfg <= start ->
  Forall clean_iteration its -> Forall (fun i => now <= it_base i) its -> row (ev_ID e) db.1 = Some e ->
  ec_multiInstance cfg = true \/
  module_busy lcfg (lk_service l) (processorLockKey lcfg tenant (ec_namespace cfg) (ec_type cfg) (ec_subType cfg))
    (keepAliveMaxMs cfg) start = false ->
  let c := with_startTime start cfg in
  exists l' instances db' sched' finished,
    run_task c start end_ its sched db l = (l', (instances, db', sched', finished), true) /\
    (Exists (fun i => start + runInterval <= it_end i) its -> finished = true) /\
    (finished = true -> run_outcome c runInterval its [] sched db.1 instances db'.1 e).
Proof.
  intros Hk Hx Hi Hp Hm Hs Ha Hst Hstart Hc Hb Hr Hl c. unfold run_task.
  destruct (run_free lcfg c tenant start end_ ([], db, sched, true) (fun _ => process_loop toISOString toString stringify dateParse stackOf
    jsonParse c tenant runInterval check processEvent hook before its [] sched db) l Hx Hl) as [l' ->].
  pose proof (loop_ends toISOString toString stringify dateParse stackOf jsonParse c tenant runInterval check processEvent hook before
    its [] sched db) as E.
  pose proof (loop_turn toISOString toString stringify dateParse stackOf jsonParse c tenant runInterval check processEvent hook before
    Hi Hp now its [] sched db e Hm Ha) as O.
  destruct (process_loop _ _ _ _ _ _ c _ _ _ _ _ _ its [] sched db) as [[[insts db'] sched'] fin].
  exists l', insts, db', sched', fin. split; [done|]. split; [exact E|]. intros F. apply O; try done; [|by apply not_elem_of_nil].
  intros base ids Hbase Hids. by apply (selectable_later cfg runInterval now).
Qed.
End processing.

(** ** The composition *)

Section composition.
Context {D W R T : Type} {ET : EventTable D} {EL : EventTableLaws D} `{RedisLaws R} `{LockTableLaws T}.
Context (toISOString : Z -> string) (toString stringify : jsval -> string)
  (dateParse : string -> option Z) (stackOf : jsval -> string) (jsonParse : jsval -> option jsval).
Context (cronParses : jsval -> bool) (cronNext : jsval -> result jsval (Z * Z)) (validRegex : string -> string -> bool)
  (regexTest : string -> string -> Z -> string -> bool * Z) (cds : cdsEnv)
  (connect : option string -> result jsval (option jsval)).
Context (lcfg : lockConfig) (cfg : eventConfig) (runInterval globalTxTimeout : Z) (clk : clock).
Context (check : event -> W -> result jsval jsval)
  (processEvent : string -> list event -> jsval -> W -> W * bool * result jsval jsval)
  (hook : event -> W -> W * option jsval) (before : W -> option jsval).

(** A due event of the table [d] with attempts left, which the query of a run at [now]
    counts: it is not older than thirty days, and if it is in progress the transaction
    timeout of its attempt has passed. *)
Record due_event (c : Config) (now : Z) (d : D) (e : event) : Prop := {
  due_row : row (ev_ID e) d = Some e;
  due_selectable : selectable cfg runInterval now [] e = true;
  due_attempts : ev_attempts e < retryAttempts cfg;
  due_started t : ev_startAfter e = Some t -> t <= now;
  due_namespace : ev_namespace e ∈ cfg_processingNamespaces c;
  due_recent : now - 30 * MS_IN_DAYS <= ev_createdAt e \/ since (now - 30 * MS_IN_DAYS) (ev_startAfter e) = true;
  due_idle : has_status InProgress e = true -> until (now - globalTxTimeout) (ev_lastAttempt e) = true }.

(** The combination of an event, as an entry of the query. *)
Definition entryOf (e : event) : openEntry := mkOpenEntry (ev_namespace e) (ev_type e) (ev_subType e) 1.

(** The task of the event's combination at [tenant], run at a later time: if the event is
    as it was, the lock of its configuration is free and the transactions of the run commit
    (those of the clusters may fail), the run comes to its end, and the event has had its turn (it was taken with one attempt more, and then open again, done,
    error or exceeded was written for it), unless somebody else has taken it over, or all
    chunks the run had time for were full of earlier events. *)
Definition brought_to_end (tenant : string) (now : Z) (e : event) : Prop :=
  forall start end_ its sched (db : D * W) l,
    ec_startTime cfg <= start -> Forall clean_iteration its -> Forall (fun i => now <= it_base i) its ->
    Exists (fun i => start + runInterval <= it_end i) its -> row (ev_ID e) db.1 = Some e ->
    module_busy lcfg (lk_service l) (processorLockKey lcfg (Some tenant) (ec_namespace cfg) (ec_type cfg) (ec_subType cfg))
      (keepAliveMaxMs cfg) start = false ->
    let cfg' := with_startTime start cfg in
    exists l' instances db' sched',
      run_task toISOString toString stringify dateParse stackOf jsonParse lcfg (Some tenant) runInterval check processEvent hook before
        cfg' start end_ its sched db l = (l', (instances, db', sched', true), true) /\
      run_outcome cfg' runInterval its [] sched db.1 instances db'.1 e.

(** The run over the tenants queues a task for the event which brings it to an end. *)
Definition worked_off (tables : string -> D) (input : string -> bool * Z) (tenantIds : list string) (c : Config) (s : localRun)
    (tenant : string) (e : event) : Prop :=
  let s' := (_executeEventsAllTenants toString cronParses validRegex regexTest cds connect runInterval globalTxTimeout
               clk tables input tenantIds s).1 in
  lr_unhandled s' = lr_unhandled s /\
  exists q, q ∈ lr_tasks s' /\ task_for toString c (Some tenant) (entryOf e) q /\ brought_to_end tenant (input tenant).2 e.

(** What the run needs: a sound registry, readable tenants, and an application that takes
    the combination; the settings of the processor are those of the registry, for an ad-hoc
    event with a keep-alive and a transaction for each event. *)
Record run_conditions (tables : string -> D) (input : string -> bool * Z) (tenantIds : list string) (c : Config) (s : localRun)
    (tenant : string) (e : event) : Prop := {
  rc_registry : sound_registry toString cronParses cronNext cds c;
  rc_run : queueing_run c s;
  rc_readable : Forall (readable toString runInterval globalTxTimeout tables input c) tenantIds;
  rc_tenant : tenant ∈ tenantIds;
  rc_takes : application_takes toString regexTest cds c (entryOf e);
  rc_settings : exists r, getEventConfig toString c (JStr (ev_type e)) (JStr (ev_subType e)) (JStr (ev_namespace e)) = Some r /\
    eventSettings (ec_startTime cfg) (ev_type e) (ev_subType e) r = Some cfg;
  rc_keepAlive : 0 < ec_keepAliveInterval cfg;
  rc_isolated : commitOnEventLevel cfg = true;
  rc_adHoc : ec_isPeriodic cfg = false;
  rc_chunk : 0 < selectMaxChunkSize cfg }.

Lemma due_worked_off tables input tenantIds t e c s :
  run_conditions tables input tenantIds c s t e -> due_event c (input t).2 (tables t) e ->
  worked_off tables input tenantIds c s t e.
Proof.
  intros [Hs Hr Ht Hin Ha (r & Hreg & Hset) Hka Hi Hp Hm] [D1 D2 D3 D4 D5 D6 D7].
  destruct (Hs (entryOf e) r Hreg) as (k & load & Hok & _).
  destruct (lock_expiry toString cronParses cronNext cds c _ _ _ k r cfg Hok Hset) as (Hx & _ & Hk). destruct (Hk Hka) as [Hk' _].
  destruct (due_event_group runInterval globalTxTimeout c cfg [] _ _ _ _ D1 D2 D5 D6 D7) as (x & Hx1 & Hx2).
  apply of_entry_true in Hx2 as (X1 & X2 & X3). destruct x as [xn xt xs n]. simpl in X1, X2, X3. subst xt xs xn.
  destruct (run_tasks toString cronParses cronNext validRegex regexTest cds connect runInterval globalTxTimeout clk
    tables input c tenantIds s t _ Hs Hr Ht Hin Hx1 Ha) as (U & q & Hq & Htask).
  split; [exact U|]. exists q. split; [exact Hq|]. split; [exact Htask|].
  intros start end_ its sched db l Hst Hc Hb Hlate Hrow Hf cfg'.
  destruct (task_ends_event toISOString toString stringify dateParse stackOf jsonParse lcfg cfg (Some t) runInterval check
    processEvent hook before (input t).2 start end_ its sched db e l) as (l' & insts & db' & sched' & fin & E & F & O);
    try done; [rewrite Hx; lia | by right|].
  rewrite (F Hlate) in E. exists l', insts, db', sched'. split; [exact E | by apply O, F].
Qed.
(** C12. A due event is worked off: the run over the tenants queues a task of its tenant
    for its combination, and when that task runs, the event unchanged, its lock free and the
    transactions of the run itself committed, the run ends, and by then the event was taken
    with one attempt more and came to an end (open again, done, error or exceeded was written
    for it), whatever the handlers do and however many events come before it; unless somebody
    else has taken it over, or all chunks the run had time for were full of earlier events. *)
Theorem due_event_ends tables input tenantIds t e c s :
  run_conditions tables input tenantIds c s t e -> due_event c (input t).2 (tables t) e ->
  worked_off tables input tenantIds c s t e.
Proof. apply due_worked_off. Qed.
End composition.

(** ** Witness *)

Lemma demoPlain_sound : sound_registry demoCfgString demoCronParses demoCronNext demoCds demoPlainCfg.
Proof.
  intros x r Hr. destruct demoPlain_queueable as (r0 & load & k & Hr0 & Hok & Hload).
  enough (r = r0) as -> by eauto.
  assert (E : exists v, cfg_eventMap demoPlainCfg = [("default##Mail##send", v)] /\ v = r0).
  { unfold getEventConfig in Hr0. vm_compute in Hr0. injection Hr0 as <-. eexists. split; vm_compute; reflexivity. }
  destruct E as (v & E & ->). unfold getEventConfig in Hr. rewrite E in Hr. simpl in Hr. by case_decide; simplify_eq.
Qed.

Definition demoEntry : openEntry := mkOpenEntry "default" "Mail" "send" 1.

Definition demoIterations : list iteration :=
  [mkIteration 3000 3001 3002 3003 3004 clean_end clean_end [] [RunCluster 3002 clean_end clean_end "a"] clean_end clean_end;
   mkIteration 3005 3006 3007 3008 1503000 clean_end clean_end [] [] clean_end clean_end].

Lemma due_event_ends_witness :
  exists q l' instances db' sched',
    q ∈ lr_tasks demoLocal.1 /\ task_for demoCfgString demoPlainCfg (Some "t1") demoEntry q /\
    run_task demoISO demoCfgString demoStringify demoParse demoStack demoParseJson (demoConfig true) (Some "t1") 1500000
      demoCheck demoHandler demoHook demoBefore (with_startTime 3000 demoSettings) 3000 1503000 demoIterations newScheduler
      (demoOpenRows, 0) (mkLockState memInit false 0) = (l', (instances, db', sched', true), true) /\
    exists e', row "a" db'.1 = Some e' /\ had_turn (demoRow "a" 0 0 5) e'.
Proof.
  destruct (due_event_ends demoISO demoCfgString demoStringify demoParse demoStack demoParseJson demoCronParses demoCronNext
    demoValidRegex demoRegexTest demoCds demoConnect (demoConfig true) demoSettings 1500000 1800000 (mkClock 0 0)
    demoCheck demoHandler demoHook demoBefore demoTenantTables (fun _ => (false, 2000)) ["t1"; "t2"] "t1" (demoRow "a" 0 0 5)
    demoPlainCfg demoLocalRun) as (_ & q & Hq & Ht & Hrun).
  - split; [apply demoPlain_sound | split; vm_compute; reflexivity | | left | | eexists; split; vm_compute; reflexivity | reflexivity | reflexivity | reflexivity | reflexivity].
    + repeat constructor; intros Hc; vm_compute in Hc; discriminate Hc.
    + split; [discriminate|]. intros last. exists last. vm_compute. reflexivity.
  - split; try (vm_compute; reflexivity); try discriminate; [vm_compute; left | left; vm_compute; discriminate].
  - destruct (Hrun 3000 1503000 demoIterations newScheduler (demoOpenRows, 0) (mkLockState memInit false 0))
      as (l' & insts & db' & sched' & E & O); try (vm_compute; reflexivity); [vm_compute; discriminate | | | |].
    + repeat constructor.
    + repeat constructor; vm_compute; discriminate.
    + right. left. vm_compute. discriminate.
    + exists q, l', insts, db', sched'. split; [exact Hq|]. split; [exact Ht|]. split; [exact E|].
      destruct O as [O|[O|(_ & (i & [= <-] & O & _) & _)]]; [exact O | | vm_compute in O; discriminate O].
      assert (M : map outdatedEventMap (l', (insts, db', sched', true), true).1.2.1.1.1 = [[]; []]).
      { rewrite <- E. vm_compute. reflexivity. }
      cbn [fst snd] in M. clear E.
      destruct insts as [|s1 [|s2 [|]]]; try discriminate M. injection M as E1 E2.
      apply Exists_cons in O as [O|O]; [rewrite E1 in O; discriminate O|].
      apply Exists_cons in O as [O|O]; [rewrite E2 in O; discriminate O | by apply Exists_nil in O].
Defined.
