(* ===== verification/EndToEnd.v ===== *)
(** * From the publication to the end of an event

    What a transaction has published is a row of the event table once it is committed
    ([publishEvent.js], the entity of [db/Event.cds]), and such a row is worked off by the
    runs ([Pipeline]). *)

From S2P Require Import Prelude Js Errors Config WorkerQueue Common Publish Scheduling DistributedLock Database Processor Settings Selection KeepAlive ProcessEventQueue Lifecycle RunLoop OpenEvents RunnerRedis Runner Pipeline.
#[local] Open Scope Z_scope.

(** ** The entity *)

Section entity.
(** The database's reading of a timestamp. *)
Context (dateParse : string -> option Z).

(** The value of a column: [None] is a violation of its type or of [not null]. *)
Definition text_column (v : jsval) : option (option string) :=
  match v with JStr x => Some (Some x) | JNull | JUndef => Some None | _ => None end.
Definition required_text (v : jsval) : option string := match v with JStr x => Some x | _ => None end.
Definition integer_column (default_ : Z) (v : jsval) : option Z :=
  match v with JNum z => Some z | JUndef => Some default_ | _ => None end.
Definition timestamp_column (v : jsval) : option (option Z) :=
  match v with
  | JUndef | JNull => Some None
  | JStr x => match dateParse x with Some t => Some (Some t) | None => None end
  | JDate (Some t) => Some (Some t)
  | _ => None
  end.
Definition large_column (v : jsval) : option jsval :=
  match v with JStr _ => Some v | JNull | JUndef => Some JNull | _ => None end.

(** The row of an entry: the key is generated, the columns have their defaults, and
    [createdAt] is the time of the transaction. *)
Definition insertedRow (uuid : string) (now : Z) (e : obj jsval) : option event :=
  type_ ← required_text (prop e "type");
  subType ← required_text (prop e "subType");
  referenceEntity ← text_column (prop e "referenceEntity");
  referenceEntityKey ← text_column (prop e "referenceEntityKey");
  status ← integer_column (status_code Open) (prop e "status");
  payload ← large_column (prop e "payload");
  attempts ← integer_column 0 (prop e "attempts");
  lastAttempt ← timestamp_column (prop e "lastAttemptTimestamp");
  createdAt ← timestamp_column (coalesce (prop e "createdAt") (JDate (Some now)));
  startAfter ← timestamp_column (prop e "startAfter");
  context ← large_column (prop e "context");
  error ← large_column (prop e "error");
  namespace ← required_text (if is_undefined (prop e "namespace") then JStr "default" else prop e "namespace");
  Some (mkEvent (default uuid (required_text (prop e "ID"))) type_ subType referenceEntity referenceEntityKey status payload attempts
          lastAttempt (default now createdAt) startAfter context error namespace).

(** The rows of the entries of a transaction. *)
Definition insertedRows (uuid : nat -> string) (now : Z) (entries : list (obj jsval)) : option (list event) :=
  mapM (fun x => x) (imap (fun i e => insertedRow (uuid i) now e) entries).

Lemma insertedRows_elem uuid now entries rows e :
  insertedRows uuid now entries = Some rows -> e ∈ entries -> exists i r, insertedRow (uuid i) now e = Some r /\ r ∈ rows.
Proof.
  unfold insertedRows. intros H%mapM_Some He. apply list_elem_of_lookup in He as [i Hi].
  assert (L : imap (fun i e => insertedRow (uuid i) now e) entries !! i = Some (insertedRow (uuid i) now e))
    by (rewrite list_lookup_imap, Hi; done).
  destruct (Forall2_lookup_l _ _ _ _ _ H L) as (r & Hr & E). exists i, r. split; [done|]. by eapply list_elem_of_lookup_2.
Qed.

(** A publication that leaves the bookkeeping to the event queue. *)
Definition plain_entry (e : obj jsval) : Prop :=
  prop e "status" = JUndef /\ prop e "attempts" = JUndef /\ prop e "lastAttemptTimestamp" = JUndef /\ prop e "createdAt" = JUndef.

Lemma insertedRow_columns uuid now e r :
  insertedRow uuid now e = Some r -> plain_entry e ->
  prop e "type" = JStr (ev_type r) /\ prop e "subType" = JStr (ev_subType r) /\
  (is_undefined (prop e "namespace") = false -> prop e "namespace" = JStr (ev_namespace r)) /\
  timestamp_column (prop e "startAfter") = Some (ev_startAfter r) /\
  ev_status r = status_code Open /\ ev_attempts r = 0 /\ ev_lastAttempt r = None /\ ev_createdAt r = now.
Proof.
  intros H (P1 & P2 & P3 & P4). unfold insertedRow in H. rewrite P1, P2, P3, P4 in H.
  assert (T : forall v x, required_text v = Some x -> v = JStr x) by (intros [] ?; simpl; congruence).
  repeat match type of H with
  | _ ≫= _ = Some _ => apply bind_Some in H as (? & ? & H)
  end.
  simplify_eq/=. split_and!; auto. destruct (is_undefined (prop e "namespace")); [discriminate | auto].
Qed.
End entity.

(** ** What a publication keeps *)

Section publication.
Context (toString : jsval -> string) (stringify : jsval -> jsval) (dateParse : string -> option Z)
  (cronNextISO : jsval -> result jsval string) (c : Config).

(** The completed event: the payload, the context, the start and the namespace may be
    filled in, the rest is the publisher's. *)
Definition completes (ev ev' : obj jsval) : Prop :=
  (forall k, k ∉ ["payload"; "context"; "startAfter"; "namespace"] -> prop ev' k = prop ev k) /\
  prop ev' "namespace" = if is_undefined (prop ev "namespace") then cfg_namespace c else prop ev "namespace".

Lemma prepareEvent_completes o trace ev ev' :
  prepareEvent toString stringify dateParse cronNextISO c o trace ev = Ok ev' -> completes ev ev'.
Proof.
  unfold prepareEvent. destruct (_ && negb _); [done|]. destruct (truthy _ && negb _); [done|].
  destruct (match getEventConfig _ _ _ _ _ with Some r => _ | None => _ end); [done|].
  set (ev1 := if is_string _ then ev else _).
  assert (H1 : forall k, k <> "payload" -> prop ev1 k = prop ev k)
    by (intros; unfold ev1; destruct (is_string _); rewrite ?prop_oset_ne by congruence; done).
  clearbody ev1. set (ev2 := if addTraceContext o then _ else ev1).
  assert (H2 : forall k, k <> "payload" -> k <> "context" -> prop ev2 k = prop ev k)
    by (intros; unfold ev2; destruct (addTraceContext o); rewrite ?prop_oset_ne by congruence; auto).
  clearbody ev2.
  assert (G : forall ev3, (forall k, k ∉ ["payload"; "context"; "startAfter"] -> prop ev3 k = prop ev k) ->
    completes ev (oset "namespace" (if is_undefined (prop ev3 "namespace") then cfg_namespace c else prop ev3 "namespace") ev3)).
  { intros ev3 H3. rewrite H3 by elem_lit. split; [|by rewrite prop_oset_eq]. intros k Hk.
    rewrite !not_elem_of_cons in Hk. rewrite prop_oset_ne by naive_solver. apply H3. rewrite !not_elem_of_cons. naive_solver. }
  destruct (truthy _ && negb _).
  - destruct (cronNextISO _) as [iso|]; [|done]. intros [= <-]. apply G. intros k Hk. rewrite !not_elem_of_cons in Hk.
    rewrite prop_oset_ne by naive_solver. apply H2; naive_solver.
  - intros [= <-]. apply G. intros k Hk. rewrite !not_elem_of_cons in Hk. apply H2; naive_solver.
Qed.

Lemma prepareEvents_completes o trace evs evs' :
  prepareEvents toString stringify dateParse cronNextISO c o trace evs = Ok evs' -> Forall2 completes evs evs'.
Proof.
  revert evs'. induction evs as [|ev evs IH]; intros evs'; simpl; [intros [= <-]; constructor|].
  destruct (prepareEvent _ _ _ _ _ _ _ ev) as [ev'|] eqn:E; [|done].
  destruct (prepareEvents _ _ _ _ _ _ _ evs) as [r'|]; [|done]. intros [= <-]. constructor; [by eapply prepareEvent_completes | by apply IH].
Qed.

(** Every event of a committed transaction is among the inserted entries, completed. *)
Lemma published_entry ibc skipInsert calls t entries combinations k ev :
  (forall k, k ∈ calls -> skipInsertEventsBeforeCommit k.1.1 = skipInsert) ->
  publishAll toString stringify dateParse cronNextISO c true ibc calls newTx = (t, None) ->
  commitTx toString c None t = Some (entries, combinations) ->
  k ∈ calls -> ev ∈ k.2 -> exists ev', ev' ∈ entries /\ completes ev ev'.
Proof.
  intros Hs Hp Hc Hk Hev.
  destruct (published_committed toString stringify dateParse cronNextISO c false ibc skipInsert calls t) as (b & cs & F & C & _); [|done|].
  { intros k' Hk'. by split; [apply Hs|]. }
  rewrite C in Hc. injection Hc as <- <-. apply list_elem_of_lookup in Hk as [i Hi].
  destruct (Forall2_lookup_l _ _ _ _ _ F Hi) as (evs' & Hb & P). apply prepareEvents_completes in P.
  apply list_elem_of_lookup in Hev as [j Hj]. destruct (Forall2_lookup_l _ _ _ _ _ P Hj) as (ev' & Hj' & Cm).
  exists ev'. split; [|done]. apply list_elem_of_In, in_concat. exists evs'.
  split; apply list_elem_of_In; by eapply list_elem_of_lookup_2.
Qed.
End publication.

(** ** A published event is worked off *)

Section end_to_end.
Context {D W R T : Type} {ET : EventTable D} {EL : EventTableLaws D} `{RedisLaws R} `{LockTableLaws T}.
Context (toISOString : Z -> string) (toString stringify : jsval -> string)
  (dateParse : string -> option Z) (stackOf : jsval -> string) (jsonParse : jsval -> option jsval).
Context (stringifyPayload : jsval -> jsval) (cronNextISO : jsval -> result jsval string).
Context (cronParses : jsval -> bool) (cronNext : jsval -> result jsval (Z * Z)) (validRegex : string -> string -> bool)
  (regexTest : string -> string -> Z -> string -> bool * Z) (cds : cdsEnv)
  (connect : option string -> result jsval (option jsval)).
Context (lcfg : lockConfig) (cfg : eventConfig) (runInterval globalTxTimeout : Z) (clk : clock).
Context (check : event -> W -> result jsval jsval)
  (processEvent : string -> list event -> jsval -> W -> W * bool * result jsval jsval)
  (hook : event -> W -> W * option jsval) (before : W -> option jsval).

(** A row as it was inserted is due from its start on, for thirty days. *)
Lemma inserted_due c now (d : D) e :
  0 < runInterval -> 0 < retryAttempts cfg ->
  ev_type e = ec_type cfg -> ev_subType e = ec_subType cfg -> ev_namespace e = ec_namespace cfg ->
  ev_namespace e ∈ cfg_processingNamespaces c ->
  row (ev_ID e) d = Some e -> ev_status e = status_code Open -> ev_attempts e = 0 -> ev_lastAttempt e = None ->
  (forall t, ev_startAfter e = Some t -> t <= now) -> now <= ev_createdAt e + 30 * MS_IN_DAYS ->
  due_event cfg runInterval globalTxTimeout c now d e.
Proof.
  intros Hi Hr E1 E2 E3 Hn Hrow Hs Ha Hl Hst Hc. split; try done; [ | lia | left; lia | unfold has_status; rewrite Hs; discriminate].
  unfold selectable, has_status. rewrite E1, E2, E3, Hs, Hl, !bool_decide_true by done. cbn [andb].
  assert (S : match ev_startAfter e with None => true | Some t => t <=? refDateStartAfter runInterval now end = true).
  { destruct (ev_startAfter e) as [t|]; [|done]. specialize (Hst t eq_refl). apply Z.leb_le. unfold refDateStartAfter, date_trunc.
    pose proof (quot5_ge (5 * now + 6 * runInterval)). lia. }
  rewrite S. unfold id_in. rewrite (bool_decide_false (_ ∈ [])) by apply not_elem_of_nil.
  by rewrite orb_true_r.
Qed.

(** What a committed transaction has published is an open row of the table. *)
Lemma published_row ibc skipInsert calls tx entries combinations uuid now0 rows (d d' : D) k ev c type_ subType namespace :
  (forall k, k ∈ calls -> skipInsertEventsBeforeCommit k.1.1 = skipInsert) ->
  publishAll toString stringifyPayload dateParse cronNextISO c true ibc calls newTx = (tx, None) ->
  commitTx toString c None tx = Some (entries, combinations) ->
  insertedRows dateParse uuid now0 entries = Some rows ->
  NoDup (ev_ID <$> rows) -> Forall (fun e => row (ev_ID e) d = None) rows -> insert_rows rows d = Some d' ->
  k ∈ calls -> ev ∈ k.2 -> plain_entry ev ->
  prop ev "type" = JStr type_ -> prop ev "subType" = JStr subType ->
  (if is_undefined (prop ev "namespace") then cfg_namespace c else prop ev "namespace") = JStr namespace ->
  exists ev' e, ev' ∈ entries /\ prop ev' "type" = JStr type_ /\ prop ev' "subType" = JStr subType /\
    prop ev' "namespace" = JStr namespace /\ row (ev_ID e) d' = Some e /\
    ev_type e = type_ /\ ev_subType e = subType /\ ev_namespace e = namespace /\
    ev_status e = status_code Open /\ ev_attempts e = 0 /\ ev_createdAt e = now0 /\ ev_lastAttempt e = None.
Proof.
  intros Hs Hp Hc Hrows Hn Hf Hins Hk Hev Hpl Ht Hsub Hns.
  destruct (published_entry toString stringifyPayload dateParse cronNextISO c ibc skipInsert calls tx entries combinations k ev)
    as (ev' & Hev' & Hkeep & Hns'); [done..|].
  destruct (insertedRows_elem dateParse uuid now0 entries rows ev' Hrows Hev') as (i & e & He & Hin).
  destruct (insertedRow_columns dateParse (uuid i) now0 ev' e He) as (C1 & C2 & C3 & _ & C5 & C6 & C7 & C8).
  { destruct Hpl as (P1 & P2 & P3 & P4). by split_and!; rewrite Hkeep by elem_lit. }
  rewrite Hns in Hns'. rewrite Hns' in C3. specialize (C3 eq_refl).
  pose proof (Hkeep "type" ltac:(elem_lit)) as K1. pose proof (Hkeep "subType" ltac:(elem_lit)) as K2.
  exists ev', e. split; [done|]. split_and!; try congruence.
  destruct (insert_row rows d Hn Hf) as (d1 & I1 & I2). rewrite Hins in I1. injection I1 as <-. rewrite I2.
  assert (F : List.find (fun e0 => bool_decide (ev_ID e0 = ev_ID e)) rows = Some e); [|by rewrite F].
  clear -Hn Hin. induction rows as [|r rows IH]; [by apply elem_of_nil in Hin|]. simpl. csimpl in Hn. apply NoDup_cons in Hn as [Hr Hn].
  apply elem_of_cons in Hin as [<-|Hin]; [by rewrite bool_decide_true|]. rewrite bool_decide_false; [by apply IH|].
  intros E. apply Hr. rewrite E. apply list_elem_of_fmap. eauto.
Qed.

(** C11. The way of a published event without a broadcast, under these conditions.
    - The transaction: all its publications use the same [skipInsertEventsBeforeCommit]; it
      commits, and its rows get new ids.
    - The event: a publisher gives no status, attempts or times of its own; its namespace is
      processed and its settings allow an attempt.
    - The run over the tenants is at most thirty days after the publication and not before the
      start of the event, and the row is as it was inserted.
    - The run ([run_conditions]): it goes ahead with a sound registry, can read the tables of
      its tenants, and the application is responsible for the combination; the settings
      are those of the registry, for an ad-hoc event with a transaction of its own and a
      keep-alive.
    Then each event of the transaction is an open row with the type, the sub type and the
    namespace of the publication, and the run queues a task for it.  If the row is still
    unchanged and the lock of the event is free when the task starts, the transactions
    of the run itself commit (those of the handlers may fail) and the last of its iterations
    ends after the run time, the run comes to its end; and then the event has had its turn
    (it was taken with one attempt more, and a status was written for it), unless the
    keep-alive found it taken over by somebody else, or earlier events filled the chunks the
    run took and it took no further one, by its configuration or because its time was over. *)
Theorem published_event_ends ibc skipInsert calls tx entries combinations uuid now0 rows (d d' : D) k ev c :
  (* the transaction *)
  (forall k, k ∈ calls -> skipInsertEventsBeforeCommit k.1.1 = skipInsert) ->
  publishAll toString stringifyPayload dateParse cronNextISO c true ibc calls newTx = (tx, None) ->
  commitTx toString c None tx = Some (entries, combinations) ->
  insertedRows dateParse uuid now0 entries = Some rows ->
  NoDup (ev_ID <$> rows) -> Forall (fun e => row (ev_ID e) d = None) rows -> insert_rows rows d = Some d' ->
  (* the event *)
  k ∈ calls -> ev ∈ k.2 -> plain_entry ev -> 0 < runInterval -> 0 < retryAttempts cfg ->
  prop ev "type" = JStr (ec_type cfg) -> prop ev "subType" = JStr (ec_subType cfg) ->
  (if is_undefined (prop ev "namespace") then cfg_namespace c else prop ev "namespace") = JStr (ec_namespace cfg) ->
  ec_namespace cfg ∈ cfg_processingNamespaces c ->
  exists e, row (ev_ID e) d' = Some e /\
    ev_type e = ec_type cfg /\ ev_subType e = ec_subType cfg /\ ev_namespace e = ec_namespace cfg /\
    ev_status e = status_code Open /\ ev_attempts e = 0 /\ ev_createdAt e = now0 /\
    forall tables input tenantIds t s,
      row (ev_ID e) (tables t) = Some e ->
      (forall start, ev_startAfter e = Some start -> start <= (input t).2) -> (input t).2 <= now0 + 30 * MS_IN_DAYS ->
      run_conditions toString cronParses cronNext regexTest cds cfg runInterval globalTxTimeout tables input tenantIds c s t e ->
      worked_off toISOString toString stringify dateParse stackOf jsonParse cronParses validRegex regexTest cds connect lcfg cfg
        runInterval globalTxTimeout clk check processEvent hook before tables input tenantIds c s t e.
Proof.
  intros Hs Hp Hc Hrows Hn Hf Hins Hk Hev Hpl Hi Hr Ht Hsub Hns Hproc.
  destruct (published_row ibc skipInsert calls tx entries combinations uuid now0 rows d d' k ev c (ec_type cfg) (ec_subType cfg)
    (ec_namespace cfg)) as (_ & e & _ & _ & _ & _ & Hrow' & E1 & E2 & E3 & E4 & E5 & E6 & E7); [done..|].
  exists e. split_and!; try done. intros tables input tenantIds t s Hrow Hst Hage Hcond.
  eapply (due_worked_off toISOString toString stringify dateParse stackOf jsonParse cronParses cronNext); [done|].
  apply inserted_due; try done; [by rewrite E3 | lia].
Qed.
End end_to_end.

(** ** Witness *)

Definition demoSent : obj jsval := [("type", JStr "Mail"); ("subType", JStr "send"); ("payload", JStr "{}")].
Definition demoSentRow : event :=
  mkEvent "id" "Mail" "send" None None 0 (JStr "{}") 0 None 1000 None (JStr "{}") JNull "default".
Definition demoSentTable : memRows := {[ "id" := demoSentRow ]}.
Definition demoSentTables (t : string) : memRows := if bool_decide (t = "t1") then demoSentTable else ∅.
Definition demoSentCalls : list call := [(defaultOptions, JNull, [demoSent])].

Lemma demoSentTable_row e : row (ev_ID e) demoSentTable = Some e -> e = demoSentRow.
Proof.
  intros Hrow. change (mem_row (ev_ID e) demoSentTable = Some e) in Hrow. unfold mem_row in Hrow.
  destruct (demoSentTable !! ev_ID e) as [r|] eqn:L; [|discriminate].
  unfold demoSentTable in L. apply lookup_singleton_Some in L as [_ <-]. simpl in Hrow. by repeat case_match; simplify_eq.
Qed.

Lemma published_event_ends_witness :
  exists tx entries combinations,
    publishAll demoCfgString demoStringifyJson demoDateParse demoCronISO demoPlainCfg true true demoSentCalls newTx = (tx, None) /\
    commitTx demoCfgString demoPlainCfg None tx = Some (entries, combinations) /\
    insertedRows demoDateParse (fun _ => "id") 1000 entries = Some [demoSentRow] /\
    exists e, row (ev_ID e) demoSentTable = Some e /\
      worked_off demoISO demoCfgString demoStringify demoDateParse demoStack demoParseJson demoCronParses demoValidRegex demoRegexTest
        demoCds demoConnect (demoConfig true) demoSettings 1500000 1800000 (mkClock 0 0)
        demoCheck demoHandler demoHook demoBefore demoSentTables (fun _ => (false, 2000)) ["t1"] demoPlainCfg demoLocalRun "t1" e.
Proof.
  do 3 eexists. split; [vm_compute; reflexivity|]. split; [vm_compute; reflexivity|]. split; [vm_compute; reflexivity|].
  destruct (published_event_ends demoISO demoCfgString demoStringify demoDateParse demoStack demoParseJson demoStringifyJson demoCronISO
    demoCronParses demoCronNext demoValidRegex demoRegexTest demoCds demoConnect (demoConfig true) demoSettings
    1500000 1800000 (mkClock 0 0) demoCheck demoHandler demoHook demoBefore true false demoSentCalls
    (publishAll demoCfgString demoStringifyJson demoDateParse demoCronISO demoPlainCfg true true demoSentCalls newTx).1
    (default ([], []) (commitTx demoCfgString demoPlainCfg None
      (publishAll demoCfgString demoStringifyJson demoDateParse demoCronISO demoPlainCfg true true demoSentCalls newTx).1)).1
    (default ([], []) (commitTx demoCfgString demoPlainCfg None
      (publishAll demoCfgString demoStringifyJson demoDateParse demoCronISO demoPlainCfg true true demoSentCalls newTx).1)).2
    (fun _ => "id") 1000 [demoSentRow] (∅ : memRows) demoSentTable (defaultOptions, JNull, [demoSent]) demoSent demoPlainCfg)
    as (e & Hrow & _ & _ & _ & _ & _ & _ & Hend).
  - intros k Hk. apply list_elem_of_singleton in Hk as ->. reflexivity.
  - vm_compute. reflexivity.
  - vm_compute. reflexivity.
  - vm_compute. reflexivity.
  - apply NoDup_singleton.
  - repeat constructor.
  - vm_compute. reflexivity.
  - left.
  - left.
  - repeat split.
  - reflexivity.
  - reflexivity.
  - reflexivity.
  - reflexivity.
  - vm_compute. reflexivity.
  - vm_compute. left.
  - apply demoSentTable_row in Hrow as ->.
    exists demoSentRow. split; [vm_compute; reflexivity|]. apply Hend.
    + vm_compute. reflexivity.
    + discriminate.
    + vm_compute. discriminate.
    + split; [apply demoPlain_sound | split; vm_compute; reflexivity | | left | | eexists; split; vm_compute; reflexivity | reflexivity | reflexivity | reflexivity | reflexivity].
      * repeat constructor; intros Hc; vm_compute in Hc; discriminate Hc.
      * split; [discriminate|]. intros last. exists last. vm_compute. reflexivity.
Defined.
