(* ===== verification/RedisSub.v ===== *)
(** * Messages between instances ([redis/redisSub.js], [shared/redis/], [runner/runnerHelper.js])

    Broadcast combinations are messages on a channel per namespace; every instance that
    processes the namespace receives them and puts the combination into its worker queue.
    Redis delivers a message to the subscribers of its channel; [JSON] is a parameter. *)

From S2P Require Import Prelude Js Errors Config WorkerQueue Common Publish DistributedLock Stats OpenEvents Runner.
From stdpp Require pretty.

Local Open Scope Z_scope.

(** ** Channels *)

Definition EVENT_MESSAGE_CHANNEL : string := "EVENT_QUEUE_MESSAGE_CHANNEL".
Definition REDIS_OFFBOARD_TENANT_CHANNEL : string := "REDIS_OFFBOARD_TENANT_CHANNEL".

(** [channelWithNamespace] of [subscribeRedisChannel] and [publishMessage]. *)
Definition channelWithNamespace (lcfg : lockConfig) (channel : string) : string :=
  join hash2 [redisNamespace lcfg false; channel].

Definition messageChannel (lcfg : lockConfig) (namespace : string) : string :=
  channelWithNamespace lcfg (join hash2 [namespace; EVENT_MESSAGE_CHANNEL]).

Inductive handler : Type := ProcessEvents | Unsubscribe.

(** The subscriptions of an instance, and [initEventQueueRedisSubscribe._initDone]. *)
Record subscriber := mkSubscriber {
  sub_initDone : bool;
  sub_channels : list (string * handler) }.

(** [initEventQueueRedisSubscribe()] *)
Definition initEventQueueRedisSubscribe (lcfg : lockConfig) (processingNamespaces : list string) (s : subscriber) : subscriber :=
  if sub_initDone s || negb (lc_redisEnabled lcfg) then s
  else mkSubscriber true
    (sub_channels s ++ map (fun namespace => (messageChannel lcfg namespace, ProcessEvents)) processingNamespaces).

(** [attachRedisUnsubscribeHandler()] *)
Definition attachRedisUnsubscribeHandler (lcfg : lockConfig) (s : subscriber) : subscriber :=
  mkSubscriber (sub_initDone s) (sub_channels s ++ [(channelWithNamespace lcfg REDIS_OFFBOARD_TENANT_CHANNEL, Unsubscribe)]).

(** The handlers Redis calls at an instance for a message on [channel]. *)
Definition delivered (channel : string) (s : subscriber) : list handler :=
  (List.filter (fun c => bool_decide (c.1 = channel)) (sub_channels s)).*2.

(** ** Messages *)

Definition opt_json (o : option string) : jsval := match o with Some x => JStr x | None => JNull end.

(** The object [broadcastEvent] publishes. *)
Definition eventMessage (lockId : string) (tenantId : option string) (e : string * string * string) : jsval :=
  JObj [("lockId", JStr lockId); ("tenantId", opt_json tenantId); ("type", JStr e.1.1); ("subType", JStr e.1.2);
        ("namespace", JStr e.2)].

(** The messages of a broadcast: the channel and the text for every combination;
    [uuid i] is the id of the [i]-th. *)
Definition publishMessages (lcfg : lockConfig) (stringify : jsval -> string) (uuid : nat -> string) (tenantId : option string)
    (evs : list (string * string * string)) : list (string * string) :=
  imap (fun i e => (messageChannel lcfg e.2, stringify (eventMessage (uuid i) tenantId e))) evs.

Definition offboardMessage (tenantId : string) : jsval := JObj [("tenantId", JStr tenantId)].

(** [handleUnsubscribe(tenantId)]: a message with Redis, the handlers of this instance
    without. *)
Definition handleUnsubscribe {W} (lcfg : lockConfig) (stringify : jsval -> string)
    (handlers : list (string -> W -> W * option jsval)) (tenantId : string) (cw : Config * W) : option (string * string) * (Config * W) :=
  if lc_redisEnabled lcfg
  then (Some (channelWithNamespace lcfg REDIS_OFFBOARD_TENANT_CHANNEL, stringify (offboardMessage tenantId)), cw)
  else (None, executeUnsubscribeHandlers handlers tenantId cw).

(** The handler of the offboarding channel; a message that cannot be read is logged. *)
Definition unsubscribeHandler {W} (parse : string -> result jsval jsval) (handlers : list (string -> W -> W * option jsval))
    (messageData : string) (cw : Config * W) : Config * W :=
  match parse messageData with
  | Ok v => match read_field v "tenantId" with Ok (JStr tenantId) => executeUnsubscribeHandlers handlers tenantId cw | _ => cw end
  | Err _ => cw
  end.

(** ** runEventCombinationForTenant *)

Inductive combinationRun : Type :=
| RunNow
| RunQueued (id : nat) (q : wq)
| RunFailed.

(** [runEventCombinationForTenant(context, type, subType, namespace, { skipWorkerPool })]
    up to the processing: it runs at once, as a task of the worker queue, or an error was
    logged. *)
Definition runEventCombinationForTenant (toString : jsval -> string) (skipWorkerPool : bool) (clk : clock) (c : Config)
    (type_ subType namespace : string) (q : wq) : combinationRun :=
  if skipWorkerPool then RunNow
  else
    match getEventConfig toString c (JStr type_) (JStr subType) (JStr namespace) with
    | None => RunFailed
    | Some r =>
      match addToQueue clk (loadOf r) (type_ +:+ "_" +:+ subType) (priorityOf r) (truthy (opt r "increasePriorityOverTime")) q with
      | Ok (id, q) => RunQueued id q
      | Err _ => RunFailed
      end
    end.

Section task.
Context {R T : Type} `{RedisClient R} `{LockTable T} (lcfg : lockConfig).

(** [_exec] of the task: whether [processEventQueue] is called. *)
Definition _exec (multiInstanceProcessing : bool) (lockId tenant : option string) (lockThrows : bool) (now : Z) (l : lstate R T)
    : lstate R T * bool :=
  match (if multiInstanceProcessing then None else lockId) with
  | Some (String _ _ as lockId) =>
    if lockThrows then (l, false)
    else acquireLock lcfg now tenant lockId true (lc_globalTxTimeout lcfg, 1) false false l
  | _ => (l, true)
  end.
End task.

(** ** The message handler *)

Section handler.
Context (toString : jsval -> string) (cronParses : jsval -> bool) (validRegex : string -> string -> bool)
  (regexTest : string -> string -> Z -> string -> bool * Z) (cds : cdsEnv)
  (connect : option string -> result jsval (option jsval)) (parse : string -> result jsval jsval).

(** A call of [runEventCombinationForTenant]. *)
Record combinationCall := mkCombinationCall {
  cc_lockId : jsval; cc_tenant : jsval; cc_type : string; cc_subType : string; cc_namespace : jsval }.

(** The instance: [isTenantIdValidCb], [isEventQueueActive] and whether reading the
    credentials throws. *)
Record subInput := mkSubInput {
  si_tenantValid : jsval -> bool;
  si_active : bool;
  si_authThrows : bool }.

(** The combination gets a configuration if it has none: a CAP service is registered on
    demand.  [None]: the message is skipped. *)
Definition ensureConfig (type_ subType : string) (namespace : jsval) (c : Config) : option Config :=
  let n := normalizeSubType cds type_ subType in
  match getEventConfig toString c (JStr type_) (JStr subType) namespace with
  | Some _ => Some c
  | None =>
    if isCapOutboxEvent type_ then
      match connect (n_srvName n) with
      | Ok (Some options) =>
        match n_actionName n with
        | Some (String _ _) => None
        | _ =>
          match addCAPServiceWithoutEnvConfig toString cronParses validRegex cds subType options [] c with
          | (c, None) => Some c
          | (_, Some _) => None
          end
        end
      | _ => None
      end
    else None
  end.

(** [_messageHandlerProcessEvents(messageData)]: what is thrown is logged.  Messages are
    written by [broadcastEvent], their type and sub type are strings. *)
Definition _messageHandlerProcessEvents (i : subInput) (messageData : string) (c : Config) (last : obj Z)
    : Config * obj Z * option combinationCall :=
  match parse messageData with
  | Ok v =>
    match read_field v "type", field v "subType" with
    | Ok (JStr type_), JStr subType =>
      let namespace := field v "namespace" in
      if negb (si_tenantValid i (field v "tenantId")) then (c, last, None)
      else if negb (si_active i) then (c, last, None)
      else
        match ensureConfig type_ subType namespace c with
        | None => (c, last, None)
        | Some c =>
          match getEventConfig toString c (JStr type_) (JStr subType) namespace with
          | None => (c, last, None)
          | Some _ =>
            match shouldBeProcessedInThisApplication toString cds regexTest c type_ subType namespace last with
            | Err _ => (c, last, None)
            | Ok (false, last) => (c, last, None)
            | Ok (true, last) =>
              if si_authThrows i then (c, last, None)
              else (c, last, Some (mkCombinationCall (field v "lockId") (field v "tenantId") type_ subType namespace))
            end
          end
        end
    | _, _ => (c, last, None)
    end
  | Err _ => (c, last, None)
  end.
End handler.

(** ** Delivery *)

Section delivery.
Context (lcfg : lockConfig).

Lemma messageChannel_parts ns :
  messageChannel lcfg ns = redisNamespace lcfg false +:+ hash2 +:+ ns +:+ hash2 +:+ EVENT_MESSAGE_CHANNEL.
Proof. done. Qed.

Lemma messageChannel_inj ns ns' : messageChannel lcfg ns = messageChannel lcfg ns' -> ns = ns'.
Proof. rewrite !messageChannel_parts. by intros E%append_inj_str%append_inj_str%append_inj_r_str. Qed.

Lemma delivered_spec (channels : list (string * handler)) done_ ch h :
  h ∈ delivered ch (mkSubscriber done_ channels) <-> (ch, h) ∈ channels.
Proof.
  unfold delivered. simpl. rewrite list_elem_of_fmap. split.
  - intros ([c h'] & -> & Hin%list_elem_of_In). apply filter_In in Hin as [Hin E]. apply bool_decide_eq_true in E. simpl in E. subst.
    by apply list_elem_of_In.
  - intros Hin. exists (ch, h). split; [done|]. apply list_elem_of_In, filter_In. split; [by apply list_elem_of_In|].
    by apply bool_decide_eq_true.
Qed.

(** The channels of namespaces and the one of offboarded tenants are different. *)
Lemma offboard_channel_other ns : messageChannel lcfg ns <> channelWithNamespace lcfg REDIS_OFFBOARD_TENANT_CHANNEL.
Proof.
  rewrite messageChannel_parts. unfold channelWithNamespace. cbn [join]. intros E%append_inj_str%append_inj_str.
  pose proof (f_equal (fun s => String.get (String.length s - 9) s) E) as G. cbn beta in G.
  assert (L : forall a b, String.length b = 29%nat -> String.get (String.length (a +:+ b) - 9) (a +:+ b) = String.get 20 b).
  { intros a b Hb. rewrite length_append_str, Hb. replace (String.length a + 29 - 9)%nat with (20 + String.length a)%nat by lia.
    symmetry. apply String.append_correct2. }
  rewrite (L ns) in G by done. discriminate.
Qed.
End delivery.

Section messages.
Context (lcfg : lockConfig) (toString : jsval -> string) (cronParses : jsval -> bool) (validRegex : string -> string -> bool)
  (regexTest : string -> string -> Z -> string -> bool * Z) (cds : cdsEnv)
  (connect : option string -> result jsval (option jsval)) (stringify : jsval -> string) (parse : string -> result jsval jsval).

(** The handlers a message on the channel of a namespace reaches. *)
Lemma namespace_delivered processingNamespaces namespace :
  lc_redisEnabled lcfg = true ->
  let s := attachRedisUnsubscribeHandler lcfg (initEventQueueRedisSubscribe lcfg processingNamespaces (mkSubscriber false [])) in
  (ProcessEvents ∈ delivered (messageChannel lcfg namespace) s <-> namespace ∈ processingNamespaces) /\
  Unsubscribe ∉ delivered (messageChannel lcfg namespace) s.
Proof.
  intros Hr. unfold initEventQueueRedisSubscribe, attachRedisUnsubscribeHandler. rewrite Hr. simpl. rewrite !delivered_spec.
  setoid_rewrite elem_of_app. setoid_rewrite list_elem_of_singleton. setoid_rewrite list_elem_of_fmap. split; [split|].
  - intros [(ns & E & Hin)|E]; apply pair_equal_spec in E as [E E']; [|done]. by apply messageChannel_inj in E as ->.
  - intros Hin. left. by exists namespace.
  - intros [(ns & E & _)|E]; apply pair_equal_spec in E as [E E']; [done|]. by apply offboard_channel_other in E.
Qed.

(** The handler of an active instance that is responsible for the event and its tenant. *)
Lemma message_handled lockId tenantId message type_ subType namespace r i c last last' :
  parse message = Ok (eventMessage lockId tenantId (type_, subType, namespace)) ->
  getEventConfig toString c (JStr type_) (JStr subType) (JStr namespace) = Some r ->
  shouldBeProcessedInThisApplication toString cds regexTest c type_ subType (JStr namespace) last = Ok (true, last') ->
  si_tenantValid i (opt_json tenantId) = true -> si_active i = true -> si_authThrows i = false ->
  _messageHandlerProcessEvents toString cronParses validRegex regexTest cds connect parse i message c last =
    (c, last', Some (mkCombinationCall (JStr lockId) (opt_json tenantId) type_ subType (JStr namespace))).
Proof.
  intros Hp Hc Ha Hv Hact Hauth. unfold _messageHandlerProcessEvents. rewrite Hp. set (v := eventMessage _ _ _).
  change (read_field v "type") with (@Ok jsval _ (JStr type_)). change (field v "subType") with (JStr subType).
  change (field v "namespace") with (JStr namespace). change (field v "tenantId") with (opt_json tenantId).
  change (field v "lockId") with (JStr lockId). cbv iota zeta. rewrite Hv, Hact. cbn [negb].
  unfold ensureConfig. by rewrite Hc, Hc, Ha, Hauth.
Qed.

(** C24. A broadcast combination arrives: its message is delivered to the handler of
    exactly those instances that process its namespace, and an active instance that is
    responsible for the event and its tenant runs the same combination for the same
    tenant under the lock id of the message. *)
Theorem message_reaches_processors uuid tenantId evs k type_ subType namespace r processingNamespaces i c last last' :
  lc_redisEnabled lcfg = true ->
  evs !! k = Some (type_, subType, namespace) ->
  parse (stringify (eventMessage (uuid k) tenantId (type_, subType, namespace))) =
    Ok (eventMessage (uuid k) tenantId (type_, subType, namespace)) ->
  getEventConfig toString c (JStr type_) (JStr subType) (JStr namespace) = Some r ->
  shouldBeProcessedInThisApplication toString cds regexTest c type_ subType (JStr namespace) last = Ok (true, last') ->
  si_tenantValid i (opt_json tenantId) = true -> si_active i = true -> si_authThrows i = false ->
  exists channel message,
    publishMessages lcfg stringify uuid tenantId evs !! k = Some (channel, message) /\
    (ProcessEvents ∈ delivered channel (attachRedisUnsubscribeHandler lcfg
       (initEventQueueRedisSubscribe lcfg processingNamespaces (mkSubscriber false []))) <-> namespace ∈ processingNamespaces) /\
    Unsubscribe ∉ delivered channel (attachRedisUnsubscribeHandler lcfg
       (initEventQueueRedisSubscribe lcfg processingNamespaces (mkSubscriber false []))) /\
    _messageHandlerProcessEvents toString cronParses validRegex regexTest cds connect parse i message c last =
      (c, last', Some (mkCombinationCall (JStr (uuid k)) (opt_json tenantId) type_ subType (JStr namespace))).
Proof.
  intros Hr Hk Hp Hc Ha Hv Hact Hauth. eexists _, _. unfold publishMessages. rewrite list_lookup_imap, Hk. split; [done|].
  destruct (namespace_delivered processingNamespaces namespace Hr) as [D1 D2]. split; [exact D1|]. split; [exact D2|].
  by apply (message_handled _ _ _ _ _ _ r).
Qed.

(** An offboarding message makes the receiver run its handlers for the tenant. *)
Lemma offboard_reaches {W} (handlers : list (string -> W -> W * option jsval)) tenantId cw cw0 :
  lc_redisEnabled lcfg = true ->
  parse (stringify (offboardMessage tenantId)) = Ok (offboardMessage tenantId) ->
  exists message,
    handleUnsubscribe lcfg stringify handlers tenantId cw0 =
      (Some (channelWithNamespace lcfg REDIS_OFFBOARD_TENANT_CHANNEL, message), cw0) /\
    unsubscribeHandler parse handlers message cw = executeUnsubscribeHandlers handlers tenantId cw.
Proof.
  intros Hr Hp. eexists. unfold handleUnsubscribe. rewrite Hr. split; [done|]. unfold unsubscribeHandler. by rewrite Hp.
Qed.
End messages.

(** ** One instance per message *)

Section once.
Context {R T : Type} `{RedisLaws R} `{LockTable T} (lcfg : lockConfig).

(** The tasks of the instances that received a message, at the times they start. *)
Fixpoint tasks_of (lockId : string) (tenant : option string) (times : list Z) (l : lstate R T) : list bool :=
  match times with
  | [] => []
  | t :: r => let '(l, b) := _exec lcfg false (Some lockId) tenant false t l in b :: tasks_of lockId tenant r l
  end.

Context (Hredis : lc_redisEnabled lcfg = true) (Hpos : 0 < lc_globalTxTimeout lcfg).

Lemma round_timeout : round_ms (lc_globalTxTimeout lcfg, 1) = lc_globalTxTimeout lcfg.
Proof. unfold round_ms, math_round_div. simpl. Z.to_euclidean_division_equations. lia. Qed.

(** A task takes the lock of the message if it is free, and leaves a held one. *)
Lemma exec_lock lockId tenant t (l : lstate R T) :
  lockId <> EmptyString ->
  let key := DistributedLock.generateKey lcfg tenant true lockId false in
  let '(l', b) := _exec lcfg false (Some lockId) tenant false t l in
  match r_get t key (ls_redis l) with
  | Some _ => b = false /\ forall t', t <= t' -> r_get t' key (ls_redis l') = r_get t' key (ls_redis l)
  | None => b = true /\ forall t', t <= t' < t + lc_globalTxTimeout lcfg -> is_Some (r_get t' key (ls_redis l'))
  end.
Proof.
  intros Hne key. destruct lockId as [|a lockId]; [done|]. unfold _exec, acquireLock, acquireLockRedis. rewrite Hredis, round_timeout.
  fold key. simpl.
  pose proof (r_set_ok t key (pretty.pretty t) (lc_globalTxTimeout lcfg) SetNX (ls_redis l) Hpos) as Hok.
  pose proof (fun t' => r_set_get t key (pretty.pretty t) (lc_globalTxTimeout lcfg) SetNX (ls_redis l) t' key Hpos) as Hget.
  destruct (r_set _ _ _ _ _ _) as [r ok]. simpl in Hok, Hget. subst ok.
  destruct (r_get t key (ls_redis l)); simpl in *; (split; [done|]); intros t' Ht'; rewrite Hget by lia; [done|].
  rewrite decide_True, (proj2 (Z.ltb_lt t' _)) by (done || lia). eauto.
Qed.

(** While the lock is held, no further task processes the message. *)
Lemma held_tasks lockId tenant c e times (l : lstate R T) :
  lockId <> EmptyString -> Sorted Z.le (c :: times) -> Forall (fun t' => t' < e) times ->
  (forall t', c <= t' < e -> is_Some (r_get t' (DistributedLock.generateKey lcfg tenant true lockId false) (ls_redis l))) ->
  tasks_of lockId tenant times l = map (fun _ => false) times.
Proof.
  intros Hne. revert c l. induction times as [|t r IH]; intros c l Hs Hf Held; [done|].
  apply Sorted_inv in Hs as [Hs Hd]. apply HdRel_inv in Hd. apply Forall_cons in Hf as [Ht Hf].
  cbn [tasks_of map]. pose proof (exec_lock lockId tenant t l Hne) as E.
  destruct (Held t) as [v Hv]; [lia|].
  destruct (_exec _ _ _ _ _ _ _) as [l2 b]. cbn zeta in E. rewrite Hv in E. destruct E as [-> Heq]. f_equal.
  apply (IH t); [done..|]. intros t' Ht'. rewrite Heq by lia. apply Held. lia.
Qed.

(** A message is processed once: of the instances that receive it, whatever their
    number and order, exactly the first whose task starts processes the combination, as
    long as they start within the lifetime of the message's lock. *)
Theorem message_processed_once lockId tenant t times l :
  lockId <> EmptyString ->
  Sorted Z.le (t :: times) -> Forall (fun t' => t' < t + lc_globalTxTimeout lcfg) times ->
  r_get t (DistributedLock.generateKey lcfg tenant true lockId false) (ls_redis l) = None ->
  tasks_of lockId tenant (t :: times) l = true :: map (fun _ => false) times.
Proof.
  intros Hne Hs Hf Hfree. cbn [tasks_of]. pose proof (exec_lock lockId tenant t l Hne) as E.
  destruct (_exec _ _ _ _ _ _ _) as [l' b]. cbn zeta in E. rewrite Hfree in E. destruct E as [-> Held]. f_equal.
  by apply (held_tasks lockId tenant t (t + lc_globalTxTimeout lcfg)).
Qed.
End once.

(** ** Witnesses *)

Definition demoMessage : jsval := eventMessage "id1" (Some "t1") ("Mail", "send", "default").
Definition demoMessageText (v : jsval) : string := "message".
Definition demoMessageParse (s : string) : result jsval jsval :=
  if bool_decide (s = "message") then Ok demoMessage else Err (JErr "SyntaxError" "unexpected token").

Lemma message_reaches_processors_witness :
  exists channel message,
    publishMessages demoStatsCfg demoMessageText (fun _ => "id1") (Some "t1") [("Mail", "send", "default")] !! 0%nat = Some (channel, message) /\
    (ProcessEvents ∈ delivered channel (attachRedisUnsubscribeHandler demoStatsCfg
       (initEventQueueRedisSubscribe demoStatsCfg ["default"; "other"] (mkSubscriber false []))) <-> "default" ∈ ["default"; "other"]) /\
    Unsubscribe ∉ delivered channel (attachRedisUnsubscribeHandler demoStatsCfg
       (initEventQueueRedisSubscribe demoStatsCfg ["default"; "other"] (mkSubscriber false []))) /\
    _messageHandlerProcessEvents demoCfgString demoCronParses demoValidRegex demoRegexTest demoCds demoConnect demoMessageParse
      (mkSubInput (fun _ => true) true false) message demoPlainCfg [] =
      (demoPlainCfg, [], Some (mkCombinationCall (JStr "id1") (JStr "t1") "Mail" "send" (JStr "default"))).
Proof.
  eapply (message_reaches_processors demoStatsCfg demoCfgString demoCronParses demoValidRegex demoRegexTest demoCds demoConnect
    demoMessageText demoMessageParse (fun _ => "id1") (Some "t1") [("Mail", "send", "default")] 0 "Mail" "send" "default");
    vm_compute; reflexivity.
Defined.

Lemma message_processed_once_witness :
  tasks_of demoStatsCfg "id1" (Some "t1") [1000; 1000; 2000] memInit = [true; false; false] /\
  r_get 1000 (DistributedLock.generateKey demoStatsCfg (Some "t1") true "id1" false) (ls_redis memInit) = None.
Proof.
  split; [|vm_compute; reflexivity].
  apply (message_processed_once (R := memStore) (T := memStore) demoStatsCfg eq_refl ltac:(vm_compute; reflexivity)
    "id1" (Some "t1") 1000 [1000; 2000] memInit).
  - discriminate.
  - repeat constructor; lia.
  - repeat constructor.
  - vm_compute. reflexivity.
Defined.
