(* ===== verification/MessagePath.v ===== *)
(** * A message from its broadcast to the end of its events

    The way of a broadcast combination through a fleet of instances: the message on the
    channel of its namespace ([redis/redisPub.js]), the handler of every instance that
    receives it ([redis/redisSub.js]), the task in the worker queue of the instance and the
    lock of the message ([runner/runnerHelper.js]), the run ([processEventQueue.js]).

    The instances share Redis, the lock table and the database; their handlers and tasks
    are the steps of a transition system, which may be interleaved in any order.  A task is
    two steps: it takes the lock of the message, then it runs. *)

From S2P Require Import Prelude Js Errors Config WorkerQueue Common Publish Scheduling DistributedLock Database Processor Selection KeepAlive ProcessEventQueue Lifecycle RunLoop Settings OpenEvents RunnerRedis Runner Pipeline RedisSub.
#[local] Open Scope Z_scope.

#[export] Instance handler_eq_dec : EqDecision handler.
Proof. solve_decision. Defined.

(** ** The fleet *)

Section fleet.
Context {D W R T : Type} {ET : EventTable D} `{RedisClient R} `{LockTable T}.
Context (toISOString : Z -> string) (toString stringify : jsval -> string)
  (dateParse : string -> option Z) (stackOf : jsval -> string) (jsonParse : jsval -> option jsval).
Context (cronParses : jsval -> bool) (validRegex : string -> string -> bool)
  (regexTest : string -> string -> Z -> string -> bool * Z) (cds : cdsEnv)
  (connect : option string -> result jsval (option jsval)) (parse : string -> result jsval jsval).
Context (lcfg : lockConfig) (runInterval : Z) (clk : clock).
Context (check : event -> W -> result jsval jsval)
  (processEvent : string -> list event -> jsval -> W -> W * bool * result jsval jsval)
  (hook : event -> W -> W * option jsval) (before : W -> option jsval).
(** The message and its channel. *)
Context (channel message : string).

(** An instance: the namespaces it processes, what the handler asks it, its registry, the
    state of its regular expressions, its worker queue, the locks it tracks and its
    scheduler. *)
Record member := mkMember {
  mb_namespaces : list string;
  mb_input : subInput;
  mb_config : Config;
  mb_last : obj Z;
  mb_queue : wq;
  mb_locks : obj (option string);
  mb_scheduler : scheduler }.

(** How far the message has come at an instance: not received, not for this instance,
    queued as a task, turned away by the lock of the message, holding this lock, run (the
    start of the run, its iterations, their processors and whether the lock of the event was
    free). *)
Inductive progress : Type :=
| Waiting
| Ignored
| Queued (call : combinationCall)
| Turned
| Holding (call : combinationCall)
| Finished (start : Z) (its : list iteration) (instances : list pstate) (ran : bool).

Definition subscriptions (m : member) : subscriber :=
  attachRedisUnsubscribeHandler lcfg (initEventQueueRedisSubscribe lcfg (mb_namespaces m) (mkSubscriber false [])).

(** The message arrives: the handler, up to [addToQueue]. *)
Definition receive (m : member) : member * progress :=
  if bool_decide (ProcessEvents ∈ delivered channel (subscriptions m)) then
    let '(c, last, call) := _messageHandlerProcessEvents toString cronParses validRegex regexTest cds connect parse
                              (mb_input m) message (mb_config m) (mb_last m) in
    let received q := mkMember (mb_namespaces m) (mb_input m) c last q (mb_locks m) (mb_scheduler m) in
    match call with
    | Some call =>
      match cc_namespace call with
      | JStr namespace =>
        match runEventCombinationForTenant toString false clk c (cc_type call) (cc_subType call) namespace (mb_queue m) with
        | RunQueued _ q => (received q, Queued call)
        | _ => (received (mb_queue m), Ignored)
        end
      | _ => (received (mb_queue m), Ignored)
      end
    | None => (received (mb_queue m), Ignored)
    end
  else (m, Ignored).

(** The lock id and the tenant of a call. *)
Definition call_text (v : jsval) : option string := match v with JStr x => Some x | _ => None end.

(** The configuration a task finds in the registry of its instance. *)
Definition registered (m : member) (call : combinationCall) : option regEvent :=
  getEventConfig toString (mb_config m) (JStr (cc_type call)) (JStr (cc_subType call)) (cc_namespace call).

(** The instance after a run. *)
Definition after_run (l : obj (option string)) (sched : scheduler) (m : member) : member :=
  mkMember (mb_namespaces m) (mb_input m) (mb_config m) (mb_last m) (mb_queue m) l sched.
Definition set_locks (l : obj (option string)) (m : member) : member :=
  mkMember (mb_namespaces m) (mb_input m) (mb_config m) (mb_last m) (mb_queue m) l (mb_scheduler m).

(** The shared state, the clock and the instances. *)
Record fleet := mkFleet {
  fl_now : Z;
  fl_redis : R;
  fl_table : T;
  fl_db : D * W;
  fl_members : list (member * progress) }.

(** The lock service as [m] sees it. *)
Definition service (s : fleet) (m : member) : lstate R T := mkLstate (fl_redis s) (fl_table s) (mb_locks m).

Inductive fleet_step (s : fleet) : fleet -> Prop :=
(** An instance receives the message. *)
| step_receive now k m :
    fl_now s <= now -> fl_members s !! k = Some (m, Waiting) ->
    fleet_step s (mkFleet now (fl_redis s) (fl_table s) (fl_db s) (<[k := receive m]> (fl_members s)))
(** A task starts: [_exec]. *)
| step_start now k m call r l go :
    fl_now s <= now -> fl_members s !! k = Some (m, Queued call) -> registered m call = Some r ->
    _exec lcfg (truthy (opt r "multiInstanceProcessing")) (call_text (cc_lockId call)) (call_text (cc_tenant call)) false now
      (service s m) = (l, go) ->
    fleet_step s (mkFleet now (ls_redis l) (ls_db l) (fl_db s)
      (<[k := (set_locks (existingLocks l) m, if go then Holding call else Turned)]> (fl_members s)))
(** A task that holds the lock of the message runs [processEventQueue] until its loop ends;
    the transactions of its clusters may fail, the others commit. *)
| step_run start end_ its k m call r cfg l instances db sched ran :
    fl_now s <= start -> start <= end_ -> Forall clean_iteration its ->
    Forall (fun i => start <= it_base i /\ it_end i <= end_) its -> fl_members s !! k = Some (m, Holding call) ->
    registered m call = Some r -> eventSettings start (cc_type call) (cc_subType call) r = Some cfg ->
    run_task toISOString toString stringify dateParse stackOf jsonParse lcfg (call_text (cc_tenant call)) runInterval check
      processEvent hook before cfg start end_ its (mb_scheduler m) (fl_db s) (mkLockState (service s m) false start) =
      (l, (instances, db, sched, true), ran) ->
    fleet_step s (mkFleet end_ (ls_redis (lk_service l)) (ls_db (lk_service l)) db
      (<[k := (after_run (existingLocks (lk_service l)) sched m, Finished start its instances ran)]> (fl_members s))).

(** Nothing is left to do. *)
Definition settled (p : progress) : bool := match p with Ignored | Turned | Finished _ _ _ _ => true | _ => false end.
Definition all_settled (s : fleet) : Prop := Forall (fun mp => settled mp.2 = true) (fl_members s).

(** The instance processes the message, or has. *)
Definition active (p : progress) : bool := match p with Holding _ | Finished _ _ _ _ => true | _ => false end.

(** The message was published and nobody has received it. *)
Definition published (s : fleet) : Prop := Forall (fun mp => mp.2 = Waiting) (fl_members s).

(** A client with expiry time [x] is turned away at [t]. *)
Definition busy (s : fleet) (k : string) (x : Z * Z) (t : Z) : bool :=
  module_busy lcfg (mkLstate (fl_redis s) (fl_table s) []) k x t.
End fleet.
Arguments fleet : clear implicits.

(** ** The lock of the message and the lock of the event *)

Section locks.
Context {R T : Type} `{RedisLaws R} `{LockTableLaws T} (lcfg : lockConfig).
Context (Hredis : lc_redisEnabled lcfg = true) (Hpos : 0 < lc_globalTxTimeout lcfg).

Lemma module_busy_locks (r : R) (d : T) l k x t :
  module_busy lcfg (mkLstate r d l) k x t = module_busy lcfg (mkLstate r d []) k x t.
Proof. done. Qed.

(** A task of a message is let in exactly if the message's lock is free, which is held
    afterwards; other locks are left alone. *)
Lemma exec_busy lockId tenant now (l : lstate R T) :
  lockId <> EmptyString ->
  let key := DistributedLock.generateKey lcfg tenant true lockId false in
  let '(l', go) := _exec lcfg false (Some lockId) tenant false now l in
  forall k x t, now <= t ->
    go = negb (module_busy lcfg l key x now) /\
    module_busy lcfg l' k x t =
      if decide (k = key) then (if go then t <? now + lc_globalTxTimeout lcfg else module_busy lcfg l key x t)
      else module_busy lcfg l k x t.
Proof.
  intros Hne key. destruct lockId as [|a lockId]; [done|]. unfold _exec, acquireLock, acquireLockRedis, module_busy.
  rewrite Hredis, round_timeout. fold key. simpl.
  pose proof (r_set_ok now key (pretty.pretty now) (lc_globalTxTimeout lcfg) SetNX (ls_redis l) Hpos) as Hok.
  pose proof (fun t k Ht => r_set_get now key (pretty.pretty now) (lc_globalTxTimeout lcfg) SetNX (ls_redis l) t k Hpos Ht) as Hget.
  destruct (r_set _ _ _ _ _ _) as [r ok]. simpl in Hok, Hget. intros k x t Ht. rewrite Hok, Hget by done.
  destruct (r_get now key (ls_redis l)); simpl; (split; [done|]); case_decide; subst; try done.
  by destruct (t <? _).
Qed.

(** A run leaves all other locks alone. *)
Lemma run_other_locks {A} cfg tenant start end_ (idle : A) body (svc : lstate R T) k x t :
  0 < round_ms (keepAliveMaxMs cfg) -> start <= end_ -> end_ <= t ->
  k <> processorLockKey lcfg tenant (ec_namespace cfg) (ec_type cfg) (ec_subType cfg) ->
  module_busy lcfg (lk_service (processEventQueue lcfg cfg tenant true false start end_ idle body (mkLockState svc false start)).1.1) k x t =
    module_busy lcfg svc k x t.
Proof.
  intros Hx Hle Ht Hk. unfold processEventQueue, acquireDistributedLock. cbn [negb].
  destruct (ec_multiInstance cfg); [done|]. cbn [lk_service lk_acquired lk_time].
  set (e := processorLockKey lcfg tenant (ec_namespace cfg) (ec_type cfg) (ec_subType cfg)) in *.
  pose proof (@ls_acquire_busy _ _ (lockModule_laws lcfg tenant) start e (keepAliveMaxMs cfg) svc k x t Hx ltac:(lia)) as E1.
  unfold ls_acquire, ls_busy, lockModule in E1.
  change (acquireLock lcfg start tenant (join hash2 [ec_namespace cfg; ec_type cfg; ec_subType cfg]) true
            (keepAliveMaxMs cfg) true true svc) with (module_acquire lcfg tenant start e (keepAliveMaxMs cfg) svc).
  destruct (module_acquire lcfg tenant start e (keepAliveMaxMs cfg) svc) as [svc' ok]. cbn [fst] in E1.
  rewrite decide_False in E1 by done. specialize (E1 ltac:(done)). rewrite <- E1.
  pose proof (@ls_release_busy _ _ (lockModule_laws lcfg tenant) end_ e svc' k x t Ht) as E2. rewrite decide_False in E2 by done.
  destruct ok; cbn [negb orb fst lk_service lk_acquired lk_time]; [exact E2 | done].
Qed.

(** The lock of a message is not the lock of an event. *)
Lemma message_key_ne tenant appNamespace namespace type subType lockId :
  lc_namespace lcfg = Some appNamespace -> appNamespace <> EmptyString ->
  Forall (fun p => hash_free p = true) [appNamespace; opt_str tenant; lockId; namespace; type; subType] ->
  DistributedLock.generateKey lcfg tenant true lockId false <> processorLockKey lcfg tenant namespace type subType.
Proof.
  intros Hn Hne Hf. rewrite processorLockKey_parts. unfold DistributedLock.generateKey. cbn [negb].
  rewrite (redisNamespace_set _ appNamespace) by done. intros E. rewrite !Forall_cons in Hf. destruct Hf as (F1 & F2 & F3 & F4 & F5 & F6 & _).
  assert (J : join hash2 (join hash2 [REDIS_PREFIX; appNamespace] :: [opt_str tenant] ++ [lockId]) =
    join hash2 [REDIS_PREFIX; appNamespace; opt_str tenant; lockId]) by (simpl; by rewrite !append_assoc_str).
  rewrite J in E. apply join_inj in E; [|done|done|repeat (constructor; [done|]); constructor..].
  by apply (f_equal length) in E.
Qed.
End locks.

Lemma eventSettings_start t1 t2 eventType eventSubType r s :
  eventSettings t1 eventType eventSubType r = Some s -> eventSettings t2 eventType eventSubType r = Some (with_startTime t2 s).
Proof.
  unfold eventSettings. intros H.
  repeat match type of H with _ ≫= _ = Some _ => apply bind_Some in H as (? & -> & H); simpl end. by injection H as <-.
Qed.

(** ** The way of one message *)

Section path.
Context {D W R T : Type} {ET : EventTable D} {EL : EventTableLaws D} `{RedisLaws R} `{LockTableLaws T}.
Context (toISOString : Z -> string) (toString stringify : jsval -> string)
  (dateParse : string -> option Z) (stackOf : jsval -> string) (jsonParse : jsval -> option jsval).
Context (cronParses : jsval -> bool) (cronNext : jsval -> result jsval (Z * Z)) (validRegex : string -> string -> bool)
  (regexTest : string -> string -> Z -> string -> bool * Z) (cds : cdsEnv)
  (connect : option string -> result jsval (option jsval)) (parse : string -> result jsval jsval).
Context (lcfg : lockConfig) (runInterval : Z) (clk : clock).
Context (check : event -> W -> result jsval jsval)
  (processEvent : string -> list event -> jsval -> W -> W * bool * result jsval jsval)
  (hook : event -> W -> W * option jsval) (before : W -> option jsval).
(** The combination, the tenant and the text of its message. *)
Context (type_ subType namespace lockId message : string) (tenantId : option string).

Abbreviation step := (fleet_step toISOString toString stringify dateParse stackOf jsonParse cronParses validRegex regexTest cds connect
  parse lcfg runInterval clk check processEvent hook before (messageChannel lcfg namespace) message).
Abbreviation receives := (receive toString cronParses validRegex regexTest cds connect parse lcfg clk (messageChannel lcfg namespace) message).
Abbreviation runs tenant := (run_task toISOString toString stringify dateParse stackOf jsonParse lcfg tenant runInterval check processEvent hook before).
Abbreviation messageKey := (DistributedLock.generateKey lcfg tenantId true lockId false).
Abbreviation eventKey := (processorLockKey lcfg tenantId namespace type_ subType).

Definition theCall : combinationCall := mkCombinationCall (JStr lockId) (opt_json tenantId) type_ subType (JStr namespace).

(** The settings under which an event is due at [now]: it is an ad-hoc event, matches the
    selection, has attempts left, has a transaction of its own, and its lock is free. *)
Record due_under (s : fleet D W R T) (e : event) (cfg : eventConfig) : Prop := {
  du_namespace : ec_namespace cfg = namespace;
  du_single : ec_multiInstance cfg = false;
  du_isolated : commitOnEventLevel cfg = true;
  du_adHoc : ec_isPeriodic cfg = false;
  du_chunk : 0 < selectMaxChunkSize cfg;
  du_keepAlive : 0 < ec_keepAliveInterval cfg;
  du_selectable : selectable cfg runInterval (fl_now s) [] e = true;
  du_attempts : ev_attempts e < retryAttempts cfg;
  du_started t : ev_startAfter e = Some t -> t <= fl_now s;
  du_free : busy lcfg s eventKey (keepAliveMaxMs cfg) (fl_now s) = false }.

(** An active instance that processes the namespace and is responsible for the event and
    its tenant; its registry is sound, and the event is due under its settings. *)
Record takes_part (s : fleet D W R T) (e : event) (m : member) : Prop := {
  tp_namespace : namespace ∈ mb_namespaces m;
  tp_registry : sound_registry toString cronParses cronNext cds (mb_config m);
  tp_limit : cfg_instanceLoadLimit (mb_config m) = JNum (concurrencyLimit (mb_queue m));
  tp_settings : exists r cfg, getEventConfig toString (mb_config m) (JStr type_) (JStr subType) (JStr namespace) = Some r /\
    eventSettings (fl_now s) type_ subType r = Some cfg /\ due_under s e cfg;
  tp_responsible : exists last', shouldBeProcessedInThisApplication toString cds regexTest (mb_config m) type_ subType (JStr namespace)
    (mb_last m) = Ok (true, last');
  tp_tenant : si_tenantValid (mb_input m) (opt_json tenantId) = true;
  tp_active : si_active (mb_input m) = true;
  tp_auth : si_authThrows (mb_input m) = false }.

Context (Hredis : lc_redisEnabled lcfg = true) (Hpos : 0 < lc_globalTxTimeout lcfg).
Context (Hid : lockId <> EmptyString) (Hkey : messageKey <> eventKey).
Context (Hparse : parse message = Ok (eventMessage lockId tenantId (type_, subType, namespace))).

Lemma call_tenant : call_text (opt_json tenantId) = tenantId.
Proof. by destruct tenantId. Qed.

(** Such an instance queues the task of the message. *)
Lemma takes_part_receives s e m :
  takes_part s e m ->
  (receives m).2 = Queued theCall /\ mb_config (receives m).1 = mb_config m /\ mb_scheduler (receives m).1 = mb_scheduler m.
Proof.
  intros [Hn Hs Hl (r & cfg & Hr & _ & _) [last' Ha] Hv Hact Hauth]. unfold receive, subscriptions.
  rewrite bool_decide_true by (by apply (namespace_delivered lcfg)).
  rewrite (message_handled toString cronParses validRegex regexTest cds connect parse _ _ _ _ _ _ _ _ _ _ _ Hparse Hr Ha Hv Hact Hauth).
  cbn [cc_namespace cc_type cc_subType]. unfold runEventCombinationForTenant. rewrite Hr.
  destruct (Hs (mkOpenEntry namespace type_ subType 1) r Hr) as (k & load & Hok & Hload).
  destruct (addToQueue_registered toString cronParses cronNext cds clk (mb_config m) k r load (type_ +:+ "_" +:+ subType)
    (truthy (opt r "increasePriorityOverTime")) (mb_queue m) Hok Hload Hl) as (q' & -> & _). done.
Qed.

(** ** The invariant *)

(** The start state and the event. *)
Context (s0 : fleet D W R T) (e : event).

(** The instance has run the queue of the event: the lock of the event was free, and the
    event has had its turn (taken with one attempt more, and a status written for it), unless
    the keep-alive found it taken over or all chunks the run had time for were full of
    earlier events. *)
Definition outcome (m : member) (p : progress) (db : D * W) : Prop :=
  exists start its instances cfg r sched, p = Finished start its instances true /\
    getEventConfig toString (mb_config m) (JStr type_) (JStr subType) (JStr namespace) = Some r /\
    eventSettings start type_ subType r = Some cfg /\
    run_outcome cfg runInterval its [] sched (fl_db s0).1 instances db.1 e.

(** An instance [m0] of the start has come to [(m, p)]. *)
Definition came_to (mp0 mp : member * progress) : Prop :=
  match mp.2 with
  | Waiting => mp.1 = mp0.1
  | Ignored => ~ takes_part s0 e mp0.1
  | Queued call | Holding call =>
    takes_part s0 e mp0.1 /\ call = theCall /\ mb_config mp.1 = mb_config mp0.1 /\ mb_scheduler mp.1 = mb_scheduler mp0.1
  | Turned | Finished _ _ _ _ => True
  end.

Definition untouched (s : fleet D W R T) : Prop :=
  fl_db s = fl_db s0 /\
  forall x t, busy lcfg s0 eventKey x (fl_now s0) = false -> fl_now s <= t -> busy lcfg s eventKey x t = false.

Definition nobody (s : fleet D W R T) : Prop :=
  (forall mp, mp ∈ fl_members s -> active mp.2 = false /\ mp.2 <> Turned) /\ untouched s /\
  forall t, fl_now s <= t -> busy lcfg s messageKey (0, 1) t = false.

Definition somebody (s : fleet D W R T) : Prop :=
  exists k m p, fl_members s !! k = Some (m, p) /\ active p = true /\
    (forall k' mp, fl_members s !! k' = Some mp -> active mp.2 = true -> k' = k) /\
    (forall t, fl_now s <= t < fl_now s0 + lc_globalTxTimeout lcfg -> busy lcfg s messageKey (0, 1) t = true) /\
    match p with Holding _ => untouched s | _ => outcome m p (fl_db s) end.

Definition path_inv (s : fleet D W R T) : Prop :=
  fl_now s0 <= fl_now s /\ Forall2 came_to (fl_members s0) (fl_members s) /\ (nobody s \/ somebody s).

Context (Hrow : row (ev_ID e) (fl_db s0).1 = Some e).
Context (Hpart : forall m p, (m, p) ∈ fl_members s0 -> takes_part s0 e m \/ (receives m).2 = Ignored).

Lemma busy_service (s : fleet D W R T) m k x t : module_busy lcfg (service s m) k x t = busy lcfg s k x t.
Proof. done. Qed.

Lemma busy_expires (s : fleet D W R T) k x t t' : t <= t' -> busy lcfg s k x t = false -> busy lcfg s k x t' = false.
Proof. apply (@ls_busy_expires _ _ (lockModule_laws (R := R) (D := T) lcfg tenantId)). Qed.

Lemma busy_any (s : fleet D W R T) k x y t : busy lcfg s k x t = busy lcfg s k y t.
Proof. unfold busy, module_busy. by rewrite Hredis. Qed.

(** The settings of an instance that takes part. *)
Lemma part_settings m0 m :
  takes_part s0 e m0 -> mb_config m = mb_config m0 ->
  exists r cfg, registered toString m theCall = Some r /\ truthy (opt r "multiInstanceProcessing") = false /\
    eventSettings (fl_now s0) type_ subType r = Some cfg /\ due_under s0 e cfg /\
    0 < (ec_keepAliveMaxInProgressTime cfg).2 /\ 0 < round_ms (keepAliveMaxMs cfg).
Proof.
  intros [_ Hs _ (r & cfg & Hr & Hc & Hd) _ _ _ _] Hm. exists r, cfg. unfold registered. rewrite Hm.
  destruct (Hs (mkOpenEntry namespace type_ subType 1) r Hr) as (k & load & Hok & _).
  destruct (lock_expiry toString cronParses cronNext cds (mb_config m0) _ _ _ k r cfg Hok Hc) as (E1 & _ & E2).
  pose proof (du_keepAlive _ _ _ Hd). destruct E2 as [E2 _]; [done|].
  split_and!; try done; [|lia]. rewrite <- (so_multiInstance _ _ _ _ _ (eventSettings_spec _ _ _ _ _ Hc)). apply Hd.
Qed.

(** What becomes of the invariant when an instance that is not active makes a step. *)
Lemma nobody_keeps s k m p m' p' now :
  fl_members s !! k = Some (m, p) -> fl_now s <= now -> active p' = false -> p' <> Turned -> nobody s ->
  nobody (mkFleet now (fl_redis s) (fl_table s) (fl_db s) (<[k := (m', p')]> (fl_members s))).
Proof.
  intros Hk Hn Ha Ht (N1 & [N2 N3] & N4). split; [|split; [split; [done|]|]].
  - intros mp Hin. apply list_elem_of_lookup in Hin as [j Hj]. simpl in Hj.
    apply list_lookup_insert_Some in Hj as [(_ & <- & _)|[_ Hj]]; [done|]. by apply N1, (list_elem_of_lookup_2 _ j).
  - intros x t Hf Hle. simpl in Hle. by apply N3; [|lia].
  - intros t Hle. simpl in Hle. apply N4. lia.
Qed.

Lemma somebody_keeps s s' k m p m' p' :
  fl_members s !! k = Some (m, p) -> active p = false -> active p' = false ->
  fl_members s' = <[k := (m', p')]> (fl_members s) -> fl_now s <= fl_now s' -> fl_db s' = fl_db s ->
  (forall x t, fl_now s' <= t -> busy lcfg s eventKey x t = busy lcfg s' eventKey x t) ->
  (forall t, fl_now s' <= t -> busy lcfg s messageKey (0, 1) t = busy lcfg s' messageKey (0, 1) t) ->
  somebody s -> somebody s'.
Proof.
  intros Hk Ha Ha' Hm Hn Hd He Hb (j & mj & pj & Hj & Aj & Uj & Bj & Oj). exists j, mj, pj.
  assert (k <> j) as Hne by (intros ->; congruence). rewrite Hm. split_and!; try done.
  - by rewrite list_lookup_insert_ne.
  - intros i mp Hi Hact. apply list_lookup_insert_Some in Hi as [(-> & <- & _)|[_ Hi]]; [simpl in Hact; congruence|]. by eapply Uj.
  - intros t Ht. rewrite <- Hb by lia. apply Bj. lia.
  - destruct pj; try by rewrite Hd. destruct Oj as [O1 O2]. split; [by rewrite Hd|]. intros x t Hf Hle.
    rewrite <- He by lia. apply O2; [done | lia].
Qed.

Lemma came_to_insert l l' k mp :
  Forall2 came_to l l' -> (forall mp0, l !! k = Some mp0 -> came_to mp0 mp) -> Forall2 came_to l (<[k := mp]> l').
Proof.
  intros Hf Hk. apply Forall2_same_length_lookup. rewrite length_insert. apply Forall2_same_length_lookup in Hf as [Hl Hf].
  split; [done|]. intros i x y Hx Hy. apply list_lookup_insert_Some in Hy as [(<- & <- & _)|[_ Hy]]; eauto.
Qed.

Lemma receive_inv s now k m :
  fl_now s <= now -> fl_members s !! k = Some (m, Waiting) -> path_inv s ->
  path_inv (mkFleet now (fl_redis s) (fl_table s) (fl_db s) (<[k := receives m]> (fl_members s))).
Proof.
  intros Hn Hk (I1 & I2 & I3).
  destruct (Forall2_lookup_r _ _ _ _ _ I2 Hk) as ([m0 p0] & Hk0 & E). unfold came_to in E. simpl in E. subst m0.
  assert (P : came_to (m, p0) (receives m) /\ active (receives m).2 = false /\ (receives m).2 <> Turned).
  { unfold came_to. destruct (Hpart m p0) as [Hp|Hi]; [by eapply list_elem_of_lookup_2| |].
    - destruct (takes_part_receives s0 e m Hp) as (-> & ? & ?). done.
    - rewrite Hi. split; [|done]. intros Hp. destruct (takes_part_receives s0 e m Hp) as (? & _). congruence. }
  destruct P as (P1 & P2 & P3). split; [simpl; lia|]. split.
  - apply came_to_insert; [done|]. intros mp0 E. rewrite Hk0 in E. by injection E as <-.
  - rewrite (surjective_pairing (receives m)). destruct I3 as [I3|I3]; [left; by eapply nobody_keeps | right].
    by eapply (somebody_keeps s _ k m Waiting).
Qed.

Lemma start_inv s now k m call r l go :
  fl_now s <= now < fl_now s0 + lc_globalTxTimeout lcfg -> fl_members s !! k = Some (m, Queued call) ->
  registered toString m call = Some r ->
  _exec lcfg (truthy (opt r "multiInstanceProcessing")) (call_text (cc_lockId call)) (call_text (cc_tenant call)) false now
    (service s m) = (l, go) ->
  path_inv s ->
  path_inv (mkFleet now (ls_redis l) (ls_db l) (fl_db s)
    (<[k := (set_locks (existingLocks l) m, if go then Holding call else Turned)]> (fl_members s))).
Proof.
  intros [Hn Hlim] Hk Hr Hexec (I1 & I2 & I3).
  destruct (Forall2_lookup_r _ _ _ _ _ I2 Hk) as ([m0 p0] & Hk0 & (C1 & -> & C3 & C4)). simpl in C1, C3, C4.
  destruct (part_settings m0 m C1 C3) as (r' & cfg & Hr' & Hmulti & _). rewrite Hr in Hr'. injection Hr' as <-.
  cbn [theCall cc_lockId cc_tenant call_text] in Hexec. rewrite Hmulti, call_tenant in Hexec.
  pose proof (exec_busy lcfg Hredis Hpos lockId tenantId now (service s m) Hid) as E. rewrite Hexec in E. cbn zeta in E.
  set (s' := mkFleet now (ls_redis l) (ls_db l) (fl_db s) _).
  assert (Hb : forall k x t, now <= t -> busy lcfg s' k x t =
    if decide (k = messageKey) then (if go then t <? now + lc_globalTxTimeout lcfg else busy lcfg s messageKey x t)
    else busy lcfg s k x t) by (intros; by apply E).
  assert (Hgo : go = negb (busy lcfg s messageKey (0, 1) now)) by (apply (E messageKey (0, 1) now); lia).
  split; [simpl; lia|]. split.
  { apply came_to_insert; [done|]. intros mp0 Hm0. rewrite Hk0 in Hm0. injection Hm0 as <-. destruct go; [|done]. by split_and!. }
  destruct I3 as [(N1 & [N2 N3] & N4)|S].
  - right. rewrite N4 in Hgo by done. simpl in Hgo. subst go. exists k, (set_locks (existingLocks l) m), (Holding theCall).
    split_and!; [| done | | | split; [done|]].
    + simpl. rewrite list_lookup_insert, decide_True; [done|]. split; [done|]. by eapply lookup_lt_Some.
    + intros j mp Hj Ha. apply list_lookup_insert_Some in Hj as [(-> & _)|[_ Hj]]; [done|].
      apply list_elem_of_lookup_2, N1 in Hj as [Hj _]. congruence.
    + intros t [Ht1 Ht2]. cbn [s' fl_now] in Ht1. rewrite Hb, decide_True by done. apply Z.ltb_lt. lia.
    + intros x t Hf Ht. cbn [s' fl_now] in Ht. rewrite Hb, decide_False by done. apply N3; [done | lia].
  - right. destruct S as (j & mj & pj & Hj & Aj & Uj & Bj & Oj). rewrite Bj in Hgo by lia. simpl in Hgo. subst go.
    eapply (somebody_keeps s s' k m (Queued theCall) _ Turned); try done.
    + intros x t Ht. rewrite Hb, decide_False; done.
    + intros t Ht. rewrite Hb, decide_True; done.
    + by exists j, mj, pj.
Qed.

Lemma run_inv s start end_ its k m call r cfg l instances db sched ran :
  fl_now s <= start -> start <= end_ -> Forall clean_iteration its ->
  Forall (fun i => start <= it_base i /\ it_end i <= end_) its -> fl_members s !! k = Some (m, Holding call) ->
  registered toString m call = Some r -> eventSettings start (cc_type call) (cc_subType call) r = Some cfg ->
  runs (call_text (cc_tenant call)) cfg start end_ its (mb_scheduler m) (fl_db s) (mkLockState (service s m) false start) =
    (l, (instances, db, sched, true), ran) ->
  path_inv s ->
  path_inv (mkFleet end_ (ls_redis (lk_service l)) (ls_db (lk_service l)) db
    (<[k := (after_run (existingLocks (lk_service l)) sched m, Finished start its instances ran)]> (fl_members s))).
Proof.
  intros H3 H4 Hclean Htimes Hk Hr Hc Hrun (I1 & I2 & I3).
  destruct (Forall2_lookup_r _ _ _ _ _ I2 Hk) as ([m0 p0] & Hk0 & (C1 & -> & C3 & C4)). simpl in C1, C3, C4.
  destruct (part_settings m0 m C1 C3) as (r' & cfg0 & Hr' & Hmulti & Hset & Hdue & K1 & K2). rewrite Hr in Hr'. injection Hr' as <-.
  pose proof (eventSettings_start _ start _ _ _ _ Hset) as Hset'. cbn [theCall cc_type cc_subType] in Hc. rewrite Hset' in Hc.
  injection Hc as <-. cbn [theCall cc_tenant] in Hrun. rewrite call_tenant in Hrun.
  destruct I3 as [(N1 & _)|(j & mj & pj & Hj & Aj & Uj & Bj & Oj)].
  { exfalso. apply list_elem_of_lookup_2, N1 in Hk as [Hk _]. done. }
  assert (k = j) as <- by (by eapply Uj). rewrite Hk in Hj. injection Hj as <- <-. destruct Oj as [O1 O2].
  pose proof (eventSettings_spec _ _ _ _ _ Hset) as So. destruct Hdue as [D1 D2 D3 Da Dc D4 D5 D6 D7 D8].
  assert (KE : processorLockKey lcfg tenantId (ec_namespace cfg0) (ec_type cfg0) (ec_subType cfg0) = eventKey)
    by (by rewrite D1, (so_type _ _ _ _ _ So), (so_subType _ _ _ _ _ So)).
  destruct (task_ends_event toISOString toString stringify dateParse stackOf jsonParse lcfg cfg0 tenantId runInterval check processEvent
    hook before (fl_now s0) start end_ its (mb_scheduler m) (fl_db s) e (mkLockState (service s m) false start))
    as (l' & insts' & db' & sched' & fin & E & _ & Hout);
    [done | done | done | done | done | done | done | done | rewrite (so_startTime _ _ _ _ _ So); lia | done | | by rewrite O1 | |].
  { eapply Forall_impl; [exact Htimes|]. intros i [Hi _]. simpl. lia. }
  { right. rewrite KE. apply O2; [done | lia]. }
  cbn zeta in E. rewrite Hrun in E. injection E as -> -> -> -> <- ->. specialize (Hout eq_refl).
  assert (Hother : forall x t, end_ <= t -> module_busy lcfg (lk_service l') messageKey x t = busy lcfg s messageKey x t).
  { intros x t Ht. unfold run_task in Hrun. rewrite <- (busy_service s m).
    erewrite <- (run_other_locks lcfg (with_startTime start cfg0) tenantId start end_ _ _ (service s m) messageKey x t);
      [by rewrite Hrun | done | lia | done |].
    cbn [with_startTime ec_namespace ec_type ec_subType]. by rewrite KE. }
  split; [simpl; lia|]. split.
  { by apply came_to_insert. }
  right. exists k, (after_run (existingLocks (lk_service l')) sched' m), (Finished start its insts' true). split_and!; [| done | | |].
  - simpl. rewrite list_lookup_insert, decide_True; [done|]. split; [done|]. by eapply lookup_lt_Some.
  - intros j mp Hj Ha. apply list_lookup_insert_Some in Hj as [(-> & _)|[_ Hj]]; [done|]. by eapply Uj.
  - intros t [Ht1 Ht2]. cbn [fl_now] in Ht1. etrans; [apply (Hother (0, 1) t Ht1)|]. apply Bj. lia.
  - exists start, its, insts', (with_startTime start cfg0), r, (mb_scheduler m). split_and!; try done. by rewrite <- O1.
Qed.

Lemma step_now s s' : step s s' -> fl_now s <= fl_now s'.
Proof. intros [| |start end_]; simpl in *; lia. Qed.

Lemma step_inv s s' :
  step s s' -> fl_now s' < fl_now s0 + lc_globalTxTimeout lcfg -> path_inv s -> path_inv s'.
Proof.
  intros Hs. destruct Hs as [now k m Hn Hk|now k m call r l go Hn Hk Hr He|
    start end_ its k m call r cfg l instances db sched ran H3 H4 Hclean Htimes Hk Hr Hc He];
    simpl; intros Hlim Hi.
  - by apply (receive_inv s now k m).
  - by apply (start_inv s now k m call r l go).
  - by apply (run_inv s start end_ its k m call r cfg l instances db sched ran).
Qed.

(** The start: the message is published, nobody has received it, and its lock, whose id is
    new, is free. *)
Context (Hpub : published s0) (Hfree : busy lcfg s0 messageKey (0, 1) (fl_now s0) = false).

Lemma start_path_inv : path_inv s0.
Proof.
  split; [done|]. split.
  - apply Forall_Forall2_diag. eapply Forall_impl; [exact Hpub|]. intros [m p] E. simpl in E. by subst p.
  - left. split; [|split; [split; [done|]|]].
    + intros mp Hin. unfold published in Hpub. rewrite Forall_forall in Hpub. by rewrite (Hpub mp Hin).
    + intros x t Hf Ht. by apply (busy_expires s0 _ _ (fl_now s0)).
    + intros t Ht. by apply (busy_expires s0 _ _ (fl_now s0)).
Qed.

Lemma reachable_path_inv s :
  rtc step s0 s -> fl_now s < fl_now s0 + lc_globalTxTimeout lcfg -> path_inv s.
Proof.
  revert s. apply (rtc_ind_r (fun s => fl_now s < fl_now s0 + lc_globalTxTimeout lcfg -> path_inv s)); [intros; apply start_path_inv|].
  intros s1 s2 _ Hs IH Hlim. pose proof (step_now _ _ Hs). apply (step_inv s1); [done | done |]. apply IH. lia.
Qed.

(** When nothing is left to do, exactly one instance has processed the event. *)
Lemma settled_path s m0 p0 :
  path_inv s -> all_settled s -> (m0, p0) ∈ fl_members s0 -> takes_part s0 e m0 ->
  exists k m p, fl_members s !! k = Some (m, p) /\ outcome m p (fl_db s) /\
    forall k' mp, fl_members s !! k' = Some mp -> active mp.2 = true -> k' = k.
Proof.
  intros (_ & I2 & I3) Hset Hm0 Hp. unfold all_settled in Hset. rewrite Forall_forall in Hset.
  destruct I3 as [(N1 & _)|(k & m & p & Hk & Ak & Uk & _ & Ok)].
  - exfalso. apply list_elem_of_lookup in Hm0 as [j Hj]. destruct (Forall2_lookup_l _ _ _ _ _ I2 Hj) as ([m p] & Hk & C).
    apply list_elem_of_lookup_2 in Hk. pose proof (Hset _ Hk) as S. destruct (N1 _ Hk) as [Na Nt]. by destruct p.
  - exists k, m, p. pose proof (Hset _ (list_elem_of_lookup_2 _ _ _ Hk)) as S. by destruct p.
Qed.

(** ** Every run can be completed *)

Definition weight (mp : member * progress) : nat :=
  match mp.2 with Waiting => 3 | Queued _ => 2 | Holding _ => 1 | _ => 0 end.
Definition todo (s : fleet D W R T) : nat := sum_list_with weight (fl_members s).

Lemma sum_insert (l : list (member * progress)) k x y :
  l !! k = Some x -> (weight y < weight x)%nat -> (sum_list_with weight (<[k := y]> l) < sum_list_with weight l)%nat.
Proof.
  revert k. induction l as [|z l IH]; intros [|k] Hk Hw; simplify_eq/=; [lia|]. specialize (IH k Hk Hw). lia.
Qed.

(** The time the rest takes: a run, unless it is over. *)
Definition finished (mp : member * progress) : bool := match mp.2 with Finished _ _ _ _ => true | _ => false end.
Definition time_left (s : fleet D W R T) : Z := if existsb finished (fl_members s) then 0 else Z.max 0 runInterval.

Lemma finished_insert (l : list (member * progress)) k x y :
  l !! k = Some x -> finished y = true \/ finished x = false /\ existsb finished l = true -> existsb finished (<[k := y]> l) = true.
Proof.
  revert k. induction l as [|z l IH]; intros [|k] Hk Hf; simplify_eq/=.
  - destruct Hf as [->|[-> Hf]]; [done|]. simpl in Hf. rewrite Hf. apply orb_true_r.
  - destruct (finished z); [done|]. by apply IH.
Qed.

Lemma time_left_insert s k x y now r t db :
  fl_members s !! k = Some x -> finished x = false ->
  time_left (mkFleet now r t db (<[k := y]> (fl_members s))) <= time_left s.
Proof.
  intros Hk Hx. unfold time_left. cbn [fl_members]. destruct (existsb finished (fl_members s)) eqn:F.
  - rewrite (finished_insert _ k x); [done | done | by right].
  - destruct (existsb finished (<[k := y]> (fl_members s))); lia.
Qed.

(** An instance that is not settled has a step, within the time that is left. *)
Lemma step_exists s :
  path_inv s -> ~ all_settled s ->
  exists s', step s s' /\ fl_now s' + time_left s' <= fl_now s + time_left s /\ (todo s' < todo s)%nat.
Proof.
  intros (_ & I2 & I3) Hn. unfold all_settled in Hn. apply not_Forall_Exists in Hn; [|intros ?; apply _].
  apply Exists_exists in Hn as ([m p] & Hin & Hs). apply list_elem_of_lookup in Hin as [k Hk].
  destruct (Forall2_lookup_r _ _ _ _ _ I2 Hk) as ([m0 p0] & Hk0 & C). unfold came_to in C. simpl in C, Hs.
  destruct p as [| |call| |call|]; try done.
  - eexists. split; [by apply (step_receive _ _ _ _ _ _ _ _ _ _ _ _ _ _ _ _ _ _ _ _ _ s (fl_now s) k m)|].
    split; [pose proof (time_left_insert s k (m, Waiting) (receives m) (fl_now s) (fl_redis s) (fl_table s) (fl_db s) Hk eq_refl); cbn [fl_now]; lia|].
    apply (sum_insert _ _ (m, Waiting)); [done|]. unfold weight. simpl.
    subst m0. destruct (Hpart m p0) as [Hp|Hi]; [by eapply list_elem_of_lookup_2 | | rewrite Hi; lia].
    destruct (takes_part_receives s0 e m Hp) as (-> & _). lia.
  - destruct C as (C1 & -> & C3 & _). destruct (part_settings m0 m C1 C3) as (r & cfg & Hr & _).
    destruct (_exec lcfg (truthy (opt r "multiInstanceProcessing")) (call_text (cc_lockId theCall)) (call_text (cc_tenant theCall)) false
      (fl_now s) (service s m)) as [l go] eqn:E.
    eexists. split; [by eapply (step_start _ _ _ _ _ _ _ _ _ _ _ _ _ _ _ _ _ _ _ _ _ s (fl_now s) k m)|].
    split; [match goal with |- context [mkFleet _ ?r ?t ?db (<[k := ?y]> _)] =>
      pose proof (time_left_insert s k (m, Queued theCall) y (fl_now s) r t db Hk eq_refl) end; cbn [fl_now]; lia|].
    apply (sum_insert _ _ (m, Queued theCall)); [done|]. unfold weight. simpl. destruct go; lia.
  - destruct C as (C1 & -> & C3 & _). destruct (part_settings m0 m C1 C3) as (r & cfg & Hr & _ & Hset & _).
    pose proof (eventSettings_start _ (fl_now s) _ _ _ _ Hset) as Hset'.
    assert (Hno : existsb finished (fl_members s) = false).
    { destruct I3 as [(N1 & _)|(j & mj & pj & _ & _ & Uj & _)]; [by apply list_elem_of_lookup_2, N1 in Hk as [? _]|].
      apply not_true_is_false. intros ([mf pf] & Hf & Ff)%existsb_exists. apply list_elem_of_In, list_elem_of_lookup in Hf as [jf Hf].
      assert (jf = j) as -> by (apply (Uj _ _ Hf); by destruct pf). assert (k = j) as -> by (by eapply Uj).
      rewrite Hk in Hf. by injection Hf as <- <-. }
    pose (end_ := fl_now s + Z.max 0 runInterval).
    pose (i := mkIteration (fl_now s) 0 0 0 end_ clean_end clean_end [] [] clean_end clean_end).
    pose proof (run_task_over toISOString toString stringify dateParse stackOf jsonParse lcfg (call_text (cc_tenant theCall)) runInterval
      check processEvent hook before (with_startTime (fl_now s) cfg) (fl_now s) end_ [i] (mb_scheduler m) (fl_db s)
      (mkLockState (service s m) false (fl_now s))) as Fin.
    destruct (run_task _ _ _ _ _ _ _ _ _ _ _ _ _ _ (fl_now s) end_ [i] _ _ _) as [[l [[[insts db] sched] fin]] ran] eqn:E.
    assert (fin = true) as -> by (apply Fin; left; subst i end_; cbn [it_end with_startTime ec_startTime]; lia).
    eexists. split; [eapply (step_run _ _ _ _ _ _ _ _ _ _ _ _ _ _ _ _ _ _ _ _ _ s (fl_now s) end_ [i] k m); try done|].
    + subst end_. lia.
    + by repeat constructor.
    + constructor; [|constructor]. subst i. simpl. lia.
    + split.
      * unfold time_left. cbn [fl_members fl_now]. rewrite Hno. rewrite (finished_insert _ k (m, Holding theCall)); [subst end_; lia | done | by left].
      * apply (sum_insert _ _ (m, Holding theCall)); [done|]. unfold weight. simpl. lia.
Qed.

Lemma time_left_bound s : 0 <= time_left s <= Z.max 0 runInterval.
Proof. unfold time_left. destruct (existsb _ _); lia. Qed.

Lemma can_complete s :
  path_inv s -> fl_now s + time_left s < fl_now s0 + lc_globalTxTimeout lcfg ->
  exists s', rtc step s s' /\ all_settled s' /\ fl_now s' <= fl_now s + time_left s.
Proof.
  remember (todo s) as n eqn:En. revert s En. induction (lt_wf n) as [n _ IH]. intros s -> Hi Hlim. pose proof (time_left_bound s) as L0.
  destruct (decide (Forall (fun mp => settled mp.2 = true) (fl_members s))) as [Hs|Hs]; [exists s; split_and!; [done | done | lia]|].
  destruct (step_exists s Hi Hs) as (s1 & H3 & H4 & H5). pose proof (time_left_bound s1) as L1.
  destruct (IH (todo s1) H5 s1 eq_refl) as (s' & R1 & R2 & R3); [apply (step_inv s); [done | lia | done] | lia |].
  exists s'. split; [by eapply rtc_l | split; [done | lia]].
Qed.

Lemma can_complete_run s :
  (fl_now s < fl_now s0 + lc_globalTxTimeout lcfg -> path_inv s) ->
  fl_now s + Z.max 0 runInterval < fl_now s0 + lc_globalTxTimeout lcfg ->
  exists s', rtc step s s' /\ all_settled s' /\ fl_now s' <= fl_now s + Z.max 0 runInterval.
Proof.
  intros Hi Hlim. pose proof (time_left_bound s). destruct (can_complete s) as (s' & C1 & C2 & C3); [apply Hi; lia | lia |].
  exists s'. split_and!; [done | done | lia].
Qed.
End path.

(** ** From the broadcast to the end of the event *)

Section broadcast.
Context {D W R T : Type} {ET : EventTable D} {EL : EventTableLaws D} `{RedisLaws R} `{LockTableLaws T}.
Context (toISOString : Z -> string) (toString stringify : jsval -> string)
  (dateParse : string -> option Z) (stackOf : jsval -> string) (jsonParse : jsval -> option jsval).
Context (cronParses : jsval -> bool) (cronNext : jsval -> result jsval (Z * Z)) (validRegex : string -> string -> bool)
  (regexTest : string -> string -> Z -> string -> bool * Z) (cds : cdsEnv)
  (connect : option string -> result jsval (option jsval)) (parse : string -> result jsval jsval).
Context (lcfg : lockConfig) (runInterval : Z) (clk : clock).
Context (check : event -> W -> result jsval jsval)
  (processEvent : string -> list event -> jsval -> W -> W * bool * result jsval jsval)
  (hook : event -> W -> W * option jsval) (before : W -> option jsval).
Context (type_ subType namespace : string) (tenantId : option string).

Abbreviation steps message := (rtc (fleet_step toISOString toString stringify dateParse stackOf jsonParse cronParses validRegex regexTest cds
  connect parse lcfg runInterval clk check processEvent hook before (messageChannel lcfg namespace) message)).
Abbreviation takesPart := (takes_part toString cronParses cronNext regexTest cds lcfg runInterval type_ subType namespace tenantId).

(** A fleet when the message is published: nobody has received it, its lock is free, every
    instance takes part or ignores the message, one takes part, and the event is in the
    table. *)
Record message_sent (lockId message : string) (s0 : fleet D W R T) (e : event) : Prop := {
  ms_published : published s0;
  ms_free : busy lcfg s0 (DistributedLock.generateKey lcfg tenantId true lockId false) (0, 1) (fl_now s0) = false;
  ms_members m p : (m, p) ∈ fl_members s0 -> takesPart s0 e m \/
    (receive toString cronParses validRegex regexTest cds connect parse lcfg clk (messageChannel lcfg namespace) message m).2 = Ignored;
  ms_one : exists m p, (m, p) ∈ fl_members s0 /\ takesPart s0 e m;
  ms_row : row (ev_ID e) (fl_db s0).1 = Some e }.

(** Whatever the order of the steps: if there is time for a run within the lifetime of the
    message's lock, the fleet comes to the point where nothing is left to do; and there, within
    this lifetime, exactly one instance has run the queue of the event, which has had its
    turn. *)
Definition processed_once (message : string) (s0 : fleet D W R T) (e : event) : Prop :=
  forall s, steps message s0 s ->
    (fl_now s + Z.max 0 runInterval < fl_now s0 + lc_globalTxTimeout lcfg ->
     exists s', steps message s s' /\ all_settled s' /\ fl_now s' <= fl_now s + Z.max 0 runInterval) /\
    (fl_now s < fl_now s0 + lc_globalTxTimeout lcfg -> all_settled s ->
     exists k m p, fl_members s !! k = Some (m, p) /\
       outcome toString runInterval type_ subType namespace s0 e m p (fl_db s) /\
       forall k' mp, fl_members s !! k' = Some mp -> active mp.2 = true -> k' = k).

Lemma broadcast_processed_once c r appNamespace uuid evs tenantOk register force locked :
  lc_redisEnabled lcfg = true -> 0 < lc_globalTxTimeout lcfg ->
  lc_namespace lcfg = Some appNamespace -> appNamespace <> EmptyString ->
  (forall j, uuid j <> EmptyString /\
     Forall (fun p => hash_free p = true) [appNamespace; opt_str tenantId; uuid j; namespace; type_; subType]) ->
  (forall j, parse (stringify (eventMessage (uuid j) tenantId (type_, subType, namespace))) =
     Ok (eventMessage (uuid j) tenantId (type_, subType, namespace))) ->
  (type_, subType, namespace) ∈ evs -> getEventConfig toString c (JStr type_) (JStr subType) (JStr namespace) = Some r ->
  locked (type_, subType, namespace) O = false ->
  exists sent j message,
    broadcastEvent toString c true true tenantOk register force locked (fun _ => false) evs = Published sent /\
    publishMessages lcfg stringify uuid tenantId sent !! j = Some (messageChannel lcfg namespace, message) /\
    forall s0 e, message_sent (uuid j) message s0 e -> processed_once message s0 e.
Proof.
  intros Hredis Hpos Hns Hne Hu Hparse Hin Hc Hl.
  destruct (broadcast_published toString c tenantOk register force locked evs type_ subType namespace r Hin Hc) as (sent & Hsent & Hiff).
  assert (Hs : (type_, subType, namespace) ∈ sent).
  { apply Hiff. right. destruct (_ || _); [|done]. exists O. split; [|done]. unfold TRIES_FOR_PUBLISH_PERIODIC_EVENT. lia. }
  apply list_elem_of_lookup in Hs as [j Hj]. exists sent, j, (stringify (eventMessage (uuid j) tenantId (type_, subType, namespace))).
  split; [exact Hsent|]. split; [unfold publishMessages; by rewrite list_lookup_imap, Hj|].
  intros s0 e [M1 M2 M3 (m0 & p0 & M4 & M5) M6] s Hr. destruct (Hu j) as [U1 U2].
  assert (K := message_key_ne lcfg tenantId appNamespace namespace type_ subType (uuid j) Hns Hne U2).
  assert (I : fl_now s < fl_now s0 + lc_globalTxTimeout lcfg ->
    path_inv toString cronParses cronNext regexTest cds lcfg runInterval type_ subType namespace (uuid j) tenantId s0 e s)
    by (intros Hlim; eapply reachable_path_inv; eauto).
  split.
  - intros Hlim. by eapply can_complete_run.
  - intros Hlim Hset. eapply settled_path; eauto.
Qed.

(** C13. A broadcast is worked off by exactly one instance: when a combination that nobody is
    processing is broadcast, its message goes to the channel of its namespace, and in
    whatever order the instances of the fleet receive it and start and run their tasks, they
    can all come to an end if the lock of the message lives long enough for a run (whose
    own transactions commit, while those of the handlers may fail); then
    exactly one instance has run the event queue for the combination, and a due event of it
    has been taken with one attempt more and had a status written for it, unless somebody
    else has taken it over or all chunks the run had time for were full of earlier events. *)
Theorem broadcast_event_ends c r appNamespace uuid evs tenantOk register force locked :
  lc_redisEnabled lcfg = true -> 0 < lc_globalTxTimeout lcfg ->
  lc_namespace lcfg = Some appNamespace -> appNamespace <> EmptyString ->
  (forall j, uuid j <> EmptyString /\
     Forall (fun p => hash_free p = true) [appNamespace; opt_str tenantId; uuid j; namespace; type_; subType]) ->
  (forall j, parse (stringify (eventMessage (uuid j) tenantId (type_, subType, namespace))) =
     Ok (eventMessage (uuid j) tenantId (type_, subType, namespace))) ->
  (type_, subType, namespace) ∈ evs -> getEventConfig toString c (JStr type_) (JStr subType) (JStr namespace) = Some r ->
  locked (type_, subType, namespace) O = false ->
  exists sent j message,
    broadcastEvent toString c true true tenantOk register force locked (fun _ => false) evs = Published sent /\
    publishMessages lcfg stringify uuid tenantId sent !! j = Some (messageChannel lcfg namespace, message) /\
    forall s0 e, message_sent (uuid j) message s0 e -> processed_once message s0 e.
Proof. apply broadcast_processed_once. Qed.
End broadcast.

(** ** Witness *)

(** The default timeouts: a run takes up to 25 minutes, the lock of a message lives for 30. *)
Definition demoLocks : lockConfig := mkLockConfig (Some "default") true 1800000.

(** Two instances that process the namespace and one that processes another one. *)
Definition demoMember (namespaces : list string) : member * progress :=
  (mkMember namespaces (mkSubInput (fun _ => true) true false) demoPlainCfg [] (WorkerQueue.new (Some 100)) [] newScheduler, Waiting).
Definition demoFleet (rows : memRows) : fleet memRows Z memStore memStore :=
  mkFleet 2000 ∅ ∅ (rows, 0) [demoMember ["default"]; demoMember ["other"]; demoMember ["default"; "other"]].

Lemma demo_sent rows e :
  row (ev_ID e) rows = Some e -> selectable (with_startTime 2000 demoSettings) 1500000 2000 [] e = true -> ev_attempts e < 3 ->
  (forall t, ev_startAfter e = Some t -> t <= 2000) ->
  message_sent (D := memRows) (W := Z) (R := memStore) (T := memStore) demoCfgString demoCronParses demoCronNext demoValidRegex
    demoRegexTest demoCds demoConnect demoMessageParse demoLocks 1500000 (mkClock 0 0)
    "Mail" "send" "default" (Some "t1") "id1" "message" (demoFleet rows) e.
Proof.
  intros Hrow Hsel Hatt Hst.
  assert (P : forall n, n = ["default"] \/ n = ["default"; "other"] ->
    takes_part (W := Z) (R := memStore) (T := memStore) demoCfgString demoCronParses demoCronNext demoRegexTest demoCds demoLocks
      1500000 "Mail" "send" "default" (Some "t1") (demoFleet rows) e (demoMember n).1).
  { intros n Hn. split; try (vm_compute; reflexivity).
    - destruct Hn as [-> | ->]; left.
    - apply demoPlain_sound.
    - eexists _, (with_startTime 2000 demoSettings). split; [vm_compute; reflexivity|]. split; [vm_compute; reflexivity|].
      split; try done; vm_compute; reflexivity.
    - exists []. vm_compute. reflexivity. }
  split.
  - repeat constructor.
  - vm_compute. reflexivity.
  - intros m p Hin. apply list_elem_of_In in Hin. destruct Hin as [E|[E|[E|[]]]]; injection E as <- <-.
    + left. apply (P ["default"]). by left.
    + right. vm_compute. reflexivity.
    + left. apply (P ["default"; "other"]). by right.
  - eexists _, _. split; [left|]. apply (P ["default"]). by left.
  - exact Hrow.
Qed.

Lemma demo_message_text tenant sent j channel message :
  publishMessages demoLocks demoMessageText (fun _ => "id1") tenant sent !! j = Some (channel, message) -> message = "message".
Proof. unfold publishMessages. rewrite list_lookup_imap. by destruct (sent !! j) as [e|]; intros [= <- <-]. Qed.

Lemma broadcast_event_ends_witness :
  exists (s' : fleet memRows Z memStore memStore) k m p,
    all_settled s' /\ fl_now s' <= 1502000 /\ fl_members s' !! k = Some (m, p) /\
    outcome demoCfgString 1500000 "Mail" "send" "default" (demoFleet demoOpenRows) (demoRow "a" 0 0 5) m p (fl_db s').
Proof.
  destruct (broadcast_event_ends (D := memRows) (W := Z) (R := memStore) (T := memStore) demoISO demoCfgString demoMessageText demoDateParse
    demoStack demoParseJson demoCronParses demoCronNext demoValidRegex demoRegexTest demoCds demoConnect demoMessageParse demoLocks
    1500000 (mkClock 0 0) demoCheck demoHandler demoHook demoBefore "Mail" "send" "default" (Some "t1") demoPlainCfg
    (adHocEntry demoCfgString demoValidRegex demoCfg demoPlain) "default" (fun _ => "id1") [("Mail", "send", "default")] true true false
    (fun _ _ => false)) as (sent & j & message & _ & Hm & Honce).
  - reflexivity.
  - vm_compute. reflexivity.
  - reflexivity.
  - discriminate.
  - intros _. split; [discriminate|]. repeat constructor.
  - intros _. vm_compute. reflexivity.
  - left.
  - vm_compute. reflexivity.
  - reflexivity.
  - apply demo_message_text in Hm as ->.
    assert (Hsent := demo_sent demoOpenRows (demoRow "a" 0 0 5) eq_refl eq_refl eq_refl ltac:(discriminate)).
    destruct (Honce _ _ Hsent (demoFleet demoOpenRows) (rtc_refl _ _)) as [Hrun _].
    destruct Hrun as (s' & Hr & Hs & Hn); [vm_compute; reflexivity|]. change (fl_now s' <= 1502000) in Hn.
    destruct (Honce _ _ Hsent s' Hr) as [_ Ho]. destruct Ho as (k & m & p & Hk & Ho' & _); [|exact Hs|].
    { change (fl_now s' < 1802000). lia. }
    exists s', k, m, p. split; [exact Hs|]. split; [exact Hn|]. split; [exact Hk | exact Ho'].
Defined.
