(* ===== verification/PublishPath.v ===== *)
(** * From the publication over Redis to the end of an event

    The whole way of an event that is processed after its commit: the publication
    ([publishEvent.js]), the rows of the committed transaction, the broadcast of their
    combinations ([dbHandler.js]) and the way of the message through the instances
    ([MessagePath]). *)

From S2P Require Import Prelude Js Errors Config WorkerQueue Common Publish Scheduling DistributedLock Database Processor Selection KeepAlive ProcessEventQueue Lifecycle RunLoop Settings OpenEvents RunnerRedis Runner Pipeline EndToEnd RedisSub MessagePath.
#[local] Open Scope Z_scope.

Section publish_path.
Context {D W R T : Type} {ET : EventTable D} {EL : EventTableLaws D} `{RedisLaws R} `{LockTableLaws T}.
Context (toISOString : Z -> string) (toString stringify : jsval -> string)
  (dateParse : string -> option Z) (stackOf : jsval -> string) (jsonParse : jsval -> option jsval).
Context (stringifyPayload : jsval -> jsval) (cronNextISO : jsval -> result jsval string).
Context (cronParses : jsval -> bool) (cronNext : jsval -> result jsval (Z * Z)) (validRegex : string -> string -> bool)
  (regexTest : string -> string -> Z -> string -> bool * Z) (cds : cdsEnv)
  (connect : option string -> result jsval (option jsval)) (parse : string -> result jsval jsval).
Context (lcfg : lockConfig) (runInterval : Z) (clk : clock).
Context (check : event -> W -> result jsval jsval)
  (processEvent : string -> list event -> jsval -> W -> W * bool * result jsval jsval)
  (hook : event -> W -> W * option jsval) (before : W -> option jsval).
Context (type_ subType namespace : string) (tenantId : option string).

(** The combination of an inserted event that is processed after the commit is among those
    that are broadcast. *)
Lemma combination_broadcast c ibc skipInsert calls tx entries combinations ev' :
  (forall k, k ∈ calls -> skipInsertEventsBeforeCommit k.1.1 = skipInsert /\ skipBroadcast k.1.1 = false) ->
  publishAll toString stringifyPayload dateParse cronNextISO c true ibc calls newTx = (tx, None) ->
  commitTx toString c None tx = Some (entries, combinations) ->
  Forall (fun p => hash_free p = true) [type_; subType; namespace] ->
  truthy (hasEventAfterCommitFlag toString c (JStr type_) (JStr subType) (JStr namespace)) = true ->
  ev' ∈ entries -> prop ev' "type" = JStr type_ -> prop ev' "subType" = JStr subType -> prop ev' "namespace" = JStr namespace ->
  (type_, subType, namespace) ∈ map combinationParts combinations.
Proof.
  intros Hs Hp Hc Hf Hflag Hin P1 P2 P3.
  destruct (published_committed toString stringifyPayload dateParse cronNextISO c true ibc skipInsert calls tx) as (b & cs & _ & C & _ & V).
  { intros k Hk. destruct (Hs k Hk) as [? ?]. done. }
  { done. }
  rewrite C in Hc. injection Hc as <- <-. apply list_elem_of_fmap. exists (join hash2 [type_; subType; namespace]).
  split; [by rewrite combinationParts_join|]. apply V; [done|]. exists ev'. split; [done|]. unfold flagged, Publish.combination.
  rewrite P1, P2, P3. split; [done | reflexivity].
Qed.

(** C10. The way of an event that is published to be processed after the commit, under these
    conditions.
    - The transaction: all its publications use the same [skipInsertEventsBeforeCommit] and none
      skips the broadcast; it commits, and its rows get new ids.
    - The event: a publisher gives no status, attempts or times of its own; the combination of
      its type, sub type and namespace is configured and to be processed after the commit, has
      names without ["#"], and nobody holds its lock when it is broadcast.
    - Redis is on, the application has a name, and messages survive [JSON].
    - The instances ([message_sent]): nobody has received the message and its lock is
      free; every instance takes part or ignores the message and at least one takes part: it
      processes the namespace, is responsible for the event and the tenant, and by its
      settings the event is an ad-hoc one with a transaction of its own and a keep-alive, is
      due, has attempts left, and its lock is free.
    Then the event is an open row; its combination is broadcast after the commit to the
    channel of its namespace; and in whatever order the instances receive the message and
    run, they can come to the point where nothing is left to do, if that is within the
    lifetime of the message's lock; and there, within this lifetime, exactly one instance has
    run the queue of the event.  After that run the event has had its turn (it was taken with
    one attempt more, and a status was written for it), unless the keep-alive found it
    taken over by somebody else, or earlier events filled the chunks the run took and it took
    no further one, by its configuration or because its time was over. *)
Theorem published_event_processed_once c r appNamespace uuid messageId ibc skipInsert calls tx entries combinations now0 rows (d d' : D)
    k ev tenantOk register locked :
  (* the transaction *)
  (forall k, k ∈ calls -> skipInsertEventsBeforeCommit k.1.1 = skipInsert /\ skipBroadcast k.1.1 = false) ->
  publishAll toString stringifyPayload dateParse cronNextISO c true ibc calls newTx = (tx, None) ->
  commitTx toString c None tx = Some (entries, combinations) ->
  insertedRows dateParse uuid now0 entries = Some rows ->
  NoDup (ev_ID <$> rows) -> Forall (fun e => row (ev_ID e) d = None) rows -> insert_rows rows d = Some d' ->
  (* the event *)
  k ∈ calls -> ev ∈ k.2 -> plain_entry ev ->
  prop ev "type" = JStr type_ -> prop ev "subType" = JStr subType ->
  (if is_undefined (prop ev "namespace") then cfg_namespace c else prop ev "namespace") = JStr namespace ->
  getEventConfig toString c (JStr type_) (JStr subType) (JStr namespace) = Some r ->
  truthy (hasEventAfterCommitFlag toString c (JStr type_) (JStr subType) (JStr namespace)) = true ->
  locked (type_, subType, namespace) O = false ->
  (* the messages *)
  lc_redisEnabled lcfg = true -> 0 < lc_globalTxTimeout lcfg ->
  lc_namespace lcfg = Some appNamespace -> appNamespace <> EmptyString ->
  (forall j, messageId j <> EmptyString /\
     Forall (fun p => hash_free p = true) [appNamespace; opt_str tenantId; messageId j; namespace; type_; subType]) ->
  (forall j, parse (stringify (eventMessage (messageId j) tenantId (type_, subType, namespace))) =
     Ok (eventMessage (messageId j) tenantId (type_, subType, namespace))) ->
  exists e, row (ev_ID e) d' = Some e /\
    ev_type e = type_ /\ ev_subType e = subType /\ ev_namespace e = namespace /\
    ev_status e = status_code Open /\ ev_attempts e = 0 /\ ev_createdAt e = now0 /\
    exists sent j message,
      broadcastCombinations toString c true true tenantOk register locked (fun _ => false) combinations = Some (Published sent) /\
      publishMessages lcfg stringify messageId tenantId sent !! j = Some (messageChannel lcfg namespace, message) /\
      forall s0, message_sent toString cronParses cronNext validRegex regexTest cds connect parse lcfg runInterval clk
                   type_ subType namespace tenantId (messageId j) message s0 e ->
        processed_once toISOString toString stringify dateParse stackOf jsonParse cronParses validRegex regexTest cds connect parse lcfg
          runInterval clk check processEvent hook before type_ subType namespace message s0 e.
Proof.
  intros Hs Hp Hc Hrows Hn Hf Hins Hk Hev Hpl Ht Hsub Hns Hreg Hflag Hl Hredis Hpos Happ Hne Hid Hparse.
  destruct (published_row toString dateParse stringifyPayload cronNextISO ibc skipInsert calls tx entries combinations uuid now0 rows
    d d' k ev c type_ subType namespace) as (ev' & e & Hin & P1 & P2 & P3 & Hrow & E1 & E2 & E3 & E4 & E5 & E6 & _); try done.
  { intros k' Hk'. by apply Hs. }
  assert (Hfree : Forall (fun p => hash_free p = true) [type_; subType; namespace]).
  { destruct (Hid O) as [_ F]. rewrite !Forall_cons in *. tauto. }
  pose proof (combination_broadcast c ibc skipInsert calls tx entries combinations ev' Hs Hp Hc Hfree Hflag Hin P1 P2 P3) as Hb.
  destruct (broadcast_processed_once toISOString toString stringify dateParse stackOf jsonParse cronParses cronNext validRegex regexTest
    cds connect parse lcfg runInterval clk check processEvent hook before type_ subType namespace tenantId c r appNamespace messageId
    (map combinationParts combinations) tenantOk register false locked) as (sent & j & message & S1 & S2 & S3); [done..|].
  exists e. split_and!; try done. exists sent, j, message. split_and!; [|done|by intros; apply S3].
  unfold broadcastCombinations. destruct combinations; [by apply elem_of_nil in Hb|]. by rewrite S1.
Qed.
End publish_path.

(** ** Witness *)

Lemma published_event_processed_once_witness :
  exists tx entries combinations (s' : fleet memRows Z memStore memStore) e k m p,
    publishAll demoCfgString demoStringifyJson demoDateParse demoCronISO demoPlainCfg true true demoSentCalls newTx = (tx, None) /\
    commitTx demoCfgString demoPlainCfg None tx = Some (entries, combinations) /\ combinations = ["Mail##send##default"] /\
    row (ev_ID e) demoSentTable = Some e /\ all_settled s' /\ fl_members s' !! k = Some (m, p) /\
    outcome demoCfgString 1500000 "Mail" "send" "default" (demoFleet demoSentTable) e m p (fl_db s').
Proof.
  pose (tx := (publishAll demoCfgString demoStringifyJson demoDateParse demoCronISO demoPlainCfg true true demoSentCalls newTx).1).
  pose (done_ := default ([], []) (commitTx demoCfgString demoPlainCfg None tx)).
  destruct (published_event_processed_once (D := memRows) (W := Z) (R := memStore) (T := memStore) demoISO demoCfgString demoMessageText
    demoDateParse demoStack demoParseJson demoStringifyJson demoCronISO demoCronParses demoCronNext demoValidRegex demoRegexTest demoCds
    demoConnect demoMessageParse demoLocks 1500000 (mkClock 0 0) demoCheck demoHandler demoHook demoBefore "Mail" "send" "default"
    (Some "t1") demoPlainCfg (adHocEntry demoCfgString demoValidRegex demoCfg demoPlain) "default" (fun _ => "id") (fun _ => "id1") true false
    demoSentCalls tx done_.1 done_.2 1000 [demoSentRow] ∅ demoSentTable (defaultOptions, JNull, [demoSent]) demoSent true true
    (fun _ _ => false)) as (e & Hrow & _ & _ & _ & _ & _ & _ & sent & j & message & _ & Hm & Honce).
  - intros k Hk. apply list_elem_of_singleton in Hk as ->. split; reflexivity.
  - vm_compute. reflexivity.
  - vm_compute. reflexivity.
  - vm_compute. reflexivity.
  - apply NoDup_singleton.
  - repeat constructor.
  - vm_compute. reflexivity.
  - left.
  - left.
  - repeat split.
  - reflexivity.
  - reflexivity.
  - vm_compute. reflexivity.
  - vm_compute. reflexivity.
  - vm_compute. reflexivity.
  - reflexivity.
  - reflexivity.
  - vm_compute. reflexivity.
  - reflexivity.
  - discriminate.
  - intros _. split; [discriminate|]. repeat constructor.
  - intros _. vm_compute. reflexivity.
  - apply demo_message_text in Hm as ->. apply demoSentTable_row in Hrow as ->.
    assert (Hsent := demo_sent demoSentTable demoSentRow eq_refl eq_refl eq_refl ltac:(discriminate)).
    destruct (Honce _ Hsent _ (rtc_refl _ _)) as [Hrun _].
    destruct Hrun as (s' & Hr & Hs & Hn); [vm_compute; reflexivity|]. change (fl_now s' <= 1502000) in Hn.
    destruct (Honce _ Hsent s' Hr) as [_ Ho]. destruct Ho as (k & m & p & Hk & Ho' & _); [|exact Hs|].
    { change (fl_now s' < 1802000). lia. }
    exists tx, done_.1, done_.2, s', demoSentRow, k, m, p.
    split; [vm_compute; reflexivity|]. split; [vm_compute; reflexivity|]. split; [vm_compute; reflexivity|].
    split; [reflexivity|]. split; [exact Hs | split; [exact Hk | exact Ho']].
Defined.
