(* ===== verification/Housekeeping.v ===== *)
(** * Deletion of old events ([housekeeping/EventQueueDeleteEvents.js])

    The periodic event of the package itself: rows of configured events whose last attempt
    is older than the configured number of days are deleted. *)

From S2P Require Import Prelude Js Errors Config Common Scheduling Database Processor Selection.

Local Open Scope Z_scope.

Definition DELETE_DEFAULT_PERIOD_IN_DAYS : Z := 7.
Definition DAY_IN_MS : Z := 24 * 60 * 60 * 1000.

(** A configured event, reduced to what the handler reads: type, sub type and
    [deleteFinishedEventsAfterDays], which is a whole number of days if it is set. *)
Record cleanup := mkCleanup {
  cl_type : string;
  cl_subType : string;
  cl_days : option Z }.

(** [if (!event.deleteFinishedEventsAfterDays) ...]: the default is also stored in the
    registered event, where only this handler reads it. *)
Definition cleanupDays (e : cleanup) : Z :=
  match cl_days e with Some 0 | None => DELETE_DEFAULT_PERIOD_IN_DAYS | Some d => d end.

(** [deleteByDaysMap] *)
Fixpoint addByDays (e : cleanup) (m : list (Z * list cleanup)) : list (Z * list cleanup) :=
  match m with
  | [] => [(cleanupDays e, [e])]
  | (d, l) :: r => if d =? cleanupDays e then (d, l ++ [e]) :: r else (d, l) :: addByDays e r
  end.

Definition deleteByDaysMap (events : list cleanup) : list (Z * list cleanup) :=
  fold_left (fun m e => addByDays e m) events [].

Section housekeeping.
Context {D : Type} {ET : EventTable D}.

(** The [WHERE] clause of one [DELETE]; [lastAttemptTimestamp] may be [NULL]. *)
Definition expired (namespaces : list string) (timestamp deleteAfter : Z) (events : list cleanup) (e : event) : bool :=
  existsb (fun x => bool_decide (ev_type e = cl_type x) && bool_decide (ev_subType e = cl_subType x)) events &&
  match ev_lastAttempt e with Some t => t <=? timestamp - deleteAfter * DAY_IN_MS | None => false end &&
  bool_decide (ev_namespace e ∈ namespaces).

(** [processPeriodicEvent(processContext, key)] for the configured events *)
Definition processPeriodicEvent (namespaces : list string) (timestamp : Z) (events : list cleanup) (d : D) : D :=
  fold_left (fun d kv => delete_rows (expired namespaces timestamp kv.1 kv.2) d) (deleteByDaysMap events) d.
End housekeeping.

(** ** What is deleted *)

Section deletion.
Context {D : Type} {ET : EventTable D} {EL : EventTableLaws D}.

(** A row that the configuration of an event lets go. *)
Definition outlived (namespaces : list string) (timestamp : Z) (e : event) (x : cleanup) : Prop :=
  ev_type e = cl_type x /\ ev_subType e = cl_subType x /\ ev_namespace e ∈ namespaces /\
  exists t, ev_lastAttempt e = Some t /\ t <= timestamp - cleanupDays x * DAY_IN_MS.

Lemma addByDays_elem x m d y :
  (exists l, (d, l) ∈ addByDays x m /\ y ∈ l) <-> (exists l, (d, l) ∈ m /\ y ∈ l) \/ (d = cleanupDays x /\ y = x).
Proof.
  induction m as [|[d0 l0] m IH]; cbn [addByDays].
  - split.
    + intros (l & [= -> ->]%list_elem_of_singleton & Hy%list_elem_of_singleton). by right.
    + intros [(l & ?%elem_of_nil & _)|[-> ->]]; [done|]. exists [x]. split; by apply list_elem_of_singleton.
  - destruct (d0 =? cleanupDays x) eqn:E; zbool; [subst d0|].
    + setoid_rewrite elem_of_cons. split.
      * intros (l & [[= -> ->]|Hl] & Hy); [|by left; eauto].
        apply elem_of_app in Hy as [Hy|Hy%list_elem_of_singleton]; [by left; eauto | by right].
      * intros [(l & [[= -> ->]|Hl] & Hy)|[-> ->]]; [|by eauto|];
          (exists (l0 ++ [x]); split; [by left|]; apply elem_of_app; (by left) || (right; by apply list_elem_of_singleton)).
    + setoid_rewrite elem_of_cons. split.
      * intros (l & [[= -> ->]|Hl] & Hy); [by left; eauto|]. destruct (proj1 IH) as [(l' & ? & ?)|?]; [eauto|left; eauto|by right].
      * intros [(l & [[= -> ->]|Hl] & Hy)|Hx]; [by eauto| |];
          (destruct (proj2 IH) as (l' & ? & ?); [by eauto|]; exists l'; by eauto).
Qed.

Lemma deleteByDaysMap_elem events d x :
  (exists l, (d, l) ∈ deleteByDaysMap events /\ x ∈ l) <-> x ∈ events /\ d = cleanupDays x.
Proof.
  unfold deleteByDaysMap. induction events as [|y events IH] using rev_ind.
  { simpl. split; [intros (l & ?%elem_of_nil & _); done | by intros [?%elem_of_nil _]]. }
  rewrite fold_left_app. simpl. rewrite addByDays_elem, IH, elem_of_app, list_elem_of_singleton. naive_solver.
Qed.

Lemma fold_delete {A} (p : A -> event -> bool) l (d : D) id :
  row id (fold_left (fun d a => delete_rows (p a) d) l d) =
    match row id d with Some e => if existsb (fun a => p a e) l then None else Some e | None => None end.
Proof.
  revert d. induction l as [|a l IH]; intros d; simpl; [by destruct (row id d)|].
  rewrite IH, delete_row. destruct (row id d) as [e|]; [|done]. by destruct (p a e).
Qed.

Lemma expired_outlived namespaces timestamp d l e :
  (forall x, x ∈ l -> d = cleanupDays x) ->
  expired namespaces timestamp d l e = true <-> exists x, x ∈ l /\ outlived namespaces timestamp e x.
Proof.
  intros Hd. unfold expired, outlived. rewrite !andb_true_iff, bool_decide_eq_true, existsb_exists. split.
  - intros [[(x & Hx%list_elem_of_In & Hc) Ht] Hn]. apply andb_true_iff in Hc as [Hc1%bool_decide_eq_true Hc2%bool_decide_eq_true].
    exists x. split; [done|]. split_and!; [done..|]. destruct (ev_lastAttempt e) as [t|]; [|done]. apply Z.leb_le in Ht.
    exists t. split; [done|]. by rewrite <- (Hd x Hx).
  - intros (x & Hx & Hc1 & Hc2 & Hn & t & Ht & Hle). rewrite Ht. split_and!; [|apply Z.leb_le; by rewrite (Hd x Hx)|done].
    exists x. split; [by apply list_elem_of_In|]. by rewrite Hc1, Hc2, !bool_decide_true.
Qed.

(** Which rows go, for any configuration: with zero days as with seven. *)
Lemma deleted_iff namespaces timestamp events (d : D) id :
  row id (processPeriodicEvent namespaces timestamp events d) = None <->
  row id d = None \/ exists e x, row id d = Some e /\ x ∈ events /\ outlived namespaces timestamp e x.
Proof.
  unfold processPeriodicEvent. rewrite (fold_delete (fun kv => expired namespaces timestamp kv.1 kv.2)).
  destruct (row id d) as [e|]; [|naive_solver].
  assert (G : existsb (fun kv => expired namespaces timestamp kv.1 kv.2 e) (deleteByDaysMap events) = true <->
    exists x, x ∈ events /\ outlived namespaces timestamp e x).
  { rewrite existsb_exists. split.
    - intros ([d0 l] & Hin%list_elem_of_In & He). simpl in He.
      apply expired_outlived in He as (x & Hx & Ho); [|intros x Hx; by apply (deleteByDaysMap_elem events); exists l].
      exists x. split; [|done]. by apply (deleteByDaysMap_elem events d0); exists l.
    - intros (x & Hx & Ho). destruct (proj2 (deleteByDaysMap_elem events (cleanupDays x) x)) as (l & Hl & Hxl); [done|].
      exists (cleanupDays x, l). split; [by apply list_elem_of_In|]. simpl.
      apply expired_outlived; [|by exists x]. intros y Hy. by apply (deleteByDaysMap_elem events); exists l. }
  destruct (existsb _ _).
  - split; [intros _; right; exists e; destruct (proj1 G eq_refl) as (x & ?); eauto | done].
  - split; [done|]. intros [?|(e' & x & [= <-] & H)]; [done|]. exfalso. by apply diff_false_true, G; eauto.
Qed.

(** A row that stays is unchanged. *)
Lemma housekeeping_keeps namespaces timestamp events (d : D) id e :
  row id (processPeriodicEvent namespaces timestamp events d) = Some e -> row id d = Some e.
Proof.
  unfold processPeriodicEvent. rewrite (fold_delete (fun kv => expired namespaces timestamp kv.1 kv.2)).
  destruct (row id d) as [e'|]; [|done]. by destruct (existsb _ _).
Qed.

Lemma cleanupDays_nonzero x : cl_days x <> Some 0 -> cleanupDays x = default 7 (cl_days x).
Proof. unfold cleanupDays. destruct (cl_days x) as [[]|]; [congruence | done..]. Qed.

(** C36. Housekeeping of a configuration in which no event is to be kept for ever (zero
    days): a row is deleted exactly if its namespace is processed, some configured event
    has its type and sub type, in whatever namespace, and the last attempt is at least as
    many days ago as that configuration says, 7 if it says nothing.  The status does not
    matter; a row without an attempt stays.  A row that stays is unchanged. *)
Theorem housekeeping_exact namespaces timestamp events (d : D) id :
  Forall (fun x => cl_days x <> Some 0) events ->
  (row id (processPeriodicEvent namespaces timestamp events d) = None <->
   row id d = None \/ exists e x t, row id d = Some e /\ x ∈ events /\
     ev_type e = cl_type x /\ ev_subType e = cl_subType x /\ ev_namespace e ∈ namespaces /\
     ev_lastAttempt e = Some t /\ t <= timestamp - default 7 (cl_days x) * DAY_IN_MS) /\
  (forall e, row id (processPeriodicEvent namespaces timestamp events d) = Some e -> row id d = Some e).
Proof.
  intros H0. rewrite Forall_forall in H0. split; [|apply housekeeping_keeps]. rewrite deleted_iff. unfold outlived. split.
  - intros [?|(e & x & He & Hx & T & S & N & t & Ht & Hle)]; [by left|]. right. exists e, x, t.
    by rewrite <- cleanupDays_nonzero by by apply H0.
  - intros [?|(e & x & t & He & Hx & T & S & N & Ht & Hle)]; [by left|]. right. exists e, x.
    split_and!; try done. exists t. by rewrite cleanupDays_nonzero by by apply H0.
Qed.
End deletion.

(** ** Zero days *)

(** An event whose configuration says zero days is deleted seven days after its last
    attempt. *)
Theorem zero_days_deleted {D} {ET : EventTable D} {EL : EventTableLaws D} (d : D) id e t namespaces timestamp :
  row id d = Some e -> ev_namespace e ∈ namespaces -> ev_lastAttempt e = Some t -> t <= timestamp - 7 * DAY_IN_MS ->
  row id (processPeriodicEvent namespaces timestamp [mkCleanup (ev_type e) (ev_subType e) (Some 0)] d) = None.
Proof.
  intros Hr Hn Ht Hle. unfold processPeriodicEvent. simpl. rewrite delete_row, Hr. unfold expired. simpl.
  rewrite Ht, !bool_decide_true, (proj2 (Z.leb_le t _)) by done. done.
Qed.

(** ** Witnesses *)

Definition demoOldRow : event := with_lastAttempt (Some 1000) (demoRow "a" 2 1 5).
Definition demoOldRows : memRows := {[ "a" := demoOldRow; "b" := demoRow "b" 0 0 6 ]}.

Lemma zero_days_deleted_witness :
  row "a" (processPeriodicEvent ["default"] (1000 + 7 * DAY_IN_MS) [mkCleanup "Mail" "send" (Some 0)] demoOldRows) = None /\
  row "a" demoOldRows = Some demoOldRow.
Proof.
  split; [|vm_compute; reflexivity].
  apply (zero_days_deleted demoOldRows "a" demoOldRow 1000 ["default"] (1000 + 7 * DAY_IN_MS)); vm_compute; try reflexivity.
  - left.
  - discriminate.
Defined.

(** The clause does not look at the status: an event that waits for its next attempt is
    deleted like a finished one. *)
Lemma waiting_event_deleted :
  let e := with_status (status_code Open) demoOldRow in
  row "a" (processPeriodicEvent ["default"] (1000 + 7 * DAY_IN_MS) [mkCleanup "Mail" "send" None] ({[ "a" := e ]} : memRows)) = None.
Proof. vm_compute. reflexivity. Qed.

(** An old row goes after seven days, and stays if its configuration says ten. *)
Lemma housekeeping_exact_witness :
  let d := demoOldRows in
  let events days := [mkCleanup "Mail" "send" days] in
  (row "a" (processPeriodicEvent ["default"] (1000 + 7 * DAY_IN_MS) (events None) d) = None) /\
  (row "a" (processPeriodicEvent ["default"] (1000 + 7 * DAY_IN_MS) (events (Some 10)) d) <> None).
Proof.
  intros d events. split.
  - apply (housekeeping_exact (D := memRows)).
    + repeat constructor. discriminate.
    + right. exists demoOldRow, (mkCleanup "Mail" "send" None), 1000.
      split_and!; try reflexivity; left.
  - intros H. apply (housekeeping_exact (D := memRows)) in H; [|repeat constructor; discriminate].
    destruct H as [H|(e & x & t & He & ->%list_elem_of_singleton & _ & _ & _ & Ht & Hle)]; [discriminate H|].
    injection He as <-. injection Ht as <-. apply Hle. reflexivity.
Defined.
