(* ===== verification/AdminService.v ===== *)
(** * Administration ([srv/service/admin-service.js], [srv/service/publishEventHelper.js])

    The handlers of the OData service: the checks before every request, the change of a
    status, the release of a lock and the publication of an event for several tenants.
    The reading of events is a query the service passes on to the table of the tenant. *)

From S2P Require Import Prelude Js Errors Config Common Publish Scheduling DistributedLock Database Processor Selection KeepAlive.

Local Open Scope Z_scope.

(** ** Before every request *)

(** A rejected request: the HTTP status. *)
Record request := mkRequest {
  q_headers : obj jsval;
  q_httpHeaders : obj jsval;
  q_data : obj jsval;
  q_isPublish : bool;
  q_isLock : bool }.

(** The handler [before("*")]: the headers of the request afterwards. *)
Definition beforeRequest (enableAdminService isMultiTenancy : bool) (r : request) : result Z (obj jsval) :=
  if negb enableAdminService then Err 403
  else if q_isPublish r then Ok (q_headers r)
  else if q_isLock r then Ok (q_headers r)
  else
    let headers := oassign (oassign [] (q_headers r)) (q_httpHeaders r) in
    let tenant := coalesce (prop headers "z-id") (prop (q_data r) "tenant") in
    if isMultiTenancy && nullish tenant then Err 400
    else Ok (oset "z-id" tenant (q_headers r)).

(** ** The handlers *)

Section handlers.
Context {D : Type} {ET : EventTable D}.

(** [READ] of the events: the first segment of the query's path, a name or an object with
    an [id] (a navigation or a filter), is the table [entity] instead of the service's
    entity; every row shows its tenant.  [run] is [tx.run] on a query with this segment. *)
Definition eventTarget (entity : string) (ref0 : jsval) : jsval :=
  match ref0 with
  | JObj o => if truthy (prop o "id") then JObj (oset "id" (JStr entity) o) else JStr entity
  | _ => JStr entity
  end.
Definition readEvents (entity : string) (tenant : jsval) (run : jsval -> result jsval (option (list (obj jsval)))) (ref0 : jsval)
    : result jsval (option (list (obj jsval))) :=
  match run (eventTarget entity ref0) with
  | Ok events => Ok (map (oset "tenant" tenant) <$> events)
  | Err e => Err e
  end.

(** [updateData]: [Number.isInteger(attempts)] and the known statuses. *)
Definition attemptsOf (v : jsval) : option Z := match v with JNum z => Some z | _ => None end.
Definition statusOf (v : jsval) : option Z :=
  match v with JNum z => if status_of_code z then Some z else None | _ => None end.

Definition setUpdate (attempts status : option Z) (e : event) : event :=
  let e := match attempts with Some z => with_attempts z e | None => e end in
  match status with Some z => with_status z e | None => e end.

(** [setStatusAndAttempts]: the table and the event that is broadcast, which is read
    before the update. *)
Definition setStatusAndAttempts (data : obj jsval) (id : string) (d : D) : result Z (D * option event) :=
  let attempts := attemptsOf (prop data "attempts") in
  let status := statusOf (prop data "status") in
  if bool_decide (attempts = None) && bool_decide (status = None) then Err 400
  else Ok (update_rows (id_in [id]) (setUpdate attempts status) d, row id d).

(** [_resolveTenantInfos(context)]: [allTenants] is [getAllTenantIds()]. *)
Fixpoint resolveKeyword (self : jsval) (allTenants : option (list jsval)) (tenants : list jsval) : option (option (list jsval)) :=
  match tenants with
  | [] => None
  | JStr "self" :: _ => Some (Some [self])
  | JStr "all" :: _ | JStr "*" :: _ => Some allTenants
  | _ :: r => resolveKeyword self allTenants r
  end.

(** What is not an array gives no tenant; [None] is the error of a missing tenant list. *)
Definition _resolveTenantInfos (toString : jsval -> string) (tenants self : jsval) (allTenants : option (list jsval)) : option (list jsval) :=
  match tenants with
  | JArr l =>
    match resolveKeyword self allTenants l with
    | Some r => r
    | None =>
      let contextTenantsMap := fromEntries (map (fun t => (js_string toString t, JBool true)) l) in
      all ← allTenants;
      Some (List.filter (fun t => ohas (js_string toString t) contextTenantsMap) all)
    end
  | _ => Some []
  end.

(** [resolveTenantInfos(context)]; [sort] is the order of [localeCompare]. *)
Definition resolveTenantInfos (toString : jsval -> string) (sort : list jsval -> list jsval) (tenants self : jsval)
    (allTenants : option (list jsval)) : option (list jsval) :=
  sort <$> _resolveTenantInfos toString tenants self allTenants.

(** The loop of [publishEvent]: a transaction per tenant; the first failure rejects the
    request, what was published before it stays. *)
Fixpoint publishForTenants (publish : jsval -> result jsval (list (obj jsval))) (tenants : list jsval)
    (published : list (jsval * list (obj jsval))) : list (jsval * list (obj jsval)) * bool :=
  match tenants with
  | [] => (published, true)
  | t :: r =>
    match publish t with
    | Ok rows => publishForTenants publish r (published ++ [(t, rows)])
    | Err _ => (published, false)
    end
  end.

(** One tenant: [cds.tx({ tenant }, tx => publishEvent(tx, { ...eventOptions }))]. *)
Definition publishInTx (toString : jsval -> string) (stringify : jsval -> jsval) (dateParse : string -> option Z)
    (cronNextISO : jsval -> result jsval string) (c : Config) (insertEventsBeforeCommit : bool)
    (traceContext : jsval) (data : obj jsval) (dbError : jsval -> option jsval) (tenant : jsval) : result jsval (list (obj jsval)) :=
  let eventOptions := Common.cleanUndefined
    (map (fun k => (k, prop data k)) ["type"; "subType"; "referenceEntity"; "referenceEntityKey"; "payload"; "startAfter"; "namespace"]) in
  match publishEvent toString stringify dateParse cronNextISO c true insertEventsBeforeCommit defaultOptions traceContext [eventOptions] (dbError tenant) newTx with
  | (_, Some (JsError e)) => Err e
  | (_, Some (QueueError _)) => Err (JErr "EventQueueError" "publish")
  | (t, None) =>
    match commitTx toString c (dbError tenant) t with
    | Some (rows, _) => Ok rows
    | None => Err (JErr "Error" "commit")
    end
  end.
End handlers.

Section release.
Context {R T : Type} `{RedisClient R} `{LockTable T} (lcfg : lockConfig).

(** [releaseLock] *)
Definition adminReleaseLock (now : Z) (tenant : option string) (type_ subType namespace : string) (l : lstate R T) : lstate R T * bool :=
  releaseLock lcfg now tenant (join hash2 [namespace; type_; subType]) true true l.

(** [READ] of the locks *)
Definition readLocks (ttl : string -> Z) (value : string -> option string) (keys : list string) : list lockRow :=
  if negb (lc_redisEnabled lcfg) then [] else getAllLocksRedis ttl value keys.
End release.

(** ** The release of a processor's lock *)

Section release_props.
Context {R T : Type} `{RedisLaws R} `{LockTableLaws T} (lcfg : lockConfig) (cfg : eventConfig) (tenant : option string).

(** Releasing the lock of an event frees the lock its processor holds: whatever was
    acquired before, the next processor gets it. *)
Theorem admin_frees_processor_lock now now' (l other : lockState R T) :
  ec_multiInstance cfg = false -> 0 < round_ms (keepAliveMaxMs cfg) -> now <= now' ->
  let svc := (adminReleaseLock lcfg now tenant (ec_type cfg) (ec_subType cfg) (ec_namespace cfg) (lk_service l)).1 in
  (acquireDistributedLock lcfg cfg tenant now' (mkLockState svc (lk_acquired other) (lk_time other))).2 = true.
Proof.
  intros Hm Hx Hle svc. unfold acquireDistributedLock. rewrite Hm. cbn [lk_service].
  set (k := processorLockKey lcfg tenant (ec_namespace cfg) (ec_type cfg) (ec_subType cfg)).
  change (acquireLock lcfg now' tenant (join hash2 [ec_namespace cfg; ec_type cfg; ec_subType cfg]) true (keepAliveMaxMs cfg) true true svc)
    with (module_acquire lcfg tenant now' k (keepAliveMaxMs cfg) svc).
  change svc with (module_release lcfg now k (lk_service l)).
  pose proof (@ls_acquire_free _ _ (lockModule_laws lcfg tenant) now' k (keepAliveMaxMs cfg) (module_release lcfg now k (lk_service l)) Hx) as E1.
  pose proof (@ls_release_busy _ _ (lockModule_laws lcfg tenant) now k (lk_service l) k (keepAliveMaxMs cfg) now' Hle) as E2.
  unfold ls_acquire, ls_release, ls_busy, lockModule in E1, E2. rewrite decide_True in E2 by done. rewrite E2 in E1.
  destruct (module_acquire _ _ _ _ _ _). exact E1.
Qed.
End release_props.

(** ** The change of a status *)

Section status_props.
Context {D : Type} {ET : EventTable D} {EL : EventTableLaws D}.

Lemma setUpdate_ID a s e : ev_ID (setUpdate a s e) = ev_ID e.
Proof. by destruct a, s. Qed.

(** A change is refused exactly if it has neither a whole number of attempts nor a known
    status; otherwise it sets what it has on the one row, and the event as it was is
    broadcast. *)
Theorem status_change_exact data id (d : D) :
  match setStatusAndAttempts data id d with
  | Err code => code = 400 /\ attemptsOf (prop data "attempts") = None /\ statusOf (prop data "status") = None
  | Ok (d', broadcast) =>
    broadcast = row id d /\
    forall id', row id' d' =
      if decide (id' = id) then setUpdate (attemptsOf (prop data "attempts")) (statusOf (prop data "status")) <$> row id d
      else row id' d
  end.
Proof.
  unfold setStatusAndAttempts. set (a := attemptsOf _). set (s := statusOf _).
  destruct (bool_decide (a = None) && bool_decide (s = None)) eqn:E.
  - apply andb_true_iff in E as [E1%bool_decide_eq_true E2%bool_decide_eq_true]. done.
  - split; [done|]. intros id'. rewrite update_ids_row by (intros; apply setUpdate_ID).
    destruct (decide (id' = id)) as [->|Hne]; [by rewrite decide_True by set_solver | by rewrite decide_False by set_solver].
Qed.

(** Statuses that are set this way are codes of [EventProcessingStatus]. *)
Lemma statusOf_known v z : statusOf v = Some z -> exists s, z = status_code s.
Proof.
  unfold statusOf. destruct v; try done. destruct (status_of_code z0) as [s|] eqn:E; [|done]. intros [= <-]. exists s.
  unfold status_of_code in E. apply List.find_some in E as [_ E]. by apply Z.eqb_eq in E.
Qed.
End status_props.

(** ** The events of a tenant *)

(** The rows that are read are those of the query on the table, as they are, with the
    tenant of the request. *)
Lemma readEvents_rows entity tenant run ref0 rows :
  run (eventTarget entity ref0) = Ok (Some rows) ->
  exists shown, readEvents entity tenant run ref0 = Ok (Some shown) /\ length shown = length rows /\
    forall i e, rows !! i = Some e -> exists e', shown !! i = Some e' /\ prop e' "tenant" = tenant /\
      forall k, k <> "tenant" -> prop e' k = prop e k.
Proof.
  intros Hr. unfold readEvents. rewrite Hr. eexists. split; [reflexivity|]. split; [apply length_map|].
  intros i e He. exists (oset "tenant" tenant e). split; [by rewrite list_lookup_fmap, He|].
  split; [apply prop_oset_eq|]. intros k Hk. by rewrite prop_oset_ne.
Qed.

(** A filter on the service's entity stays a filter on the table. *)
Lemma eventTarget_filter entity o :
  truthy (prop o "id") = true ->
  exists o', eventTarget entity (JObj o) = JObj o' /\ prop o' "id" = JStr entity /\ forall k, k <> "id" -> prop o' k = prop o k.
Proof.
  intros Ht. unfold eventTarget. rewrite Ht. eexists. split; [reflexivity|]. split; [apply prop_oset_eq|].
  intros k Hk. by rewrite prop_oset_ne.
Qed.

(** ** Publication for tenants *)

(** The tenants before the first failure have their rows, the others none. *)
Lemma publishForTenants_prefix publish tenants acc :
  let '(published, ok) := publishForTenants publish tenants acc in
  exists done_ rest, tenants = done_ ++ rest /\
    published = acc ++ omap (fun t => match publish t with Ok rows => Some (t, rows) | Err _ => None end) done_ /\
    Forall (fun t => is_ok (publish t) = true) done_ /\ (ok = true <-> rest = []).
Proof.
  revert acc. induction tenants as [|t r IH]; intros acc; simpl.
  - exists [], []. csimpl. rewrite app_nil_r. by repeat split.
  - destruct (publish t) as [rows|err] eqn:E.
    + specialize (IH (acc ++ [(t, rows)])). destruct (publishForTenants publish r _) as [pub ok].
      destruct IH as (d1 & rest & -> & -> & Hok & Hr). exists (t :: d1), rest. csimpl. rewrite E.
      split_and!; [done | by rewrite <- app_assoc | | exact Hr]. constructor; [by rewrite E | done].
    + exists [], (t :: r). simpl. rewrite app_nil_r. by repeat split.
Qed.

(** ** Witness *)

Lemma admin_frees_processor_lock_witness :
  let l := (acquireDistributedLock (demoConfig true) (demoEventConfig isolated) None 1000 (mkLockState memInit false 0)).1 in
  (acquireDistributedLock (demoConfig true) (demoEventConfig isolated) None 1010 l).2 = false /\
  (acquireDistributedLock (demoConfig true) (demoEventConfig isolated) None 1010
     (mkLockState (adminReleaseLock (demoConfig true) 1005 None "Mail" "send" "default" (lk_service l)).1 false 0)).2 = true.
Proof.
  split; [vm_compute; reflexivity|].
  apply (admin_frees_processor_lock (R := memStore) (T := memStore) (demoConfig true) (demoEventConfig isolated) None 1005 1010 _
    (mkLockState memInit false 0)); [reflexivity | vm_compute; reflexivity | lia].
Defined.
