(* ===== verification/Initialize.v ===== *)
(** * Initialisation ([initialize.js], the settings of [config.js])

    The settings from the options, the environment and the defaults; the sequence of
    [initialize], which reads the configured events and connects to Redis; and the choice
    of the runner. *)

From S2P Require Import Prelude Js Errors Config Common DistributedLock Database RedisSub.

Local Open Scope Z_scope.

(** ** Settings *)

Section settings.
(** [JSON.parse(JSON.stringify(v))] *)
Context (jsonCopy : jsval -> result jsval jsval).

(** The setters of the class [Config]: a plain field, or one of the setters with a
    condition. *)
Definition setSetting (name : string) (value : jsval) (s : obj jsval) : throws (obj jsval) :=
  if bool_decide (name = "runInterval") then
    match value with
    | JNum z => if z <=? 10 * 1000 then throwQ (invalidInterval JUndef JUndef JUndef) else Ok (oset name value s)
    | _ => throwQ (invalidInterval JUndef JUndef JUndef)
    end
  else if bool_decide (name = "useAsCAPOutbox") || bool_decide (name = "useAsCAPQueue") then
    if truthy (prop s "useAsCAPOutbox") then Ok s else Ok (oset "useAsCAPOutbox" value s)
  else if bool_decide (name = "configEvents") || bool_decide (name = "configPeriodicEvents") then
    match jsonCopy value with Ok v => Ok (oset name v s) | Err e => Err (JsError e) end
  else Ok (oset name value s).

(** The getters. *)
Definition getSetting (name : string) (s : obj jsval) : jsval :=
  if bool_decide (name = "useAsCAPQueue") then prop s "useAsCAPOutbox"
  else if bool_decide (name = "redisOptions") then JObj (spread (prop s name))
  else prop s name.

(** [hasConfigEvents] *)
Definition hasConfigEvents (s : obj jsval) : bool :=
  negb (bool_decide (okeys (spread (prop s "configEvents")) = [])) ||
  negb (bool_decide (okeys (spread (prop s "configPeriodicEvents")) = [])).

(** [redisRequires] of [shared/env.js]: the Redis service of the event queue, else the common
    one. *)
Definition redisRequires (requires : obj jsval) : jsval :=
  if truthy (prop requires "redis-eventQueue") then prop requires "redis-eventQueue" else prop requires "redis".

(** [_checkRedisIsBound()] *)
Definition _checkRedisIsBound (requires : obj jsval) : bool := truthy (field (redisRequires requires) "credentials").

(** [checkRedisEnabled()] *)
Definition checkRedisEnabled (redisBound : bool) (s : obj jsval) : obj jsval * bool :=
  let enabled := negb (truthy (prop s "disableRedis")) && redisBound in
  (oset "redisEnabled" (JBool enabled) s, enabled).

(** [CONFIG_VARS]: name, default and the name of the setting if it differs. *)
Definition CONFIG_VARS : list (string * jsval * option string) :=
  [("configFilePath", JNull, None);
   ("events", JNull, Some "configEvents");
   ("periodicEvents", JNull, Some "configPeriodicEvents");
   ("registerAsEventProcessor", JBool true, None);
   ("processEventsAfterPublish", JBool true, None);
   ("isEventQueueActive", JBool true, None);
   ("runInterval", JNum (25 * 60 * 1000), None);
   ("disableRedis", JBool true, None);
   ("updatePeriodicEvents", JBool true, None);
   ("thresholdLoggingEventProcessing", JNum 50, None);
   ("useAsCAPOutbox", JBool false, None);
   ("useAsCAPQueue", JBool false, None);
   ("userId", JNull, None);
   ("cleanupLocksAndEventsForDev", JBool false, None);
   ("redisOptions", JObj [], None);
   ("insertEventsBeforeCommit", JBool true, None);
   ("enableTelemetry", JBool true, None);
   ("cronTimezone", JNull, None);
   ("randomOffsetPeriodicEvents", JNull, None);
   ("publishEventBlockList", JBool true, None);
   ("crashOnRedisUnavailable", JBool false, None);
   ("enableAdminService", JBool false, None);
   ("disableProcessingOfSuspendedTenants", JBool true, None);
   ("namespace", JStr "default", None);
   ("processingNamespaces", JArr [JStr "default"], None);
   ("collectEventQueueMetrics", JBool false, None)].

(** The value of a variable: [options[name] ?? cds.env.eventQueue?.[name] ?? default]. *)
Definition configValue (options env : obj jsval) (v : string * jsval * option string) : jsval :=
  coalesce (coalesce (prop options v.1.1) (prop env v.1.1)) v.1.2.

Definition targetOf (v : string * jsval * option string) : string := default v.1.1 v.2.

Fixpoint mixVars (options env : obj jsval) (vars : list (string * jsval * option string)) (s : obj jsval)
    : obj jsval * option cfgError :=
  match vars with
  | [] => (s, None)
  | v :: r =>
    match setSetting (targetOf v) (configValue options env v) s with
    | Ok s => mixVars options env r s
    | Err e => (s, Some e)
    end
  end.

(** [mixConfigVarsWithEnv(options)]: a setter that throws ends the loop. *)
Definition mixConfigVarsWithEnv (options env : obj jsval) (s : obj jsval) : obj jsval * option cfgError :=
  mixVars options env CONFIG_VARS s.
End settings.

(** ** The sequence of initialize *)

Definition strings_of (v : jsval) : list string := omap (fun x => match x with JStr a => Some a | _ => None end) (items v).

Definition object_of (v : jsval) : option (obj jsval) := match v with JObj o => Some o | _ => None end.

(** The private fields of the registry that the settings write. *)
Definition applySettings (s : obj jsval) (c : Config) : Config :=
  mkCfg (prop s "namespace") (cfg_instanceLoadLimit c) (prop s "cronTimezone") (cfg_eventMap c)
    (object_of (prop s "configEvents")) (object_of (prop s "configPeriodicEvents"))
    (strings_of (prop s "processingNamespaces")) (cfg_unsubscribedTenants c) (prop s "runInterval").

(** [config.initialized], the settings, the registry, and whether the outbox of CAP is
    replaced and [initFinished] is resolved. *)
Record initState := mkInitState {
  in_initialized : bool;
  in_settings : obj jsval;
  in_config : Config;
  in_patched : bool;
  in_ready : bool }.

Section init.
Context (jsonCopy : jsval -> result jsval jsval) (toString : jsval -> string) (cronParses : jsval -> bool)
  (cronNext : jsval -> result jsval (Z * Z)) (validRegex : string -> string -> bool) (cds : cdsEnv).

(** The kind of a configuration file by its extension. *)
Inductive fileKind : Type := Yaml | Json | OtherFile.

(** [readConfigFromFile(configFilepath)]: [read] is what reading and parsing the file
    gives; other extensions are an error.  Without a path the error is ignored when
    events come from elsewhere. *)
Definition readConfigFromFile (s : obj jsval) (kind : fileKind) (read : result jsval (list (obj jsval) * list (obj jsval)))
    : result jsval (list (obj jsval) * list (obj jsval)) :=
  let r := match read, kind with
           | Err e, _ => Err e
           | Ok _, OtherFile => Err (JErr "EventQueueInitialization" "configFilepath with unsupported extension, allowed extensions are .yaml and .json")
           | Ok content, _ => Ok content
           end in
  match r with
  | Ok content => Ok content
  | Err e =>
    if negb (truthy (prop s "configFilePath")) && (truthy (prop s "useAsCAPOutbox") || hasConfigEvents s) then Ok ([], [])
    else Err e
  end.

(** [initialize(options)]: [redisBound], the connection check and the file are what the
    function meets; the first error ends it. *)
Definition initialize (options env : obj jsval) (redisBound : bool) (connectionCheck : result jsval bool)
    (kind : fileKind) (read : result jsval (list (obj jsval) * list (obj jsval))) (st : initState) : initState * option cfgError :=
  if in_initialized st then (st, None)
  else
    let at_ s c := mkInitState true s c (in_patched st) (in_ready st) in
    match mixConfigVarsWithEnv jsonCopy options env (in_settings st) with
    | (s, Some e) => (at_ s (applySettings s (in_config st)), Some e)
    | (s, None) =>
      let c := applySettings s (in_config st) in
      let '(s, redisEnabled) := checkRedisEnabled redisBound s in
      match (if redisEnabled then connectionCheck else Ok false) with
      | Err e => (at_ s c, Some (JsError e))
      | Ok connected =>
        let s := if redisEnabled then oset "redisEnabled" (JBool connected) s else s in
        if redisEnabled && negb connected && truthy (prop s "crashOnRedisUnavailable")
        then (at_ s c, Some (QueueError (redisConnectionFailure JUndef)))
        else
          match readConfigFromFile s kind read with
          | Err e => (at_ s c, Some (JsError e))
          | Ok (events, periodicEvents) =>
            match mixFileContentWithEnv toString cronParses cronNext validRegex cds events periodicEvents c with
            | (c, Some e) => (at_ s c, Some e)
            | (c, None) => (mkInitState true s c (in_patched st || truthy (prop s "useAsCAPOutbox")) true, None)
            end
          end
      end
    end.

(** ** The runner of an instance *)

Inductive runnerKind : Type := MultiTenancyRedis | SingleTenantRedis | MultiTenancyDb | SingleTenantDb.

(** [registerEventProcessors()]: the subscriptions and the runner that is started. *)
Definition registerEventProcessors (lcfg : lockConfig) (s : obj jsval) (namespaces : list string) (sub : subscriber)
    : subscriber * option runnerKind :=
  let sub := if lc_redisEnabled lcfg then attachRedisUnsubscribeHandler lcfg sub else sub in
  if negb (truthy (prop s "registerAsEventProcessor")) then (sub, None)
  else if lc_redisEnabled lcfg then
    (initEventQueueRedisSubscribe lcfg namespaces sub,
     Some (if isMultiTenancy cds then MultiTenancyRedis else SingleTenantRedis))
  else (sub, Some (if isMultiTenancy cds then MultiTenancyDb else SingleTenantDb)).

(** [registerCleanupForDevDb()] for the tables of a tenant: all locks are deleted, events
    in progress fail. *)
Definition cleanupForDev {D L} {ET : EventTable D} (deleteLocks : L -> L) (developmentMode : bool) (st : L * D) : L * D :=
  if negb developmentMode then st
  else (deleteLocks st.1, update_rows (has_status InProgress) (with_status (status_code Error)) st.2).
End init.

(** ** Where a setting comes from *)

(** The settings with a setter of their own. *)
Definition special : list string := ["useAsCAPOutbox"; "useAsCAPQueue"; "configEvents"; "configPeriodicEvents"].

Section precedence.
Context (jsonCopy : jsval -> result jsval jsval) (options env : obj jsval).

(** The field a setter writes. *)
Definition fieldOf (name : string) : string := if bool_decide (name = "useAsCAPQueue") then "useAsCAPOutbox" else name.

Lemma setSetting_other name v s s' k : setSetting jsonCopy name v s = Ok s' -> fieldOf name <> k -> prop s' k = prop s k.
Proof.
  unfold setSetting, fieldOf. intros H Hne.
  repeat (case_bool_decide; simplify_eq/=); repeat case_match; simplify_eq/=; rewrite ?prop_oset, ?decide_False by congruence; done.
Qed.

Lemma setSetting_plain name v s s' : name ∉ special -> setSetting jsonCopy name v s = Ok s' -> prop s' name = v.
Proof.
  unfold special. intros Hn H. unfold setSetting in H.
  rewrite (bool_decide_false (name = "useAsCAPOutbox")), (bool_decide_false (name = "useAsCAPQueue")),
    (bool_decide_false (name = "configEvents")), (bool_decide_false (name = "configPeriodicEvents")) in H
    by (intros ->; apply Hn; elem_lit). simpl in H.
  repeat case_match; simplify_eq/=; by rewrite prop_oset, decide_True by done.
Qed.

Lemma mixVars_other vars s s' k :
  mixVars jsonCopy options env vars s = (s', None) -> k ∉ (fieldOf ∘ targetOf <$> vars) -> prop s' k = prop s k.
Proof.
  revert s. induction vars as [|v vars IH]; intros s H Hk; simpl in H; [by simplify_eq|].
  destruct (setSetting _ _ _ _) as [s1|] eqn:E; [|done]. csimpl in Hk. apply not_elem_of_cons in Hk as [Hk1 Hk2].
  rewrite (IH s1 H Hk2). eapply setSetting_other; [exact E|]. simpl in Hk1. congruence.
Qed.

Lemma mixVars_plain vars s s' v :
  mixVars jsonCopy options env vars s = (s', None) -> v ∈ vars -> targetOf v ∉ special ->
  NoDup (List.filter (fun k => negb (bool_decide (k ∈ special))) (fieldOf ∘ targetOf <$> vars)) ->
  prop s' (targetOf v) = configValue options env v.
Proof.
  revert s. induction vars as [|u vars IH]; intros s H Hv Hs Hn; [by apply elem_of_nil in Hv|]. simpl in H.
  destruct (setSetting _ _ _ _) as [s1|] eqn:E; [|done]. csimpl in Hn.
  assert (Hn' : NoDup (List.filter (fun k => negb (bool_decide (k ∈ special))) (fieldOf ∘ targetOf <$> vars))).
  { destruct (negb _); [by apply NoDup_cons in Hn as [_ ?] | done]. }
  apply elem_of_cons in Hv as [<-|Hv]; [|by apply (IH s1)].
  assert (Hf : fieldOf (targetOf v) = targetOf v).
  { unfold fieldOf. rewrite bool_decide_false; [done|]. intros E'. apply Hs. rewrite E'. unfold special. elem_lit. }
  simpl in Hn. rewrite Hf, bool_decide_false in Hn by done. simpl in Hn. apply NoDup_cons in Hn as [Hn _].
  rewrite (mixVars_other vars s1 s' (targetOf v) H).
  - eapply setSetting_plain; [exact Hs | exact E].
  - intros Hin. apply Hn. apply list_elem_of_In, filter_In. split; [by apply list_elem_of_In|]. by rewrite bool_decide_false.
Qed.

(** Every setting is the option passed to [initialize], else the one of the
    environment, else the default. *)
Theorem settings_precedence s s' name default_ target :
  mixConfigVarsWithEnv jsonCopy options env s = (s', None) ->
  (name, default_, target) ∈ CONFIG_VARS -> default name target ∉ special ->
  getSetting (default name target) s' =
    (if bool_decide (default name target = "redisOptions") then fun v => JObj (spread v) else id)
      (coalesce (coalesce (prop options name) (prop env name)) default_).
Proof.
  intros H Hv Hs. pose proof (mixVars_plain CONFIG_VARS s s' (name, default_, target) H Hv Hs) as E.
  unfold targetOf, configValue in E. simpl in E.
  unfold getSetting. rewrite (bool_decide_false (_ = "useAsCAPQueue")) by (intros E'; apply Hs; rewrite E'; unfold special; elem_lit).
  rewrite E by (apply (bool_decide_unpack _); vm_compute; exact I). by case_bool_decide.
Qed.

(** The outbox is used if one of its two options says so. *)
Lemma outbox_either v w s s' :
  prop s "useAsCAPOutbox" = JUndef ->
  mixVars jsonCopy options env [("useAsCAPOutbox", v, None); ("useAsCAPQueue", w, None)] s = (s', None) ->
  truthy (prop s' "useAsCAPOutbox") =
    truthy (configValue options env ("useAsCAPOutbox", v, None)) || truthy (configValue options env ("useAsCAPQueue", w, None)).
Proof.
  intros Hs. simpl. unfold setSetting, targetOf. simpl. rewrite Hs. simpl. rewrite prop_oset, decide_True by done.
  destruct (truthy (configValue options env ("useAsCAPOutbox", v, None))) eqn:E; intros [= <-]; rewrite !prop_oset, decide_True by done; done.
Qed.
End precedence.

(** A second call does nothing, also after a failed first one. *)
Lemma initialize_once jsonCopy toString cronParses cronNext validRegex cds o e b cc k r st st' err :
  initialize jsonCopy toString cronParses cronNext validRegex cds o e b cc k r st = (st', err) ->
  in_initialized st' = true /\
  forall o' e' b' cc' k' r', initialize jsonCopy toString cronParses cronNext validRegex cds o' e' b' cc' k' r' st' = (st', None).
Proof.
  intros H. assert (I : in_initialized st' = true).
  { unfold initialize in H. destruct (in_initialized st) eqn:E; [by simplify_eq|]. repeat case_match; by simplify_eq/=. }
  split; [done|]. intros. unfold initialize. by rewrite I.
Qed.

(** After the cleanup of a development database no event is in progress. *)
Lemma cleanup_no_progress {D L} {ET : EventTable D} {EL : EventTableLaws D} (deleteLocks : L -> L) l (d : D) id e :
  row id (cleanupForDev deleteLocks true (l, d)).2 = Some e -> has_status InProgress e = false.
Proof.
  unfold cleanupForDev. simpl. rewrite update_row by done. destruct (row id d) as [e'|]; [|done]. simpl.
  destruct (has_status InProgress e') eqn:E; intros [= <-]; done.
Qed.

(** ** Witness *)

Definition demoSettings : obj jsval * option cfgError :=
  mixConfigVarsWithEnv (fun v => Ok v) [("runInterval", JNum 60000)] [("runInterval", JNum 20000); ("namespace", JStr "shop")] [].

Lemma settings_precedence_witness :
  demoSettings.2 = None /\ getSetting "runInterval" demoSettings.1 = JNum 60000 /\ getSetting "namespace" demoSettings.1 = JStr "shop" /\
  getSetting "disableRedis" demoSettings.1 = JBool true.
Proof.
  assert (E : demoSettings.2 = None) by (vm_compute; reflexivity). split; [exact E|].
  assert (H : demoSettings = (demoSettings.1, None)) by (rewrite <- E; apply surjective_pairing).
  split_and!.
  - apply (settings_precedence _ _ _ [] _ "runInterval" (JNum (25 * 60 * 1000)) None H); [|elem_lit].
    unfold CONFIG_VARS. do 6 right. left.
  - apply (settings_precedence _ _ _ [] _ "namespace" (JStr "default") None H); [|elem_lit].
    unfold CONFIG_VARS. do 23 right. left.
  - apply (settings_precedence _ _ _ [] _ "disableRedis" (JBool true) None H); [|elem_lit].
    unfold CONFIG_VARS. do 7 right. left.
Defined.
