(* ===== verification/Startup.v ===== *)
(** * The start of an instance ([initialize.js], [dbHandler.js])

    [initialize] registers listeners at the framework and awaits the check of the Redis
    connection and the configuration file.  Its parts, and what the framework emits
    meanwhile (loaded, connect, listening, unsubscribe, the close of Redis), are the steps
    of a transition system.  [Initialize] has the same function as one definition. *)

From S2P Require Import Prelude Js Errors Config Common DistributedLock Database Stats Telemetry RedisSub Initialize.

Local Open Scope Z_scope.

(** ** What the parts change *)

(** [registeredHandlers] of [dbHandler.js]: the handlers after inserts and after updates. *)
Record dbHandlers := mkDbHandlers { eventQueueDbHandler : bool; updateDbHandler : bool }.

(** [registerEventQueueDbHandler(dbService)], the registrations. *)
Definition registerEventQueueDbHandler (s : obj jsval) (h : dbHandlers) : dbHandlers :=
  if eventQueueDbHandler h then h
  else if updateDbHandler h then mkDbHandlers true true
  else if negb (truthy (prop s "collectEventQueueMetrics")) || negb (truthy (prop s "redisEnabled")) then mkDbHandlers true false
  else mkDbHandlers true true.

(** The functions of [cds] that queue and unqueue services. *)
Inductive outboxFunction : Type := CapOutboxed | CapUnboxed | EventQueueOutboxed | EventQueueUnboxed.
Record cdsFunctions := mkCdsFunctions {
  cds_outboxed : outboxFunction; cds_unboxed : outboxFunction; cds_queued : outboxFunction; cds_unqueued : outboxFunction }.
Definition capFunctions : cdsFunctions := mkCdsFunctions CapOutboxed CapUnboxed CapOutboxed CapUnboxed.

(** [monkeyPatchCAPOutbox()] *)
Definition monkeyPatchCAPOutbox (s : obj jsval) (f : cdsFunctions) : cdsFunctions :=
  if truthy (prop s "useAsCAPOutbox")
  then mkCdsFunctions EventQueueOutboxed EventQueueUnboxed EventQueueOutboxed EventQueueUnboxed
  else f.

(** The listener of [_disableAdminService()] on the definitions of the model. *)
Definition disableAdminService (definitions : obj (obj jsval)) : obj (obj jsval) :=
  match oget "EventQueueAdminService" definitions with
  | Some srvDefinition => oset "EventQueueAdminService" (oset "@protocol" (JStr "none") srvDefinition) definitions
  | None => definitions
  end.

(** ** The state of a starting instance *)

(** Where [initialize] is. *)
Inductive phase : Type := NotStarted | CheckingRedis | ReadingFile | Ready | Failed (e : cfgError).

Record startup := mkStartup {
  su_phase : phase;
  su_settings : obj jsval;
  su_config : Config;
  su_cds : cdsFunctions;
  su_definitions : obj (obj jsval);   (* the model, if it is loaded *)
  su_onLoaded : bool;                 (* the listener of [_disableAdminService] *)
  su_onConnect : bool;                (* the listener for the database *)
  su_handlers : dbHandlers;
  su_cleanups : nat;                  (* calls of [registerCleanupForDevDb] *)
  su_waiting : nat;                   (* continuations of [initFinished] *)
  su_subscriber : subscriber;
  su_runners : list runnerKind;       (* the runners that were started *)
  su_onListening : nat;               (* the listeners of [_registerUnsubscribe] *)
  su_unsubscribe : nat;               (* handlers after an unsubscription *)
  su_beforeClose : bool;              (* the shutdown handler of the locks *)
  su_metrics : metricsState;
  su_metricsCalls : list metricsCall }.

Definition set_phase (p : phase) (w : startup) : startup :=
  mkStartup p (su_settings w) (su_config w) (su_cds w) (su_definitions w) (su_onLoaded w) (su_onConnect w) (su_handlers w)
    (su_cleanups w) (su_waiting w) (su_subscriber w) (su_runners w) (su_onListening w) (su_unsubscribe w) (su_beforeClose w)
    (su_metrics w) (su_metricsCalls w).
Definition set_settings (s : obj jsval) (c : Config) (w : startup) : startup :=
  mkStartup (su_phase w) s c (su_cds w) (su_definitions w) (su_onLoaded w) (su_onConnect w) (su_handlers w)
    (su_cleanups w) (su_waiting w) (su_subscriber w) (su_runners w) (su_onListening w) (su_unsubscribe w) (su_beforeClose w)
    (su_metrics w) (su_metricsCalls w).
Definition set_definitions (d : obj (obj jsval)) (w : startup) : startup :=
  mkStartup (su_phase w) (su_settings w) (su_config w) (su_cds w) d (su_onLoaded w) (su_onConnect w) (su_handlers w)
    (su_cleanups w) (su_waiting w) (su_subscriber w) (su_runners w) (su_onListening w) (su_unsubscribe w) (su_beforeClose w)
    (su_metrics w) (su_metricsCalls w).
Definition set_listeners (onLoaded onConnect : bool) (w : startup) : startup :=
  mkStartup (su_phase w) (su_settings w) (su_config w) (su_cds w) (su_definitions w) onLoaded onConnect (su_handlers w)
    (su_cleanups w) (su_waiting w) (su_subscriber w) (su_runners w) (su_onListening w) (su_unsubscribe w) (su_beforeClose w)
    (su_metrics w) (su_metricsCalls w).
Definition set_connected (h : dbHandlers) (cleanups waiting : nat) (w : startup) : startup :=
  mkStartup (su_phase w) (su_settings w) (su_config w) (su_cds w) (su_definitions w) (su_onLoaded w) (su_onConnect w) h
    cleanups waiting (su_subscriber w) (su_runners w) (su_onListening w) (su_unsubscribe w) (su_beforeClose w)
    (su_metrics w) (su_metricsCalls w).
Definition set_registered (waiting : nat) (sub : subscriber) (runners : list runnerKind) (onListening : nat) (w : startup) : startup :=
  mkStartup (su_phase w) (su_settings w) (su_config w) (su_cds w) (su_definitions w) (su_onLoaded w) (su_onConnect w) (su_handlers w)
    (su_cleanups w) waiting sub runners onListening (su_unsubscribe w) (su_beforeClose w) (su_metrics w) (su_metricsCalls w).
Definition set_unsubscribe (n : nat) (w : startup) : startup :=
  mkStartup (su_phase w) (su_settings w) (su_config w) (su_cds w) (su_definitions w) (su_onLoaded w) (su_onConnect w) (su_handlers w)
    (su_cleanups w) (su_waiting w) (su_subscriber w) (su_runners w) (su_onListening w) n (su_beforeClose w)
    (su_metrics w) (su_metricsCalls w).
Definition set_finished (f : cdsFunctions) (m : metricsState) (calls : list metricsCall) (w : startup) : startup :=
  mkStartup Ready (su_settings w) (su_config w) f (su_definitions w) (su_onLoaded w) (su_onConnect w) (su_handlers w)
    (su_cleanups w) (su_waiting w) (su_subscriber w) (su_runners w) (su_onListening w) (su_unsubscribe w) true m calls.

Definition initialized (w : startup) : bool := match su_phase w with NotStarted => false | _ => true end.

(** ** The steps *)

Section steps.
Context (jsonCopy : jsval -> result jsval jsval) (toString : jsval -> string) (cronParses : jsval -> bool)
  (cronNext : jsval -> result jsval (Z * Z)) (validRegex : string -> string -> bool) (cds : cdsEnv).
Context (lcfg : lockConfig) (options env : obj jsval) (redisBound : bool).
(** Telemetry: whether the API has metrics and a provider. *)
Context (otelMetrics meterProvider : bool).

(** The settings Redis clients are created with. *)
Definition clientConfig (s : obj jsval) : lockConfig :=
  mkLockConfig (lc_namespace lcfg) (truthy (prop s "redisEnabled")) (lc_globalTxTimeout lcfg).

(** [initialize(options)] up to its first [await]. *)
Definition startInitialize (w : startup) : startup :=
  if initialized w then w
  else
    match mixConfigVarsWithEnv jsonCopy options env (su_settings w) with
    | (s, Some e) => set_phase (Failed e) (set_settings s (applySettings s (su_config w)) w)
    | (s, None) =>
      let c := applySettings s (su_config w) in
      let '(s, redisEnabled) := checkRedisEnabled redisBound s in
      set_phase (if redisEnabled then CheckingRedis else ReadingFile)
        (set_listeners (su_onLoaded w || negb (truthy (prop s "enableAdminService"))) true (set_settings s c w))
    end.

(** The continuation after [redis.connectionCheck()]. *)
Definition afterConnectionCheck (r : result jsval bool) (w : startup) : startup :=
  match r with
  | Err e => set_phase (Failed (JsError e)) w
  | Ok connected =>
    let s := oset "redisEnabled" (JBool connected) (su_settings w) in
    let w := set_settings s (su_config w) w in
    if negb connected && truthy (prop s "crashOnRedisUnavailable")
    then set_phase (Failed (QueueError (redisConnectionFailure JUndef))) w
    else set_phase ReadingFile w
  end.

(** The rest of [initialize] once the file is read; [now] is the time of [initMetrics]. *)
Definition afterRead (now : Z) (kind : fileKind) (read : result jsval (list (obj jsval) * list (obj jsval))) (w : startup) : startup :=
  let s := su_settings w in
  match readConfigFromFile s kind read with
  | Err e => set_phase (Failed (JsError e)) w
  | Ok (events, periodicEvents) =>
    match mixFileContentWithEnv toString cronParses cronNext validRegex cds events periodicEvents (su_config w) with
    | (c, Some e) => set_phase (Failed e) (set_settings s c w)
    | (c, None) =>
      let '(m, calls) := initMetrics (cfg_processingNamespaces c) (truthy (prop s "collectEventQueueMetrics"))
        (truthy (prop s "enableTelemetry")) (truthy (prop s "redisEnabled")) (truthy (prop s "registerAsEventProcessor"))
        (Config.applicationInstance cds) otelMetrics meterProvider now (su_metrics w) in
      set_finished (monkeyPatchCAPOutbox s (su_cds w)) m calls (set_settings s c w)
    end
  end.

(** The listener of ["connect"]. *)
Definition onConnect (service : string) (w : startup) : startup :=
  if su_onConnect w && bool_decide (service = "db") then
    set_connected
      (if truthy (prop (su_settings w) "processEventsAfterPublish") then registerEventQueueDbHandler (su_settings w) (su_handlers w)
       else su_handlers w)
      (if truthy (prop (su_settings w) "cleanupLocksAndEventsForDev") then S (su_cleanups w) else su_cleanups w)
      (S (su_waiting w)) w
  else w.

(** A continuation of [initFinished]: [registerEventProcessors()] with the listener of
    [_registerUnsubscribe()]. *)
Definition initResolved (w : startup) : startup :=
  match su_phase w, su_waiting w with
  | Ready, S n =>
    let '(sub, runner) := registerEventProcessors cds (clientConfig (su_settings w)) (su_settings w)
                            (cfg_processingNamespaces (su_config w)) (su_subscriber w) in
    set_registered n sub (su_runners w ++ match runner with Some r => [r] | None => [] end) (S (su_onListening w)) w
  | _, _ => w
  end.

(** The listener of ["loaded"] and those of ["listening"]: [deploymentService] tells whether
    the service of the sidecar is there. *)
Definition onLoaded (definitions : obj (obj jsval)) (w : startup) : startup :=
  set_definitions (if su_onLoaded w then disableAdminService definitions else definitions) w.
Definition onListening (deploymentService : bool) (w : startup) : startup :=
  if deploymentService then set_unsubscribe (su_unsubscribe w + su_onListening w) w else w.

(** After the unsubscription of [tenant] each handler tells the other instances, or runs
    the application's handlers. *)
Definition afterUnsubscribe {W} (stringify : jsval -> string) (handlers : list (string -> W -> W * option jsval)) (tenant : string)
    (w : startup) (world : W) : list (string * string) * startup * W :=
  Nat.iter (su_unsubscribe w)
    (fun st => let '(messages, w, world) := st in
               let '(message, (c, world)) := handleUnsubscribe (clientConfig (su_settings w)) stringify handlers tenant (su_config w, world) in
               (messages ++ option_list message, set_settings (su_settings w) c w, world))
    ([], w, world).

(** [registerCdsShutdown()]: the handler Redis calls before it closes its clients. *)
Definition beforeClose {R T} `{RedisClient R} `{LockTable T} (now : Z) (w : startup) (l : lstate R T) : lstate R T :=
  if su_beforeClose w then shutdownHandler (clientConfig (su_settings w)) now l else l.

(** What happens at an instance until it runs; [Unsubscribed] changes its registry only. *)
Inductive startStep : Type :=
| Initialize_
| ConnectionChecked (r : result jsval bool)
| FileRead (now : Z) (kind : fileKind) (read : result jsval (list (obj jsval) * list (obj jsval)))
| Connected (service : string)
| Resolved
| Loaded (definitions : obj (obj jsval))
| Listening (deploymentService : bool).

Definition start_step (w : startup) (o : startStep) : startup :=
  match o, su_phase w with
  | Initialize_, _ => startInitialize w
  | ConnectionChecked r, CheckingRedis => afterConnectionCheck r w
  | FileRead now kind read, ReadingFile => afterRead now kind read w
  | Connected service, _ => onConnect service w
  | Resolved, _ => initResolved w
  | Loaded definitions, _ => onLoaded definitions w
  | Listening deploymentService, _ => onListening deploymentService w
  | _, _ => w
  end.

Definition start_steps (ops : list startStep) (w : startup) : startup := fold_left start_step ops w.
End steps.

(** ** The steps make up [initialize] *)

Section theorems.
Context (jsonCopy : jsval -> result jsval jsval) (toString : jsval -> string) (cronParses : jsval -> bool)
  (cronNext : jsval -> result jsval (Z * Z)) (validRegex : string -> string -> bool) (cds : cdsEnv).
Context (lcfg : lockConfig) (options env : obj jsval) (redisBound otelMetrics meterProvider : bool).

Abbreviation step := (start_step jsonCopy toString cronParses cronNext validRegex cds lcfg options env redisBound otelMetrics meterProvider).
Abbreviation steps := (start_steps jsonCopy toString cronParses cronNext validRegex cds lcfg options env redisBound otelMetrics meterProvider).

Definition phase_of (err : option cfgError) : phase := match err with None => Ready | Some e => Failed e end.

(** Executed one after the other the parts are the function of [Initialize]: the same
    settings, the same registry, the same error. *)
Theorem initialize_in_steps connectionCheck now kind read w patched :
  su_phase w = NotStarted ->
  let '(st, err) := initialize jsonCopy toString cronParses cronNext validRegex cds options env redisBound connectionCheck kind read
                      (mkInitState false (su_settings w) (su_config w) patched false) in
  let w' := steps [Initialize_; ConnectionChecked connectionCheck; FileRead now kind read] w in
  su_phase w' = phase_of err /\ su_settings w' = in_settings st /\ su_config w' = in_config st /\
  (err = None -> in_ready st = true /\ in_patched st = patched || truthy (prop (su_settings w') "useAsCAPOutbox") /\
     su_cds w' = monkeyPatchCAPOutbox (su_settings w') (su_cds w) /\ su_beforeClose w' = true).
Proof.
  intros Hp. unfold initialize, steps, start_steps. cbn [fold_left in_initialized in_settings in_config in_patched in_ready].
  set (w1 := step w Initialize_). assert (E : w1 = startInitialize jsonCopy options env redisBound w) by done.
  unfold startInitialize, initialized in E. rewrite Hp in E. clearbody w1.
  destruct (mixConfigVarsWithEnv jsonCopy options env (su_settings w)) as [s [e|]]; [by subst w1|].
  destruct (checkRedisEnabled redisBound s) as [s1 redisEnabled]. set (c := applySettings s (su_config w)) in *.
  assert (R : forall w0 s2, su_phase w0 = ReadingFile -> su_settings w0 = s2 -> su_config w0 = c -> su_cds w0 = su_cds w ->
    let '(st, err) := match readConfigFromFile s2 kind read with
          | Err e => (mkInitState true s2 c patched false, Some (JsError e))
          | Ok (events, periodicEvents) =>
            match mixFileContentWithEnv toString cronParses cronNext validRegex cds events periodicEvents c with
            | (c, Some e) => (mkInitState true s2 c patched false, Some e)
            | (c, None) => (mkInitState true s2 c (patched || truthy (prop s2 "useAsCAPOutbox")) true, None)
            end
          end in
    let w' := step w0 (FileRead now kind read) in
    su_phase w' = phase_of err /\ su_settings w' = in_settings st /\ su_config w' = in_config st /\
    (err = None -> in_ready st = true /\ in_patched st = patched || truthy (prop (su_settings w') "useAsCAPOutbox") /\
       su_cds w' = monkeyPatchCAPOutbox (su_settings w') (su_cds w) /\ su_beforeClose w' = true)).
  { intros w0 s2 P E1 E2 E3. unfold start_step, afterRead. rewrite P, E1, E2, E3.
    destruct (readConfigFromFile s2 kind read) as [[events periodicEvents]|e]; [|done].
    destruct (mixFileContentWithEnv _ _ _ _ _ _ _ c) as [c2 [e|]]; [done|].
    by destruct (initMetrics _ _ _ _ _ _ _ _ _ _) as [m calls]. }
  destruct redisEnabled.
  - set (w2 := step w1 (ConnectionChecked connectionCheck)).
    assert (E2 : w2 = afterConnectionCheck connectionCheck w1) by (subst w1; done). clearbody w2.
    subst w1. unfold afterConnectionCheck in E2.
    destruct connectionCheck as [connected|e]; [|by subst w2]. cbn [andb su_settings su_config set_phase set_settings set_listeners].
    destruct (negb connected && truthy (prop (oset "redisEnabled" (JBool connected) s1) "crashOnRedisUnavailable")) eqn:B;
      cbn [su_settings su_config set_phase set_settings set_listeners] in E2; rewrite B in E2; subst w2; [done|].
    by apply R.
  - replace (step w1 (ConnectionChecked connectionCheck)) with w1 by (subst w1; done). subst w1. by apply R.
Qed.

(** ** Nothing runs before the initialisation has finished *)

(** An instance before [initialize]. *)
Definition fresh_instance (w : startup) : Prop :=
  su_phase w = NotStarted /\ su_onConnect w = false /\ su_waiting w = 0%nat /\ su_onListening w = 0%nat /\
  su_runners w = [] /\ su_subscriber w = mkSubscriber false [].

(** The connections of the database the listener has seen. *)
Definition connection (o : startStep) (w : startup) : nat :=
  match o with Connected service => if su_onConnect w && bool_decide (service = "db") then 1%nat else 0%nat | _ => 0%nat end.
Fixpoint connections (ops : list startStep) (w : startup) : nat :=
  match ops with [] => 0%nat | o :: r => (connection o w + connections r (step w o))%nat end.

(** The runner the settings ask for. *)
Definition runner_of (s : obj jsval) : list runnerKind :=
  if negb (truthy (prop s "registerAsEventProcessor")) then []
  else [match truthy (prop s "redisEnabled"), isMultiTenancy cds with
        | true, true => MultiTenancyRedis | true, false => SingleTenantRedis
        | false, true => MultiTenancyDb | false, false => SingleTenantDb
        end].

(** The channels on which the instance receives combinations. *)
Definition eventChannels (sub : subscriber) : list string :=
  (List.filter (fun c => match c.2 with ProcessEvents => true | _ => false end) (sub_channels sub)).*1.

(** [n] connections so far; the continuations of [listening] of them have run. *)
Record started (n : nat) (w : startup) : Prop := {
  st_count : (su_waiting w + su_onListening w = n)%nat;
  st_hook : su_phase w = NotStarted -> su_onConnect w = false;
  st_idle : su_phase w <> Ready -> su_onListening w = 0%nat;
  st_runners : su_runners w = List.concat (replicate (su_onListening w) (runner_of (su_settings w)));
  st_initDone : sub_initDone (su_subscriber w) =
    negb (bool_decide (su_onListening w = 0%nat)) && truthy (prop (su_settings w) "registerAsEventProcessor") &&
    truthy (prop (su_settings w) "redisEnabled");
  st_channels : eventChannels (su_subscriber w) =
    if sub_initDone (su_subscriber w) then map (messageChannel (clientConfig lcfg (su_settings w))) (cfg_processingNamespaces (su_config w))
    else [] }.

(** A step that neither connects nor registers. *)
Lemma started_quiet n w w' :
  started n w -> su_waiting w' = su_waiting w -> su_onListening w' = su_onListening w -> su_runners w' = su_runners w ->
  su_subscriber w' = su_subscriber w -> (su_phase w' = NotStarted -> su_onConnect w' = false) ->
  (su_phase w <> Ready \/ su_phase w' = Ready /\ su_settings w' = su_settings w /\ su_config w' = su_config w) ->
  started n w'.
Proof.
  intros [S1 S2 S3 S4 S5 S6] E1 E2 E3 E4 Hh [Hp|(Hp & E5 & E6)].
  - specialize (S3 Hp). rewrite S3 in *. split; rewrite ?E1, ?E2, ?E3, ?E4, ?S3; try done.
    rewrite S6, S5. done.
  - split; rewrite ?E1, ?E2, ?E3, ?E4, ?E5, ?E6; try done.
Qed.

Lemma attach_channels lc sub : eventChannels (attachRedisUnsubscribeHandler lc sub) = eventChannels sub.
Proof. unfold eventChannels, attachRedisUnsubscribeHandler. simpl. rewrite List.filter_app. simpl. by rewrite app_nil_r. Qed.

(** However often it is called, the subscription is made once. *)
Lemma subscribe_once lc namespaces sub :
  lc_redisEnabled lc = true ->
  eventChannels sub = (if sub_initDone sub then map (messageChannel lc) namespaces else []) ->
  let sub' := initEventQueueRedisSubscribe lc namespaces sub in
  sub_initDone sub' = true /\ eventChannels sub' = map (messageChannel lc) namespaces.
Proof.
  intros Hr E. unfold initEventQueueRedisSubscribe. rewrite Hr. destruct (sub_initDone sub) eqn:D; simpl; [done|].
  split; [done|]. unfold eventChannels in *. simpl. rewrite List.filter_app, fmap_app, E. simpl. clear.
  induction namespaces as [|x l IH]; csimpl; [done|]. by rewrite IH.
Qed.

Lemma concat_snoc {A} k (r : list A) : List.concat (replicate k r) ++ r = List.concat (replicate (S k) r).
Proof. induction k as [|k IH]; simpl; [by rewrite app_nil_r|]. rewrite <- app_assoc, IH. done. Qed.

Lemma started_resolved n w : started n w -> started n (initResolved cds lcfg w).
Proof.
  intros I. unfold initResolved. destruct (su_phase w) eqn:P; try exact I. destruct (su_waiting w) as [|k] eqn:Wt; [exact I|].
  destruct I as [S1 S2 S3 S4 S5 S6]. unfold registerEventProcessors. cbn [lc_redisEnabled clientConfig].
  set (s := su_settings w) in *. set (sub := su_subscriber w) in *.
  assert (G : forall sub' r, r = runner_of s ->
    sub_initDone sub' = truthy (prop s "registerAsEventProcessor") && truthy (prop s "redisEnabled") ->
    eventChannels sub' = (if sub_initDone sub' then map (messageChannel (clientConfig lcfg s)) (cfg_processingNamespaces (su_config w)) else []) ->
    started n (set_registered k sub' (su_runners w ++ r) (S (su_onListening w)) w)).
  { intros sub' r -> D C. split; cbn [su_waiting su_onListening su_phase su_onConnect su_runners su_subscriber su_settings su_config set_registered].
    - lia.
    - by rewrite P.
    - by rewrite P.
    - by rewrite S4, concat_snoc.
    - by rewrite D.
    - exact C. }
  unfold runner_of in G.
  destruct (truthy (prop s "registerAsEventProcessor")), (truthy (prop s "redisEnabled")) eqn:Red; cbn [negb andb] in *;
    rewrite ?andb_false_r, ?andb_true_r in S5; apply G; try done; try by destruct (isMultiTenancy cds).
  all: try (rewrite ?attach_channels; cbn; rewrite S5 in *; done).
  all: destruct (subscribe_once (clientConfig lcfg s) (cfg_processingNamespaces (su_config w))
    (attachRedisUnsubscribeHandler (clientConfig lcfg s) sub)) as [U1 U2]; try by rewrite ?U1, ?U2.
  all: try (by rewrite attach_channels); cbn; by rewrite Red.
Qed.

Lemma started_step n o w : started n w -> started (n + connection o w) (step w o).
Proof.
  intros I. assert (Z0 : (n + 0)%nat = n) by lia. unfold start_step.
  destruct o as [|r|now kind read|service| |definitions|deploymentService]; cbn [connection]; rewrite ?Z0.
  - unfold startInitialize, initialized. destruct (su_phase w) eqn:P; try done.
    destruct (mixConfigVarsWithEnv _ _ _ _) as [s [e|]].
    + eapply started_quiet; try exact I; try done. left. by rewrite P.
    + destruct (checkRedisEnabled redisBound s) as [s1 redisEnabled].
      eapply started_quiet; try exact I; try done; [by destruct redisEnabled | left; by rewrite P].
  - destruct (su_phase w) eqn:P; try done. unfold afterConnectionCheck.
    assert (Q : forall w', su_waiting w' = su_waiting w -> su_onListening w' = su_onListening w -> su_runners w' = su_runners w ->
      su_subscriber w' = su_subscriber w -> su_phase w' <> NotStarted -> started n w').
    { intros. eapply started_quiet; try exact I; try done. left. by rewrite P. }
    destruct r as [connected|e]; [|by apply Q]. by destruct (_ && _); apply Q.
  - destruct (su_phase w) eqn:P; try done. unfold afterRead.
    assert (Q : forall w', su_waiting w' = su_waiting w -> su_onListening w' = su_onListening w -> su_runners w' = su_runners w ->
      su_subscriber w' = su_subscriber w -> su_phase w' <> NotStarted -> started n w').
    { intros. eapply started_quiet; try exact I; try done. left. by rewrite P. }
    destruct (readConfigFromFile _ _ _) as [[events periodicEvents]|e]; [|by apply Q].
    destruct (mixFileContentWithEnv _ _ _ _ _ _ _ _) as [c [e|]]; [by apply Q|].
    destruct (initMetrics _ _ _ _ _ _ _ _ _ _) as [m calls]. by apply Q.
  - unfold onConnect. destruct (su_onConnect w && bool_decide (service = "db")) eqn:C; rewrite ?Z0; [|exact I].
    destruct I as [S1 S2 S3 S4 S5 S6]. split; cbn [su_waiting su_onListening su_phase su_onConnect su_runners su_subscriber su_settings su_config set_connected]; try done. lia.
  - by apply started_resolved.
  - eapply started_quiet; try exact I; try done; [apply I|].
    by destruct (su_phase w) eqn:P; [left | left | left | right; split; [exact P|] | left].
  - unfold onListening. destruct deploymentService; [|exact I].
    eapply started_quiet; try exact I; try done; [apply I|].
    by destruct (su_phase w) eqn:P; [left | left | left | right; split; [exact P|] | left].
Qed.

Lemma fresh_instance_started w : fresh_instance w -> started 0 w.
Proof.
  intros (P & C & Wt & L & Rn & Sb). split; rewrite ?P, ?C, ?Wt, ?L, ?Rn, ?Sb; try done.
Qed.

Lemma started_steps n ops w : started n w -> started (n + connections ops w) (steps ops w).
Proof.
  revert n w. induction ops as [|o ops IH]; intros n w I; simpl; [by rewrite Nat.add_0_r|].
  rewrite Nat.add_assoc. apply IH. by apply started_step.
Qed.

(** C39. Whatever happens in whatever order while an instance starts: as long as the
    initialisation has not finished, and for ever if it failed, no runner is started and
    nothing is subscribed; once it has finished and its continuations have run, there is
    one runner for every connection of the database, of the kind the settings ask for, and
    the instance is subscribed to the channel of each of its namespaces exactly once. *)
Theorem started_by_settings ops w :
  fresh_instance w ->
  let w' := steps ops w in
  (su_phase w' <> Ready -> su_runners w' = [] /\ eventChannels (su_subscriber w') = []) /\
  (su_phase w' = Ready -> su_waiting w' = 0%nat -> (0 < connections ops w)%nat ->
    su_runners w' = List.concat (replicate (connections ops w) (runner_of (su_settings w'))) /\
    eventChannels (su_subscriber w') =
      if truthy (prop (su_settings w') "registerAsEventProcessor") && truthy (prop (su_settings w') "redisEnabled")
      then map (messageChannel (clientConfig lcfg (su_settings w'))) (cfg_processingNamespaces (su_config w')) else []).
Proof.
  intros Hf w'. destruct (started_steps 0 ops w (fresh_instance_started w Hf)) as [S1 S2 S3 S4 S5 S6]. fold w' in S1, S2, S3, S4, S5, S6.
  simpl in S1. split.
  - intros Hp. specialize (S3 Hp). rewrite S3 in S4, S5. rewrite S4, S6, S5. done.
  - intros _ Hw Hc. assert (E : su_onListening w' = connections ops w) by lia. rewrite E in S4, S5. split; [exact S4|].
    rewrite S6, S5, bool_decide_false by lia. done.
Qed.
End theorems.

(** The counters of the gauges follow the table only if the handlers of the database are
    registered, which needs [processEventsAfterPublish] as well. *)
Lemma no_handlers_without_publish service w :
  truthy (prop (su_settings w) "processEventsAfterPublish") = false -> su_handlers (onConnect service w) = su_handlers w.
Proof. intros H. unfold onConnect. by destruct (_ && _); simpl; rewrite ?H. Qed.

(** The admin service has no protocol after the model is loaded, unless it is enabled. *)
Lemma admin_service_hidden definitions d :
  oget "EventQueueAdminService" definitions = Some d ->
  exists d', oget "EventQueueAdminService" (disableAdminService definitions) = Some d' /\ oget "@protocol" d' = Some (JStr "none").
Proof. intros H. unfold disableAdminService. rewrite H. eexists. by rewrite oget_oset_eq, oget_oset_eq. Qed.

(** ** Witnesses *)

Definition demoStartup : startup :=
  mkStartup NotStarted [] demoCfg capFunctions [] false false (mkDbHandlers false false) 0 0 (mkSubscriber false []) [] 0 0 false
    (mkMetrics false None) [].
Definition demoStartOptions : obj jsval := [("disableRedis", JBool false); ("useAsCAPOutbox", JBool true)].

(** The database connects before the check of Redis has ended. *)
Definition demoStartOps : list startStep :=
  [Initialize_; Connected "db"; ConnectionChecked (Ok true); Resolved; FileRead 0 Json (Err JNull); Resolved].
Abbreviation demoSteps := (start_steps (fun v => Ok v) demoCfgString demoCronParses demoCronNext demoValidRegex demoCds
  (demoConfig true) demoStartOptions [] true false false).

Lemma started_by_settings_witness :
  let w' := demoSteps demoStartOps demoStartup in
  su_phase w' = Ready /\ su_runners w' = [SingleTenantRedis] /\
  eventChannels (su_subscriber w') = ["EVENT_QUEUE##default##EVENT_QUEUE_MESSAGE_CHANNEL"].
Proof.
  destruct (started_by_settings (fun v => Ok v) demoCfgString demoCronParses demoCronNext demoValidRegex demoCds
    (demoConfig true) demoStartOptions [] true false false demoStartOps demoStartup) as [_ H].
  - repeat split.
  - destruct H as [H1 H2]; [vm_compute; reflexivity | vm_compute; reflexivity | vm_compute; repeat constructor |].
    split; [vm_compute; reflexivity|]. split; [rewrite H1 | rewrite H2]; vm_compute; reflexivity.
Defined.

Lemma initialize_in_steps_witness :
  (initialize (fun v => Ok v) demoCfgString demoCronParses demoCronNext demoValidRegex demoCds demoStartOptions [] true (Ok true)
     Json (Err JNull) (mkInitState false [] demoCfg false false)).2 = None /\
  su_phase (demoSteps [Initialize_; ConnectionChecked (Ok true); FileRead 0 Json (Err JNull)] demoStartup) = Ready.
Proof.
  pose proof (initialize_in_steps (fun v => Ok v) demoCfgString demoCronParses demoCronNext demoValidRegex demoCds
    (demoConfig true) demoStartOptions [] true false false (Ok true) 0 Json (Err JNull) demoStartup false eq_refl) as H.
  split; [vm_compute; reflexivity|]. revert H.
  destruct (initialize _ _ _ _ _ _ _ _ _ _ _ _ _) as [st err] eqn:E. intros [-> _].
  apply (f_equal snd) in E. cbn [snd] in E. rewrite <- E. vm_compute. reflexivity.
Defined.
