(* ===== verification/Outbox.v ===== *)
(** * The outbox ([outbox/eventQueueAsOutbox.js])

    An outboxed service stores the requests it receives as events instead of handling
    them; a service without the persistent kind handles them after the transaction has
    succeeded.  Requests are objects; the context of a request, [JSON.stringify] and the
    publication's environment are parameters. *)

From stdpp Require Import pretty.
From S2P Require Import Prelude Js Errors Config Publish.
From Stdlib Require Import Ascii.

Local Open Scope Z_scope.

Definition CDS_EVENT_TYPE : string := "CAP_OUTBOX".
Definition EVENT_QUEUE_SPECIFIC_FIELDS : list string := ["startAfter"; "referenceEntity"; "referenceEntityKey"; "namespace"].
Definition TO_COPY : list string :=
  ["inbound"; "event"; "data"; "queue"; "results"; "method"; "path"; "params"; "entity"; "service"].

(** [s.toLocaleLowerCase()] on ASCII letters. *)
Definition lower_char (c : ascii) : ascii :=
  let n := nat_of_ascii c in
  if (65 <=? n)%nat && (n <=? 90)%nat then ascii_of_nat (n + 32) else c.

Fixpoint toLocaleLowerCase (s : string) : string :=
  match s with EmptyString => EmptyString | String c r => String (lower_char c) (toLocaleLowerCase r) end.

(** ** Boxed services *)

Module Boxing.
(** Service objects by number: the values of the symbols [OUTBOXED] and [UNBOXED] they
    hold themselves, and the object they inherit from. *)
Record service := mkService {
  s_outboxed : option nat;
  s_unboxed : option nat;
  s_proto : option nat }.

Abbreviation heap := (list service).

(** [srv[SYMBOL]]: an own value, or that of the prototype (one level is enough: boxed
    services inherit from the original). *)
Definition read (f : service -> option nat) (h : heap) (n : nat) : option nat :=
  match h !! n with
  | None => None
  | Some s =>
    match f s with
    | Some v => Some v
    | None => p ← s_proto s; s' ← h !! p; f s'
    end
  end.

Definition readOutboxed : heap -> nat -> option nat := read s_outboxed.
Definition readUnboxed : heap -> nat -> option nat := read s_unboxed.

(** [outboxed(srv, customOpts)], called as a function: the heap and the boxed service. *)
Definition outboxed (srv : nat) (customOpts : bool) (h : heap) : heap * nat :=
  match readOutboxed h srv with
  | Some former =>
    if negb customOpts then (h, former)
    else
      let originalSrv := default srv (readUnboxed h srv) in
      (h ++ [mkService None (Some originalSrv) (Some originalSrv)], length h)
  | None =>
    let originalSrv := default srv (readUnboxed h srv) in
    let h1 := h ++ [mkService None (Some originalSrv) (Some originalSrv)] in
    (alter (fun s => mkService (Some (length h)) (s_unboxed s) (s_proto s)) srv h1, length h)
  end.

(** [unboxed(srv)] *)
Definition unboxed (srv : nat) (h : heap) : nat := default srv (readUnboxed h srv).

(** A service as CAP creates it. *)
Definition plain (h : heap) (srv : nat) : Prop := exists o, h !! srv = Some (mkService o None None).

(** Unboxing gives back the service that was boxed, with and without options of its
    own, and a service that is boxed again without options is the same object. *)
Theorem unboxed_outboxed srv custom h :
  h !! srv = Some (mkService None None None) ->
  let '(h1, boxed) := outboxed srv custom h in
  unboxed boxed h1 = srv /\ unboxed srv h1 = srv /\
  outboxed srv false h1 = (h1, boxed) /\ outboxed boxed false h1 = (h1, boxed).
Proof.
  intros Hs. pose proof (lookup_lt_Some _ _ _ Hs) as Hl.
  unfold outboxed at 1, readOutboxed, readUnboxed, read. rewrite Hs. simpl.
  set (h1 := alter _ srv _).
  assert (Hb : h1 !! length h = Some (mkService None (Some srv) (Some srv))).
  { unfold h1. rewrite list_lookup_alter_ne by lia. by rewrite lookup_app_r, Nat.sub_diag by lia. }
  assert (Hs1 : h1 !! srv = Some (mkService (Some (length h)) None None)).
  { unfold h1. rewrite list_lookup_alter_eq, lookup_app_l, Hs by lia. done. }
  unfold unboxed, readUnboxed, outboxed, readOutboxed, read. rewrite !Hb, !Hs1. simpl. rewrite Hs1. done.
Qed.

Lemma unboxed_outboxed_witness :
  [mkService None None None] !! 0%nat = Some (mkService None None None) /\
  let '(h1, boxed) := outboxed 0 true [mkService None None None] in
  unboxed boxed h1 = 0%nat /\ unboxed 0 h1 = 0%nat /\
  outboxed 0 false h1 = (h1, boxed) /\ outboxed boxed false h1 = (h1, boxed).
Proof. split; [reflexivity|]. apply (unboxed_outboxed 0 true [mkService None None None]). reflexivity. Defined.
End Boxing.

(** ** From requests to events *)

Section outbox.
Context (toString : jsval -> string) (stringify : jsval -> string).

(** [getPropagatedHeaders(config, req)]: [context] are the headers of the request's
    transaction, [headers] those of the request. *)
Definition getPropagatedHeaders (propagateHeaders : list string) (context headers : obj jsval) : obj jsval :=
  oassign
    (fold_left (fun h name => if ohas name context then oset name (prop context name) h else h) propagateHeaders [])
    headers.

(** [getPropagateContextProperties(config, req)] *)
Definition getPropagateContextProperties (names : list string) (context : obj jsval) : obj jsval :=
  fold_left (fun p name => if ohas name context then oset name (prop context name) p else p) names [].

(** The field a header sets, if any. *)
Definition specificField (header : string) : option string :=
  List.find (fun f => bool_decide (toLocaleLowerCase header = "x-eventqueue-" +:+ toLocaleLowerCase f))
    EVENT_QUEUE_SPECIFIC_FIELDS.

(** The loop over the headers of the request: the values of the event and the remaining
    headers. *)
Definition splitHeaders (headers eventHeaders : obj jsval) : obj jsval * obj jsval :=
  fold_left
    (fun acc kv =>
       match specificField kv.1 with
       | Some f => (oset f kv.2 acc.1, odel kv.1 acc.2)
       | None => acc
       end)
    headers ([], eventHeaders).

(** [req.query] without the targets; an array is flattened by one level. *)
Definition queryOf (q : jsval) : jsval :=
  match q with
  | JArr l => JArr (concat (map (fun v => match v with JArr l => l | _ => [v] end) l))
  | JObj o => JObj (odel "target" (odel "__target" (odel "_target" o)))
  | _ => q
  end.

(** The object stored for a request. *)
Definition outboxEvent (req : obj jsval) (userId : jsval) (eventHeaders contextProperties : obj jsval) : obj jsval :=
  let fromSend :=
    if truthy (prop req "_fromSend") then spread (prop req "_fromSend")
    else if truthy (prop req "reply") then [("_fromSend", JBool true)] else [] in
  let event := oassign (oassign (oassign [("contextUser", userId)] fromSend) [("headers", JObj eventHeaders)]) contextProperties in
  let event := fold_left (fun e p => if truthy (prop req p) then oset p (prop req p) e else e) TO_COPY event in
  if truthy (prop req "query") then odel "data" (oset "query" (queryOf (prop req "query")) event) else event.

(** The headers of a request, [req.headers ?? {}]. *)
Definition headersOf (req : obj jsval) : obj jsval := spread (prop req "headers").

(** The entry and the options [_mapToEventAndPublish] hands to [publishEvent]. *)
Definition mapToEvent (req : obj jsval) (userId namespace : jsval) (subType : string) (eventHeaders contextProperties : obj jsval)
    : obj jsval * publishOptions :=
  let '(values, eventHeaders) := splitHeaders (headersOf req) eventHeaders in
  let event := outboxEvent req userId eventHeaders contextProperties in
  (oassign
     [("type", JStr CDS_EVENT_TYPE); ("subType", JStr subType); ("payload", JStr (stringify (JObj event)));
      ("namespace", coalesce (prop values "namespace") namespace)] values,
   mkOptions false false true (truthy (prop values "namespace"))).

(** ** The handler of an outboxed service *)

(** The context of a request: the id of its user, its headers and its properties. *)
Record requestContext := mkContext {
  rc_user : jsval;
  rc_headers : obj jsval;
  rc_properties : obj jsval }.

(** What [handle] did: the event is published, or the call waits for the transaction. *)
Inductive handled : Type := Published | InMemory (crashOnError : jsval).

Context (dateParse : string -> option Z) (cronNextISO : jsval -> result jsval string) (cronParses : jsval -> bool)
  (validRegex : string -> string -> bool) (cds : cdsEnv) (initialized insertEventsBeforeCommit : bool) (traceContext : jsval).

(** [outboxedSrv.handle(req)]; [options] are those of the service, [customOpts] those
    given to [outboxed]. *)
Definition handle (srvName : string) (options : jsval) (customOpts : obj jsval) (req : obj jsval) (ctx : requestContext)
    (dbError : option jsval) (c : Config) (t : txState) : Config * txState * result cfgError handled :=
  let event := match prop req "event" with JStr e => Some e | _ => None end in
  let subType := match getCdsOutboxEventSpecificConfig cds srvName event with
                 | Some _ => join "." [srvName; join_string toString (prop req "event")]
                 | None => srvName
                 end in
  let '(c, found) :=
    match findBaseCAPServiceWithoutNamespace c subType with
    | Some r => (c, Ok (Some r))
    | None =>
      match addCAPServiceWithoutEnvConfig toString cronParses validRegex cds subType options customOpts c with
      | (c, None) => (c, Ok (findBaseCAPServiceWithoutNamespace c subType))
      | (c, Some e) => (c, Err e)
      end
    end in
  match found with
  | Err e => (c, t, Err e)
  | Ok None => (c, t, Err (JsError (TypeError "Cannot read properties of undefined (reading 'namespace')")))
  | Ok (Some srvConfig) =>
    match getEventConfig toString c (JStr CDS_EVENT_TYPE) (JStr subType) (opt srvConfig "namespace") with
    | None => (c, t, Err (JsError (TypeError "Cannot read properties of undefined (reading 'propagateHeaders')")))
    | Some outboxOpts =>
      let eventHeaders := getPropagatedHeaders (str_items toString (opt outboxOpts "propagateHeaders")) (rc_headers ctx) (headersOf req) in
      let properties := getPropagateContextProperties (str_items toString (opt outboxOpts "propagateContextProperties")) (rc_properties ctx) in
      if match opt outboxOpts "kind" with JStr k => bool_decide (k ∈ ["persistent-outbox"; "persistent-queue"]) | _ => false end
      then
        let '(entry, o) := mapToEvent req (rc_user ctx) (opt srvConfig "namespace") subType eventHeaders properties in
        match publishEvent toString (fun v => JStr (stringify v)) dateParse cronNextISO c initialized insertEventsBeforeCommit
                o traceContext [entry] dbError t with
        | (t, None) => (c, t, Ok Published)
        | (t, Some e) => (c, t, Err e)
        end
      else (c, t, Ok (InMemory (opt outboxOpts "crashOnError")))
    end
  end.
End outbox.

(** ** In-memory processing *)

(** [isStandardError(err)] *)
Definition isStandardError (err : jsval) : bool :=
  match err with
  | JErr name _ => bool_decide (name ∈ ["TypeError"; "ReferenceError"; "SyntaxError"; "RangeError"; "URIError"])
  | _ => false
  end.

(** [isUnrecoverable(service, error)]; the service may have the method
    [isUnrecoverableError]. *)
Definition isUnrecoverable (isUnrecoverableError : option (jsval -> jsval)) (error : jsval) : bool :=
  let unrecoverable := match isUnrecoverableError with Some f => f error | None => JUndef end in
  let unrecoverable := if is_undefined unrecoverable then optp error "unrecoverable" else unrecoverable in
  truthy unrecoverable || isStandardError error.

(** The handler of ["succeeded"]: whether the process exits after the call. *)
Definition inMemoryExit (isUnrecoverableError : option (jsval -> jsval)) (crashOnError : jsval) (call : option jsval) : bool :=
  match call with
  | None => false
  | Some err => isUnrecoverable isUnrecoverableError err && negb (match crashOnError with JBool false => true | _ => false end)
  end.
