(* ===== verification/OutboxHandler.v ===== *)
(** * The generic outbox handler ([outbox/EventQueueGenericOutboxHandler.js])

    The processor of events that were sent through an outboxed CAP service: it turns
    the stored payload back into a request, calls the service, derives the status of
    the events from what the service returns and publishes the successor events
    ([#succeeded], [#failed], [#done]).  The service, [JSON.parse] and
    [JSON.stringify] are parameters. *)

From stdpp Require Import pretty.
From S2P Require Import Prelude Js Errors Config Database Processor Publish.

Local Open Scope Z_scope.

(** ** Constants *)

Definition EXCEEDED : string := "eventQueueRetriesExceeded".
Definition CLUSTER : string := "eventQueueCluster".
Definition CHECK_AND_ADJUST : string := "eventQueueCheckAndAdjustPayload".

Definition PROPAGATE_EVENT_QUEUE_ENTRIES : list string :=
  ["ID"; "lastAttempTimestamp"; "payload"; "referenceEntity"; "referenceEntityKey"; "status"].

Definition starts_with (p s : string) : bool := String.prefix p s.

(** [s.endsWith(t)] *)
Fixpoint ends_with (t s : string) : bool :=
  bool_decide (s = t) || match s with EmptyString => false | String _ r => ends_with t r end.

(** ** The result of a service call

    [v instanceof Object], [Object.keys(v)] *)
Definition instance_of_object (v : jsval) : bool :=
  match v with JArr _ | JObj _ | JDate _ | JErr _ _ => true | _ => false end.

Definition keys_of (v : jsval) : list string :=
  match v with JObj _ | JArr _ | JStr _ => okeys (spread v) | _ => [] end.

Definition allAllowed (v : jsval) : bool :=
  forallb (fun name => bool_decide (name ∈ ALLOWED_FIELDS_FOR_UPDATE)) (keys_of v).

(** The status tuples refer to objects that may be shared with each other and with the
    returned value: [st_cells] are the objects, a tuple has an id and the index of its
    object (or is any other value the service returned in its place), and [st_view] is
    the returned value for the current objects. *)
Inductive tuple : Type :=
| Tuple (id : jsval) (cell : nat)
| Raw (v : jsval).

Record statuses := mkStatuses {
  st_cells : list jsval;
  st_tuples : list tuple;
  st_view : list jsval -> jsval }.

Definition doneObject : jsval := JObj [("status", jcode Done)].

(** [queueEntries.map((e) => [e.ID, {...}])], a new object for every entry. *)
Definition newForAll (ids : list string) (v result : jsval) : statuses :=
  mkStatuses (replicate (length ids) v) (imap (fun i id => Tuple (JStr id) i) ids) (fun _ => result).

(** [queueEntries.map((e) => [e.ID, result])], the same object for all. *)
Definition sharedForAll (ids : list string) (v : jsval) : statuses :=
  mkStatuses [v] (map (fun id => Tuple (JStr id) O) ids) (fun cells => default v (cells !! O)).

(** [result.map(([id, status]) => [id, { status }])] *)
Fixpoint wrapStatuses (l : list jsval) : result jsval (list (jsval * jsval)) :=
  match l with
  | [] => Ok []
  | v :: r =>
    match destructure_entry v, wrapStatuses r with
    | Err e, _ => Err e
    | Ok _, Err e => Err e
    | Ok (id, status), Ok rest => Ok ((id, JObj [("status", status)]) :: rest)
    end
  end.

(** The second element of a returned tuple is the object the loop works on. *)
Definition with_second (v second : jsval) : jsval :=
  match v with JArr (a :: _ :: r) => JArr (a :: second :: r) | _ => v end.

(** [return result] for an array of tuples. *)
Fixpoint tuples_of (n : nat) (l : list jsval) : list jsval * list tuple :=
  match l with
  | [] => ([], [])
  | JArr (a :: b :: _) :: r => let '(cells, ts) := tuples_of (S n) r in (b :: cells, Tuple a n :: ts)
  | v :: r => let '(cells, ts) := tuples_of n r in (cells, Raw v :: ts)
  end.

Definition tuple_view (cells : list jsval) (v : jsval) (t : tuple) : jsval :=
  match t with Tuple _ i => with_second v (default JUndef (cells !! i)) | Raw _ => v end.

Definition returnTuples (l : list jsval) : statuses :=
  let '(cells, ts) := tuples_of 0 l in
  mkStatuses cells ts (fun cells => JArr (zip_with (tuple_view cells) l ts)).

(** One step of the [reduce] over an array of objects: the id and the object with its
    changes, and whether its properties are allowed.  A property set on an array, a date
    or an error makes it an object with its entries. *)
Definition resultObject (ids : list string) (entry : jsval) : result jsval (jsval * jsval * bool) :=
  if nullish entry then Err (TypeError "Cannot destructure property 'ID'")
  else
    let ID := field entry "ID" in
    rbind
      (if truthy ID then Ok ID
       else if (1 <? length ids)%nat
       then Err (JErr "Error" "The CAP handler return value does not match the event-queue specification. Please check the documentation")
       else match ids with
            | id :: _ => Ok (JStr id)
            | [] => Err (TypeError "Cannot read properties of undefined (reading 'ID')")
            end)
      (fun ID =>
         let entry := match entry with JObj o => JObj (odel "ID" o) | v => v end in
         let allowed := allAllowed entry in
         match entry with
         | JObj o => Ok (ID, JObj (if ohas "status" o then o else oset "status" (jcode Done) o), allowed)
         | JArr _ | JDate _ | JErr _ _ => Ok (ID, JObj (oset "status" (jcode Done) (spread entry)), allowed)
         | _ => Err (TypeError "Cannot use 'in' operator")
         end).

(** The [reduce]: the tuples and objects so far, the index of the object of every entry,
    and what is thrown. *)
Fixpoint resultObjects (ids : list string) (l : list jsval) (cells : list jsval) (tuples : list tuple)
    (own : list nat) : list jsval * list tuple * list nat * option jsval :=
  match l with
  | [] => (cells, tuples, own, None)
  | entry :: r =>
    match resultObject ids entry with
    | Err e => (cells, tuples, own, Some e)
    | Ok (ID, object, allowed) =>
      let '(cells, tuples) :=
        if allowed then (cells, tuples) else (cells ++ [doneObject], tuples ++ [Tuple ID (length cells)]) in
      resultObjects ids r (cells ++ [object]) (tuples ++ [Tuple ID (length cells)]) (own ++ [length cells])
    end
  end.

(** [validStatusValues.includes(v)] *)
Definition validStatus (v : jsval) : bool := status_in all_statuses v.

(** [some(([, status]) => !validStatusValues.includes(status))] *)
Fixpoint someInvalid (l : list jsval) : result jsval bool :=
  match l with
  | [] => Ok false
  | v :: r =>
    match destructure_entry v with
    | Err e => Err e
    | Ok (_, status) => if validStatus status then someInvalid r else Ok true
    end
  end.

(** [#determineResultStatus(result, queueEntries)]; the value of the second component is
    the returned value after what the function did to it. *)
Definition determineResultStatus (v : jsval) (ids : list string) : result jsval statuses * jsval :=
  if validStatus v then (Ok (newForAll ids (JObj [("status", v)]) v), v)
  else if instance_of_object v && negb (is_array v) then
    (Ok (if allAllowed v then sharedForAll ids v else newForAll ids doneObject v), v)
  else
    match v with
    | JArr l =>
      match l with
      | JArr firstEntry :: _ =>
        let innerResult := default JUndef (firstEntry !! 1%nat) in
        if instance_of_object innerResult then
          if allAllowed innerResult then
            (Ok (returnTuples l), v)
          else (Ok (newForAll ids doneObject v), v)
        else
          (rbind (wrapStatuses l)
             (fun ps => Ok (mkStatuses ps.*2 (imap (fun i p => Tuple p.1 i) ps) (fun _ => v))), v)
      | firstEntry :: _ =>
        if instance_of_object firstEntry then
          let '(cells, tuples, own, thrown) := resultObjects ids l [] [] [] in
          let view cells := JArr (map (fun i => default JUndef (cells !! i)) own ++ drop (length own) l) in
          match thrown with
          | Some e => (Err e, view cells)
          | None => (Ok (mkStatuses cells tuples view), view cells)
          end
        else
          match someInvalid l with
          | Err e => (Err e, v)
          | Ok true => (Ok (newForAll ids doneObject v), v)
          | Ok false => (Ok (returnTuples l), v)
          end
      | [] => (Ok (mkStatuses [] [] (fun _ => v)), v)
      end
    | _ => (Ok (newForAll ids doneObject v), v)
    end.

(** The status tuple as it is returned: an array of pairs. *)
Definition tuple_value (cells : list jsval) (t : tuple) : jsval :=
  match t with Tuple id i => JArr [id; default JUndef (cells !! i)] | Raw v => v end.

Definition statusTuple (s : statuses) : jsval := JArr (map (tuple_value (st_cells s)) (st_tuples s)).

(** ** Handlers of the service *)

(** [this.__onHandlers] with the two flags, from the names of the service's handlers
    ([getQueueEntriesAndSetToInProgress]). *)
Record onHandlers := mkOnHandlers {
  __onHandlers : obj string;
  __genericClusterHandler : bool;
  __specificClusterHandler : bool }.

Definition scanHandlers (names : list string) : onHandlers :=
  fold_left
    (fun r on =>
       let cluster := starts_with CLUSTER on in
       let specific := (length (split "." on) =? 2)%nat in
       mkOnHandlers (oset on on (__onHandlers r))
         (__genericClusterHandler r || (cluster && negb specific))
         (__specificClusterHandler r || (cluster && specific)))
    names (mkOnHandlers [] false false).

(** A handler name that is found and not empty. *)
Definition onHandler (k : string) (h : onHandlers) : option string :=
  match oget k (__onHandlers h) with
  | Some on => if bool_decide (on = EmptyString) then None else Some on
  | None => None
  end.

Section handler.
Context (toString : jsval -> string) (stringify : jsval -> string) (parse : string -> option jsval)
  (stackOf : jsval -> string) (toISOString : Z -> string).

(** [#checkHandlerExists({ eventQueueFn, event })] *)
Definition checkFunctionHandler (h : onHandlers) (eventQueueFn : string) (event : jsval) : option string :=
  match onHandler (join "." [eventQueueFn; join_string toString event]) h with
  | Some on => Some on
  | None => oget eventQueueFn (__onHandlers h)
  end.

(** [#checkHandlerExists({ event, saga })] *)
Definition checkSagaHandler (h : onHandlers) (event saga : string) : option string :=
  let event := if ends_with SAGA_SUCCESS event || ends_with SAGA_DONE event
               then default EmptyString (head (split "/" event)) else event in
  match onHandler (join "/" [event; saga]) h with
  | Some on => Some on
  | None => oget saga (__onHandlers h)
  end.

(** [#hasEventSpecificClusterHandler(queueEntry)] for the event of its payload. *)
Definition hasEventSpecificClusterHandler (h : onHandlers) (event : jsval) : bool :=
  match onHandler (join "." [CLUSTER; join_string toString event]) h with Some _ => true | None => false end.

(** ** Dispatch *)

Inductive invocation : Type := Send | Emit.

(** What [#buildDispatchData] returns: the request, the user, how the service is
    called and the parsed trigger event; [d_payload] is the payload after the call,
    which loses its trigger event, and [d_context] what [cds.context] gets. *)
Record dispatch := mkDispatch {
  d_req : obj jsval;
  d_userId : jsval;
  d_invocationFn : invocation;
  d_triggerEvent : jsval;
  d_payload : obj jsval;
  d_context : obj jsval }.

Definition delete_prop (k : string) (v : jsval) : jsval :=
  match v with JObj o => JObj (odel k o) | _ => v end.

(** [JSON.parse(v)]: only strings are parsed here, anything else is converted first. *)
Definition parseJson (v : jsval) : jsval := default JUndef (parse (js_string toString v)).

(** [#buildDispatchData(payload, { key, queueEntries })]; [useEventQueueUser] and
    [propagate] come from the event's configuration, [propagate] is empty unless the
    transaction mode is isolated and there is a [cds.context]. *)
Definition buildDispatchData (useEventQueueUser : bool) (userId : jsval) (propagate : list string)
    (payload : obj jsval) : dispatch :=
  let user := if useEventQueueUser then userId else prop payload "contextUser" in
  let trigger := optp (prop payload "data") "triggerEvent" in
  let payload1 := if truthy trigger
                  then oset "data" (delete_prop "triggerEvent" (prop payload "data")) payload else payload in
  let fromSend := truthy (prop payload1 "_fromSend") in
  let req := odel "contextUser" (odel "_fromSend" payload1) in
  mkDispatch req user (if fromSend then Send else Emit)
    (if truthy trigger then parseJson trigger else JUndef) payload1
    (fold_left (fun c p => if truthy (prop req p) then oset p (prop req p) c else c) propagate []).

(** [checkEventAndGeneratePayload(queueEntry)]; [send] is the call of the handler. *)
Definition checkEventAndGeneratePayload (h : onHandlers) (useEventQueueUser : bool) (userId : jsval)
    (propagate : list string) (send : string -> dispatch -> result jsval jsval) (queueEntry : event)
    : result jsval jsval :=
  match ev_payload queueEntry with
  | JUndef | JNull => Err (TypeError "Cannot destructure property 'event'")
  | JObj payload =>
    match checkFunctionHandler h CHECK_AND_ADJUST (prop payload "event") with
    | None => Ok (JObj payload)
    | Some handlerName =>
      let d := buildDispatchData useEventQueueUser userId propagate payload in
      match send handlerName d with
      | Err e => Err e
      | Ok data => if truthy data then Ok (JObj (oset "data" data (d_payload d))) else Ok JNull
      end
    end
  | v => match checkFunctionHandler h CHECK_AND_ADJUST JUndef with
         | None => Ok v
         | Some handlerName =>
           match send handlerName (buildDispatchData useEventQueueUser userId propagate (spread v)) with
           | Err e => Err e
           | Ok data =>
             if negb (truthy data) then Ok JNull
             else if is_array v then Ok v else Err (TypeError "Cannot create property 'data'")
           end
         end
  end.

(** [hookForExceededEvents(exceededEvent)]: [None] is the hook of the base class, which
    does nothing. *)
Definition hookForExceededEvents (h : onHandlers) (useEventQueueUser : bool) (userId : jsval)
    (propagate : list string) (send : string -> dispatch -> option jsval) (exceededEvent : event) : option jsval :=
  match ev_payload exceededEvent with
  | JObj payload =>
    match checkFunctionHandler h EXCEEDED (prop payload "event") with
    | None => None
    | Some handlerName => send handlerName (buildDispatchData useEventQueueUser userId propagate payload)
    end
  | v => if nullish v then Some (TypeError "Cannot destructure property 'event'")
         else match checkFunctionHandler h EXCEEDED JUndef with
              | None => None
              | Some handlerName =>
                send handlerName (buildDispatchData useEventQueueUser userId propagate (spread v))
              end
  end.

(** ** Successor events *)

(** The state of [#publishFollowupEvents]: the objects of the status tuples, the data of
    the request, which all tuples without [nextData] share, and the transaction. *)
Record followup := mkFollowup {
  f_cells : list jsval;
  f_data : jsval;
  f_tx : txState }.

(** [o.k = v] *)
Definition assign_prop (k : string) (v o : jsval) : result jsval jsval :=
  match o with
  | JObj fields => Ok (JObj (oset k v fields))
  | JArr _ | JDate _ | JErr _ _ => Ok o
  | _ => Err (TypeError "Cannot set properties")
  end.

(** Where [data] lives: in the [nextData] of an object, or in the request. *)
Inductive dataRef : Type := NextData (cell : nat) | ReqData.

Definition readData (r : dataRef) (f : followup) : jsval :=
  match r with NextData i => field (default JUndef (f_cells f !! i)) "nextData" | ReqData => f_data f end.

Definition writeData (r : dataRef) (v : jsval) (f : followup) : followup :=
  match r with
  | NextData i =>
    match f_cells f !! i with
    | Some (JObj o) => mkFollowup (<[i := JObj (oset "nextData" v o)]> (f_cells f)) (f_data f) (f_tx f)
    | _ => f
    end
  | ReqData => mkFollowup (f_cells f) v (f_tx f)
  end.

(** [data[k] = v] *)
Definition setData (r : dataRef) (k : string) (v : jsval) (f : followup) : followup * option jsval :=
  match assign_prop k v (readData r f) with
  | Ok d => (writeData r d f, None)
  | Err e => (f, Some e)
  end.

(** Statements in sequence: the first exception ends it. *)
Definition andThen {S : Type} (m : S -> S * option jsval) (k : S -> S * option jsval) (s : S) : S * option jsval :=
  match m s with (s1, None) => k s1 | failed => failed end.

Definition when {S : Type} (b : bool) (m : S -> S * option jsval) (s : S) : S * option jsval :=
  if b then m s else (s, None).

(** The columns of the trigger event by name. *)
Definition event_prop (e : event) (name : string) : jsval :=
  prop [("ID", JStr (ev_ID e)); ("type", JStr (ev_type e)); ("subType", JStr (ev_subType e));
        ("referenceEntity", from_option JStr JNull (ev_referenceEntity e));
        ("referenceEntityKey", from_option JStr JNull (ev_referenceEntityKey e));
        ("status", JNum (ev_status e)); ("payload", ev_payload e); ("attempts", JNum (ev_attempts e));
        ("lastAttemptTimestamp", from_option (fun t => JStr (toISOString t)) JNull (ev_lastAttempt e));
        ("createdAt", JStr (toISOString (ev_createdAt e)));
        ("startAfter", from_option (fun t => JStr (toISOString t)) JNull (ev_startAfter e));
        ("context", ev_context e); ("error", ev_error e); ("namespace", JStr (ev_namespace e))] name.

Definition triggerEventPropagate (triggerEventResult : jsval) (e : event) : obj jsval :=
  fold_left (fun o name => oset name (event_prop e name) o) PROPAGATE_EVENT_QUEUE_ENTRIES
    [("triggerEventResult", triggerEventResult)].

Section followups.
(** The queued service: [send(event, data)] in the transaction of the event. *)
Context (send : string -> jsval -> txState -> txState * option jsval).

(** The handlers of the successors, the event's name, the selected entries, the number of
    tuples and the returned value. *)
Context (succeeded failed done : option string) (event_ : string) (entries : list event) (tuples : nat)
  (view : list jsval -> jsval).

Definition truthy_name (o : option string) : bool := match o with Some _ => true | None => false end.

Definition setTrigger (r : dataRef) (f : followup) : followup * option jsval :=
  match entries with
  | [e] => if (tuples =? 1)%nat
           then setData r "triggerEvent" (JStr (stringify (JObj (triggerEventPropagate (view (f_cells f)) e)))) f
           else (f, None)
  | _ => (f, None)
  end.

Definition sendData (to : option string) (r : dataRef) (f : followup) : followup * option jsval :=
  let '(tx, thrown) := send (default EmptyString to) (readData r f) (f_tx f) in
  (mkFollowup (f_cells f) (f_data f) tx, thrown).

(** [delete result.nextData] *)
Definition deleteNextData (t : tuple) (f : followup) : followup * option jsval :=
  match t with
  | Tuple _ i => (mkFollowup (alter (delete_prop "nextData") i (f_cells f)) (f_data f) (f_tx f), None)
  | Raw _ => (f, None)
  end.

(** The object of a tuple. *)
Definition tupleResult (t : tuple) (f : followup) : result jsval jsval :=
  match t with
  | Tuple _ i => Ok (default JUndef (f_cells f !! i))
  | Raw v => rbind (destructure_entry v) (fun p => Ok p.2)
  end.

Definition is_status (s : EventProcessingStatus) (r : jsval) : bool :=
  match field r "status" with JNum z => z =? status_code s | _ => false end.

(** The body of the loop. *)
Definition followupTuple (t : tuple) (f : followup) : followup * option jsval :=
  match tupleResult t f with
  | Err e => (f, Some e)
  | Ok r =>
    if nullish r then (f, Some (TypeError "Cannot read properties of undefined (reading 'nextData')"))
    else
      let data := match t with
                  | Tuple _ i => if nullish (field r "nextData") then ReqData else NextData i
                  | Raw _ => ReqData
                  end in
      andThen (when (truthy_name succeeded && is_status Done r && negb (ends_with SAGA_SUCCESS event_))
        (andThen (setTrigger data) (sendData succeeded data)))
      (andThen (when (truthy_name failed && is_status Error r)
        (andThen (when (truthy (field r "error"))
           (setData data "error" (JStr (error2String stringify stackOf (field r "error")))))
        (andThen (setTrigger data) (sendData failed data))))
      (andThen (when (truthy_name done && negb (ends_with SAGA_SUCCESS event_))
        (andThen (setTrigger data) (sendData done data)))
        (deleteNextData t))) f
  end.

Fixpoint followupLoop (ts : list tuple) (f : followup) : followup * option jsval :=
  match ts with
  | [] => (f, None)
  | t :: r => andThen (followupTuple t) (followupLoop r) f
  end.
End followups.

(** The events a transaction has collected, [tx._eventQueue?.events]. *)
Definition tx_events (t : txState) : option (list (obj jsval)) := fst <$> tx_eventQueue t.

Definition set_tx_events (evs : list (obj jsval)) (t : txState) : txState :=
  match tx_eventQueue t with
  | Some (_, registered) => set_tx_eventQueue (Some (evs, registered)) t
  | None => t
  end.

(** The event a stored payload is for, [JSON.parse(event.payload).event]. *)
Definition payload_event (e : obj jsval) : jsval := field (parseJson (prop e "payload")) "event".

Definition is_event (name : option string) (e : obj jsval) : bool :=
  match name, payload_event e with Some n, JStr m => bool_decide (n = m) | _, _ => false end.

(** [#publishFollowupEvents(processContext, req, statusTuple, triggerEventResult)]: the
    state afterwards, [nextSagaEvents] ([None] leaves the field as it is) and what is
    thrown. *)
Definition publishFollowupEvents (send : string -> jsval -> txState -> txState * option jsval)
    (h : onHandlers) (insertEventsBeforeCommit : bool) (event_ : string) (entries : list event) (st : statuses)
    (data : jsval) (tx : txState) : followup * option (option (list (obj jsval))) * option jsval :=
  let succeeded := checkSagaHandler h event_ SAGA_SUCCESS in
  let failed := checkSagaHandler h event_ SAGA_FAILED in
  let done := checkSagaHandler h event_ SAGA_DONE in
  let f := mkFollowup (st_cells st) data tx in
  if negb (truthy_name succeeded) && negb (truthy_name failed) && negb (truthy_name done) then (f, None, None)
  else if ends_with SAGA_FAILED event_ || ends_with SAGA_DONE event_ then (f, None, None)
  else
    let nextEvents := tx_events tx in
    let f := mkFollowup (st_cells st) data (set_tx_events [] tx) in
    match followupLoop send succeeded failed done event_ entries (length (st_tuples st)) (st_view st) (st_tuples st) f with
    | (f, Some e) => (f, None, Some e)
    | (f, None) =>
      let hasError := existsb
        (fun t => match tupleResult t f with Ok r => is_status Error r | Err _ => false end) (st_tuples st) in
      let next :=
        if insertEventsBeforeCommit then tx_events (f_tx f)
        else (List.filter (fun e => is_event failed e || (hasError && is_event done e))) <$> tx_events (f_tx f) in
      (mkFollowup (f_cells f) (f_data f) (set_tx_events (default [] nextEvents) (f_tx f)), Some next, None)
    end.

(** ** processEvent *)

(** The tuples of a call that failed. *)
Definition failedTuples (ids : list string) (err triggerEventResult : jsval) : statuses :=
  newForAll ids (JObj [("status", jcode Error); ("error", err)]) triggerEventResult.

(** [processEvent(processContext, key, queueEntries, payload)].  [service] is the call of
    the service, which may publish events and change the request's data. *)
Definition processEvent (send : string -> jsval -> txState -> txState * option jsval)
    (service : invocation -> obj jsval -> txState -> txState * jsval * result jsval jsval)
    (h : onHandlers) (insertEventsBeforeCommit useEventQueueUser : bool) (userId : jsval) (propagate : list string)
    (entries : list event) (payload : obj jsval) (tx : txState)
    : txState * option (option (list (obj jsval))) * result jsval jsval :=
  let ids := map ev_ID entries in
  let d := buildDispatchData useEventQueueUser userId propagate payload in
  let '(tx, data, r) := service (d_invocationFn d) (d_req d) tx in
  let st :=
    match r with
    | Err err => failedTuples ids err JUndef
    | Ok v => match determineResultStatus v ids with
              | (Ok st, _) => st
              | (Err err, v) => failedTuples ids err v
              end
    end in
  match prop (d_req d) "event" with
  | JStr event_ =>
    let '(f, next, thrown) := publishFollowupEvents send h insertEventsBeforeCommit event_ entries st data tx in
    match thrown with
    | Some e => (f_tx f, next, Err e)
    | None => (f_tx f, next, Ok (statusTuple (mkStatuses (f_cells f) (st_tuples st) (st_view st))))
    end
  | _ => (tx, None, Err (TypeError "event.endsWith is not a function"))
  end.
End handler.

(** [processPeriodicEvent(processContext, key, queueEntry)]: the service gets an event
    with the name of the action, sent by the user of the queue. *)
Definition periodicCall {W} (cds : cdsEnv) (emit : option string -> jsval -> list event -> W -> W * option jsval)
    (eventType eventSubType : string) (userId : jsval) (queueEntry : event) (w : W) : W * option jsval :=
  emit (n_actionName (normalizeSubType cds eventType eventSubType)) userId [queueEntry] w.

(** ** The status of the events of a call *)

(** ** The report of a call

    What a service reports on the events [ids] of its call, in the forms the documentation
    of the outbox describes: for every event an object with the columns to write. *)

(** An object with no other properties than those a handler may set. *)
Definition columns (o : obj jsval) : Prop := okeys o ⊆ ["status"; "startAfter"; "error"; "nextData"].

Definition with_status (o : obj jsval) : obj jsval := if ohas "status" o then o else oset "status" (jcode Done) o.

(** The rest of objects that have their id as a property. *)
Definition with_ids (l : list (string * obj jsval)) : list (string * obj jsval) :=
  map (fun p => (p.1, with_status (odel "ID" p.2))) l.

(** The same object for all events. *)
Definition for_all (ids : list string) (o : obj jsval) : list (string * obj jsval) := map (fun id => (id, o)) ids.

(** [JArr] of pairs. *)
Definition pairs (l : list (string * obj jsval)) : list jsval := map (fun p => JArr [JStr p.1; JObj p.2]) l.

Definition mismatch : jsval :=
  JErr "Error" "The CAP handler return value does not match the event-queue specification. Please check the documentation".

Inductive reports (ids : list string) : result jsval jsval -> list (string * obj jsval) -> Prop :=
| reports_throw err : reports ids (Err err) (for_all ids [("status", jcode Error); ("error", err)])
| reports_status st : reports ids (Ok (jcode st)) (for_all ids [("status", jcode st)])
| reports_object o : columns o -> reports ids (Ok (JObj o)) (for_all ids o)
| reports_other_object o : ~ columns o -> reports ids (Ok (JObj o)) (for_all ids [("status", jcode Done)])
| reports_other v :
    validStatus v = false -> instance_of_object v = false -> reports ids (Ok v) (for_all ids [("status", jcode Done)])
| reports_tuples l :
    l <> [] -> Forall (fun p => columns p.2) l -> reports ids (Ok (JArr (pairs l))) l
| reports_codes (l : list (string * EventProcessingStatus)) :
    l <> [] -> reports ids (Ok (JArr (map (fun p => JArr [JStr p.1; jcode p.2]) l)))
                 (map (fun p => (p.1, [("status", jcode p.2)])) l)
| reports_objects (l : list (string * obj jsval)) :
    l <> [] -> Forall (fun p => prop p.2 "ID" = JStr p.1 /\ p.1 <> EmptyString /\ columns (odel "ID" p.2)) l ->
    reports ids (Ok (JArr (map JObj l.*2))) (with_ids l)
| reports_single id o :
    ids = [id] -> truthy (prop o "ID") = false -> columns (odel "ID" o) ->
    reports ids (Ok (JArr [JObj o])) [(id, with_status (odel "ID" o))]
| reports_mismatch (os : list (obj jsval)) :
    (1 < length ids)%nat -> Exists (fun o => truthy (prop o "ID") = false) os ->
    reports ids (Ok (JArr (map JObj os))) (for_all ids [("status", jcode Error); ("error", mismatch)]).

(** The tuples of a call, as [processEvent] determines them. *)
Definition statuses_of (ids : list string) (r : result jsval jsval) : statuses :=
  match r with
  | Err err => failedTuples ids err JUndef
  | Ok v => match determineResultStatus v ids with
            | (Ok st, _) => st
            | (Err err, v) => failedTuples ids err v
            end
  end.

(** The tuples are those of the report, and there are no other objects. *)
Definition stands_for (l : list (string * obj jsval)) (st : statuses) : Prop :=
  Forall2 (fun t p => exists i, t = Tuple (JStr p.1) i /\ st_cells st !! i = Some (JObj p.2)) (st_tuples st) l /\
  Forall (fun c => exists p, p ∈ l /\ c = JObj p.2) (st_cells st).

Lemma allAllowed_columns o : allAllowed (JObj o) = true <-> columns o.
Proof.
  unfold allAllowed, columns, keys_of. rewrite forallb_forall. simpl. split.
  - intros H k Hk. by apply (bool_decide_eq_true (k ∈ _)), H, list_elem_of_In.
  - intros H k Hk. apply bool_decide_eq_true. by apply H, list_elem_of_In.
Qed.

Lemma imap_stands l cells view :
  cells = map (fun p => JObj p.2) l -> stands_for l (mkStatuses cells (imap (fun i p => Tuple (JStr p.1) i) l) view).
Proof.
  intros ->. split; simpl.
  - apply Forall2_same_length_lookup_2; [by rewrite length_imap|]. intros i t p.
    rewrite list_lookup_imap. intros Ht Hi. rewrite Hi in Ht. injection Ht as <-. exists i. split; [done|].
    by rewrite (list_lookup_fmap (fun p : string * obj jsval => JObj p.2)), Hi.
  - apply Forall_forall. intros c [p [-> Hp]]%list_elem_of_fmap. by exists p.
Qed.

Lemma newForAll_stands ids o w : stands_for (for_all ids o) (newForAll ids (JObj o) w).
Proof.
  unfold newForAll. replace (imap _ ids) with (imap (fun i p => Tuple (JStr p.1) i) (for_all ids o)).
  - apply imap_stands. unfold for_all. rewrite map_map. simpl. induction ids as [|id ids IH]; [done|]. simpl. by f_equal.
  - unfold for_all. by rewrite (imap_fmap _ (fun id : string => (id, o))).
Qed.

Lemma tuples_of_pairs l n :
  tuples_of n (pairs l) = (map (fun p => JObj p.2) l, imap (fun i p => Tuple (JStr p.1) (n + i)%nat) l).
Proof.
  revert n. induction l as [|p l IH]; intros n; [done|]. cbn [pairs map tuples_of]. fold (pairs l). rewrite IH. simpl.
  rewrite Nat.add_0_r. do 2 f_equal. apply imap_ext. intros i x _. simpl. f_equal. lia.
Qed.

(** The report a list of ids with codes is. *)
Definition coded (l : list (string * EventProcessingStatus)) : list (string * obj jsval) :=
  map (fun p => (p.1, [("status", jcode p.2)])) l.

Lemma wrapStatuses_codes (l : list (string * EventProcessingStatus)) :
  wrapStatuses (map (fun p => JArr [JStr p.1; jcode p.2]) l) = Ok (map (fun p => (JStr p.1, JObj p.2)) (coded l)).
Proof. induction l as [|p l IH]; [done|]. simpl. by rewrite IH. Qed.

Lemma wrapped_stands l view :
  stands_for l (mkStatuses (map (fun p => (JStr p.1, JObj p.2)) l).*2
                  (imap (fun i p => Tuple p.1 i) (map (fun p => (JStr p.1, JObj p.2)) l)) view).
Proof.
  rewrite (imap_fmap _ (fun p : string * obj jsval => (JStr p.1, JObj p.2))). apply imap_stands.
  rewrite <- list_fmap_compose. done.
Qed.

Lemma resultObject_ok ids id o :
  prop o "ID" = JStr id -> id <> EmptyString -> columns (odel "ID" o) ->
  resultObject ids (JObj o) = Ok (JStr id, JObj (with_status (odel "ID" o)), true).
Proof.
  intros E Hi Hc%allAllowed_columns. unfold resultObject. cbn [nullish field]. rewrite E. simpl.
  rewrite bool_decide_eq_false_2 by done. simpl in *. by rewrite Hc.
Qed.

Lemma resultObjects_ok ids (l : list (string * obj jsval)) cells tuples own :
  Forall (fun p => prop p.2 "ID" = JStr p.1 /\ p.1 <> EmptyString /\ columns (odel "ID" p.2)) l ->
  exists own', resultObjects ids (map JObj l.*2) cells tuples own =
    (cells ++ map (fun p => JObj (with_status (odel "ID" p.2))) l,
     tuples ++ imap (fun i p => Tuple (JStr p.1) (length cells + i)%nat) l, own', None).
Proof.
  intros H. revert cells tuples own. induction H as [|p l (H1 & H2 & H3) _ IH]; intros cells tuples own.
  - exists own. simpl. by rewrite !app_nil_r.
  - cbn [fmap list_fmap map]. change (list_fmap _ _ snd l) with l.*2. cbn [resultObjects]. rewrite (resultObject_ok ids p.1) by done.
    destruct (IH (cells ++ [JObj (with_status (odel "ID" p.2))]) (tuples ++ [Tuple (JStr p.1) (length cells)])
      (own ++ [length cells])) as [own' ->]. exists own'. rewrite <- !app_assoc. simpl. rewrite Nat.add_0_r. do 5 f_equal.
    apply imap_ext. intros i x _. simpl. f_equal. rewrite length_app. simpl. lia.
Qed.

Lemma resultObjects_mismatch ids (os : list (obj jsval)) cells tuples own :
  (1 < length ids)%nat -> Exists (fun o => truthy (prop o "ID") = false) os ->
  exists x, resultObjects ids (map JObj os) cells tuples own = (x, Some mismatch).
Proof.
  intros Hl H. revert cells tuples own. induction os as [|o os IH]; intros cells tuples own; [by inversion H|]. simpl.
  unfold resultObject. cbn [nullish field]. destruct (truthy (prop o "ID")) eqn:T.
  - apply Exists_cons in H as [H|H]; [congruence|]. cbn [rbind].
    destruct (allAllowed _); apply IH, H.
  - rewrite (proj2 (Nat.ltb_lt 1 (length ids)) Hl). simpl. by eexists.
Qed.

(** A returned array of objects. *)
Lemma objects_taken ids os cells tuples own :
  os <> [] -> resultObjects ids (map JObj os) [] [] [] = (cells, tuples, own, None) ->
  exists view, statuses_of ids (Ok (JArr (map JObj os))) = mkStatuses cells tuples view.
Proof.
  intros Hn E. destruct os as [|o os]; [done|]. unfold statuses_of, determineResultStatus.
  cbn [map validStatus instance_of_object is_array negb andb] in *. rewrite E. by eexists.
Qed.

Lemma objects_refused ids os x e :
  os <> [] -> resultObjects ids (map JObj os) [] [] [] = (x, Some e) ->
  exists w, statuses_of ids (Ok (JArr (map JObj os))) = failedTuples ids e w.
Proof.
  intros Hn E. destruct os as [|o os]; [done|]. unfold statuses_of, determineResultStatus.
  cbn [map validStatus instance_of_object is_array negb andb] in *. rewrite E. destruct x as [[? ?] ?]. by eexists.
Qed.

(** The tuples of a call stand for its report, whatever the form of the report. *)
Lemma reports_statuses ids r l : ids <> [] -> reports ids r l -> stands_for l (statuses_of ids r).
Proof.
  intros Hi H. destruct H as [err|st|o Hc|o Hc|v Hv Ho|l Hl Hc|l Hl|l Hl Hc|id o -> Ht Hc|os Hl He].
  - apply newForAll_stands.
  - unfold statuses_of, determineResultStatus, validStatus. rewrite status_in_jcode, bool_decide_eq_true_2 by (destruct st; apply (bool_decide_unpack _); vm_compute; exact I).
    apply newForAll_stands.
  - unfold statuses_of, determineResultStatus. simpl. rewrite (proj2 (allAllowed_columns o) Hc). split; simpl.
    + unfold for_all. induction ids as [|id ids IH]; [done|]. clear Hi.
      constructor; [by exists O|]. destruct ids; [constructor | by apply IH].
    + constructor; [|constructor]. destruct ids as [|id ids]; [done|]. exists (id, o). split; [left | done].
  - unfold statuses_of, determineResultStatus. simpl. destruct (allAllowed (JObj o)) eqn:A; [by apply allAllowed_columns in A|].
    apply newForAll_stands.
  - unfold statuses_of, determineResultStatus. rewrite Hv, Ho. simpl. destruct v; try discriminate; apply newForAll_stands.
  - destruct l as [|[id o] l]; [done|]. unfold statuses_of, determineResultStatus. simpl. apply Forall_cons in Hc as [Hc _].
    rewrite (proj2 (allAllowed_columns o) Hc). unfold returnTuples.
    change (JArr [JStr id; JObj o] :: pairs l) with (pairs ((id, o) :: l)). rewrite tuples_of_pairs. by apply imap_stands.
  - pose proof (wrapStatuses_codes l) as W. fold (coded l). destruct l as [|p l]; [done|].
    unfold statuses_of, determineResultStatus. cbn [map validStatus instance_of_object is_array] in *. rewrite W. apply wrapped_stands.
  - destruct (resultObjects_ok ids l [] [] [] Hc) as [own E]. apply objects_taken in E as [view ->]; [|by destruct l].
    unfold with_ids. rewrite <- (imap_fmap (fun i p => Tuple (JStr p.1) i) (fun p => (p.1, with_status (odel "ID" p.2)))).
    apply imap_stands. by rewrite map_map.
  - change (JArr [JObj o]) with (JArr (map JObj [o])).
    destruct (objects_taken [id] [o] [JObj (with_status (odel "ID" o))] [Tuple (JStr id) O] [O]) as [view ->];
      [done | | by apply (imap_stands [(id, with_status (odel "ID" o))])].
    simpl. unfold resultObject. cbn [nullish field]. rewrite Ht. simpl. apply allAllowed_columns in Hc.
    simpl in Hc. by rewrite Hc.
  - destruct (resultObjects_mismatch ids os [] [] [] Hl He) as [x E].
    apply objects_refused in E as [w ->]; [apply newForAll_stands|]. intros ->. by inversion He.
Qed.

(** ** The loop over the tuples changes nothing but [nextData] *)

Definition strip : jsval -> jsval := delete_prop "nextData".

Lemma strip_status c : field (strip c) "status" = field c "status".
Proof. destruct c; try done. simpl. rewrite prop_odel. done. Qed.

Lemma strip_strip c : strip (strip c) = strip c.
Proof. destruct c; try done. unfold strip. simpl. by rewrite odel_odel. Qed.

Lemma strip_set o v : strip (JObj (oset "nextData" v o)) = strip (JObj o).
Proof. unfold strip. simpl. by rewrite odel_oset. Qed.

Lemma strip_is_status s c : is_status s (strip c) = is_status s c.
Proof. unfold is_status. by rewrite strip_status. Qed.

Lemma strip_insert i c (cells : list jsval) c0 :
  cells !! i = Some c0 -> strip c = strip c0 -> strip <$> <[i := c]> cells = strip <$> cells.
Proof.
  intros Hi E. rewrite list_fmap_insert, E. apply list_insert_id. by rewrite list_lookup_fmap, Hi.
Qed.

(** ** Which successors are published *)

Section successors.
Context (toString : jsval -> string) (stringify : jsval -> string) (parse : string -> option jsval)
  (stackOf : jsval -> string) (toISOString : Z -> string).

(** The queued service: a call adds one event, made from the name and the data, to those
    the transaction has collected. *)
Context (send : string -> jsval -> txState -> txState * option jsval) (made : string -> jsval -> obj jsval).

Definition queue_of (t : txState) : list (obj jsval) := default [] (tx_events t).

Definition queued_service : Prop := forall name data tx, exists tx',
  send name data tx = (tx', None) /\ tx_events tx' = Some (queue_of tx ++ [made name data]).

Context (Hsend : queued_service).
Context (succeeded failed done : option string) (event_ : string) (entries : list event) (tuples : nat)
  (view : list jsval -> jsval).

(** An object whose [nextData], if there is any, is an object. *)
Definition good_cell (c : jsval) : Prop :=
  exists o, c = JObj o /\ (nullish (prop o "nextData") = true \/ exists d, prop o "nextData" = JObj d).

Definition good (f : followup) : Prop := (exists o, f_data f = JObj o) /\ Forall good_cell (f_cells f).

Definition ref_ok (r : dataRef) (f : followup) : Prop :=
  match r with
  | ReqData => True
  | NextData i => exists o d, f_cells f !! i = Some (JObj o) /\ prop o "nextData" = JObj d
  end.

(** [f'] follows [f] by publishing the events [ns]. *)
Definition moved (ns : list string) (f f' : followup) : Prop :=
  strip <$> f_cells f' = strip <$> f_cells f /\
  (is_Some (tx_events (f_tx f)) -> is_Some (tx_events (f_tx f'))) /\
  exists es, queue_of (f_tx f') = queue_of (f_tx f) ++ es /\ Forall2 (fun n e => exists d, e = made n d) ns es.

Lemma moved_refl f : moved [] f f.
Proof. split_and!; auto. exists []. split; [by rewrite app_nil_r | constructor]. Qed.

Lemma moved_trans ns1 ns2 f1 f2 f3 : moved ns1 f1 f2 -> moved ns2 f2 f3 -> moved (ns1 ++ ns2) f1 f3.
Proof.
  intros (A1 & A2 & es1 & A3 & A4) (B1 & B2 & es2 & B3 & B4). split_and!; [congruence | auto |].
  exists (es1 ++ es2). split; [by rewrite B3, A3, app_assoc | by apply Forall2_app].
Qed.

(** A statement that runs and publishes [ns]. *)
Definition act (r : dataRef) (ns : list string) (m : followup -> followup * option jsval) : Prop :=
  forall f, good f -> ref_ok r f -> exists f', m f = (f', None) /\ good f' /\ ref_ok r f' /\ moved ns f f'.

Lemma act_andThen r ns1 ns2 m1 m2 : act r ns1 m1 -> act r ns2 m2 -> act r (ns1 ++ ns2) (andThen m1 m2).
Proof.
  intros H1 H2 f G R. destruct (H1 f G R) as (f1 & E1 & G1 & R1 & M1).
  destruct (H2 f1 G1 R1) as (f2 & E2 & G2 & R2 & M2).
  exists f2. unfold andThen. rewrite E1. eauto using moved_trans.
Qed.

Lemma act_when r ns (b : bool) m : act r ns m -> act r (if b then ns else []) (when b m).
Proof.
  intros H f G R. unfold when. destruct b; [by apply H|]. exists f. eauto using moved_refl.
Qed.

Lemma act_setData r k v : act r [] (setData r k v).
Proof.
  intros f [[o Ho] G] R. unfold setData. destruct r as [i|]; simpl in *.
  - destruct R as (c & d & Hc & Hd). rewrite Hc. simpl. rewrite Hd. simpl. rewrite ?Hc. simpl.
    eexists. split; [done|]. assert (Hi : (i < length (f_cells f))%nat) by (by eapply lookup_lt_Some).
    split_and!; simpl.
    + split; [by eexists|]. apply Forall_insert; [done|]. eexists. split; [done|]. right.
      rewrite prop_oset, decide_True by done. by eexists.
    + eexists _, _. split; [by apply list_lookup_insert_eq|]. by rewrite prop_oset, decide_True.
    + split_and!; [eapply strip_insert; [exact Hc | apply strip_set] | done |].
      exists []. by rewrite app_nil_r.
  - rewrite Ho. simpl. eexists. split; [done|]. split_and!; simpl; [|done|].
    + split; [by eexists | done].
    + split_and!; [done | done |]. exists []. by rewrite app_nil_r.
Qed.

Lemma act_setTrigger r : act r [] (setTrigger stringify toISOString entries tuples view r).
Proof.
  intros f G R. unfold setTrigger.
  assert (Same : exists f', (f, None) = (f', None : option jsval) /\ good f' /\ ref_ok r f' /\ moved [] f f')
    by (exists f; auto using moved_refl).
  destruct entries as [|e [|]]; [done| |done]. destruct (tuples =? 1)%nat; [by apply act_setData | done].
Qed.

Lemma act_send r to : act r [default EmptyString to] (sendData send to r).
Proof.
  intros f [[o Ho] G] R. unfold sendData.
  destruct (Hsend (default EmptyString to) (readData r f) (f_tx f)) as (tx' & -> & E).
  eexists. split; [done|]. split_and!; simpl; [split; [by eexists | done] | by destruct r |].
  split_and!; simpl; [done | by rewrite E |]. eexists. split; [unfold queue_of at 1; by rewrite E|].
  constructor; [by eexists | constructor].
Qed.

(** The successors an event with the status object [c] has. *)
Definition successors (c : jsval) : list string :=
  (if truthy_name succeeded && is_status Done c && negb (ends_with SAGA_SUCCESS event_)
   then [default EmptyString succeeded] else []) ++
  (if truthy_name failed && is_status Error c then [default EmptyString failed] else []) ++
  (if truthy_name done && negb (ends_with SAGA_SUCCESS event_) then [default EmptyString done] else []).

Lemma successors_strip c c' : strip c = strip c' -> successors c = successors c'.
Proof.
  intros E. unfold successors. by rewrite <- !(strip_is_status _ c), <- !(strip_is_status _ c'), E.
Qed.

Abbreviation followup_tuple :=
  (followupTuple stringify stackOf toISOString send succeeded failed done event_ entries tuples view).
Abbreviation followup_loop :=
  (followupLoop stringify stackOf toISOString send succeeded failed done event_ entries tuples view).

Lemma deleteNextData_spec id i f :
  good f -> exists f', deleteNextData (Tuple id i) f = (f', None) /\ good f' /\ moved [] f f'.
Proof.
  intros [Gd Gc]. eexists. split; [done|]. split; [split; [done|]; simpl|].
  - apply Forall_alter; [done|]. intros c Hc (o & -> & _). exists (odel "nextData" o). split; [done|]. left.
    by rewrite prop_odel, decide_True.
  - split_and!; simpl; [|done|exists []; by rewrite app_nil_r].
    apply list_eq. intros j. rewrite !list_lookup_fmap. destruct (decide (i = j)) as [->|Hne].
    + rewrite list_lookup_alter_eq. destruct (f_cells f !! j); simpl; [by rewrite strip_strip | done].
    + by rewrite list_lookup_alter_ne.
Qed.

Lemma followupTuple_spec id i c f :
  good f -> f_cells f !! i = Some c ->
  exists f', followup_tuple (Tuple id i) f = (f', None) /\ good f' /\ moved (successors c) f f'.
Proof.
  intros G Hc. unfold followupTuple. cbn [tupleResult]. rewrite Hc. cbn [default].
  pose proof G as [_ Gc]. rewrite Forall_lookup in Gc. destruct (Gc i c Hc) as (o & -> & Hn). simpl nullish.
  cbn iota. set (data := if nullish (field (JObj o) "nextData") then ReqData else NextData i).
  assert (R : ref_ok data f).
  { unfold data. simpl. destruct Hn as [Hn|[d Hd]]; [by rewrite Hn|]. rewrite Hd. simpl. by exists o, d. }
  assert (B : forall to, act data [default EmptyString to]
      (andThen (setTrigger stringify toISOString entries tuples view data) (sendData send to data))).
  { intros to. apply (act_andThen _ [] _ _ _ (act_setTrigger data) (act_send data to)). }
  set (m1 := when _ _). set (m2 := when _ _). set (m3 := when _ _).
  assert (A : act data (successors (JObj o)) (andThen m1 (andThen m2 m3))).
  { apply act_andThen; [apply act_when, B|]. apply act_andThen; [|apply act_when, B].
    apply act_when. apply (act_andThen _ [] _); [|apply B].
    intros f0 G0 R0. destruct (act_when data [] (truthy (field (JObj o) "error")) _
      (act_setData data "error" (JStr (error2String stringify stackOf (field (JObj o) "error")))) f0 G0 R0) as (f1 & E & H).
    exists f1. split; [exact E|]. by destruct (truthy _). }
  destruct (A f G R) as (f1 & E & G1 & R1 & M1).
  destruct (deleteNextData_spec id i f1 G1) as (f2 & E2 & G2 & M2). exists f2.
  split_and!; [|done|].
  - unfold andThen in *. destruct (m1 f) as [g1 [e|]]; [discriminate|]. destruct (m2 g1) as [g2 [e|]]; [discriminate|].
    rewrite E. done.
  - rewrite <- (app_nil_r (successors _)). by eapply moved_trans.
Qed.

(** The objects of the tuples. *)
Definition cells_of (ts : list tuple) (cells cs : list jsval) : Prop :=
  Forall2 (fun t c => exists id i, t = Tuple id i /\ cells !! i = Some c) ts cs.

Lemma cells_of_strip ts cells cells' cs :
  cells_of ts cells cs -> strip <$> cells' = strip <$> cells ->
  exists cs', cells_of ts cells' cs' /\ concat (map successors cs') = concat (map successors cs).
Proof.
  intros H E. induction H as [|t c ts cs (id & i & -> & Hi) _ (cs' & I1 & I2)]; [exists []; by split; [constructor|]|].
  assert (Hl : (strip <$> cells') !! i = Some (strip c)) by by rewrite E, list_lookup_fmap, Hi.
  rewrite list_lookup_fmap in Hl. destruct (cells' !! i) as [c'|] eqn:Hc'; [|discriminate]. injection Hl as Hs.
  exists (c' :: cs'). split; [constructor; [by exists id, i | done]|]. simpl. by rewrite I2, (successors_strip c' c).
Qed.

Lemma followupLoop_spec ts cs f :
  good f -> cells_of ts (f_cells f) cs ->
  exists f', followup_loop ts f = (f', None) /\ moved (concat (map successors cs)) f f'.
Proof.
  revert cs f. induction ts as [|t ts IH]; intros cs f G H; inversion H as [|? c ? cs' (id & i & -> & Hi) Hcs]; subst.
  - exists f. split; [done | apply moved_refl].
  - destruct (followupTuple_spec id i c f G Hi) as (f1 & E1 & G1 & M1). simpl.
    destruct (cells_of_strip _ _ _ _ Hcs (proj1 M1)) as (cs1 & C1 & <-).
    destruct (IH cs1 f1 G1 C1) as (f2 & E2 & M2). exists f2. split; [by unfold andThen; rewrite E1|].
    by eapply moved_trans.
Qed.
End successors.

(** ** What the successors and the statuses of a call are *)

Section calls.
Context (toString : jsval -> string) (stringify : jsval -> string) (parse : string -> option jsval)
  (stackOf : jsval -> string) (toISOString : Z -> string).
Context (send : string -> jsval -> txState -> txState * option jsval) (made : string -> jsval -> obj jsval).

Definition anySuccessor (h : onHandlers) (event_ : string) : bool :=
  truthy_name (checkSagaHandler h event_ SAGA_SUCCESS) || truthy_name (checkSagaHandler h event_ SAGA_FAILED) ||
  truthy_name (checkSagaHandler h event_ SAGA_DONE).

(** The successors of one event of a call. *)
Definition successors_of (h : onHandlers) (event_ : string) : jsval -> list string :=
  successors (checkSagaHandler h event_ SAGA_SUCCESS) (checkSagaHandler h event_ SAGA_FAILED)
    (checkSagaHandler h event_ SAGA_DONE) event_.

Abbreviation publish_followups := (publishFollowupEvents toString stringify parse stackOf toISOString send).

Lemma queue_of_cleared tx : queue_of (set_tx_events [] tx) = [].
Proof. unfold queue_of, tx_events, set_tx_events. destruct (tx_eventQueue tx) as [[evs b]|] eqn:E; simpl; by rewrite ?E. Qed.

Lemma queue_of_restored evs tx : is_Some (tx_events tx) -> queue_of (set_tx_events evs tx) = evs.
Proof. unfold queue_of, tx_events, set_tx_events. destruct (tx_eventQueue tx) as [[? b]|]; [done | by intros [? ?]]. Qed.

(** The calls of [publishFollowupEvents] that do nothing. *)
Lemma no_successors h ibc event_ entries st data tx :
  anySuccessor h event_ = false \/ ends_with SAGA_FAILED event_ || ends_with SAGA_DONE event_ = true ->
  publish_followups h ibc event_ entries st data tx = (mkFollowup (st_cells st) data tx, None, None).
Proof.
  intros H. unfold publishFollowupEvents, anySuccessor in *.
  destruct (truthy_name _), (truthy_name _), (truthy_name _); simpl in *; try done;
    destruct H as [H|H]; try discriminate; by rewrite H.
Qed.

Lemma followups_published (Hsend : queued_service send made) h event_ entries st cs data o tx :
  anySuccessor h event_ = true -> ends_with SAGA_FAILED event_ || ends_with SAGA_DONE event_ = false ->
  data = JObj o -> Forall good_cell (st_cells st) -> cells_of (st_tuples st) (st_cells st) cs ->
  exists f next, publish_followups h true event_ entries st data tx = (f, Some next, None) /\
    Forall2 (fun name e => exists d, e = made name d) (concat (map (successors_of h event_) cs)) (default [] next) /\
    queue_of (f_tx f) = queue_of tx /\ strip <$> f_cells f = strip <$> st_cells st.
Proof.
  intros Ha He -> Hc Hcs. unfold publishFollowupEvents. unfold anySuccessor in Ha.
  assert (N : negb (truthy_name (checkSagaHandler h event_ SAGA_SUCCESS)) &&
    negb (truthy_name (checkSagaHandler h event_ SAGA_FAILED)) &&
    negb (truthy_name (checkSagaHandler h event_ SAGA_DONE)) = false).
  { rewrite <- !negb_orb, Ha. done. }
  rewrite N, He.
  destruct (followupLoop_spec stringify stackOf toISOString send made Hsend (checkSagaHandler h event_ SAGA_SUCCESS)
    (checkSagaHandler h event_ SAGA_FAILED) (checkSagaHandler h event_ SAGA_DONE) event_ entries
    (length (st_tuples st)) (st_view st) (st_tuples st) cs (mkFollowup (st_cells st) (JObj o) (set_tx_events [] tx)))
    as (f & E & M1 & M2 & es & M3 & M4); [split; [by eexists | done] | done |].
  rewrite E. eexists _, _. split; [done|]. simpl in *. rewrite queue_of_cleared in M3. simpl in M3.
  split_and!; [unfold queue_of in M3; by rewrite M3 | | done].
  unfold set_tx_events in M2 at 1. unfold queue_of, tx_events in *.
  destruct (tx_eventQueue (f_tx f)) as [[evs b]|] eqn:Q; unfold set_tx_events; rewrite Q; simpl.
  - done.
  - rewrite Q. destruct (tx_eventQueue tx) as [[evs b]|]; [|done]. simpl in M2.
    destruct M2 as [? ?]; [by eexists | discriminate].
Qed.

(** C22. The successor events of a call are exactly those its statuses ask for: for every
    event in turn its [#succeeded] event when it is done, its [#failed] event when it
    failed and its [#done] event in any case, published apart from the events of the
    handler, which stay in the transaction as they were. *)
Theorem successors_published (Hsend : queued_service send made) h event_ entries st cs data o tx :
  anySuccessor h event_ = true -> ends_with SAGA_FAILED event_ || ends_with SAGA_DONE event_ = false ->
  data = JObj o -> Forall good_cell (st_cells st) -> cells_of (st_tuples st) (st_cells st) cs ->
  exists f next, publish_followups h true event_ entries st data tx = (f, Some next, None) /\
    Forall2 (fun name e => exists d, e = made name d) (concat (map (successors_of h event_) cs)) (default [] next) /\
    queue_of (f_tx f) = queue_of tx /\ strip <$> f_cells f = strip <$> st_cells st.
Proof. exact (followups_published Hsend h event_ entries st cs data o tx). Qed.

(** *** The statuses *)

(** The statuses of the map that [setEventStatus] builds from the tuples. *)
Lemma add_tuples_fresh (l : list (string * obj jsval)) m :
  NoDup l.*1 -> (forall id, id ∈ l.*1 -> oget id m = None) ->
  add_tuples toString (map (fun p => JArr [JStr p.1; JObj p.2]) l) m =
    (m ++ map (fun p => (p.1, JObj p.2)) l, None).
Proof.
  revert m. induction l as [|[id o] l IH]; intros m; csimpl; [by rewrite app_nil_r|].
  intros [Hn Hd]%NoDup_cons Hm. unfold determineAndAddEventStatusToMap, prop. simpl.
  rewrite (Hm id) by left. simpl. rewrite oset_fresh by (apply Hm; left). rewrite IH, <- app_assoc; [done | done |].
  intros id' Hid. rewrite <- oset_fresh by (apply Hm; left). rewrite oget_oset_ne; [apply Hm; by right | congruence].
Qed.

(** The tuples of a call after its successors were published: only [nextData] may have
    gone. *)
Lemma tuples_after l st cells :
  stands_for l st -> strip <$> cells = strip <$> st_cells st ->
  exists l', map (tuple_value cells) (st_tuples st) = pairs l' /\
    Forall2 (fun p' p => p'.1 = p.1 /\ forall k, k <> "nextData" -> prop p'.2 k = prop p.2 k) l' l.
Proof.
  intros [H _] E. induction H as [|t p ts l (i & -> & Hi) _ (l' & I1 & I2)]; [by exists []|].
  assert (Hl : (strip <$> cells) !! i = Some (strip (JObj p.2))) by by rewrite E, list_lookup_fmap, Hi.
  rewrite list_lookup_fmap in Hl. destruct (cells !! i) as [c'|] eqn:Hc; [|discriminate]. injection Hl as Hs.
  destruct c' as [| | | | | | | | | |o']; try discriminate. exists ((p.1, o') :: l'). simpl. rewrite I1, Hc.
  split; [done|]. constructor; [|done]. split; [done|]. intros k Hk. simpl.
  unfold strip in Hs. simpl in Hs. injection Hs as Hs.
  rewrite <- (decide_False (P := "nextData" = k) JUndef (prop o' k)) by congruence.
  rewrite <- (prop_odel "nextData" o' k), Hs, prop_odel. by rewrite decide_False by congruence.
Qed.

(** The objects of a report with good [nextData]. *)
Lemma stands_for_good l st : stands_for l st -> Forall (fun p => good_cell (JObj p.2)) l ->
  Forall good_cell (st_cells st) /\ cells_of (st_tuples st) (st_cells st) (map (fun p => JObj p.2) l).
Proof.
  intros [H1 H2] Hg. rewrite !Forall_forall in *. split.
  - intros c Hc. destruct (H2 c Hc) as (p & Hp & ->). by apply Hg.
  - unfold cells_of. apply Forall2_fmap_r. eapply Forall2_impl; [exact H1|]. intros t p (i & -> & Hi). by eexists _, _.
Qed.

(** What [publishFollowupEvents] leaves of the statuses and of the events of the handler. *)
Lemma followups_keep (Hsend : queued_service send made) h event_ entries st cs o tx :
  Forall good_cell (st_cells st) -> cells_of (st_tuples st) (st_cells st) cs ->
  exists f next, publish_followups h true event_ entries st (JObj o) tx = (f, next, None) /\
    queue_of (f_tx f) = queue_of tx /\ strip <$> f_cells f = strip <$> st_cells st.
Proof.
  intros Hc Hcs. destruct (anySuccessor h event_) eqn:A; [|rewrite no_successors by auto; by eexists _, _].
  destruct (ends_with SAGA_FAILED event_ || ends_with SAGA_DONE event_) eqn:B;
    [rewrite no_successors by auto; by eexists _, _|].
  destruct (followups_published Hsend h event_ entries st cs (JObj o) o tx A B eq_refl Hc Hcs) as (f & next & E & _ & Q & S).
  by exists f, (Some next).
Qed.

(** C37. The documented forms of a return value mean what the documentation of the outbox
    says.  A service is called for the events of a cluster, throws or returns a value, and that is a
    report of its events ([reports]): an exception fails all of them; a status is the status
    of all; an object with the documented columns has the columns of all; any other
    plain object or primitive value means done for all; of tuples or objects with ids each is
    for its own event, done if an object has no status; an object without an id is for the
    only event, and fails the call if there are several.  Then the statuses of the call have,
    for each reported event, exactly the reported columns ([nextData] apart, which is for the
    successors), and no other entry; and the events the service itself has published stay in
    its transaction.  The ids of a report are distinct, [nextData] is an object if there is
    any, the data of the request is an object, [insertEventsBeforeCommit] has its default,
    and successors are sent to a queued service. *)
Theorem call_reported (Hsend : queued_service send made) service h useUser userId propagate entries payload
    tx tx1 o r event_ l :
  let d := buildDispatchData toString parse useUser userId propagate payload in
  service (d_invocationFn d) (d_req d) tx = (tx1, JObj o, r) -> prop (d_req d) "event" = JStr event_ ->
  entries <> [] -> reports (map ev_ID entries) r l -> NoDup l.*1 -> Forall (fun p => good_cell (JObj p.2)) l ->
  exists tx' next tuple,
    processEvent toString stringify parse stackOf toISOString send service h true useUser userId propagate entries
      payload tx = (tx', next, Ok tuple) /\
    queue_of tx' = queue_of tx1 /\
    let statuses := status_from_tuple toString entries tuple [] in
    okeys statuses = l.*1 /\
    forall id c, (id, c) ∈ l -> exists o', oget id statuses = Some (JObj o') /\
      forall k, k <> "nextData" -> prop o' k = prop c k.
Proof.
  intros d Hd He Hne Hr Hn Hg. unfold processEvent. fold d. rewrite Hd, He. fold (statuses_of (map ev_ID entries) r).
  assert (HS : stands_for l (statuses_of (map ev_ID entries) r)) by (apply reports_statuses; [by destruct entries | done]).
  destruct (stands_for_good _ _ HS Hg) as [Gc Cs].
  destruct (followups_keep Hsend h event_ entries _ _ o tx1 Gc Cs) as (f & next & -> & Q & S).
  eexists _, _, _. split; [done|]. split; [done|]. cbv zeta.
  destruct (tuples_after l _ (f_cells f) HS S) as (l' & L1 & L2).
  assert (K : l'.*1 = l.*1) by (clear -L2; induction L2 as [|? ? ? ? [? _]]; csimpl; congruence).
  unfold statusTuple, status_from_tuple. simpl. rewrite L1. unfold pairs.
  rewrite add_tuples_fresh; [|by rewrite K | by intros ? ?]. simpl. split.
  { unfold okeys. rewrite <- list_fmap_compose. exact K. }
  intros id c Hin. destruct (list_elem_of_lookup_1 _ _ Hin) as [i Hi].
  destruct (Forall2_lookup_r _ _ _ _ _ L2 Hi) as ([id' o'] & Hi' & [= ->] & P). exists o'. split; [|exact P].
  apply elem_of_oget; [unfold okeys; rewrite <- list_fmap_compose, <- K in *; exact Hn|].
  apply list_elem_of_fmap. exists (id, o'). split; [done|]. by eapply list_elem_of_lookup_2.
Qed.
End calls.
