(* ===== verification/OutboxFlow.v ===== *)
(** * From a request to its dispatch

    The two sides of the outbox together: what an outboxed service stores for a request
    is what the generic handler dispatches, and an outboxed service is the queued
    service the successor events of the handler are sent to. *)

From stdpp Require Import pretty.
From S2P Require Import Prelude Js Errors Config Scheduling Database Processor Publish Outbox OutboxHandler.

Local Open Scope Z_scope.

(** Membership among literals, by evaluation. *)
Ltac by_lit := apply (bool_decide_unpack _); vm_compute; exact I.

(** ** The stored request *)

Lemma prop_copy (req : obj jsval) names base k :
  prop (fold_left (fun e p => if truthy (prop req p) then oset p (prop req p) e else e) names base) k =
    if bool_decide (k ∈ names) && truthy (prop req k) then prop req k else prop base k.
Proof.
  revert base. induction names as [|n names IH]; intros base; simpl; [done|]. rewrite IH.
  destruct (decide (n = k)) as [->|Hne].
  - rewrite (bool_decide_eq_true_2 (k ∈ k :: names)) by left. simpl.
    destruct (truthy (prop req k)); rewrite ?andb_true_r, ?andb_false_r; [|done].
    case_bool_decide; [done|]. by rewrite prop_oset, decide_True.
  - replace (bool_decide (k ∈ n :: names)) with (bool_decide (k ∈ names)).
    2: { apply bool_decide_ext. rewrite elem_of_cons. naive_solver. }
    destruct (bool_decide (k ∈ names) && truthy (prop req k)); [done|].
    destruct (truthy (prop req n)); [|done]. by rewrite prop_oset, decide_False.
Qed.

Lemma prop_oassign_ne (o1 o2 : obj jsval) k : k ∉ okeys o2 -> prop (oassign o1 o2) k = prop o1 k.
Proof. intros H. unfold prop. by rewrite oget_oassign_None by (by apply oget_None_okeys). Qed.

Lemma prop_oassign_in (o1 o2 : obj jsval) k : NoDup (okeys o2) -> k ∈ okeys o2 -> prop (oassign o1 o2) k = prop o2 k.
Proof.
  unfold oassign. revert o1. induction o2 as [|[k0 v] o2 IH]; intros o1; csimpl; [by intros _ ?%elem_of_nil|].
  intros [Hn Hd]%NoDup_cons Hk. destruct (decide (k = k0)) as [->|Hne].
  - change (prop (oassign (oset k0 v o1) o2) k0 = prop ((k0, v) :: o2) k0). rewrite prop_oassign_ne by done.
    unfold prop at 2. simpl. rewrite decide_True by done. by rewrite prop_oset, decide_True.
  - rewrite IH; [|done|by apply elem_of_cons in Hk as [?|?]]. unfold prop. simpl. by rewrite decide_False.
Qed.

(** The names an event uses for itself. *)
Definition reserved : list string := ["contextUser"; "_fromSend"; "headers"; "query"] ++ TO_COPY.

(** The header [h] sets the field [f] of an event, whatever its case. *)
Definition sets_field (h f : string) : Prop :=
  toLocaleLowerCase h = "x-eventqueue-" +:+ toLocaleLowerCase f.

#[export] Instance sets_field_dec h f : Decision (sets_field h f) := decide (toLocaleLowerCase h = _).

(** The header [h] is meant for the queue. *)
Definition queueHeader (h : string) : bool := existsb (fun f => bool_decide (sets_field h f)) EVENT_QUEUE_SPECIFIC_FIELDS.

Lemma specificField_Some h f : specificField h = Some f <-> f ∈ EVENT_QUEUE_SPECIFIC_FIELDS /\ sets_field h f.
Proof.
  unfold specificField. split.
  - intros [Hin H%bool_decide_eq_true]%List.find_some. split; [by apply list_elem_of_In | exact H].
  - intros [Hin H]. destruct (List.find _ _) as [f'|] eqn:F.
    + apply List.find_some in F as [Hin' H'%bool_decide_eq_true]. unfold sets_field in H. rewrite H in H'.
      apply (inj (String.append "x-eventqueue-")) in H'. f_equal. revert H'.
      clear -Hin Hin'. apply list_elem_of_In in Hin'.
      repeat (apply elem_of_cons in Hin as [->|Hin]);
        try (repeat (apply elem_of_cons in Hin' as [->|Hin']);
             first [by apply elem_of_nil in Hin' | done | (vm_compute; discriminate)]).
      by apply elem_of_nil in Hin.
    + pose proof (List.find_none _ _ F f (proj1 (list_elem_of_In _ _) Hin)) as N. by apply bool_decide_eq_false in N.
Qed.

Lemma specificField_None h : specificField h = None <-> queueHeader h = false.
Proof.
  unfold specificField, queueHeader. induction EVENT_QUEUE_SPECIFIC_FIELDS as [|f l IH]; [done|]. cbn [List.find existsb].
  destruct (decide (sets_field h f)) as [D|D].
  - by rewrite !bool_decide_eq_true_2 by exact D.
  - by rewrite !bool_decide_eq_false_2 by exact D.
Qed.

(** Loops that set the properties a lookup has. *)
Lemma oget_propagate (context : obj jsval) names h0 h :
  oget h (fold_left (fun o name => if ohas name context then oset name (prop context name) o else o) names h0) =
    if bool_decide (h ∈ names) && ohas h context then oget h context else oget h h0.
Proof.
  revert h0. induction names as [|n names IH]; intros h0; simpl; [done|]. rewrite IH.
  destruct (decide (n = h)) as [->|Hne].
  - rewrite (bool_decide_eq_true_2 (h ∈ h :: names)) by left. destruct (ohas h context) eqn:O; simpl; [|by rewrite andb_false_r].
    case_bool_decide; [done|]. simpl. rewrite oget_oset_eq. unfold prop. by apply ohas_true in O as [v ->].
  - replace (bool_decide (h ∈ n :: names)) with (bool_decide (h ∈ names)).
    2: { apply bool_decide_ext. rewrite elem_of_cons. naive_solver. }
    destruct (bool_decide (h ∈ names) && ohas h context); [done|].
    destruct (ohas n context); [|done]. by rewrite oget_oset_ne.
Qed.

(** The loop over the headers, pointwise. *)
Abbreviation split_loop := (fold_left (fun (acc : obj jsval * obj jsval) (kv : string * jsval) =>
  match specificField kv.1 with
  | Some f => (oset f kv.2 acc.1, odel kv.1 acc.2)
  | None => acc
  end)).

Lemma splitHeaders_kept (headers eventHeaders values : obj jsval) h :
  oget h (split_loop headers (values, eventHeaders)).2 =
    if bool_decide (h ∈ okeys headers) && queueHeader h then None else oget h eventHeaders.
Proof.
  revert values eventHeaders. induction headers as [|[n v] headers IH]; intros values eventHeaders; [done|]. cbn [fold_left fst snd].
  destruct (decide (n = h)) as [->|Hne].
  - rewrite (bool_decide_eq_true_2 (h ∈ okeys ((h, v) :: headers))) by left. simpl. destruct (specificField h) as [f|] eqn:S.
    + rewrite IH, oget_odel, decide_True by done. destruct (queueHeader h) eqn:Q; [by destruct (bool_decide _)|].
      apply specificField_None in Q. congruence.
    + rewrite IH. apply specificField_None in S. by rewrite S, andb_false_r.
  - replace (bool_decide (h ∈ okeys ((n, v) :: headers))) with (bool_decide (h ∈ okeys headers)).
    2: { apply bool_decide_ext. unfold okeys. csimpl. rewrite elem_of_cons. naive_solver. }
    destruct (specificField n); rewrite IH; [|done]. by rewrite oget_odel, decide_False.
Qed.

Lemma splitHeaders_other headers f : forall values kept,
  Forall (fun h => ~ (f ∈ EVENT_QUEUE_SPECIFIC_FIELDS /\ sets_field h f)) (okeys headers) ->
  oget f (split_loop headers (values, kept)).1 = oget f values.
Proof.
  induction headers as [|[h v] headers IH]; intros values kept; [done|]. intros [Hh H]%Forall_cons. simpl in *.
  destruct (specificField h) as [f'|] eqn:S; rewrite IH by done; [|done]. apply oget_oset_ne. intros ->.
  by apply specificField_Some in S.
Qed.

Lemma splitHeaders_set headers h f v : forall values kept,
  NoDup (okeys headers) -> oget h headers = Some v -> f ∈ EVENT_QUEUE_SPECIFIC_FIELDS -> sets_field h f ->
  Forall (fun h' => sets_field h' f -> h' = h) (okeys headers) ->
  oget f (split_loop headers (values, kept)).1 = Some v.
Proof.
  induction headers as [|[n w] headers IH]; intros values kept Hd Hv Hf Hs HF; [done|]. simpl in *.
  apply NoDup_cons in Hd as [Hn Hd]. apply Forall_cons in HF as [H1 HF]. case_decide as D.
  - injection Hv as ->. subst n. rewrite (proj2 (specificField_Some h f)) by done. rewrite splitHeaders_other.
    + simpl. by rewrite oget_oset_eq.
    + apply Forall_forall. intros h' Hin [_ Hs']. rewrite Forall_forall in HF. apply (HF h' Hin) in Hs'. by subst.
  - destruct (specificField n) as [f'|] eqn:S; apply IH; done.
Qed.

Section roundtrip.
Context (toString : jsval -> string) (stringify : jsval -> string) (parse : string -> option jsval).
Context (req : obj jsval) (ctx : requestContext) (namespace : jsval) (subType : string)
  (propagateHeaders propagateContextProperties : list string).

(** What [handle] computes for the request before it is stored. *)
Definition eventHeaders : obj jsval := getPropagatedHeaders propagateHeaders (rc_headers ctx) (headersOf req).
Definition properties : obj jsval := getPropagateContextProperties propagateContextProperties (rc_properties ctx).

Definition keptHeaders : obj jsval := (splitHeaders (headersOf req) eventHeaders).2.
Definition stored : obj jsval := outboxEvent req (rc_user ctx) keptHeaders properties.
Definition entry : obj jsval := (mapToEvent stringify req (rc_user ctx) namespace subType eventHeaders properties).1.

(** The headers a service gets for the request: its own ones except those for the queue,
    and the propagated headers of the context it does not have itself. *)
Definition deliveredHeader (h : string) : option jsval :=
  match oget h (headersOf req) with
  | Some v => if queueHeader h then None else Some v
  | None => if bool_decide (h ∈ propagateHeaders) then oget h (rc_headers ctx) else None
  end.

(** The data it gets: none beside a query, and without the trigger event. *)
Definition deliveredData : jsval :=
  let v := prop req "data" in
  if truthy (prop req "query") || negb (truthy v) then JUndef
  else if truthy (optp v "triggerEvent") then delete_prop "triggerEvent" v else v.

(** The values taken from headers are fields of the event. *)
Lemma splitHeaders_fields (headers values kept : obj jsval) :
  Forall (fun k => k ∈ EVENT_QUEUE_SPECIFIC_FIELDS) (okeys values) ->
  Forall (fun k => k ∈ EVENT_QUEUE_SPECIFIC_FIELDS)
    (okeys (split_loop headers (values, kept)).1).
Proof.
  revert values kept. induction headers as [|[h v] headers IH]; intros values kept Hf; [done|]. simpl.
  destruct (specificField h) as [f|] eqn:S; [|by apply IH]. apply IH. apply Forall_forall.
  intros k [->|Hk]%okeys_oset_elem; [|by rewrite Forall_forall in Hf; apply Hf].
  apply List.find_some in S as [S _]. by apply list_elem_of_In.
Qed.

Lemma splitHeaders_NoDup (headers values kept : obj jsval) :
  NoDup (okeys values) ->
  NoDup (okeys (split_loop headers (values, kept)).1).
Proof.
  revert values kept. induction headers as [|[h v] headers IH]; intros values kept Hn; [done|]. simpl.
  destruct (specificField h); apply IH; [by apply NoDup_okeys_oset | done].
Qed.

(** A column of the entry is what the headers say, or the one the entry starts with. *)
Lemma entry_column k :
  prop entry k =
    let values := (splitHeaders (headersOf req) eventHeaders).1 in
    match oget k values with
    | Some v => v
    | None => prop [("type", JStr CDS_EVENT_TYPE); ("subType", JStr subType); ("payload", JStr (stringify (JObj stored)));
                    ("namespace", coalesce (prop values "namespace") namespace)] k
    end.
Proof.
  unfold entry, mapToEvent, stored, keptHeaders.
  pose proof (splitHeaders_NoDup (headersOf req) [] eventHeaders (NoDup_nil_2)) as N.
  change (NoDup (okeys (splitHeaders (headersOf req) eventHeaders).1)) in N.
  destruct (splitHeaders (headersOf req) eventHeaders) as [values kept]. cbn [fst snd] in *.
  unfold prop at 1. rewrite oget_oassign by done. by destruct (oget k values).
Qed.

(** Columns that are no fields of headers. *)
Lemma entry_own k : k ∉ EVENT_QUEUE_SPECIFIC_FIELDS ->
  prop entry k = prop [("type", JStr CDS_EVENT_TYPE); ("subType", JStr subType); ("payload", JStr (stringify (JObj stored)))] k.
Proof.
  intros Hk. rewrite entry_column. cbv zeta.
  pose proof (splitHeaders_fields (headersOf req) [] eventHeaders (List.Forall_nil _)) as F.
  rewrite (proj2 (oget_None_okeys k _)).
  - unfold prop. simpl. repeat case_decide; try done. exfalso. subst k. apply Hk. by_lit.
  - intros Hin. rewrite Forall_forall in F. by apply Hk, F.
Qed.

(** The columns the headers for the queue set, each by one header. *)
Lemma entry_field h f v :
  NoDup (okeys (headersOf req)) -> f ∈ EVENT_QUEUE_SPECIFIC_FIELDS -> sets_field h f -> oget h (headersOf req) = Some v ->
  Forall (fun h' => sets_field h' f -> h' = h) (okeys (headersOf req)) -> prop entry f = v.
Proof.
  intros Hd Hf Hs Hv HF. rewrite entry_column. cbv zeta. unfold splitHeaders. by rewrite (splitHeaders_set _ h f v).
Qed.

Lemma entry_no_field f :
  f ∈ EVENT_QUEUE_SPECIFIC_FIELDS -> Forall (fun h => ~ sets_field h f) (okeys (headersOf req)) ->
  prop entry f = if bool_decide (f = "namespace") then namespace else JUndef.
Proof.
  intros Hf HF. assert (N : oget f (splitHeaders (headersOf req) eventHeaders).1 = None).
  { unfold splitHeaders. rewrite splitHeaders_other; [done|]. eapply Forall_impl; [exact HF|]. by intros h Hh [_ ?]. }
  rewrite entry_column. cbv zeta. rewrite N. case_bool_decide as D.
  - subst f. unfold prop at 1. simpl. unfold prop. by rewrite N.
  - clear -Hf D. repeat (apply elem_of_cons in Hf as [->|Hf]; [done|]). by apply elem_of_nil in Hf.
Qed.

Lemma keptHeaders_delivered h : NoDup (okeys (headersOf req)) -> oget h keptHeaders = deliveredHeader h.
Proof.
  intros Hd. unfold keptHeaders, splitHeaders, deliveredHeader. rewrite splitHeaders_kept.
  unfold eventHeaders, getPropagatedHeaders. rewrite oget_oassign, oget_propagate by done.
  destruct (oget h (headersOf req)) as [v|] eqn:E.
  - rewrite bool_decide_eq_true_2 by (apply oget_okeys; by eexists). done.
  - rewrite (bool_decide_eq_false_2 (h ∈ okeys _)) by by apply oget_None_okeys. simpl.
    destruct (bool_decide (h ∈ propagateHeaders)); [|done]. simpl. unfold ohas. by destruct (oget h (rc_headers ctx)).
Qed.

Lemma oget_properties k :
  oget k properties = if bool_decide (k ∈ propagateContextProperties) then oget k (rc_properties ctx) else None.
Proof.
  unfold properties, getPropagateContextProperties. rewrite oget_propagate. unfold ohas. simpl.
  destruct (bool_decide _); [|done]. simpl. by destruct (oget k (rc_properties ctx)).
Qed.

Lemma properties_NoDup : NoDup (okeys properties).
Proof.
  unfold properties, getPropagateContextProperties. generalize (NoDup_nil_2 (A := string)).
  change (@nil string) with (okeys (@nil (string * jsval))) at 1. generalize (@nil (string * jsval)).
  induction propagateContextProperties as [|n l IH]; intros o Hn; simpl; [done|]. apply IH.
  destruct (ohas _ _); [by apply NoDup_okeys_oset | done].
Qed.

Context (Hs : prop req "_fromSend" = JUndef \/ exists b, prop req "_fromSend" = JBool b)
  (Hp : Forall (fun k => k ∉ reserved) propagateContextProperties).

Lemma reserved_not_property k : k ∈ reserved -> k ∉ okeys properties.
Proof.
  intros Hr [v Hv]%oget_okeys. rewrite oget_properties in Hv. case_bool_decide; [|done].
  rewrite Forall_forall in Hp. by apply (Hp k).
Qed.

(** The event before the fields of the request are copied. *)
Definition own : obj jsval :=
  oassign (oassign [("contextUser", rc_user ctx)]
    (if truthy (prop req "_fromSend") then [] else if truthy (prop req "reply") then [("_fromSend", JBool true)] else []))
    [("headers", JObj keptHeaders)].

Lemma stored_prop k :
  prop stored k =
    if truthy (prop req "query") && bool_decide (k = "data") then JUndef
    else if truthy (prop req "query") && bool_decide (k = "query") then queryOf (prop req "query")
    else if bool_decide (k ∈ TO_COPY) && truthy (prop req k) then prop req k else prop (oassign own properties) k.
Proof.
  unfold stored, outboxEvent. replace (if truthy (prop req "_fromSend") then spread (prop req "_fromSend") else _) with
    (if truthy (prop req "_fromSend") then [] else if truthy (prop req "reply") then [("_fromSend", JBool true)] else []).
  2: { destruct Hs as [-> | [b ->]]; [done | by destruct b]. }
  fold own. destruct (truthy (prop req "query")); cbn [andb]; [|by rewrite prop_copy].
  rewrite prop_odel. case_decide as D; [by rewrite bool_decide_eq_true_2|]. rewrite bool_decide_eq_false_2 by congruence.
  rewrite prop_oset. case_decide as D'; [by rewrite bool_decide_eq_true_2|]. rewrite bool_decide_eq_false_2 by congruence.
  by rewrite prop_copy.
Qed.

Lemma own_prop k :
  prop own k =
    if decide (k = "contextUser") then rc_user ctx
    else if decide (k = "_fromSend")
         then (if truthy (prop req "_fromSend") then JUndef else if truthy (prop req "reply") then JBool true else JUndef)
    else if decide (k = "headers") then JObj keptHeaders else JUndef.
Proof.
  unfold own, prop. destruct (truthy _); [|destruct (truthy _)]; simpl; repeat case_decide; congruence.
Qed.

Lemma stored_reserved k : k ∈ reserved ->
  prop stored k =
    if truthy (prop req "query") && bool_decide (k = "data") then JUndef
    else if truthy (prop req "query") && bool_decide (k = "query") then queryOf (prop req "query")
    else if bool_decide (k ∈ TO_COPY) && truthy (prop req k) then prop req k else prop own k.
Proof. intros Hr. by rewrite stored_prop, prop_oassign_ne by by apply reserved_not_property. Qed.

Lemma stored_own k : k ∈ ["contextUser"; "_fromSend"; "headers"] -> prop stored k = prop own k.
Proof.
  intros Hk. rewrite stored_reserved by (unfold reserved; rewrite elem_of_app, !elem_of_cons in *; tauto).
  rewrite !bool_decide_eq_false_2, !andb_false_r; [done | | |];
    repeat (apply elem_of_cons in Hk as [->|Hk]; [by_lit|]); by apply elem_of_nil in Hk.
Qed.

Lemma stored_property k v :
  k ∈ propagateContextProperties -> oget k (rc_properties ctx) = Some v -> prop stored k = v.
Proof.
  intros Hk Hv. assert (Hr : k ∉ reserved) by (rewrite Forall_forall in Hp; by apply Hp).
  assert (N : forall x, x ∈ reserved -> k <> x) by (intros x Hx ->; done).
  rewrite stored_prop. rewrite !bool_decide_eq_false_2, !andb_false_r.
  - simpl. rewrite prop_oassign_in by (apply properties_NoDup || (apply oget_okeys; rewrite oget_properties, bool_decide_eq_true_2; eauto)).
    unfold prop. rewrite oget_properties, bool_decide_eq_true_2 by done. by rewrite Hv.
  - intros Hc. apply Hr. unfold reserved. apply elem_of_app. by right.
  - apply N. by_lit.
  - apply N. by_lit.
Qed.

(** The request the handler dispatches for the stored one. *)
Lemma dispatched_prop useUser uid propagate k :
  k <> "contextUser" -> k <> "_fromSend" -> k <> "data" ->
  prop (d_req (buildDispatchData toString parse useUser uid propagate stored)) k = prop stored k.
Proof.
  intros H1 H2 H3. unfold buildDispatchData. cbn [d_req]. rewrite !prop_odel.
  rewrite !decide_False by congruence. destruct (truthy _); [|done]. by rewrite prop_oset, decide_False by congruence.
Qed.

Lemma stored_copied k : k ∈ TO_COPY -> k <> "data" -> prop stored k = if truthy (prop req k) then prop req k else JUndef.
Proof.
  intros Hk Hn. assert (N : forall x, x ∉ TO_COPY -> k <> x) by (intros x Hx ->; done).
  rewrite stored_reserved by (unfold reserved; apply elem_of_app; by right).
  rewrite (bool_decide_eq_false_2 (k = "data")) by done.
  rewrite (bool_decide_eq_false_2 (k = "query")) by (apply N; by_lit).
  rewrite !andb_false_r, bool_decide_eq_true_2 by done. simpl. destruct (truthy (prop req k)); [done|].
  rewrite own_prop. rewrite !decide_False by (apply N; by_lit). done.
Qed.

Lemma stored_data : prop stored "data" = if truthy (prop req "query") || negb (truthy (prop req "data")) then JUndef else prop req "data".
Proof. rewrite stored_reserved by by_lit. rewrite own_prop. destruct (truthy (prop req "query")); [done|]. by destruct (truthy (prop req "data")). Qed.

Lemma dispatched_data useUser uid propagate :
  prop (d_req (buildDispatchData toString parse useUser uid propagate stored)) "data" = deliveredData.
Proof.
  unfold buildDispatchData, deliveredData. cbn [d_req]. rewrite !prop_odel, !decide_False by done. rewrite !stored_data.
  destruct (truthy (prop req "query") || negb (truthy (prop req "data"))) eqn:E; simpl.
  - by rewrite stored_data, E.
  - destruct (truthy (optp (prop req "data") "triggerEvent")); [by rewrite prop_oset, decide_True|]. by rewrite stored_data, E.
Qed.

(** The flag that says how the service was called survives the removal of the trigger
    event. *)
Lemma dispatched_fromSend useUser uid propagate :
  d_invocationFn (buildDispatchData toString parse useUser uid propagate stored) =
    if negb (truthy (prop req "_fromSend")) && truthy (prop req "reply") then Send else Emit.
Proof.
  unfold buildDispatchData. cbn [d_invocationFn].
  replace (prop (if truthy (optp (prop stored "data") "triggerEvent") then _ else stored) "_fromSend") with (prop stored "_fromSend").
  2: { destruct (truthy _); [|done]. by rewrite prop_oset, decide_False by congruence. }
  rewrite stored_own by by_lit. rewrite own_prop. simpl. destruct (truthy (prop req "_fromSend")); [done|]. by destruct (truthy (prop req "reply")).
Qed.

(** C20. What the outbox stores is what the handler dispatches.  For every request, whose
    flag [_fromSend], if any, is a boolean, and whose propagated context properties do not
    have a name of the event itself: if [JSON.parse] gives back the object that was
    stringified, the payload of the published event is an object whose dispatch
    - is for the user of the request, or the configured one if the event asks for it;
    - is sent if the request had a reply and not the flag [_fromSend], else emitted;
    - has every copied field of the request that is truthy and no other copied field; its
      data has lost the trigger event, and there is none beside a query;
    - has the query without its targets;
    - has exactly the headers of the request without those for the queue, and the
      propagated headers of the context the request does not have;
    - has the propagated properties of the context.
    Every header for the queue sets its column of the event, if no other header sets it
    too, and without one the column has its default. *)
Theorem outbox_roundtrip useUser uid propagate :
  NoDup (okeys (headersOf req)) ->
  parse (stringify (JObj stored)) = Some (JObj stored) ->
  exists payload, parse (js_string toString (prop entry "payload")) = Some (JObj payload) /\
    let d := buildDispatchData toString parse useUser uid propagate payload in
    d_userId d = (if useUser then uid else rc_user ctx) /\
    d_invocationFn d = (if negb (truthy (prop req "_fromSend")) && truthy (prop req "reply") then Send else Emit) /\
    (forall k, k ∈ TO_COPY -> k <> "data" -> prop (d_req d) k = if truthy (prop req k) then prop req k else JUndef) /\
    prop (d_req d) "data" = deliveredData /\
    prop (d_req d) "query" = (if truthy (prop req "query") then queryOf (prop req "query") else JUndef) /\
    (exists hs, prop (d_req d) "headers" = JObj hs /\ forall h, oget h hs = deliveredHeader h) /\
    (forall k v, k ∈ propagateContextProperties -> oget k (rc_properties ctx) = Some v -> prop (d_req d) k = v) /\
    prop entry "type" = JStr CDS_EVENT_TYPE /\ prop entry "subType" = JStr subType /\
    (forall f h v, f ∈ EVENT_QUEUE_SPECIFIC_FIELDS -> oget h (headersOf req) = Some v -> sets_field h f ->
       Forall (fun h' => sets_field h' f -> h' = h) (okeys (headersOf req)) -> prop entry f = v) /\
    (forall f, f ∈ EVENT_QUEUE_SPECIFIC_FIELDS -> Forall (fun h => ~ sets_field h f) (okeys (headersOf req)) ->
       prop entry f = if bool_decide (f = "namespace") then namespace else JUndef).
Proof.
  intros Hd HJ. exists stored.
  assert (E : prop entry "payload" = JStr (stringify (JObj stored))) by (by rewrite entry_own by by_lit).
  rewrite E. split; [exact HJ|]. cbv zeta. split_and!.
  - unfold buildDispatchData. cbn [d_userId]. destruct useUser; [done|]. by rewrite stored_own, own_prop by by_lit.
  - apply dispatched_fromSend.
  - intros k Hk Hn. rewrite dispatched_prop; [by apply stored_copied | | | done]; intros ->; revert Hk; by_lit.
  - apply dispatched_data.
  - rewrite dispatched_prop by done. rewrite stored_reserved, own_prop by by_lit. by destruct (truthy (prop req "query")).
  - exists keptHeaders. split; [|intros h; by apply keptHeaders_delivered].
    rewrite dispatched_prop by done. by rewrite stored_own, own_prop by by_lit.
  - intros k v Hk Hv. assert (Hr : k ∉ reserved) by (rewrite Forall_forall in Hp; by apply Hp).
    rewrite dispatched_prop; [by apply stored_property | | |]; intros ->; apply Hr; by_lit.
  - by rewrite entry_own by by_lit.
  - by rewrite entry_own by by_lit.
  - intros f h v Hf Hv Hh HF. by apply (entry_field h).
  - apply entry_no_field.
Qed.
End roundtrip.

(** ** Successors are sent to the outboxed service *)

Section queued.
Context (toString : jsval -> string) (stringify : jsval -> string) (dateParse : string -> option Z)
  (cronNextISO : jsval -> result jsval string) (cronParses : jsval -> bool) (validRegex : string -> string -> bool)
  (cds : cdsEnv) (traceContext : jsval) (c : Config) (srvName : string) (options : jsval) (ctx : requestContext).

(** What is thrown, as a value. *)
Definition thrownValue (e : cfgError) : jsval :=
  match e with JsError v => v | QueueError _ => JErr "EventQueueError" EmptyString end.

(** [cds.queued(srv).tx(context).send(name, data)]: the request CAP builds has the name,
    the data and a reply. *)
Definition sentRequest (name : string) (data : jsval) : obj jsval :=
  [("event", JStr name); ("data", data); ("reply", JBool true)].

Definition queuedSend (name : string) (data : jsval) (tx : txState) : txState * option jsval :=
  let '(_, t, r) := handle toString stringify dateParse cronNextISO cronParses validRegex cds true true traceContext
                      srvName options [] (sentRequest name data) ctx None c tx in
  (t, match r with Ok _ => None | Err e => Some (thrownValue e) end).

(** A service with one configuration for all its events that keeps them on the database. *)
Record persistent_service (r : regEvent) : Prop := {
  ps_common : forall e, getCdsOutboxEventSpecificConfig cds srvName e = None;
  ps_found : findBaseCAPServiceWithoutNamespace c srvName = Some r;
  ps_config : getEventConfig toString c (JStr CDS_EVENT_TYPE) (JStr srvName) (opt r "namespace") = Some r;
  ps_namespace : nullish (opt r "namespace") = false;
  ps_kind : opt r "kind" = JStr "persistent-outbox" \/ opt r "kind" = JStr "persistent-queue";
  ps_adHoc : truthy (opt r "isPeriodic") = false;
  ps_bucket : truthy (opt r "timeBucket") = false }.

(** The event a call of [send] publishes. *)
Definition sentEvent (r : regEvent) (name : string) (data : jsval) : obj jsval :=
  let headers := getPropagatedHeaders (str_items toString (opt r "propagateHeaders")) (rc_headers ctx) [] in
  let properties := getPropagateContextProperties (str_items toString (opt r "propagateContextProperties")) (rc_properties ctx) in
  oset "namespace" (opt r "namespace")
    (oset "context" (JStr (stringify (JObj [("traceContext", traceContext)])))
       [("type", JStr CDS_EVENT_TYPE); ("subType", JStr srvName);
        ("payload", JStr (stringify (JObj (outboxEvent (sentRequest name data) (rc_user ctx) headers properties))));
        ("namespace", opt r "namespace")]).

(** The entry of a call before its completion. *)
Definition sentEntry (r : regEvent) (payload : string) : obj jsval :=
  [("type", JStr CDS_EVENT_TYPE); ("subType", JStr srvName); ("payload", JStr payload); ("namespace", opt r "namespace")].

Lemma sentEntry_prepared r payload :
  persistent_service r ->
  prepareEvent toString (fun v => JStr (stringify v)) dateParse cronNextISO c (mkOptions false false true false)
    traceContext (sentEntry r payload) =
  Ok (oset "namespace" (opt r "namespace")
        (oset "context" (JStr (stringify (JObj [("traceContext", traceContext)]))) (sentEntry r payload))).
Proof.
  intros [P1 P2 P3 P4 P5 P6 P7]. unfold prepareEvent.
  assert (E1 : prop (sentEntry r payload) "type" = JStr CDS_EVENT_TYPE) by reflexivity.
  assert (E2 : prop (sentEntry r payload) "subType" = JStr srvName) by reflexivity.
  assert (E3 : prop (sentEntry r payload) "namespace" = opt r "namespace") by reflexivity.
  assert (E4 : prop (sentEntry r payload) "startAfter" = JUndef) by reflexivity.
  assert (E5 : prop (sentEntry r payload) "payload" = JStr payload) by reflexivity.
  rewrite E1, E2, E3, E4, E5, P3, P6, P7. rewrite bool_decide_eq_false_2 by done. cbn [truthy andb is_string addTraceContext].
  do 2 f_equal. rewrite prop_oset, decide_False by done. rewrite E3. by destruct (opt r "namespace").
Qed.

(** An outboxed service is a queued service: every call adds one event, made from the
    name and the data, to those of the transaction. *)
Lemma queuedSend_queues r : persistent_service r -> queued_service queuedSend (sentEvent r).
Proof.
  intros P name data tx. pose proof P as [P1 P2 P3 P4 P5 P6 P7]. unfold queuedSend, handle. rewrite P1, P2, P3.
  replace (match opt r "kind" with JStr k => bool_decide (k ∈ ["persistent-outbox"; "persistent-queue"]) | _ => false end)
    with true by (destruct P5 as [-> | ->]; reflexivity).
  assert (H : headersOf (sentRequest name data) = []) by reflexivity. rewrite H.
  set (headers := getPropagatedHeaders _ _ _). set (properties := getPropagateContextProperties _ _).
  assert (M : mapToEvent stringify (sentRequest name data) (rc_user ctx) (opt r "namespace") srvName headers properties =
    (sentEntry r (stringify (JObj (outboxEvent (sentRequest name data) (rc_user ctx) headers properties))),
     mkOptions false false true false)) by (unfold mapToEvent; by rewrite H).
  rewrite M. unfold publishEvent. cbn [negb prepareEvents]. rewrite (sentEntry_prepared r _ P). cbn [skipInsertEventsBeforeCommit].
  eexists. split; [done|]. unfold tx_events, queue_of, addEventsToContext, registerHandler, tx_events. simpl.
  destruct (tx_eventQueue tx) as [[evs [|]]|]; done.
Qed.
End queued.

(** ** Witnesses *)

Definition demoOutboxCfg : Config :=
  (addCAPServiceWithoutEnvConfig demoCfgString demoCronParses demoValidRegex demoCds "other" (JObj [])
     [("kind", JStr "persistent-queue")] demoCfg).1.

Definition demoOutboxReg : regEvent :=
  default (mkReg [] None None None) (findBaseCAPServiceWithoutNamespace demoOutboxCfg "other").

Definition demoJson (v : jsval) : string := "{}".
Definition demoCtx : requestContext := mkContext (JStr "alice") [] [].

Lemma demo_persistent : persistent_service demoCfgString demoCds demoOutboxCfg "other" demoOutboxReg.
Proof.
  split; try (vm_compute; reflexivity); [|right; vm_compute; reflexivity].
  intros e. unfold getCdsOutboxEventSpecificConfig.
  assert (Q : queueOptionsOf (prop (env_requires demoCds) "other") = JUndef) by (vm_compute; reflexivity).
  rewrite Q. simpl. destruct e as [[|a e]|]; [done| |done]. destruct (split "/" _) as [|w [|x l]]; try done.
  by case_bool_decide.
Qed.

Definition demoSend : string -> jsval -> txState -> txState * option jsval :=
  queuedSend demoCfgString demoJson demoDateParse demoCronISO demoCronParses demoValidRegex demoCds JUndef
    demoOutboxCfg "other" (JObj []) demoCtx.

Definition demoMade : string -> jsval -> obj jsval :=
  sentEvent demoCfgString demoJson JUndef "other" demoCtx demoOutboxReg.

Lemma demoSend_queues : queued_service demoSend demoMade.
Proof. exact (queuedSend_queues _ _ _ _ _ _ _ _ _ _ _ _ _ demo_persistent). Qed.

(** A service with an action and its successors. *)
Definition demoSaga : onHandlers := scanHandlers ["order"; "order/#succeeded"; "#failed"; "#done"].

Definition demoOrder (id : string) : event :=
  mkEvent id "CAP_OUTBOX" "other" None None 0 JUndef 0 None 0 None JUndef JUndef "default".

(** Two events of one call, the first done and the second failed: four successors. *)
Definition demoStatuses : statuses :=
  mkStatuses [JObj [("status", jcode Done)]; JObj [("status", jcode Error)]]
    [Tuple (JStr "1") 0; Tuple (JStr "2") 1] (fun _ => JUndef).

Lemma successors_published_witness :
  concat (map (successors_of demoSaga "order") (st_cells demoStatuses)) = ["order/#succeeded"; "#done"; "#failed"; "#done"] /\
  exists f next,
    publishFollowupEvents demoCfgString demoJson (fun _ => None) demoStack demoISO demoSend demoSaga true "order"
      [demoOrder "1"; demoOrder "2"] demoStatuses (JObj []) newTx = (f, Some next, None) /\
    Forall2 (fun name e => exists d, e = demoMade name d)
      (concat (map (successors_of demoSaga "order") (st_cells demoStatuses))) (default [] next) /\
    queue_of (f_tx f) = queue_of newTx /\ strip <$> f_cells f = strip <$> st_cells demoStatuses.
Proof.
  split; [reflexivity|].
  apply (successors_published demoCfgString demoJson (fun _ => None) demoStack demoISO demoSend demoMade demoSend_queues
    demoSaga "order" [demoOrder "1"; demoOrder "2"] demoStatuses (st_cells demoStatuses) (JObj []) [] newTx);
    try reflexivity.
  - repeat constructor; eexists; (split; [reflexivity | left; reflexivity]).
  - repeat constructor; eexists _, _; split; reflexivity.
Defined.

Definition demoPayload : obj jsval :=
  [("contextUser", JStr "alice"); ("_fromSend", JBool true); ("event", JStr "order"); ("data", JObj [("n", JNum 7)])].

(** The service reports on its two events one by one, the second as an object that has
    failed and is to be tried again later. *)
Definition demoReport : list (string * obj jsval) :=
  [("1", [("ID", JStr "1")]); ("2", [("ID", JStr "2"); ("status", jcode Error); ("startAfter", JStr "2025-06-01")])].

Definition demoCall (fn : invocation) (req : obj jsval) (tx : txState) : txState * jsval * result jsval jsval :=
  (tx, prop req "data", Ok (JArr (map JObj demoReport.*2))).

Lemma call_reported_witness :
  exists tx' next tuple,
    processEvent demoCfgString demoJson (fun _ => None) demoStack demoISO demoSend demoCall demoSaga true false JUndef []
      [demoOrder "1"; demoOrder "2"] demoPayload newTx = (tx', next, Ok tuple) /\
    queue_of tx' = queue_of newTx /\
    let statuses := status_from_tuple demoCfgString [demoOrder "1"; demoOrder "2"] tuple [] in
    okeys statuses = ["1"; "2"] /\
    exists o1 o2, oget "1" statuses = Some (JObj o1) /\ prop o1 "status" = jcode Done /\
      oget "2" statuses = Some (JObj o2) /\ prop o2 "status" = jcode Error /\ prop o2 "startAfter" = JStr "2025-06-01".
Proof.
  destruct (call_reported demoCfgString demoJson (fun _ => None) demoStack demoISO demoSend demoMade demoSend_queues demoCall
    demoSaga false JUndef [] [demoOrder "1"; demoOrder "2"] demoPayload newTx newTx [("n", JNum 7)]
    (Ok (JArr (map JObj demoReport.*2))) "order" (with_ids demoReport)) as (tx' & next & tuple & E & Q & K & R).
  - reflexivity.
  - reflexivity.
  - discriminate.
  - apply reports_objects; [discriminate|]. repeat (constructor; [split_and!; [reflexivity | discriminate | by_lit]|]). constructor.
  - apply (bool_decide_unpack _). vm_compute. exact I.
  - repeat constructor; eexists; (split; [reflexivity | left; reflexivity]).
  - exists tx', next, tuple. split; [exact E|]. split; [exact Q|]. cbv zeta in K, R |- *. split; [exact K|].
    destruct (R "1" [("status", jcode Done)]) as (o1 & E1 & P1); [left|].
    destruct (R "2" [("status", jcode Error); ("startAfter", JStr "2025-06-01")]) as (o2 & E2 & P2); [right; left|].
    exists o1, o2. split_and!; [exact E1 | by rewrite P1 | exact E2 | by rewrite P2 | by rewrite P2].
Defined.

Definition demoRequest : obj jsval :=
  [("event", JStr "order"); ("data", JObj [("n", JNum 7)]); ("reply", JBool true); ("path", JStr "/orders");
   ("headers", JObj [("x-eventqueue-startAfter", JStr "2025-01-01"); ("x-trace", JStr "t")])].

(** Its context: one header and one property are propagated. *)
Definition demoContext : requestContext :=
  mkContext (JStr "alice") [("x-correlation", JStr "c"); ("x-other", JStr "o")] [("locale", JStr "en")].

Lemma outbox_roundtrip_witness :
  deliveredHeader demoRequest demoContext ["x-correlation"] "x-trace" = Some (JStr "t") /\
  let stored_ := stored demoRequest demoContext ["x-correlation"] ["locale"] in
  let parse (_ : string) := Some (JObj stored_) in
  let entry_ := entry demoJson demoRequest demoContext (JStr "default") "other" ["x-correlation"] ["locale"] in
  exists payload,
    parse (js_string demoCfgString (prop entry_ "payload")) = Some (JObj payload) /\
    let d := buildDispatchData demoCfgString parse false JUndef [] payload in
    d_userId d = JStr "alice" /\ d_invocationFn d = Send /\
    prop (d_req d) "data" = JObj [("n", JNum 7)] /\ prop (d_req d) "locale" = JStr "en" /\
    (exists hs, prop (d_req d) "headers" = JObj hs /\
       oget "x-trace" hs = Some (JStr "t") /\ oget "x-correlation" hs = Some (JStr "c") /\
       oget "x-other" hs = None /\ oget "x-eventqueue-startAfter" hs = None) /\
    prop entry_ "startAfter" = JStr "2025-01-01" /\ prop entry_ "namespace" = JStr "default".
Proof.
  split; [vm_compute; reflexivity|]. intros stored_ parse entry_.
  destruct (outbox_roundtrip demoCfgString demoJson parse demoRequest demoContext (JStr "default") "other"
    ["x-correlation"] ["locale"] (or_introl eq_refl) ltac:(apply (bool_decide_unpack _); vm_compute; exact I)
    false JUndef [] ltac:(apply (bool_decide_unpack _); vm_compute; exact I) eq_refl)
    as (payload & P & U & F & _ & Da & _ & (hs & Hh & H) & C & _ & _ & S & N).
  exists payload. split; [exact P|]. split_and!; [exact U | exact F | exact Da | | | | ].
  - apply C; [left | reflexivity].
  - exists hs. split; [exact Hh|]. rewrite !H. repeat split.
  - apply (S "startAfter" "x-eventqueue-startAfter"); [by_lit | reflexivity | by_lit |].
    repeat constructor; vm_compute; discriminate.
  - apply (N "namespace"); [by_lit|]. repeat constructor; vm_compute; discriminate.
Defined.

(** ** Where the behaviour differs from the documentation *)

(** A queued service that keeps the name and the data of its calls. *)
Definition recordSend (name : string) (data : jsval) (tx : txState) : txState * option jsval :=
  (addEventsToContext [[("name", JStr name); ("data", data)]] tx, None).

(** When a call for two events returns one object with [nextData], only the
    successor of the first event gets it: the events share the object, and [nextData] is
    deleted after the first.  The second successor gets the data of the request. *)
Theorem shared_nextData_lost toString stringify parse stackOf toISOString e1 e2 (d o : obj jsval) :
  let v := JObj [("status", jcode Done); ("nextData", JObj d)] in
  exists st f, determineResultStatus v [ev_ID e1; ev_ID e2] = (Ok st, v) /\
    publishFollowupEvents toString stringify parse stackOf toISOString recordSend (scanHandlers ["order"; "#succeeded"])
      true "order" [e1; e2] st (JObj o) newTx =
    (f, Some (Some [[("name", JStr "#succeeded"); ("data", JObj d)]; [("name", JStr "#succeeded"); ("data", JObj o)]]), None).
Proof. eexists _, _. split; reflexivity. Qed.

(** The error of one event of a call reaches the successors of the events after it: they
    share the data of the request. *)
Lemma error_leaks_to_next_event toString stringify parse stackOf toISOString e1 e2 name msg :
  let err := JErr name msg in
  let v := JArr [JArr [JStr (ev_ID e1); JObj [("status", jcode Error); ("error", err)]];
                 JArr [JStr (ev_ID e2); JObj [("status", jcode Done)]]] in
  exists st f, determineResultStatus v [ev_ID e1; ev_ID e2] = (Ok st, v) /\
    publishFollowupEvents toString stringify parse stackOf toISOString recordSend (scanHandlers ["order"; "#succeeded"; "#failed"])
      true "order" [e1; e2] st (JObj []) newTx =
    (f, Some (Some [[("name", JStr "#failed"); ("data", JObj [("error", JStr (error2String stringify stackOf err))])];
                    [("name", JStr "#succeeded"); ("data", JObj [("error", JStr (error2String stringify stackOf err))])]]), None).
Proof. eexists _, _. split; reflexivity. Qed.

(** The trigger event a successor gets never has the time of the last attempt: the name
    in the list of propagated columns is not that of the column. *)
Lemma trigger_event_without_timestamp toISOString r e :
  prop (triggerEventPropagate toISOString r e) "lastAttempTimestamp" = JUndef /\
  prop (triggerEventPropagate toISOString r e) "lastAttemptTimestamp" = JUndef.
Proof. split; reflexivity. Qed.

(** A check handler that hands back the data of its request removes the trigger event: the
    dispatch for the check has deleted it from the payload the handler of the event gets. *)
Lemma check_drops_trigger_event toString parse h useUser uid event_ t (data : obj jsval) name e :
  checkFunctionHandler toString h CHECK_AND_ADJUST (JStr event_) = Some name ->
  truthy t = true -> prop data "triggerEvent" = t ->
  ev_payload e = JObj [("event", JStr event_); ("data", JObj data)] ->
  exists p, checkEventAndGeneratePayload toString parse h useUser uid [] (fun _ d => Ok (prop (d_req d) "data")) e = Ok (JObj p) /\
    d_triggerEvent (buildDispatchData toString parse useUser uid [] p) = JUndef.
Proof.
  intros Hh Ht Hd He. unfold checkEventAndGeneratePayload. rewrite He.
  set (p0 := [("event", JStr event_); ("data", JObj data)]).
  set (p1 := [("event", JStr event_); ("data", JObj (odel "triggerEvent" data))]).
  assert (E : prop p0 "event" = JStr event_) by reflexivity. rewrite E, Hh.
  assert (B : buildDispatchData toString parse useUser uid [] p0 =
    mkDispatch p1 (if useUser then uid else JUndef) Emit (parseJson toString parse t) p1 []).
  { unfold buildDispatchData. assert (D : prop p0 "data" = JObj data) by reflexivity. rewrite D.
    cbn [optp nullish field]. rewrite Hd, Ht. reflexivity. }
  rewrite B. exists p1. split; [reflexivity|]. unfold buildDispatchData. cbn [d_triggerEvent].
  assert (D : prop p1 "data" = JObj (odel "triggerEvent" data)) by reflexivity. rewrite D. cbn [optp nullish field].
  by rewrite prop_odel, decide_True.
Qed.

(** A request that carries the flag [_fromSend] itself is stored without it: the flag is a
    boolean, and spreading it adds no property. *)
Lemma fromSend_flag_dropped userId headers :
  prop (outboxEvent [("event", JStr "order"); ("_fromSend", JBool true); ("reply", JBool true)] userId headers []) "_fromSend" = JUndef.
Proof. reflexivity. Qed.

(** Successors of clusters that are processed in parallel can be lost: the processor
    keeps them in one field until the status is persisted, and when a second cluster
    publishes its successors before the first has persisted, the first cluster inserts
    those of the second and its own are never inserted. *)
Theorem parallel_successors_lost {D : Type} {ET : EventTable D} {EL : EventTableLaws D} (s : pstate) (d : D)
    (first second : list event) :
  second <> [] -> NoDup (ev_ID <$> second) -> Forall (fun e => row (ev_ID e) d = None) (first ++ second) ->
  (forall e, e ∈ first -> ev_ID e ∉ ev_ID <$> second) ->
  let '(s1, d1, e1) := insert_saga (set_nextSagaEvents second (set_nextSagaEvents first s)) d in
  let '(s2, d2, e2) := insert_saga s1 d1 in
  e1 = None /\ e2 = None /\
  (forall e, e ∈ second -> is_Some (row (ev_ID e) d2)) /\ forall e, e ∈ first -> row (ev_ID e) d2 = None.
Proof.
  intros Hne Hn [Hf Hs]%Forall_app Hd. destruct (insert_row second d Hn Hs) as (d' & E & R).
  unfold insert_saga at 1. simpl. destruct second as [|e0 rest]; [done|]. rewrite E. simpl.
  split_and!; [done | done | |]; intros e He; rewrite R.
  - destruct (List.find _ _) eqn:F; [by eexists|].
    pose proof (List.find_none _ _ F e (proj1 (list_elem_of_In _ _) He)) as N. cbv beta in N.
    by rewrite bool_decide_eq_true_2 in N.
  - destruct (List.find _ _) as [e'|] eqn:F; [|rewrite Forall_forall in Hf; by apply Hf].
    apply List.find_some in F as [Hin Heq%bool_decide_eq_true]. exfalso. apply (Hd e He).
    rewrite <- Heq. apply list_elem_of_fmap. exists e'. split; [done|]. by apply list_elem_of_In.
Qed.

Lemma parallel_successors_lost_witness :
  exists s1 d1 s2 d2,
    insert_saga (set_nextSagaEvents [demoOrder "b"] (set_nextSagaEvents [demoOrder "a"] (newInstance [] newScheduler)))
      (∅ : memRows) = (s1, d1, None) /\
    insert_saga s1 d1 = (s2, d2, None) /\ row "a" d2 = None /\ is_Some (row "b" d2).
Proof.
  pose proof (parallel_successors_lost (newInstance [] newScheduler) (∅ : memRows) [demoOrder "a"] [demoOrder "b"]) as P.
  destruct (insert_saga _ _) as [[s1 d1] e1] eqn:E1. destruct (insert_saga s1 d1) as [[s2 d2] e2] eqn:E2.
  exists s1, d1, s2, d2. destruct P as (-> & -> & P1 & P2).
  - done.
  - apply (bool_decide_unpack _). vm_compute. exact I.
  - repeat constructor.
  - intros e ->%list_elem_of_singleton. apply (bool_decide_unpack _). vm_compute. exact I.
  - split_and!; [done | done | |]; [apply (P2 (demoOrder "a")) | apply (P1 (demoOrder "b"))]; left.
Defined.
