(* ===== verification/OutboxCluster.v ===== *)
(** * Clustering of outboxed events ([outbox/EventQueueGenericOutboxHandler.js])

    Before the events of an outboxed service are processed, the service's cluster
    handlers may group them.  The handlers are parameters; the helpers the code offers
    them ([clusterByPayloadProperty] and its relatives) are definitions.  The groups end
    in the processing map of the processor. *)

From stdpp Require Import pretty.
From S2P Require Import Prelude Js Errors Config Scheduling Database Processor Exceeded OutboxHandler.

Local Open Scope Z_scope.

(** A cluster: its queue entries and its payload. *)
Abbreviation clusterT := (list event * jsval)%type.

(** The selected events with their payloads, by id. *)
Abbreviation payloadMap := (obj (event * jsval)).

(** What a cluster handler returns, as far as [#validateCluster] looks at it. *)
Inductive clusterEntry : Type :=
| NoObject
| ArrayEntry
| Entry (queueEntries : option (list event)) (payload : jsval).

Inductive clusterValue : Type :=
| NoClusters
| ArrayValue
| Clusters (o : obj clusterEntry).

(** [#validateCluster(obj)] *)
Definition validEntry (e : clusterEntry) : bool :=
  match e with
  | NoObject => false
  | ArrayEntry => false
  | Entry None _ => false
  | Entry (Some _) payload => is_object payload && negb (is_null payload) && negb (is_array payload)
  end.

Definition validateCluster (v : clusterValue) : bool :=
  match v with Clusters o => forallb (fun kv => validEntry kv.2) o | _ => false end.

Definition clusters_of (v : clusterValue) : obj clusterT :=
  match v with
  | Clusters o => map (fun kv => (kv.1, match kv.2 with Entry (Some es) p => (es, p) | _ => ([], JUndef) end)) o
  | _ => []
  end.

Section cluster.
Context (toString : jsval -> string) (stringify : jsval -> string) (parse : string -> option jsval)
  (toISOString : Z -> string).

(** ** The helpers for cluster handlers *)

(** [JSON.parse(JSON.stringify(v))] *)
Definition jsonCopy (v : jsval) : result jsval jsval :=
  if is_undefined v then Err (JErr "SyntaxError" "undefined is not valid JSON")
  else match parse (stringify v) with
       | Some d => Ok d
       | None => Err (JErr "SyntaxError" "not valid JSON")
       end.

(** [for (const part of parts) ref = ref[part]] *)
Fixpoint resolvePath (parts : list string) (ref : jsval) : result jsval jsval :=
  match parts with
  | [] => Ok ref
  | p :: r => match read_field ref p with Ok v => resolvePath r v | Err e => Err e end
  end.

(** [#resolveRefBase(result, propertyName, actionName, payload, startRef)]: the clusters
    and the key of the cluster. *)
Definition resolveRefBase (result_ : obj clusterT) (propertyName actionName : string) (payload startRef : jsval)
    : result jsval (obj clusterT * string) :=
  rbind (rbind (read_field payload "data") jsonCopy) (fun data =>
  rbind (resolvePath (split "." propertyName) startRef) (fun ref =>
    let key := join hash2 [actionName; join_string toString ref] in
    Ok (match oget key result_ with
        | Some _ => result_
        | None => oset key ([], JObj (oset "data" data (spread payload))) result_
        end, key))).

(** The start of the path: the payload, the queue entry or the payload's data. *)
Inductive clusterBy : Type := ByPayload | ByEvent | ByData.

Definition startRef (b : clusterBy) (e : event) (payload : jsval) : result jsval jsval :=
  match b with
  | ByPayload => Ok payload
  | ByEvent =>
    Ok (JObj (map (fun name => (name, event_prop toISOString e name))
          ["ID"; "type"; "subType"; "referenceEntity"; "referenceEntityKey"; "status"; "payload"; "attempts";
           "lastAttemptTimestamp"; "createdAt"; "startAfter"; "context"; "error"; "namespace"]))
  | ByData => read_field payload "data"
  end.

(** The [reduce] of [clusterBase]. *)
Definition clusterStep (b : clusterBy) (propertyName actionName : string) (result_ : obj clusterT)
    (ep : event * jsval) : result jsval (obj clusterT) :=
  rbind (startRef b ep.1 ep.2) (fun start =>
  rbind (resolveRefBase result_ propertyName actionName ep.2 start) (fun rk =>
    let '(cs, key) := rk in
    Ok (match oget key cs with
        | Some (es, p) => oset key (es ++ [ep.1], p) cs
        | None => cs
        end))).

Fixpoint clusterReduce (b : clusterBy) (propertyName actionName : string) (l : list (event * jsval))
    (result_ : obj clusterT) : result jsval (obj clusterT) :=
  match l with
  | [] => Ok result_
  | ep :: r =>
    match clusterStep b propertyName actionName result_ ep with
    | Ok cs => clusterReduce b propertyName actionName r cs
    | Err e => Err e
    end
  end.

(** [queueEntries.map((entry) => entry.payload.data)] *)
Fixpoint entriesData (es : list event) : result jsval (list jsval) :=
  match es with
  | [] => Ok []
  | e :: r =>
    match read_field (ev_payload e) "data", entriesData r with
    | Err err, _ => Err err
    | _, Err err => Err err
    | Ok d, Ok ds => Ok (d :: ds)
    end
  end.

(** [clustersKey.split("##").pop()] *)
Definition callbackKey (clustersKey : string) : string := default EmptyString (last (split hash2 clustersKey)).

(** The loop that lets the callback replace the data of every cluster. *)
Fixpoint applyCallback (propertyName : string) (cb : string -> list jsval -> result jsval jsval) (cs : obj clusterT)
    : throws (obj clusterT) :=
  match cs with
  | [] => Ok []
  | (key, (es, p)) :: r =>
    match rbind (entriesData es) (cb (callbackKey key)) with
    | Err e => Err (JsError e)
    | Ok v =>
      if negb (truthy v) then throwQ (invalidClusterHandlerResult (JStr key) (JStr propertyName))
      else match applyCallback propertyName cb r with
           | Err e => Err e
           | Ok rest => Ok ((key, (es, JObj (oset "data" v (spread p)))) :: rest)
           end
    end
  end.

(** [clusterBase(queueEntriesWithPayloadMap, propertyName, refCb, cb)] with the reference
    of [clusterByPayloadProperty], [clusterByEventProperty] or [clusterByDataProperty]. *)
Definition clusterBase (b : clusterBy) (actionName : string) (m : payloadMap) (propertyName : string)
    (cb : option (string -> list jsval -> result jsval jsval)) : throws (obj clusterT) :=
  match clusterReduce b propertyName actionName (ovalues m) [] with
  | Err e => Err (JsError e)
  | Ok clusters =>
    match cb with
    | None => Ok clusters
    | Some cb => applyCallback propertyName cb clusters
    end
  end.

(** ** Groups by action *)

Record availability := mkAvailability {
  genericClusterRelevantAndAvailable : bool;
  specificClusterRelevantAndAvailable : bool }.

(** The part [modifyQueueEntry] adds to that of the base class. *)
Definition noteClusterHandlers (h : onHandlers) (queueEntry : event) (a : availability) : availability :=
  let specific := hasEventSpecificClusterHandler toString h (optp (ev_payload queueEntry) "event") in
  mkAvailability
    (genericClusterRelevantAndAvailable a || (__genericClusterHandler h && negb specific))
    (specificClusterRelevantAndAvailable a || (__specificClusterHandler h && specific)).

(** [groups[action] ??= {}; groups[action][id] = data] *)
Definition addToAction (action id : string) (d : event * jsval) (groups : obj payloadMap) : obj payloadMap :=
  oset action (oset id d (default [] (oget action groups))) groups.

(** [#clusterByAction(queueEntriesWithPayloadMap)]: the generic and the specific groups. *)
Definition clusterByAction (h : onHandlers) (a : availability) (m : payloadMap) : obj payloadMap * obj payloadMap :=
  fold_left
    (fun acc kv =>
       let '(generic, specific) := acc in
       let '(id, d) := kv in
       let action := js_string toString (optp d.2 "event") in
       if hasEventSpecificClusterHandler toString h (optp (ev_payload d.1) "event") && specificClusterRelevantAndAvailable a
       then (generic, addToAction action id d specific)
       else (addToAction action id d generic, specific))
    m ([], []).

(** ** clusterQueueEntries *)

(** The cluster handler of the service: the event of the request, the action it is
    about and the events of the action. *)
Context (clusterService : string -> string -> payloadMap -> throws clusterValue).

(** The loop over the actions: the collected clusters, [None] when a result is not
    valid. *)
Fixpoint clusterActions (reqEvent : string -> string) (groups : obj payloadMap) (clusterMap : obj clusterT)
    : throws (option (obj clusterT)) :=
  match groups with
  | [] => Ok (Some clusterMap)
  | (action, m) :: r =>
    match clusterService (reqEvent action) action m with
    | Err e => Err e
    | Ok v => if validateCluster v then clusterActions reqEvent r (oassign clusterMap (clusters_of v)) else Ok None
    end
  end.

(** [#addToProcessingMap(handlerCluster)] *)
Definition addToProcessingMap (clusters : obj clusterT) (s : pstate) : pstate :=
  fold_left (fun s kv => fold_left (fun s e => addEntryToProcessingMap kv.1 e kv.2.2 s) kv.2.1 s) clusters s.

(** [super.clusterQueueEntries(m)]: one cluster per event. *)
Definition clusterEach (m : payloadMap) (s : pstate) : pstate :=
  fold_left (fun s kv => addEntryToProcessingMap kv.1 kv.2.1 kv.2.2 s) m s.

(** [clusterQueueEntries(queueEntriesWithPayloadMap)] *)
Definition clusterQueueEntries (h : onHandlers) (a : availability) (m : payloadMap) (s : pstate)
    : pstate * option cfgError :=
  if negb (genericClusterRelevantAndAvailable a) && negb (specificClusterRelevantAndAvailable a)
  then (clusterEach m s, None)
  else
    let '(generic, specific) := clusterByAction h a m in
    let '(s, r) :=
      if negb (genericClusterRelevantAndAvailable a)
      then (fold_left (fun s kv => clusterEach kv.2 s) generic s, Ok (Some []))
      else (s, clusterActions (fun _ => CLUSTER) generic []) in
    match r with
    | Err e => (s, Some e)
    | Ok None => (clusterEach m s, None)
    | Ok (Some clusterMap) =>
      match clusterActions (fun action => join "." [CLUSTER; action]) specific clusterMap with
      | Err e => (s, Some e)
      | Ok None => (clusterEach m s, None)
      | Ok (Some clusterMap) => (addToProcessingMap clusterMap s, None)
      end
    end.
End cluster.

(** ** Every event ends in exactly one cluster *)

(** The events of a set of clusters, and of the processing map. *)
Definition clustered (cs : obj clusterT) : list event := concat (fst <$> ovalues cs).
Definition processing (s : pstate) : list event := clustered (eventProcessingMap s).

Lemma processing_add key e p s : processing (addEntryToProcessingMap key e p s) ≡ₚ e :: processing s.
Proof.
  unfold processing, clustered, addEntryToProcessingMap.
  destruct (oget key (eventProcessingMap s)) as [[es q]|] eqn:G; cbn [default eventProcessingMap set_eventProcessingMap];
    apply (concat_oset fst key _ _ [e]); rewrite G; simpl; [by rewrite Permutation_app_comm | done].
Qed.

Lemma processing_each m s : processing (clusterEach m s) ≡ₚ (ovalues m).*1 ++ processing s.
Proof.
  unfold clusterEach, ovalues. revert s. induction m as [|[k [e p]] m IH]; intros s; csimpl; [done|].
  rewrite IH, processing_add. by rewrite Permutation_middle.
Qed.

Lemma processing_clusters cs s : processing (addToProcessingMap cs s) ≡ₚ clustered cs ++ processing s.
Proof.
  unfold addToProcessingMap, clustered, ovalues. revert s. induction cs as [|[k [es p]] cs IH]; intros s; csimpl; [done|].
  rewrite IH. clear IH. rewrite (Permutation_app_comm es), <- !app_assoc. apply Permutation_app_head.
  revert s. induction es as [|e es IHe]; intros s; csimpl; [done|].
  rewrite IHe, processing_add. by rewrite Permutation_middle.
Qed.

Lemma processing_groups groups s :
  processing (fold_left (fun s kv => clusterEach kv.2 s) groups s) ≡ₚ
    (concat (ovalues <$> ovalues groups)).*1 ++ processing s.
Proof.
  revert s. unfold ovalues at 2. induction groups as [|[k m] groups IH]; intros s; csimpl; [done|].
  rewrite IH, processing_each, fmap_app, <- !app_assoc. rewrite !app_assoc.
  by apply Permutation_app_tail, Permutation_app_comm.
Qed.

(** The keys that belong to an action: [owner] tells the action of a cluster key. *)
Section complete.
Context (toString : jsval -> string).
Context (clusterService : string -> string -> payloadMap -> throws clusterValue) (owner : string -> string).

(** A cluster handler that keeps the events it is given and uses keys of its action. *)
Definition faithful_handler : Prop := forall ev action m v,
  clusterService ev action m = Ok v -> validateCluster v = true ->
  NoDup (okeys (clusters_of v)) /\ clustered (clusters_of v) ≡ₚ (ovalues m).*1 /\
  Forall (fun k => owner k = action) (okeys (clusters_of v)).

Lemma clustered_app cs1 cs2 : clustered (cs1 ++ cs2) = clustered cs1 ++ clustered cs2.
Proof. unfold clustered, ovalues. by rewrite !fmap_app, concat_app. Qed.

(** The loop over the actions collects the events of all of them. *)
Lemma clusterActions_complete (F : faithful_handler) reqEvent groups cs cs' :
  NoDup (okeys groups) -> Forall (fun k => owner k ∉ okeys groups) (okeys cs) ->
  clusterActions clusterService reqEvent groups cs = Ok (Some cs') ->
  clustered cs' ≡ₚ clustered cs ++ (concat (ovalues <$> ovalues groups)).*1 /\
  Forall (fun k => owner k ∈ okeys groups \/ k ∈ okeys cs) (okeys cs').
Proof.
  revert cs. induction groups as [|[action m] groups IH]; intros cs; csimpl.
  - intros _ _ [= ->]. rewrite app_nil_r. split; [done|]. apply Forall_forall. auto.
  - intros [Hn Hd]%NoDup_cons Hk. destruct (clusterService _ _ _) as [v|] eqn:C; [|discriminate].
    destruct (validateCluster v) eqn:V; [|discriminate].
    destruct (F _ _ _ _ C V) as (F1 & F2 & F3). rewrite Forall_forall in Hk, F3.
    assert (E : oassign cs (clusters_of v) = cs ++ clusters_of v).
    { apply oassign_disjoint; [done|]. intros k Hv. apply oget_None_okeys. intros Hc.
      apply (Hk k Hc). rewrite (F3 k Hv). left. }
    rewrite E. intros H. apply IH in H; [|done|].
    + destruct H as [H1 H2]. split.
      * rewrite H1, clustered_app, F2, fmap_app, <- !app_assoc. done.
      * apply Forall_forall. intros k Hin. rewrite Forall_forall in H2. destruct (H2 k Hin) as [Ho|Ho].
        -- left. by right.
        -- unfold okeys in Ho. rewrite fmap_app, elem_of_app in Ho. destruct Ho as [Ho|Ho]; [by right|].
           left. rewrite (F3 k Ho). left.
    + apply Forall_forall. intros k Hin Ho. unfold okeys in Hin. rewrite fmap_app, elem_of_app in Hin.
      destruct Hin as [Hin|Hin]; [apply (Hk k Hin); by right|]. rewrite (F3 k Hin) in Ho. done.
Qed.

(** The events and payloads of a set of groups, with their ids. *)
Definition grouped (groups : obj payloadMap) : list (string * (event * jsval)) :=
  concat ((fun m : payloadMap => m) <$> ovalues groups).

Lemma grouped_add action id d groups :
  id ∉ (grouped groups).*1 -> grouped (addToAction action id d groups) ≡ₚ (id, d) :: grouped groups.
Proof.
  intros Hn. unfold grouped, addToAction. apply (concat_oset (fun m : payloadMap => m) _ _ _ [(id, d)]).
  destruct (oget action groups) as [g|] eqn:G; simpl; [|done].
  rewrite oset_fresh; [by rewrite Permutation_app_comm|]. apply oget_None_okeys. intros Hin. apply Hn.
  apply list_elem_of_fmap in Hin as (kv & -> & Hkv). apply list_elem_of_fmap. exists kv. split; [done|].
  unfold grouped. rewrite list_fmap_id. apply list_elem_of_In, in_concat. exists g. split; [|by apply list_elem_of_In].
  apply list_elem_of_In, list_elem_of_fmap. exists (action, g). split; [done|]. by apply oget_elem_of.
Qed.

Lemma grouped_values groups : (concat (ovalues <$> ovalues groups)).*1 = (ovalues (grouped groups)).*1.
Proof.
  f_equal. unfold grouped, ovalues. rewrite list_fmap_id.
  induction groups as [|[k m] groups IH]; csimpl; [done|]. by rewrite fmap_app, IH.
Qed.

(** The payload of an event names the same action as its entry. *)
Definition named_events (m : payloadMap) : Prop :=
  Forall (fun kv => exists a, optp kv.2.2 "event" = JStr a /\ optp (ev_payload kv.2.1) "event" = JStr a) m.

Lemma clusterByAction_spec h a m :
  NoDup (okeys m) -> named_events m ->
  let '(generic, specific) := clusterByAction toString h a m in
  NoDup (okeys generic) /\ NoDup (okeys specific) /\
  grouped generic ++ grouped specific ≡ₚ m /\ (forall k, k ∈ okeys generic -> k ∉ okeys specific).
Proof.
  intros Hd Hm. unfold clusterByAction.
  set (sp := fun k => hasEventSpecificClusterHandler toString h (JStr k) && specificClusterRelevantAndAvailable a).
  set (f := fun (acc : obj payloadMap * obj payloadMap) (kv : string * (event * jsval)) => _).
  cut (forall m2 m1 acc, NoDup (okeys (m1 ++ m2)) -> named_events m2 ->
    NoDup (okeys acc.1) -> NoDup (okeys acc.2) -> grouped acc.1 ++ grouped acc.2 ≡ₚ m1 ->
    (forall k, k ∈ okeys acc.1 -> sp k = false) -> (forall k, k ∈ okeys acc.2 -> sp k = true) ->
    let '(g, s) := fold_left f m2 acc in
    NoDup (okeys g) /\ NoDup (okeys s) /\ grouped g ++ grouped s ≡ₚ m1 ++ m2 /\
    (forall k, k ∈ okeys g -> k ∉ okeys s)).
  { intros C. apply (C m [] ([], [])); try done; try apply NoDup_nil_2; by intros k ?%elem_of_nil. }
  clear m Hd Hm. induction m2 as [|[id d] m2 IH]; intros m1 [g s] Hd Hm Hg Hs Hp G S; simpl in *.
  - rewrite app_nil_r. split_and!; try done. intros k Hk1 Hk2. apply G in Hk1. apply S in Hk2. congruence.
  - apply Forall_cons in Hm as [(act & E1 & E2) Hm]. simpl in E1, E2.
    assert (Hid : id ∉ (grouped g ++ grouped s).*1).
    { unfold okeys in Hd. rewrite fmap_app in Hd. csimpl in Hd. intros Hin. rewrite Hp in Hin.
      apply NoDup_app in Hd as (_ & Hd & _). apply (Hd id Hin). left. }
    rewrite fmap_app, not_elem_of_app in Hid. destruct Hid as [Hid1 Hid2].
    replace (m1 ++ (id, d) :: m2) with ((m1 ++ [(id, d)]) ++ m2) in * by by rewrite <- app_assoc.
    rewrite E1, E2. cbn [js_string]. fold (sp act). destruct (sp act) eqn:Sp.
    + apply IH; simpl; try done.
      * by apply NoDup_okeys_oset.
      * rewrite grouped_add by done. rewrite <- Permutation_middle, Hp. by rewrite Permutation_app_comm.
      * intros k [->|Hk]%okeys_oset_elem; auto.
    + apply IH; simpl; try done.
      * by apply NoDup_okeys_oset.
      * rewrite grouped_add by done. simpl. rewrite Hp. by rewrite Permutation_app_comm.
      * intros k [->|Hk]%okeys_oset_elem; auto.
Qed.

(** C23. Clustering loses and duplicates nothing, under these conditions: it does not throw;
    every entry to process is the one of its event and has a payload with the name of its
    action; a valid result of a cluster handler has exactly the events the handler was given,
    each once, under keys that belong to its action and to no other; and where the generic
    handler is missing, every result of the specific handlers is valid.  Then every
    selected event is in exactly one cluster of the processing map afterwards, whatever
    combination of generic and action specific handlers is available.  (Common keys
    lose events, [common_key_loses_events]; an invalid result duplicates them,
    [invalid_cluster_duplicates].) *)
Theorem clusters_partition_events (F : faithful_handler) h a m s s' :
  NoDup (okeys m) -> named_events m -> eventProcessingMap s = [] ->
  (genericClusterRelevantAndAvailable a = false ->
     forall ev action g v, clusterService ev action g = Ok v -> validateCluster v = true) ->
  clusterQueueEntries toString clusterService h a m s = (s', None) ->
  processing s' ≡ₚ (ovalues m).*1.
Proof.
  intros Hd Hm Hs Hv. assert (P0 : processing s = []) by (unfold processing; by rewrite Hs).
  assert (PE : processing (clusterEach m s) ≡ₚ (ovalues m).*1) by by rewrite processing_each, P0, app_nil_r.
  unfold clusterQueueEntries. destruct (negb _ && negb _) eqn:N; [by intros [= <-]|].
  pose proof (clusterByAction_spec h a m Hd Hm) as B. destruct (clusterByAction _ _ _ _) as [generic specific].
  destruct B as (B1 & B2 & B3 & B4).
  assert (T : (ovalues (grouped generic)).*1 ++ (ovalues (grouped specific)).*1 ≡ₚ (ovalues m).*1).
  { unfold ovalues. rewrite <- !fmap_app. by do 2 apply fmap_Permutation. }
  assert (K : forall cs : obj clusterT, Forall (fun k => owner k ∈ okeys generic) (okeys cs) ->
    Forall (fun k => owner k ∉ okeys specific) (okeys cs)).
  { intros cs Hc. eapply Forall_impl; [exact Hc|]. simpl. auto. }
  destruct (genericClusterRelevantAndAvailable a) eqn:A; simpl.
  - destruct (clusterActions _ _ generic []) as [[cs|]|] eqn:G; [| |discriminate].
    2: by intros [= <-].
    apply (clusterActions_complete F) in G as [G1 G2]; [|done|constructor].
    destruct (clusterActions _ _ specific cs) as [[cs'|]|] eqn:S; [| |discriminate].
    2: by intros [= <-].
    apply (clusterActions_complete F) in S as [S1 _]; [|done|].
    + intros [= <-]. rewrite processing_clusters, P0, app_nil_r, S1, G1, !grouped_values. simpl. apply T.
    + apply K. eapply Forall_impl; [exact G2|]. simpl. intros k [Hk|Hk]; [done | by apply elem_of_nil in Hk].
  - destruct (clusterActions _ _ specific []) as [[cs'|]|] eqn:S; [| |discriminate].
    + apply (clusterActions_complete F) in S as [S1 _]; [|done|constructor].
      intros [= <-]. rewrite processing_clusters, processing_groups, P0, app_nil_r, S1, !grouped_values. simpl.
      rewrite Permutation_app_comm. apply T.
    + exfalso. clear -S Hv. specialize (Hv eq_refl). revert S. generalize (@nil (string * clusterT)).
      induction specific as [|[act g] specific IH]; intros cs; simpl; [done|].
      destruct (clusterService _ _ _) as [v|] eqn:C; [|done]. rewrite (Hv _ _ _ _ C). apply IH.
Qed.
End complete.

(** ** The helpers group by the value of the property *)

Section helpers.
Context (toString : jsval -> string) (stringify : jsval -> string) (parse : string -> option jsval)
  (toISOString : Z -> string).
Context (b : clusterBy) (propertyName actionName : string).

Abbreviation step := (clusterStep toString stringify parse toISOString b propertyName actionName).
Abbreviation reduce := (clusterReduce toString stringify parse toISOString b propertyName actionName).

(** The value of the property of an event, as the text it is grouped by. *)
Definition property_is (ref : string) (ep : event * jsval) : Prop :=
  exists start v, startRef toISOString b ep.1 ep.2 = Ok start /\
    resolvePath (split "." propertyName) start = Ok v /\ join_string toString v = ref.

Definition cluster_key (ref : string) : string := join hash2 [actionName; ref].

Lemma step_spec cs ep cs' :
  step cs ep = Ok cs' ->
  exists ref p, property_is ref ep /\
    cs' = oset (cluster_key ref) (from_option fst [] (oget (cluster_key ref) cs) ++ [ep.1], p) cs.
Proof.
  unfold clusterStep. intros (start & Hs & H)%rbind_ok. apply rbind_ok in H as ([cs0 key] & H & E).
  unfold resolveRefBase in H. apply rbind_ok in H as (data & _ & H). apply rbind_ok in H as (v & Hv & H).
  injection H as Hcs Hkey. subst key. injection E as <-.
  exists (join_string toString v). unfold cluster_key. set (key := join hash2 _) in *. subst cs0.
  change (actionName +:+ hash2 +:+ join_string toString v) with key in *.
  destruct (oget key cs) as [[es p]|] eqn:G.
  - exists p. split; [by exists start, v|]. by rewrite G.
  - eexists. split; [by exists start, v|]. rewrite oget_oset_eq. by rewrite oset_oset.
Qed.

(** The clusters of a list of events: distinct keys, the events of the list, each in the
    cluster of its property. *)
Definition grouped_by_property (l : list (event * jsval)) (cs : obj clusterT) : Prop :=
  NoDup (okeys cs) /\ clustered cs ≡ₚ l.*1 /\
  forall k es p, oget k cs = Some (es, p) ->
    exists ref, k = cluster_key ref /\
      Forall (fun e => exists payload, (e, payload) ∈ l /\ property_is ref (e, payload)) es.

Lemma reduce_spec l2 l1 cs cs' :
  grouped_by_property l1 cs -> reduce l2 cs = Ok cs' -> grouped_by_property (l1 ++ l2) cs'.
Proof.
  revert l1 cs. induction l2 as [|ep l2 IH]; intros l1 cs (G1 & G2 & G3); simpl.
  - intros [= <-]. by rewrite app_nil_r.
  - destruct (step cs ep) as [cs1|] eqn:S; [|discriminate]. intros H.
    replace (l1 ++ ep :: l2) with ((l1 ++ [ep]) ++ l2) by by rewrite <- app_assoc.
    eapply IH; [|exact H]. apply step_spec in S as (ref & p & Hp & ->). split_and!.
    + by apply NoDup_okeys_oset.
    + unfold clustered. rewrite (concat_oset fst _ _ _ [ep.1]).
      * fold (clustered cs). rewrite G2, fmap_app. by rewrite Permutation_app_comm.
      * simpl. rewrite Permutation_app_comm. by destruct (oget _ cs).
    + intros k es q. rewrite oget_oset. case_decide as Hk.
      * intros [= <- <-]. exists ref. split; [done|]. apply Forall_app. split.
        -- destruct (oget (cluster_key ref) cs) as [[es0 p0]|] eqn:G; simpl; [|constructor].
           destruct (G3 _ _ _ G) as (ref' & E & Hf).
           assert (ref' = ref) as -> by (unfold cluster_key in E; simpl in E; do 2 apply append_inj_str in E; done).
           eapply Forall_impl; [exact Hf|]. simpl. intros e (pl & Hin & Hpr). exists pl. split; [|done].
           apply elem_of_app. by left.
        -- constructor; [|constructor]. exists ep.2. rewrite <- surjective_pairing. split; [|done].
           apply elem_of_app. right. left.
      * intros G. destruct (G3 _ _ _ G) as (ref' & E & Hf). exists ref'. split; [done|].
        eapply Forall_impl; [exact Hf|]. simpl. intros e (pl & Hin & Hpr). exists pl. split; [|done].
        apply elem_of_app. by left.
Qed.

(** The callback only changes the payload of the clusters. *)
Lemma applyCallback_spec cb cs cs' :
  applyCallback propertyName cb cs = Ok cs' ->
  okeys cs' = okeys cs /\ fst <$> ovalues cs' = fst <$> ovalues cs /\
  forall k, fst <$> oget k cs' = fst <$> oget k cs.
Proof.
  revert cs'. induction cs as [|[key [es p]] cs IH]; intros cs'; simpl; [by intros [= <-]|].
  destruct (rbind _ _) as [v|]; [|discriminate]. destruct (truthy v); simpl; [|discriminate].
  destruct (applyCallback propertyName cb cs) as [rest|]; [|discriminate]. intros [= <-].
  destruct (IH rest eq_refl) as (I1 & I2 & I3). unfold okeys, ovalues in *. csimpl. rewrite I1, I2.
  split_and!; [done | done |]. intros k. simpl. by case_decide.
Qed.

(** The helpers group by the value of the property: every event is in exactly one
    cluster, and all events of a cluster have the property value its key names. *)
Theorem helper_groups_by_property m cb cs :
  clusterBase toString stringify parse toISOString b actionName m propertyName cb = Ok cs ->
  grouped_by_property (ovalues m) cs.
Proof.
  unfold clusterBase. destruct (reduce (ovalues m) []) as [cs0|] eqn:R; [|discriminate].
  apply (reduce_spec _ []) in R; [|split_and!; [apply NoDup_nil_2 | done | discriminate]].
  destruct cb as [cb|]; [|by intros [= <-]].
  destruct (applyCallback propertyName cb cs0) as [cs1|] eqn:A; [|discriminate]. intros [= <-].
  apply applyCallback_spec in A as (A1 & A2 & A3). destruct R as (R1 & R2 & R3). split_and!.
  - by rewrite A1.
  - unfold clustered. by rewrite A2.
  - intros k es p G. specialize (A3 k). rewrite G in A3. destruct (oget k cs0) as [[es0 p0]|] eqn:G0; [|discriminate].
    injection A3 as ->. by apply (R3 k es0 p0).
Qed.

(** The key a callback receives is the property value the cluster was built for: the
    value survives joining it with the action and splitting the key again. *)
Theorem cluster_key_roundtrip ref :
  hash_free actionName = true -> hash_free ref = true -> callbackKey (cluster_key ref) = ref.
Proof.
  intros Ha Hr. unfold callbackKey, cluster_key. rewrite split_join; [done | done |].
  by repeat constructor.
Qed.

Lemma cluster_key_owner ref : hash_free actionName = true -> head (split hash2 (cluster_key ref)) = Some actionName.
Proof.
  intros Ha. unfold cluster_key, split. simpl. rewrite split_go_part by done. done.
Qed.
End helpers.

(** ** Cluster handlers that use the helpers *)

Definition as_value (cs : obj clusterT) : clusterValue :=
  Clusters (map (fun kv => (kv.1, Entry (Some kv.2.1) kv.2.2)) cs).

Lemma clusters_of_as_value cs : clusters_of (as_value cs) = cs.
Proof.
  unfold clusters_of, as_value. rewrite map_map. induction cs as [|[k [es p]] cs IH]; [done|].
  cbn [map fst snd]. f_equal. exact IH.
Qed.

Section helper_service.
Context (toString : jsval -> string) (stringify : jsval -> string) (parse : string -> option jsval)
  (toISOString : Z -> string) (b : clusterBy) (propertyName : string).

(** The documented handler: [(req) => req.eventQueue.clusterByDataProperty("to")]; actions
    do not contain the separator. *)
Definition helperService (ev action : string) (m : payloadMap) : throws clusterValue :=
  if hash_free action then
    match clusterBase toString stringify parse toISOString b action m propertyName None with
    | Ok cs => Ok (as_value cs)
    | Err e => Err e
    end
  else throwQ (invalidClusterHandlerResult (JStr action) (JStr propertyName)).

Definition key_action (key : string) : string := default EmptyString (head (split hash2 key)).

Lemma reduce_grouped action m cs :
  clusterReduce toString stringify parse toISOString b propertyName action (ovalues m) [] = Ok cs ->
  grouped_by_property toString toISOString b propertyName action (ovalues m) cs.
Proof.
  intros R. apply (reduce_spec _ _ _ _ _ _ _ _ []) in R; [done|].
  split_and!; [apply NoDup_nil_2 | done | discriminate].
Qed.

Lemma helperService_faithful : faithful_handler helperService key_action.
Proof.
  intros ev action m v. unfold helperService, clusterBase. destruct (hash_free action) eqn:H; [|discriminate].
  destruct (clusterReduce _ _ _ _ _ _ _ _ _) as [cs|] eqn:R; [|discriminate]. intros [= <-] _.
  apply reduce_grouped in R as (R1 & R2 & R3). rewrite clusters_of_as_value. split_and!; [done | done |].
  apply Forall_forall. intros k Hk. apply oget_okeys in Hk as [[es p] G].
  destruct (R3 _ _ _ G) as (ref & -> & _). unfold key_action. by rewrite cluster_key_owner.
Qed.
End helper_service.

(** ** Witnesses *)

Definition demoOut (id event_ to : string) : event * jsval :=
  let payload := JObj [("event", JStr event_); ("data", JObj [("to", JStr to)])] in
  (mkEvent id "CAP_OUTBOX" "srv" None None 0 payload 0 None 0 None JUndef JUndef "default", payload).

Definition demoOutMap : payloadMap :=
  [("1", demoOut "1" "mail" "a"); ("2", demoOut "2" "mail" "b"); ("3", demoOut "3" "mail" "a"); ("4", demoOut "4" "sms" "a")].

Definition demoOn : onHandlers := scanHandlers ["mail"; "sms"; "eventQueueCluster"; "eventQueueCluster.sms"].

(** [JSON.parse] and [JSON.stringify] on the data of the examples. *)
Definition demoPrint (v : jsval) : string := js_string (fun _ => EmptyString) (optp v "to").
Definition demoRead (s : string) : option jsval := Some (JObj [("to", JStr s)]).

Definition demoService : string -> string -> payloadMap -> throws clusterValue :=
  helperService demoToString demoPrint demoRead demoISO ByData "to".

Definition demoClustered : pstate :=
  (clusterQueueEntries demoToString demoService demoOn (mkAvailability true true) demoOutMap
     (newInstance [] newScheduler)).1.

(** The two mails to the same recipient share a cluster. *)
Lemma clusters_partition_events_witness :
  map (fun kv => (kv.1, map ev_ID kv.2.1)) (eventProcessingMap demoClustered) =
    [("mail##a", ["1"; "3"]); ("mail##b", ["2"]); ("sms##a", ["4"])] /\
  processing demoClustered ≡ₚ (ovalues demoOutMap).*1.
Proof.
  split; [vm_compute; reflexivity|].
  apply (clusters_partition_events demoToString demoService key_action
    (helperService_faithful demoToString demoPrint demoRead demoISO ByData "to") demoOn (mkAvailability true true)
    demoOutMap (newInstance [] newScheduler) demoClustered).
  - apply (bool_decide_unpack _). vm_compute. reflexivity.
  - repeat constructor; eexists; split; reflexivity.
  - reflexivity.
  - discriminate.
  - vm_compute. reflexivity.
Defined.

Definition demoReminder (key : string) (data : list jsval) : result jsval jsval :=
  Ok (JObj [("recipient", JStr key); ("mails", JArr data)]).

Lemma helper_groups_by_property_witness :
  exists cs, clusterBase demoToString demoPrint demoRead demoISO ByData "mail" (take 3 demoOutMap) "to" (Some demoReminder) = Ok cs /\
    map (fun kv => (kv.1, map ev_ID kv.2.1)) cs = [("mail##a", ["1"; "3"]); ("mail##b", ["2"])] /\
    grouped_by_property demoToString demoISO ByData "to" "mail" (ovalues (take 3 demoOutMap)) cs.
Proof.
  eexists. split_and!; [vm_compute; reflexivity | reflexivity |].
  apply (helper_groups_by_property demoToString demoPrint demoRead demoISO ByData "to" "mail" _ (Some demoReminder)).
  vm_compute. reflexivity.
Defined.

Lemma cluster_key_roundtrip_witness :
  cluster_key "mail" "a@b.c" = "mail##a@b.c" /\ callbackKey (cluster_key "mail" "a@b.c") = "a@b.c".
Proof. split; [reflexivity|]. apply (cluster_key_roundtrip "mail" "a@b.c"); reflexivity. Defined.

(** Without a generic handler the events of other actions are added at once; when a
    specific handler then returns something invalid, all events are added again and the
    former are in their cluster twice. *)
Lemma invalid_cluster_duplicates :
  let service (_ _ : string) (_ : payloadMap) : throws clusterValue := Ok NoClusters in
  let on := scanHandlers ["mail"; "sms"; "eventQueueCluster.sms"] in
  map (fun kv => (kv.1, map ev_ID kv.2.1))
    (eventProcessingMap (clusterQueueEntries demoToString service on (mkAvailability false true) (drop 2 demoOutMap)
       (newInstance [] newScheduler)).1) = [("3", ["3"; "3"]); ("4", ["4"])].
Proof. vm_compute. reflexivity. Qed.

(** A handler that uses the same key for two actions loses the events of the first. *)
Lemma common_key_loses_events :
  let service (_ _ : string) (m : payloadMap) : throws clusterValue :=
    Ok (Clusters [("all", Entry (Some (ovalues m).*1) (JObj []))]) in
  let on := scanHandlers ["mail"; "sms"; "eventQueueCluster"] in
  map (fun kv => (kv.1, map ev_ID kv.2.1))
    (eventProcessingMap (clusterQueueEntries demoToString service on (mkAvailability true false) (drop 2 demoOutMap)
       (newInstance [] newScheduler)).1) = [("all", ["4"])].
Proof. vm_compute. reflexivity. Qed.
